(* ===== verification/_CoqProject ===== *)
-Q . S2P
Prelude.v
OrderedMap.v
Page.v
BufferPool.v
Pager.v
BTree.v
BTreeInv.v
BTreeProofs.v
Wal.v
Record.v
Store.v
StoreInv.v
StoreProofs.v
StoreSpec.v
StoreRecovery.v
Value.v
Text.v
RowCodec.v
Table.v
StoreContract.v
StoreReopen.v
TableInv.v
TableProofs.v
TableSpec.v
TableOpen.v
TableChange.v
Catalog.v
Backup.v
SqlLex.v
SqlParse.v
SqlParseTotal.v
SqlPrint.v
SqlPrintProofs.v
SqlRoundTrip.v
SqlEval.v
FloatOrder.v
SqlEvalProofs.v
SqlQuery.v
SqlRequest.v
SqlExec.v
SqlTx.v
SqlRollback.v
SqlCommit.v
SqlSpec.v
SqlBatch.v
SqlDiscard.v
SqlSchema.v
SqlScripts.v
SqlAccess.v
SqlExample.v
SqlRuns.v
Server.v
ServerProofs.v
ServerSpec.v
Cli.v
Startup.v
Restart.v
Lives.v
EndToEnd.v
Basic.v
ServerRuns.v
