(* ===== verification/Prelude.v ===== *)
(** * go-db: the verification library

    go-db is an embedded relational database in Go. From the bottom up: fixed-size
    pages ([src/storage/page.go]) are cached by an LRU buffer pool
    ([buffer_pool.go]) over a file accessed by a pager ([pager.go]); a key/value
    store ([src/kv/store.go]) appends records to a chain of pages, keeps a B+Tree
    index in memory ([btree.go]) with a sidecar file, logs every write ahead
    ([wal.go]) and keeps all versions of a key for snapshots; tables
    ([table.go]) encode typed rows into the store's values and maintain
    constraints and secondary indexes; the SQL layer ([src/sql/sql.go]), the server
    and the command line sit on top.

    ** Files

    - [Prelude]: outcomes (a call returns, fails with an error, panics or runs out
      of fuel), the state monad [M] for methods with a pointer receiver, machine
      integers, little-endian fields, byte strings and their order, shared lemmas,
      the hint database [godb].
    - [OrderedMap]: sorted association lists, the specification of the index.
    - [Page], [BufferPool], [Pager]: [src/storage]. The disk is a byte sequence
      with an injectable write fault and the state of its handle: after [Close]
      every access fails. A page is passed by value where the source
      passes a pointer: every page the store changes is handed back with
      [WritePage], and it is still cached then (the pool holds 64 pages, at most
      two are in use).
    - [BTree], [BTreeInv], [BTreeProofs]: [src/kv/btree.go] on a heap of nodes
      with addresses for pointers, its shape and ordering invariant, and its
      refinement of [OrderedMap].
    - [Wal]: [src/kv/wal.go] with CRC-32 computed, not assumed.
    - [Record], [Store]: the record layout and all of [src/kv/store.go];
      [StoreInv], [StoreProofs] its invariant (page chain, index, history of
      versions), [StoreSpec] the refinement of a specification that keeps every
      past state, [StoreRecovery] closing, reopening and crashing, [StoreReopen] the
      life of a store over any number of sessions.
    - [Value], [RowCodec], [Table]: [src/kv/table.go]: dynamic values, the row
      format, tables. [StoreContract] is the interface between store and tables,
      two type classes that the store instantiates and against which the table
      theorems are proved; [TableInv], [TableProofs], [TableSpec], [TableOpen],
      [TableChange] the invariant, the methods, the specification (a map from keys
      to rows) and what holds of whole tables.

    - [Catalog], [Backup]: [src/kv/catalog.go] and [src/kv/backup.go], with a file
      system whose staging, writing and renaming can fail.
    - [Text]: what the SQL layer uses of [strings], [strconv], [unicode] and [time];
      case folding, float and time parsing are the parameter [GoText] with their
      laws on ASCII text.
    - [SqlLex], [SqlParse], [SqlEval], [SqlExec]: [src/sql/sql.go]: lexer, parser,
      the pure part of evaluation, and the executor with its transactions, batches
      and prepared statements. The executor's state has a heap of tables and one of
      pending rows, since both are shared objects; the order of a Go map is the
      parameter [MapOrder].
    - [SqlParseTotal], [SqlPrint], [SqlPrintProofs], [SqlRoundTrip]: the parser;
      [FloatOrder], [SqlEvalProofs], [SqlQuery], [SqlRequest]: evaluation.
    - [SqlTx], [SqlRollback], [SqlCommit]: transactions; [SqlSpec]: the executor
      against a database of relations; [SqlBatch]: requests of several statements;
      [SqlDiscard]: a transaction from [BEGIN] to [ROLLBACK];
      [SqlSchema]: the same with schema changes and the catalog; [SqlScripts]: requests
      as text, one after the other; [SqlAccess]: index scans and generated keys;
      [SqlExample], [SqlRuns]: concrete databases and scripts.
    - [Server], [ServerProofs]: [src/server/server.go]: events of interleaved
      connections, the mutex, authentication, panics, and the empty line that is sent
      when a result has no JSON; [ServerSpec]: the server as one
      database behind all connections.
    - [Cli], [Startup]: [src/cmd/go-db/main.go]: result printing, the seed file and the
      backup commands; flags, the start and the end of the server process on the files
      of a disk, its accept loop, the interactive client. [Restart] relates a running
      server to the disk that it leaves, [Lives] composes its lives, [EndToEnd] the
      client with the server; [Basic]: [src/examples/basic/main.go]; [ServerRuns]:
      concrete runs.

    ** What the theorems show

    - Refinements: the pager is an array of pages, the B+Tree a sorted map, the
      store a history of states, a table a map of rows, the executor outside a
      transaction a database of relations, schema changes and requests as text
      included, the server the same database for all connections. Each is about
      arbitrary sequences of the calls named in its comment and includes the error
      answers. From the table upwards they assume that a stored row reads back as it
      was written and lies under its own key, which the code does not ensure for
      every value (an int given for a [FLOAT] column, an empty [BYTES] value, a time
      outside 64-bit nanoseconds); each comment states its conditions.
    - Composition: a server that is started, seeded, used and stopped any number of
      times on one disk answers its clients as a specification that knows relations
      only; what the interactive client prints is the answer of that specification.
    - Durability: what a flush writes, what closing and reopening gives back, however
      often, what replaying a log after a crash recovers and which damage it detects; what
      a backup restores and a failed one leaves alone.
    - Snapshots and transactions: reads at a snapshot do not change; a session in a
      transaction changes no table and reads its own writes; [COMMIT] applies
      exactly them or reports a conflict; [ROLLBACK] discards them when no other
      session has written since [BEGIN], and in general sets every table back to the
      rows of [BEGIN]; a batch that reads and writes rows is all or nothing.
    - Round trips: records on pages, logged commands, rows, the catalog, SQL text,
      split requests, lines of a connection.
    - Queries: hash join against nested loop with the SQL equality, stable ordering and paging, grouping,
      exact sums, index scan against full scan, generated keys.
    - Constraints: unique columns stay unique; decoded rows are well typed; [Find]
      returns exactly the rows with a value; a schema change converts every row.
    - The server: nothing happens without the password, connections do not see each
      other's transactions, every request is answered by exactly one line.
    - Where the code does not do this (a logged delete is lost in a crash, rows
      committed in a batch do not reach the secondary index, [ROLLBACK] destroys the
      work of others and fails on a dropped table, a result without JSON is never
      answered, a panic keeps the mutex, and others), a theorem exhibits the run.

    ** Bounds and fuel

    Loops of the source that are not structural take fuel: the page chain the
    number of pages, tree descents the number of nodes, the log its length, the
    parser the number of tokens. The theorems prove that the fuel suffices; none is
    conditional on it. Sequences are bounded so that page and version numbers stay
    below [2 ^ 32 - 1] and records fit a page, as the formats require; the
    executor's theorems carry the room that each table has left.

    ** Not modelled

    Locks inside the storage and table layers (each exported method is one atomic
    step; the server's mutex is modelled), file descriptors beyond open or closed,
    [encoding/gob] and [encoding/json] (codec parameters with their round trips; which
    responses [json.Marshal] refuses is modelled), SHA-256 (a parameter),
    [fmt]'s printing of floats and times (a parameter), sockets and signals other than
    as events, the bytes of the terminal. Tables own their stores: a catalog in which
    several entries name the database file itself, whose tables would share one
    store, is outside the model; the program never writes one. The refinements of the
    executor and the server are about requests outside a transaction; what holds
    inside one is stated on its own. Planned next: a specification of sessions with
    transactions, where the rows of a snapshot and the pending writes of each
    connection are part of the abstract state, and crashes of the whole process
    between requests. *)
From stdpp Require Export base tactics numbers option list gmap sets strings.
From Stdlib Require Export ZArith Lia Sorted.
From Stdlib Require Import Strings.Byte.
#[export] Set Default Proof Using "Type".
#[global] Open Scope Z_scope.

(** ** Outcomes, errors and the state monad *)

(** [fmt.Errorf] values: the format string of the source and its arguments. *)
Inductive error : Type :=
| Errorf (fmt : string) (args : list earg)
| EOF
with earg : Type :=
| AInt (z : Z)
| AStr (s : list byte)
| AErr (e : error).

(** [os.ErrClosed]: a call on a file handle that has been closed. *)
Definition ErrFileClosed : error := Errorf "file already closed" [].

(** What a Go call can do: return, return an error, panic, or (for a loop of
    the source modelled with fuel) not finish within the fuel. *)
Inductive outcome (A : Type) : Type :=
| Ok (a : A)
| Err (e : error)
| Panic
| NoFuel.
Arguments Ok {A} _.
Arguments Err {A} _.
Arguments Panic {A}.
Arguments NoFuel {A}.

(** A method with a pointer receiver: the receiver's state is threaded, and it
    is kept when the method fails. *)
Definition M (S A : Type) : Type := S -> outcome A * S.

#[global] Instance M_ret S : MRet (M S) := fun A a s => (Ok a, s).
#[global] Instance M_bind S : MBind (M S) := fun A B f m s =>
  match m s with
  | (Ok a, s') => f a s'
  | (Err e, s') => (Err e, s')
  | (Panic, s') => (Panic, s')
  | (NoFuel, s') => (NoFuel, s')
  end.

#[global] Instance M_fmap S : FMap (M S) := fun A B f m => m ≫= fun a => mret (f a).

Definition get_state {S} : M S S := fun s => (Ok s, s).
Definition gets {S A} (f : S -> A) : M S A := fun s => (Ok (f s), s).
Definition modify {S} (f : S -> S) : M S unit := fun s => (Ok tt, f s).
Definition fail {S A} (e : error) : M S A := fun s => (Err e, s).
Definition lift {S A} (o : outcome A) : M S A := fun s => (o, s).

(** [if err != nil] with a handler that goes on. *)
Definition catch {S A} (m : M S A) (h : error -> M S A) : M S A := fun s =>
  match m s with
  | (Err e, s') => h e s'
  | r => r
  end.

(** Run a method of a field of the receiver. *)
Definition zoom {S T A} (view : S -> T) (set : T -> S -> S) (m : M T A) : M S A :=
  fun s => let '(o, t) := m (view s) in (o, set t s).

#[global] Instance outcome_ret : MRet outcome := @Ok.
#[global] Instance outcome_bind : MBind outcome := fun A B f o =>
  match o with Ok a => f a | Err e => Err e | Panic => Panic | NoFuel => NoFuel end.

(** A call that succeeded passes its result and state on. *)
Lemma bind_ok {S A B} (m : M S A) (f : A -> M S B) s a s' :
  m s = (Ok a, s') -> (m ≫= f) s = f a s'.
Proof. intros E. cbv [mbind M_bind]. by rewrite E. Qed.

Lemma bind_get {S B} (f : S -> M S B) s : (get_state ≫= f) s = f s s.
Proof. done. Qed.
Lemma bind_ret {S A B} (a : A) (f : A -> M S B) s : (mret a ≫= f) s = f a s.
Proof. done. Qed.

Lemma bind_assoc {S A B C} (m : M S A) (f : A -> M S B) (g : B -> M S C) s :
  ((m ≫= f) ≫= g) s = (m ≫= fun a => f a ≫= g) s.
Proof. cbv [mbind M_bind]. by destruct (m s) as [[] ?]. Qed.
Lemma bind_ext {S A B} (m : M S A) (f g : A -> M S B) s :
  (forall a s, f a s = g a s) -> (m ≫= f) s = (m ≫= g) s.
Proof. intros E. cbv [mbind M_bind]. destruct (m s) as [[] ?]; auto. Qed.

Lemma bind_err {S A B} (m : M S A) (f : A -> M S B) s e s' :
  m s = (Err e, s') -> (m ≫= f) s = (Err e, s').
Proof. intros E. cbv [mbind M_bind]. by rewrite E. Qed.

Definition is_ok {A} (o : outcome A) : bool := match o with Ok _ => true | _ => false end.

Definition of_option {A} (o : option A) : outcome A :=
  match o with Some a => Ok a | None => Panic end.

(** ** Machine integers *)

Definition u8 (z : Z) : Z := z mod 2 ^ 8.
Definition u16 (z : Z) : Z := z mod 2 ^ 16.
Definition u32 (z : Z) : Z := z mod 2 ^ 32.
Definition u64 (z : Z) : Z := z mod 2 ^ 64.
(** The two's complement reading of a 64-bit pattern, Go's [int64]. *)
Definition i64 (z : Z) : Z := (z + 2 ^ 63) mod 2 ^ 64 - 2 ^ 63.

(** ** Bytes *)

Abbreviation byte := Byte.byte.
Abbreviation bytes := (list Byte.byte).

Definition Z_of_byte (b : byte) : Z := Z.of_N (Byte.to_N b).
Definition byte_of_Z (z : Z) : byte :=
  match Byte.of_N (Z.to_N (u8 z)) with Some b => b | None => Byte.x00 end.

#[global] Instance byte_eq_dec : EqDecision byte := Byte.byte_eq_dec.
Lemma byte_of_to_N b : default Byte.x00 (Byte.of_N (Byte.to_N b)) = b.
Proof. rewrite Byte.of_to_N. done. Qed.
#[global] Instance byte_countable : Countable byte :=
  inj_countable' Byte.to_N (fun n => default Byte.x00 (Byte.of_N n)) byte_of_to_N.

Lemma Z_of_byte_range b : 0 <= Z_of_byte b < 256.
Proof. unfold Z_of_byte. pose proof (Byte.to_N_bounded b). lia. Qed.

Lemma Z_of_byte_of_Z z : Z_of_byte (byte_of_Z z) = z mod 256.
Proof.
  unfold Z_of_byte, byte_of_Z, u8. change (2 ^ 8) with 256.
  pose proof (Z.mod_pos_bound z 256 ltac:(lia)) as Hb.
  destruct (Byte.of_N (Z.to_N (z mod 256))) eqn:E.
  - apply Byte.to_of_N in E. rewrite E. lia.
  - apply Byte.of_N_None_iff in E. lia.
Qed.

Lemma byte_of_Z_of_byte b : byte_of_Z (Z_of_byte b) = b.
Proof.
  unfold Z_of_byte, byte_of_Z, u8. change (2 ^ 8) with 256.
  pose proof (Byte.to_N_bounded b).
  rewrite Z.mod_small by lia. rewrite N2Z.id. by rewrite Byte.of_to_N.
Qed.

#[global] Instance Z_of_byte_inj : Inj (=) (=) Z_of_byte.
Proof. intros a b E. by rewrite <- (byte_of_Z_of_byte a), E, byte_of_Z_of_byte. Qed.

(** Go's [len] as a mathematical integer. *)
Definition len {A} (l : list A) : Z := Z.of_nat (length l).
Lemma len_app {A} (a b : list A) : len (a ++ b) = len a + len b.
Proof. unfold len. rewrite length_app. lia. Qed.
Lemma len_nonneg {A} (l : list A) : 0 <= len l.
Proof. unfold len. lia. Qed.

(** ** Little-endian integers ([encoding/binary]) *)

Fixpoint put_le (n : nat) (z : Z) : bytes :=
  match n with
  | O => []
  | S n => byte_of_Z z :: put_le n (z / 256)
  end.

Fixpoint get_le (bs : bytes) : Z :=
  match bs with
  | [] => 0
  | b :: bs => Z_of_byte b + 256 * get_le bs
  end.

Lemma length_put_le n z : length (put_le n z) = n.
Proof. revert z; induction n; intros; simpl; [done|]. by rewrite IHn. Qed.

Lemma get_le_range bs : 0 <= get_le bs < 256 ^ len bs.
Proof.
  unfold len. induction bs as [|b bs IH]; [simpl; lia|].
  cbn [get_le length]. rewrite Nat2Z.inj_succ, Z.pow_succ_r by lia.
  pose proof (Z_of_byte_range b). lia.
Qed.

Lemma get_put_le n z : get_le (put_le n z) = z mod 256 ^ Z.of_nat n.
Proof.
  revert z; induction n as [|n IH]; intros z; [symmetry; apply Z.mod_1_r|].
  cbn [put_le get_le]. rewrite IH, Z_of_byte_of_Z.
  rewrite Nat2Z.inj_succ, Z.pow_succ_r by lia.
  rewrite Z.rem_mul_r by lia. done.
Qed.

Lemma get_put_le_small n z : 0 <= z < 256 ^ Z.of_nat n -> get_le (put_le n z) = z.
Proof. intros. rewrite get_put_le. by apply Z.mod_small. Qed.

Lemma put_get_le bs : put_le (length bs) (get_le bs) = bs.
Proof.
  induction bs as [|b bs IH]; [done|]. cbn [length put_le get_le].
  pose proof (Z_of_byte_range b) as Hb. f_equal.
  - rewrite <- (byte_of_Z_of_byte b) at 2.
    apply (inj Z_of_byte). rewrite !Z_of_byte_of_Z.
    rewrite (Z.mul_comm 256), Z_mod_plus_full. done.
  - rewrite (Z.mul_comm 256), Z_div_plus_full by lia.
    by rewrite Z.div_small, Z.add_0_l by lia.
Qed.

Arguments put_le : simpl never.
Arguments get_le : simpl never.
Arguments Z_of_byte : simpl never.
Arguments byte_of_Z : simpl never.

Lemma u16_put z : get_le (put_le 2 z) = u16 z.
Proof. apply get_put_le. Qed.
Lemma u32_put z : get_le (put_le 4 z) = u32 z.
Proof. apply get_put_le. Qed.
Lemma u64_put z : get_le (put_le 8 z) = u64 z.
Proof. apply get_put_le. Qed.

(** Side conditions on lengths of composed lists. *)
Ltac simpl_length :=
  repeat first
    [ rewrite length_app | rewrite length_take | rewrite length_drop
    | rewrite length_put_le | rewrite length_insert | rewrite length_fmap
    | rewrite length_replicate | rewrite length_zip ];
  cbn [length].
Ltac solve_length := unfold len in *; simpl_length; lia.

(** ** Slices *)

(** [l[lo:hi]] of a slice whose bounds were checked. *)
Definition slice {A} (lo hi : nat) (l : list A) : list A := take (hi - lo) (drop lo l).

(** [copy(l[off:], new)]: overwrite in place, never past the end of [l]. *)
Definition splice {A} (off : nat) (new l : list A) : list A :=
  take off l ++ take (length l - off) new ++ drop (off + length new) l.

Lemma splice_in {A} off (new l : list A) :
  (off + length new <= length l)%nat ->
  splice off new l = take off l ++ new ++ drop (off + length new) l.
Proof. intros. unfold splice. by rewrite (take_ge new) by lia. Qed.

Lemma length_splice {A} off (new l : list A) : length (splice off new l) = length l.
Proof.
  unfold splice. rewrite !length_app, !length_take, length_drop. lia.
Qed.

Lemma length_slice {A} lo hi (l : list A) :
  (hi <= length l)%nat -> length (slice lo hi l) = (hi - lo)%nat.
Proof. intros. unfold slice. rewrite length_take, length_drop. lia. Qed.

Lemma slice_splice_same {A} off (new l : list A) :
  (off + length new <= length l)%nat ->
  slice off (off + length new) (splice off new l) = new.
Proof.
  intros. rewrite splice_in by done. unfold slice.
  rewrite drop_app_length' by solve_length.
  rewrite take_app_length' by lia. done.
Qed.

Lemma slice_splice_before {A} off (new l : list A) lo hi :
  (hi <= off)%nat -> (off + length new <= length l)%nat ->
  slice lo hi (splice off new l) = slice lo hi l.
Proof.
  intros. rewrite splice_in by done. unfold slice.
  rewrite <- (take_drop off l) at 3.
  destruct (decide (lo <= off)%nat).
  - rewrite !drop_app_le by solve_length.
    by rewrite !take_app_le by (rewrite length_drop, length_take; lia).
  - replace (hi - lo)%nat with O by lia. done.
Qed.

Lemma slice_splice_after {A} off (new l : list A) lo hi :
  (off + length new <= lo)%nat -> (off + length new <= length l)%nat ->
  slice lo hi (splice off new l) = slice lo hi l.
Proof.
  intros. rewrite splice_in by done. unfold slice. f_equal.
  rewrite app_assoc, drop_app_ge by (rewrite length_app, length_take; lia).
  rewrite drop_drop. f_equal. rewrite length_app, length_take. lia.
Qed.

Lemma slice_slice {A} lo hi lo' hi' (l : list A) :
  (hi' <= hi - lo)%nat ->
  slice lo' hi' (slice lo hi l) = slice (lo + lo') (lo + hi') l.
Proof.
  intros. unfold slice. rewrite skipn_firstn_comm, drop_drop, take_take.
  f_equal; lia.
Qed.

Lemma slice_app {A} lo mid hi (l : list A) :
  (lo <= mid <= hi)%nat -> slice lo hi l = slice lo mid l ++ slice mid hi l.
Proof.
  intros. unfold slice.
  rewrite <- (take_drop (mid - lo) (take (hi - lo) (drop lo l))).
  rewrite take_take, skipn_firstn_comm, drop_drop.
  do 2 f_equal; [lia|lia|f_equal; lia].
Qed.

Lemma slice_all {A} n (l : list A) : n = length l -> slice 0 n l = l.
Proof. intros ->. unfold slice. rewrite Nat.sub_0_r. by rewrite drop_0, take_ge. Qed.

Lemma slice_lookup {A} lo hi (l : list A) (i : nat) :
  (i < hi - lo)%nat -> slice lo hi l !! i = l !! (lo + i)%nat.
Proof. intros. unfold slice. by rewrite lookup_take_lt, lookup_drop by lia. Qed.

Lemma splice_fresh {A} n off (a b new : list A) :
  length a = off -> length new = n -> (n <= length b)%nat -> splice off new (a ++ b) = a ++ new ++ drop n b.
Proof.
  intros <- <- Hl. rewrite splice_in by (rewrite length_app; lia).
  rewrite take_app_length, drop_app_ge by lia. do 3 f_equal. lia.
Qed.

Lemma slice_mid {A} lo hi (a b c : list A) :
  length a = lo -> (lo + length b)%nat = hi -> slice lo hi (a ++ b ++ c) = b.
Proof.
  intros <- <-. unfold slice. rewrite drop_app_length.
  replace (length a + length b - length a)%nat with (length b) by lia. apply take_app_length.
Qed.

Lemma slice_app_l {A} lo hi (l1 l2 : list A) :
  (hi <= length l1)%nat -> slice lo hi (l1 ++ l2) = slice lo hi l1.
Proof.
  intros. unfold slice. destruct (decide (lo <= hi)%nat).
  - rewrite drop_app_le, take_app_le by (rewrite ?length_drop; lia). done.
  - by replace (hi - lo)%nat with O by lia.
Qed.

(** [s = append(s, zero); copy(s[i+1:], s[i:]); s[i] = x]: make room at [i] and
    store [x] there. *)
Definition shift_insert {A} (i : nat) (x : A) (l : list A) : list A :=
  let grown := l ++ [x] in
  <[i:=x]> (splice (S i) (drop i grown) grown).

Lemma shift_insert_eq {A} i (x : A) l :
  (i <= length l)%nat -> shift_insert i x l = take i l ++ x :: drop i l.
Proof.
  intros Hi. unfold shift_insert, splice.
  rewrite drop_app_le by lia.
  rewrite (drop_ge (l ++ [x])) by solve_length.
  rewrite app_nil_r.
  assert (length (take (S i) (l ++ [x])) = S i) as Hlen.
  { solve_length. }
  apply list_eq; intros j. destruct (lt_eq_lt_dec j i) as [[Hlt| ->]|Hgt].
  - rewrite list_lookup_insert_ne by lia.
    rewrite !lookup_app_l by solve_length.
    rewrite !lookup_take_lt by lia. by rewrite lookup_app_l by lia.
  - rewrite list_lookup_insert_eq by solve_length.
    rewrite lookup_app_r by solve_length.
    rewrite length_take. by replace (i - i `min` length l)%nat with O by lia.
  - rewrite list_lookup_insert_ne by lia.
    rewrite !lookup_app_r by solve_length.
    rewrite Hlen, length_take, lookup_cons_ne_0, length_app by lia.
    rewrite (take_app_le (drop i l)) by solve_length.
    rewrite take_ge by solve_length. f_equal. lia.
Qed.

(** ** The byte order ([bytes.Compare], and [<] on Go strings) *)

Fixpoint bytes_compare (a b : bytes) : comparison :=
  match a, b with
  | [], [] => Eq
  | [], _ :: _ => Lt
  | _ :: _, [] => Gt
  | x :: a, y :: b =>
      match Z_of_byte x ?= Z_of_byte y with
      | Eq => bytes_compare a b
      | c => c
      end
  end.

(** [bytes.Compare(a, b) < 0]; [bytes.Equal] is [decide (a = b)]. *)
Definition bytes_ltb (a b : bytes) : bool :=
  match bytes_compare a b with Lt => true | _ => false end.
Definition bytes_lt (a b : bytes) : Prop := bytes_ltb a b = true.
#[global] Instance bytes_lt_dec : RelDecision bytes_lt.
Proof. intros a b. unfold bytes_lt. apply _. Defined.

Lemma bytes_compare_eq a b : bytes_compare a b = Eq <-> a = b.
Proof.
  revert b; induction a as [|x a IH]; intros [|y b]; simpl; try done.
  destruct (Z.compare_spec (Z_of_byte x) (Z_of_byte y)) as [E|E|E].
  - apply (inj Z_of_byte) in E as ->. rewrite IH. naive_solver.
  - split; [done|]. intros [= -> ->]. lia.
  - split; [done|]. intros [= -> ->]. lia.
Qed.

Lemma bytes_compare_antisym a b : bytes_compare b a = CompOpp (bytes_compare a b).
Proof.
  revert b; induction a as [|x a IH]; intros [|y b]; simpl; try done.
  rewrite Z.compare_antisym. by destruct (_ ?= _); simpl.
Qed.

Lemma bytes_lt_trans a b c : bytes_lt a b -> bytes_lt b c -> bytes_lt a c.
Proof.
  unfold bytes_lt, bytes_ltb.
  revert b c; induction a as [|x a IH]; intros [|y b] [|z c]; simpl; try done.
  specialize (IH b c).
  destruct (Z.compare_spec (Z_of_byte x) (Z_of_byte y)),
    (Z.compare_spec (Z_of_byte y) (Z_of_byte z)),
    (Z.compare_spec (Z_of_byte x) (Z_of_byte z)); try done; try lia.
Qed.

#[global] Instance bytes_lt_strict : StrictOrder bytes_lt.
Proof.
  split; [|exact bytes_lt_trans].
  intros a H. unfold bytes_lt, bytes_ltb in H.
  by rewrite (proj2 (bytes_compare_eq a a) eq_refl) in H.
Qed.

Lemma bytes_lt_irrefl a : ~ bytes_lt a a.
Proof. apply irreflexivity, _. Qed.

Variant bytes_compare_view (a b : bytes) : comparison -> Prop :=
| BytesEq : a = b -> bytes_compare_view a b Eq
| BytesLt : bytes_lt a b -> bytes_compare_view a b Lt
| BytesGt : bytes_lt b a -> bytes_compare_view a b Gt.

Lemma bytes_compareP a b : bytes_compare_view a b (bytes_compare a b).
Proof.
  destruct (bytes_compare a b) eqn:E; constructor.
  - by apply bytes_compare_eq.
  - unfold bytes_lt, bytes_ltb. by rewrite E.
  - unfold bytes_lt, bytes_ltb. by rewrite bytes_compare_antisym, E.
Qed.

Lemma bytes_nlt_le a b : ~ bytes_lt a b <-> a = b \/ bytes_lt b a.
Proof.
  split.
  - intros H. destruct (bytes_compareP a b); auto. done.
  - intros [->|H] H'; [by apply bytes_lt_irrefl in H'|].
    eapply bytes_lt_irrefl, bytes_lt_trans; eauto.
Qed.

Lemma bytes_ltb_spec a b : reflect (bytes_lt a b) (bytes_ltb a b).
Proof. unfold bytes_lt. by destruct (bytes_ltb a b); constructor. Qed.

(** ** Strongly sorted lists *)

Lemma StronglySorted_app_iff {A} (R : relation A) l1 l2 :
  StronglySorted R (l1 ++ l2) <->
  StronglySorted R l1 /\ StronglySorted R l2 /\ (forall x y, x ∈ l1 -> y ∈ l2 -> R x y).
Proof.
  induction l1 as [|a l1 IH]; simpl.
  - split; [|tauto]. intros H; split; [constructor|]. split; [done|]. set_solver.
  - split.
    + intros H. apply StronglySorted_inv in H as [H Ha]. apply IH in H as (H1&H2&H3).
      apply Forall_app in Ha as [Ha1 Ha2]. rewrite Forall_forall in Ha2.
      split; [by constructor|]. split; [done|]. set_solver.
    + intros (H1&H2&H3). apply StronglySorted_inv in H1 as [H1 Ha].
      constructor; [apply IH; set_solver|].
      apply Forall_app; split; [done|]. apply Forall_forall. set_solver.
Qed.

Lemma StronglySorted_NoDup {A} (R : relation A) `{!Irreflexive R} l :
  StronglySorted R l -> NoDup l.
Proof.
  induction 1 as [|a l H IH Ha]; constructor; [|done].
  rewrite Forall_forall in Ha. intros Hin. by apply (irreflexivity R a), Ha.
Qed.

(** ** Filters *)

Lemma filter_all {A} (P : A -> Prop) `{!forall x, Decision (P x)} l : Forall P l -> filter P l = l.
Proof. induction 1; [done|]. rewrite filter_cons_True by done. by f_equal. Qed.

(** Lists that are defined at the same places. *)
Lemma length_same_dom {A B} (l : list A) (k : list B) : (forall i, is_Some (l !! i) <-> is_Some (k !! i)) -> length l = length k.
Proof.
  intros H. destruct (Nat.lt_trichotomy (length l) (length k)) as [Hlt|[?|Hlt]]; [|done|].
  - apply lookup_lt_is_Some_2 in Hlt. apply H, lookup_lt_is_Some_1 in Hlt. lia.
  - apply lookup_lt_is_Some_2 in Hlt. apply H, lookup_lt_is_Some_1 in Hlt. lia.
Qed.

(** ** Automation *)

Create HintDb godb discriminated.
Create Rewrite HintDb godb.
#[export] Hint Resolve Z_of_byte_range get_le_range bytes_lt_trans : godb.
#[export] Hint Rewrite @length_splice @length_put_le u16_put u32_put u64_put
  byte_of_Z_of_byte Z_of_byte_of_Z : godb.

(** Case analysis on the outcome of every monadic call a hypothesis runs. *)
Ltac run_step H :=
  cbv [fmap M_fmap mbind mret M_bind M_ret outcome_bind outcome_ret get_state gets modify fail lift catch zoom] in H;
  cbn in H.
