(* ===== verification/OrderedMap.v ===== *)
(** * Ordered key/value lists: what the index of a store promises

    A sorted association list over byte-string keys is the abstract state of
    the index ([kv/btree.go]); its operations are the specification the B+Tree
    refines, and [Index] is the interface through which the store uses it. *)
From S2P Require Import Prelude.

Abbreviation kvs := (list (bytes * bytes)).

Definition sorted_keys (l : kvs) : Prop := StronglySorted bytes_lt (l.*1).

Fixpoint kv_get (k : bytes) (l : kvs) : option bytes :=
  match l with
  | [] => None
  | (k', v) :: l => if decide (k = k') then Some v else kv_get k l
  end.

(** Insert or overwrite, keeping the order. *)
Fixpoint kv_put (k v : bytes) (l : kvs) : kvs :=
  match l with
  | [] => [(k, v)]
  | (k', v') :: l' =>
      match bytes_compare k k' with
      | Lt => (k, v) :: l
      | Eq => (k, v) :: l'
      | Gt => (k', v') :: kv_put k v l'
      end
  end.

Definition kv_del (k : bytes) (l : kvs) : kvs := filter (fun e => e.1 <> k) l.

Definition kv_map (l : kvs) : gmap bytes bytes := list_to_map l.

Lemma sorted_keys_nil : sorted_keys [].
Proof. constructor. Qed.

Lemma sorted_keys_cons k v l :
  sorted_keys ((k, v) :: l) <-> sorted_keys l /\ (forall k', k' ∈ l.*1 -> bytes_lt k k').
Proof.
  unfold sorted_keys. cbn [fmap list_fmap fst]. split.
  - intros H. apply StronglySorted_inv in H as [? H]. by rewrite Forall_forall in H.
  - intros [? ?]. constructor; [done|]. by rewrite Forall_forall.
Qed.

Lemma sorted_keys_app l1 l2 :
  sorted_keys (l1 ++ l2) <->
  sorted_keys l1 /\ sorted_keys l2 /\ (forall k k', k ∈ l1.*1 -> k' ∈ l2.*1 -> bytes_lt k k').
Proof. unfold sorted_keys. rewrite fmap_app. apply StronglySorted_app_iff. Qed.

Lemma sorted_keys_NoDup l : sorted_keys l -> NoDup l.*1.
Proof. apply StronglySorted_NoDup, _. Qed.

Lemma kv_get_map k l : kv_get k l = kv_map l !! k.
Proof.
  unfold kv_map. induction l as [|[k' v] l IH]; simpl; [by rewrite lookup_empty|].
  rewrite lookup_insert. case_decide; [|rewrite decide_False by done]; [|done].
  by rewrite decide_True.
Qed.

Lemma kv_get_None k l : kv_get k l = None <-> k ∉ l.*1.
Proof.
  induction l as [|[k' v] l IH]; cbn [kv_get fmap list_fmap fst]; [set_solver|].
  case_decide; set_solver.
Qed.

Lemma kv_put_keys k v l k' : k' ∈ (kv_put k v l).*1 <-> k' = k \/ k' ∈ l.*1.
Proof.
  induction l as [|[k1 v1] l IH]; cbn [kv_put fmap list_fmap fst]; [set_solver|].
  destruct (bytes_compareP k k1); cbn [fmap list_fmap fst]; set_solver.
Qed.

Lemma kv_put_sorted k v l : sorted_keys l -> sorted_keys (kv_put k v l).
Proof.
  induction l as [|[k1 v1] l IH]; intros Hs; cbn [kv_put].
  { apply sorted_keys_cons. split; [done|set_solver]. }
  apply sorted_keys_cons in Hs as [Hs Hk1].
  destruct (bytes_compareP k k1); apply sorted_keys_cons.
  - subst. done.
  - split; [by apply sorted_keys_cons|]. set_solver by eauto with godb.
  - split; [auto|]. intros k'. rewrite kv_put_keys. set_solver.
Qed.

Lemma kv_put_map k v l : sorted_keys l -> kv_map (kv_put k v l) = <[k := v]> (kv_map l).
Proof.
  unfold kv_map. induction l as [|[k1 v1] l IH]; intros Hs; cbn [kv_put]; [done|].
  apply sorted_keys_cons in Hs as [Hs Hk1]. destruct (bytes_compareP k k1); simpl.
  - subst. by rewrite insert_insert_eq.
  - done.
  - rewrite IH by done. rewrite insert_insert_ne; [done|].
    intros ->. by eapply bytes_lt_irrefl.
Qed.

Lemma kv_get_put k v l k' :
  sorted_keys l -> kv_get k' (kv_put k v l) = if decide (k' = k) then Some v else kv_get k' l.
Proof.
  intros. rewrite !kv_get_map, kv_put_map, lookup_insert by done.
  repeat case_decide; congruence.
Qed.

(** Insertion only touches the segment of the list whose key range holds the key. *)
Lemma kv_put_app k v l1 l2 l3 :
  (forall k', k' ∈ l1.*1 -> bytes_lt k' k) -> (forall k', k' ∈ l3.*1 -> bytes_lt k k') ->
  kv_put k v (l1 ++ l2 ++ l3) = l1 ++ kv_put k v l2 ++ l3.
Proof.
  intros H1 H3. induction l1 as [|[k1 v1] l1 IH]; simpl.
  - induction l2 as [|[k2 v2] l2 IH]; simpl.
    + destruct l3 as [|[k3 v3] l3]; [done|]. simpl.
      assert (bytes_lt k k3) by set_solver.
      destruct (bytes_compareP k k3); subst; [by exfalso; eapply bytes_lt_irrefl|done|].
      exfalso. eapply bytes_lt_irrefl, bytes_lt_trans; eauto.
    + destruct (bytes_compareP k k2); [done..|]. by rewrite IH.
  - assert (bytes_lt k1 k) by set_solver.
    destruct (bytes_compareP k k1); subst; [by exfalso; eapply bytes_lt_irrefl| |].
    + exfalso. eapply bytes_lt_irrefl, bytes_lt_trans; eauto.
    + rewrite IH; set_solver.
Qed.

Lemma kv_get_app k l1 l2 l3 :
  (forall k', k' ∈ l1.*1 -> bytes_lt k' k) -> (forall k', k' ∈ l3.*1 -> bytes_lt k k') ->
  kv_get k (l1 ++ l2 ++ l3) = kv_get k l2.
Proof.
  intros H1 H3.
  assert (kv_get k l3 = None) as E3.
  { apply kv_get_None. intros H. eapply bytes_lt_irrefl; eauto. }
  induction l1 as [|[k1 v1] l1 IH]; simpl.
  - induction l2 as [|[k2 v2] l2 IH]; simpl; [done|]. by rewrite IH.
  - rewrite decide_False; [apply IH; set_solver|].
    intros ->. eapply (bytes_lt_irrefl k1), H1. set_solver.
Qed.

Lemma kv_del_sorted k l : sorted_keys l -> sorted_keys (kv_del k l).
Proof.
  unfold kv_del. induction l as [|[k1 v1] l IH]; intros Hs; [done|].
  apply sorted_keys_cons in Hs as [Hs Hk1]. rewrite filter_cons. case_decide; [|auto].
  apply sorted_keys_cons. split; [auto|]. intros k' Hk'. apply Hk1.
  apply list_elem_of_fmap in Hk' as ([? ?]&->&Hin).
  apply list_elem_of_filter in Hin as [_ Hin]. apply list_elem_of_fmap. by eexists.
Qed.

Lemma kv_del_map k l : kv_map (kv_del k l) = delete k (kv_map l).
Proof.
  unfold kv_map, kv_del. induction l as [|[k1 v1] l IH]; simpl; [by rewrite delete_empty|].
  rewrite filter_cons. simpl in *. case_decide as Hk; simpl.
  - rewrite IH. by rewrite delete_insert_ne.
  - subst k1. rewrite IH. by rewrite delete_insert_eq.
Qed.

(** Two sorted lists with the same map are the same list. *)
Lemma sorted_kv_map_inj l1 l2 :
  sorted_keys l1 -> sorted_keys l2 -> kv_map l1 = kv_map l2 -> l1 = l2.
Proof.
  revert l2. induction l1 as [|[k1 v1] l1 IH]; intros l2 H1 H2 E.
  - destruct l2 as [|[k2 v2] l2]; [done|]. exfalso.
    apply (f_equal (.!! k2)) in E. rewrite <- !kv_get_map in E. simpl in E.
    by rewrite decide_True in E.
  - apply sorted_keys_cons in H1 as [H1 Hk1].
    destruct l2 as [|[k2 v2] l2].
    { exfalso. apply (f_equal (.!! k1)) in E. rewrite <- !kv_get_map in E. simpl in E.
      by rewrite decide_True in E. }
    apply sorted_keys_cons in H2 as [H2 Hk2].
    assert (k1 = k2 /\ v1 = v2) as [-> ->].
    { pose proof (f_equal (.!! k1) E) as E1. pose proof (f_equal (.!! k2) E) as E2.
      rewrite <- !kv_get_map in E1, E2. simpl in E1, E2.
      repeat case_decide; simplify_eq; [done|].
      assert (k1 ∈ l2.*1) as I1.
      { destruct (decide (k1 ∈ l2.*1)) as [|N]; [done|]. apply kv_get_None in N. congruence. }
      assert (k2 ∈ l1.*1) as I2.
      { destruct (decide (k2 ∈ l1.*1)) as [|N]; [done|]. apply kv_get_None in N. congruence. }
      exfalso. eapply (bytes_lt_irrefl k1), bytes_lt_trans; eauto. }
    f_equal. apply IH; [done..|].
    apply map_eq. intros k. rewrite <- !kv_get_map.
    pose proof (f_equal (.!! k) E) as Ek. rewrite <- !kv_get_map in Ek. simpl in Ek.
    case_decide as Hd; [|done]. subst k.
    rewrite (proj2 (kv_get_None k2 l1)), (proj2 (kv_get_None k2 l2)); [done| |];
      intros Hin; eapply (bytes_lt_irrefl k2); eauto.
Qed.

#[export] Hint Resolve sorted_keys_nil kv_put_sorted kv_del_sorted : godb.
