(* ===== verification/Page.v ===== *)
(** * Pages ([src/storage/page.go])

    A page is its identifier and [PageSize] raw bytes; the header fields (page
    ID, free offset, next-page pointer) live in the first bytes, little-endian,
    and every accessor reads or overwrites its own slice of them. *)
From S2P Require Import Prelude.

Definition PageSize : Z := 4096.
Definition HeaderSize : Z := 16.
(** [^uint32(0)]. *)
Definition NoPage : Z := u32 (Z.lnot 0).

Record Page := MkPage { ID : Z; Data : bytes }.

#[global] Instance Page_eq_dec : EqDecision Page.
Proof. solve_decision. Defined.

(** The Go type: [ID uint32], [Data [PageSize]byte]. *)
Definition page_wf (p : Page) : Prop :=
  0 <= ID p < 2 ^ 32 /\ length (Data p) = Z.to_nat PageSize.

Definition set_data (f : bytes -> bytes) (p : Page) : Page :=
  {| ID := ID p; Data := f (Data p) |}.

Definition NewPage (id : Z) : Page :=
  let d := replicate (Z.to_nat PageSize) Byte.x00 in
  let d := splice 0 (put_le 4 id) d in
  let d := splice 4 (put_le 2 HeaderSize) d in
  let d := splice 6 (put_le 4 NoPage) d in
  {| ID := id; Data := d |}.

(** [binary.LittleEndian.Uint32(p.Data[0:4])]: the identifier stored in the page. *)
Definition HeaderID (p : Page) : Z := get_le (slice 0 4 (Data p)).

Definition FreeOffset (p : Page) : Z := get_le (slice 4 6 (Data p)).

Definition SetFreeOffset (off : Z) (p : Page) : Page :=
  set_data (splice 4 (put_le 2 off)) p.

Definition NextPageID (p : Page) : Z := get_le (slice 6 10 (Data p)).

Definition SetNextPageID (id : Z) (p : Page) : Page :=
  set_data (splice 6 (put_le 4 id)) p.

Definition Remaining (p : Page) : Z := PageSize - FreeOffset p.

(** ** Lemmas *)

Lemma PageSize_nat : Z.to_nat PageSize = 4096%nat.
Proof. done. Qed.

Lemma set_data_wf f p :
  (forall d, length d = Z.to_nat PageSize -> length (f d) = Z.to_nat PageSize) ->
  page_wf p -> page_wf (set_data f p).
Proof. intros Hf [? ?]. split; simpl; auto. Qed.

Lemma splice_data_wf off new p : page_wf p -> page_wf (set_data (splice off new) p).
Proof. apply set_data_wf. intros. by rewrite length_splice. Qed.

Lemma SetFreeOffset_wf off p : page_wf p -> page_wf (SetFreeOffset off p).
Proof. apply splice_data_wf. Qed.
Lemma SetNextPageID_wf id p : page_wf p -> page_wf (SetNextPageID id p).
Proof. apply splice_data_wf. Qed.

Lemma NewPage_wf id : 0 <= id < 2 ^ 32 -> page_wf (NewPage id).
Proof. intros. split; [done|]. cbn [NewPage Data]. by rewrite !length_splice, length_replicate. Qed.

#[export] Hint Resolve SetFreeOffset_wf SetNextPageID_wf NewPage_wf splice_data_wf : godb.

(** Goals about disjoint header slices. *)
Ltac page_bytes :=
  unfold page_wf in *; rewrite ?PageSize_nat in *; destruct_and?;
  repeat first
    [ rewrite slice_splice_before by (rewrite ?length_splice, ?length_put_le, ?length_replicate; lia)
    | rewrite slice_splice_after by (rewrite ?length_splice, ?length_put_le, ?length_replicate; lia) ].

(** A write to one header field is read back, truncated to its width. *)
Lemma splice_get_le off n z d :
  (off + n <= length d)%nat ->
  get_le (slice off (off + n) (splice off (put_le n z) d)) = z mod 256 ^ Z.of_nat n.
Proof.
  intros. pose proof (slice_splice_same off (put_le n z) d) as H0.
  rewrite length_put_le in H0. rewrite H0 by done. apply get_put_le.
Qed.

Lemma FreeOffset_range p : 0 <= FreeOffset p < 2 ^ 16.
Proof.
  unfold FreeOffset, slice. pose proof (get_le_range (take (6 - 4) (drop 4 (Data p)))) as H.
  assert (len (take (6 - 4) (drop 4 (Data p))) <= 2) as Hl by solve_length.
  pose proof (Z.pow_le_mono_r 256 _ 2 ltac:(lia) Hl). lia.
Qed.

Lemma NextPageID_range p : 0 <= NextPageID p < 2 ^ 32.
Proof.
  unfold NextPageID, slice. pose proof (get_le_range (take (10 - 6) (drop 6 (Data p)))) as H.
  assert (len (take (10 - 6) (drop 6 (Data p))) <= 4) as Hl by solve_length.
  pose proof (Z.pow_le_mono_r 256 _ 4 ltac:(lia) Hl). lia.
Qed.

Lemma FreeOffset_SetFreeOffset off p : page_wf p -> FreeOffset (SetFreeOffset off p) = u16 off.
Proof. intros [? ?]. apply (splice_get_le 4 2). simpl. rewrite PageSize_nat in *. lia. Qed.

Lemma NextPageID_SetNextPageID id p : page_wf p -> NextPageID (SetNextPageID id p) = u32 id.
Proof. intros [? ?]. apply (splice_get_le 6 4). simpl. rewrite PageSize_nat in *. lia. Qed.

Lemma FreeOffset_SetNextPageID id p : page_wf p -> FreeOffset (SetNextPageID id p) = FreeOffset p.
Proof. intros. unfold FreeOffset, SetNextPageID; simpl. by page_bytes. Qed.

Lemma NextPageID_SetFreeOffset off p : page_wf p -> NextPageID (SetFreeOffset off p) = NextPageID p.
Proof. intros. unfold NextPageID, SetFreeOffset; simpl. by page_bytes. Qed.

Lemma HeaderID_SetNextPageID id p : page_wf p -> HeaderID (SetNextPageID id p) = HeaderID p.
Proof. intros. unfold HeaderID, SetNextPageID; simpl. by page_bytes. Qed.

Lemma HeaderID_SetFreeOffset off p : page_wf p -> HeaderID (SetFreeOffset off p) = HeaderID p.
Proof. intros. unfold HeaderID, SetFreeOffset; simpl. by page_bytes. Qed.

(** Header writes leave the record area alone, and record writes the header. *)
Lemma body_SetFreeOffset off p lo hi :
  page_wf p -> (16 <= lo)%nat -> slice lo hi (Data (SetFreeOffset off p)) = slice lo hi (Data p).
Proof. intros. simpl. by page_bytes. Qed.

Lemma body_SetNextPageID id p lo hi :
  page_wf p -> (16 <= lo)%nat -> slice lo hi (Data (SetNextPageID id p)) = slice lo hi (Data p).
Proof. intros. simpl. by page_bytes. Qed.

Lemma HeaderID_NewPage id : 0 <= id < 2 ^ 32 -> HeaderID (NewPage id) = id.
Proof.
  intros. unfold HeaderID. cbn [NewPage Data]. page_bytes.
  rewrite (splice_get_le 0 4) by (rewrite length_replicate; lia).
  apply Z.mod_small. lia.
Qed.

Lemma FreeOffset_NewPage id : FreeOffset (NewPage id) = HeaderSize.
Proof.
  unfold FreeOffset. cbn [NewPage Data]. page_bytes.
  rewrite (splice_get_le 4 2) by (rewrite length_splice, length_replicate; lia). done.
Qed.

Lemma NextPageID_NewPage id : NextPageID (NewPage id) = NoPage.
Proof.
  unfold NextPageID. cbn [NewPage Data].
  rewrite (splice_get_le 6 4) by (rewrite !length_splice, length_replicate, PageSize_nat; lia).
  done.
Qed.

(** ** Properties *)

(** a fresh page is an empty, unlinked page of its own ID: the header fields
    the constructor writes do not overlap, so each reads back as written, and
    the whole record area is free. *)
Theorem NewPage_fresh (id : Z) (Hid : 0 <= id < 2 ^ 32) :
  page_wf (NewPage id) /\ HeaderID (NewPage id) = id /\ ID (NewPage id) = id /\
  FreeOffset (NewPage id) = HeaderSize /\ NextPageID (NewPage id) = NoPage /\
  Remaining (NewPage id) = PageSize - HeaderSize.
Proof.
  unfold Remaining. rewrite HeaderID_NewPage, FreeOffset_NewPage, NextPageID_NewPage by done.
  split_and!; auto with godb.
Qed.
Lemma NewPage_fresh_witness :
  HeaderID (NewPage 7) = 7 /\ NextPageID (NewPage 7) = 4294967295.
Proof.
  destruct (NewPage_fresh 7) as (_&H1&_&_&H2&_); [lia|]. rewrite H1, H2. done.
Defined.
