(* ===== verification/BufferPool.v ===== *)
(** * The LRU buffer pool ([src/storage/buffer_pool.go])

    The pool caches a bounded number of pages over a disk it reaches through
    two callbacks. [Disk] is that callback interface and [DiskLaws] what the
    pool relies on; [storage/pager.go] supplies the instance. The element of the
    Go list a page hangs on is identified by the page ID it was inserted under,
    so [items] maps that ID to the element's [poolEntry] and [lru] lists the IDs
    from the front (most recent) to the back. The mutex makes each method one
    step, so the methods are state transformers over the pool and the disk. *)
From S2P Require Import Prelude Page.

(** The [readDisk] and [writeDisk] callbacks. *)
Class Disk (D : Type) := {
  readDisk : Z -> D -> outcome Page;
  writeDisk : Page -> D -> outcome unit * D
}.

(** What a disk promises: a page that was written is there, and writing one page,
    even when the write fails half way, keeps every other page. *)
Class DiskLaws (D : Type) `{Disk D} := {
  disk_page : D -> Z -> option Page;
  disk_page_wf d id p : disk_page d id = Some p -> page_wf p /\ ID p = id;
  readDisk_ok d id p : disk_page d id = Some p -> readDisk id d = Ok p;
  readDisk_err d id : 0 <= id < 2 ^ 32 -> disk_page d id = None -> exists e, readDisk id d = Err e;
  writeDisk_result p d : page_wf p ->
    (exists d', writeDisk p d = (Ok tt, d') /\ disk_page d' (ID p) = Some p) \/
    (exists e d', writeDisk p d = (Err e, d'));
  writeDisk_other p d o d' id q : page_wf p -> writeDisk p d = (o, d') ->
    id <> ID p -> disk_page d id = Some q -> disk_page d' id = Some q
}.

Record poolEntry := MkEntry { pe_page : Page; pe_dirty : bool }.

Record BufferPool := MkPool {
  capacity : Z;
  items : gmap Z poolEntry;
  lru : list Z;
  hits : Z;
  misses : Z
}.

Record BufferPoolStats := MkStats {
  Hits : Z; Misses : Z; CachedPages : Z; DirtyPages : Z
}.

Definition NewBufferPool (cap : Z) : BufferPool :=
  let cap := if decide (cap < 1) then 1 else cap in
  {| capacity := cap; items := ∅; lru := []; hits := 0; misses := 0 |}.

(** [container/list]: [MoveToFront] and [PushFront]. *)
Definition MoveToFront (id : Z) (l : list Z) : list Z := id :: filter (.≠ id) l.

Definition set_items (f : gmap Z poolEntry -> gmap Z poolEntry) (b : BufferPool) : BufferPool :=
  {| capacity := capacity b; items := f (items b); lru := lru b; hits := hits b; misses := misses b |}.
Definition set_lru (f : list Z -> list Z) (b : BufferPool) : BufferPool :=
  {| capacity := capacity b; items := items b; lru := f (lru b); hits := hits b; misses := misses b |}.
Definition count_hit (b : BufferPool) : BufferPool :=
  {| capacity := capacity b; items := items b; lru := lru b; hits := u64 (hits b + 1); misses := misses b |}.
Definition count_miss (b : BufferPool) : BufferPool :=
  {| capacity := capacity b; items := items b; lru := lru b; hits := hits b; misses := u64 (misses b + 1) |}.

Section pool.
Context {D : Type} `{Disk D}.

Definition on_pool (f : BufferPool -> BufferPool) : M (BufferPool * D) unit :=
  modify (fun s => (f s.1, s.2)).

Definition on_disk {A} (m : M D A) : M (BufferPool * D) A :=
  zoom snd (fun d s => (s.1, d)) m.

Definition makeRoomLocked : M (BufferPool * D) unit :=
  b ← gets fst;
  if decide (len (lru b) < capacity b) then mret tt else
  e ← lift (of_option (last (lru b)));
  pe ← lift (of_option (items b !! e));
  _ ← (if pe_dirty pe then
         catch (on_disk (writeDisk (pe_page pe)))
           (fun err => fail (Errorf "evicting page %d: %w" [AInt (ID (pe_page pe)); AErr err]))
       else mret tt);
  _ ← on_pool (set_items (delete (ID (pe_page pe))));
  on_pool (set_lru (filter (.≠ e))).

Definition Get (id : Z) : M (BufferPool * D) Page :=
  b ← gets fst;
  match items b !! id with
  | Some e =>
      _ ← on_pool (fun b => set_lru (MoveToFront id) (count_hit b));
      mret (pe_page e)
  | None =>
      _ ← on_pool count_miss;
      d ← gets snd;
      page ← lift (readDisk id d);
      b ← gets fst;
      match items b !! id with
      | Some e =>
          _ ← on_pool (set_lru (MoveToFront id));
          mret (pe_page e)
      | None =>
          _ ← makeRoomLocked;
          _ ← on_pool (fun b => set_items (<[id := MkEntry page false]>) (set_lru (cons id) b));
          mret page
      end
  end.

Definition Put (page : Page) (dirty : bool) : M (BufferPool * D) unit :=
  b ← gets fst;
  match items b !! ID page with
  | Some pe =>
      on_pool (fun b => set_lru (MoveToFront (ID page))
        (set_items (<[ID page := MkEntry page (pe_dirty pe || dirty)]>) b))
  | None =>
      _ ← makeRoomLocked;
      on_pool (fun b => set_items (<[ID page := MkEntry page dirty]>) (set_lru (cons (ID page)) b))
  end.

(** [Flush] ranges over a Go map, whose order is unspecified: the loop body
    over a given order of the keys, and the method at some order. *)
Fixpoint flushLoop (order : list Z) : M (BufferPool * D) unit :=
  match order with
  | [] => mret tt
  | id :: order =>
      b ← gets fst;
      pe ← lift (of_option (items b !! id));
      _ ← (if pe_dirty pe then
             _ ← on_disk (writeDisk (pe_page pe));
             on_pool (set_items (<[id := MkEntry (pe_page pe) false]>))
           else mret tt);
      flushLoop order
  end.

Definition Flush : M (BufferPool * D) unit :=
  b ← gets fst;
  flushLoop (map_to_list (items b)).*1.

Definition Stats (b : BufferPool) : BufferPoolStats :=
  {| Hits := hits b; Misses := misses b;
     CachedPages := Z.of_nat (size (items b));
     DirtyPages := len (filter (fun e => pe_dirty e.2 = true) (map_to_list (items b))) |}.
End pool.

(** ** Invariant and abstract view *)

Record pool_inv (b : BufferPool) : Prop := {
  inv_cap : 1 <= capacity b;
  inv_nodup : NoDup (lru b);
  inv_dom id : id ∈ lru b <-> is_Some (items b !! id);
  inv_len : len (lru b) <= capacity b;
  inv_id id e : items b !! id = Some e -> page_wf (pe_page e) /\ ID (pe_page e) = id
}.

Lemma NewBufferPool_inv cap : pool_inv (NewBufferPool cap).
Proof.
  unfold NewBufferPool. split; cbn.
  - case_decide; lia.
  - constructor.
  - intros id. rewrite lookup_empty. split; [by intros ?%elem_of_nil|by intros [? ?]].
  - case_decide; unfold len; simpl; lia.
  - intros id e. by rewrite lookup_empty.
Qed.

Section pool_proofs.
Context {D : Type} `{DiskLaws D}.
Implicit Types (b : BufferPool) (d : D) (s : BufferPool * D).

(** The page the pool shows for an ID: the cached one, else the one on disk. *)
Definition view (s : BufferPool * D) (id : Z) : option Page :=
  match items s.1 !! id with
  | Some e => Some (pe_page e)
  | None => disk_page s.2 id
  end.

(** Every clean page is on disk as cached. *)
Definition coherent (s : BufferPool * D) : Prop :=
  forall id e, items s.1 !! id = Some e -> pe_dirty e = false ->
  disk_page s.2 id = Some (pe_page e).

Definition pool_ok (s : BufferPool * D) : Prop := pool_inv s.1 /\ coherent s.

(** No page that was visible is lost or changed. *)
Definition keeps (s s' : BufferPool * D) : Prop :=
  forall id p, view s id = Some p -> view s' id = Some p.

#[global] Instance keeps_refl : Reflexive keeps.
Proof. by intros s id p. Qed.
#[global] Instance keeps_trans : Transitive keeps.
Proof. intros s1 s2 s3 H1 H2 id p ?. auto. Qed.

Lemma keeps_same s s' : items s'.1 = items s.1 -> s'.2 = s.2 -> keeps s s'.
Proof. intros E1 E2 id p. unfold view. by rewrite E1, E2. Qed.

(** The access moved or put [id] to the front of a list that dropped at most
    its back element. *)
Lemma MoveToFront_inv id e b f :
  pool_inv b -> items b !! id = Some e -> page_wf (pe_page f) -> ID (pe_page f) = id ->
  pool_inv (MkPool (capacity b) (<[id := f]> (items b)) (MoveToFront id (lru b)) (hits b) (misses b)).
Proof.
  intros I He Hwf Hid. assert (id ∈ lru b) as Hin by (apply (inv_dom b I); eauto).
  pose proof (inv_nodup b I). split; cbn.
  - apply I.
  - constructor; [|by apply NoDup_filter]. rewrite list_elem_of_filter. tauto.
  - intros j. unfold MoveToFront. rewrite elem_of_cons, list_elem_of_filter, (inv_dom b I).
    rewrite lookup_insert. case_decide; naive_solver.
  - pose proof (inv_len b I). unfold len, MoveToFront in *. cbn [length].
    pose proof (length_filter_lt (.≠ id) (lru b) id Hin ltac:(tauto)). lia.
  - intros j g. rewrite lookup_insert. case_decide; [naive_solver|apply I].
Qed.

Lemma pool_inv_fields b b' :
  capacity b' = capacity b -> items b' = items b -> lru b' = lru b -> pool_inv b -> pool_inv b'.
Proof. intros E1 E2 E3 []. split; rewrite ?E1, ?E2, ?E3; done. Qed.

Lemma push_inv id f b :
  pool_inv b -> items b !! id = None -> len (lru b) < capacity b ->
  page_wf (pe_page f) -> ID (pe_page f) = id ->
  pool_inv (MkPool (capacity b) (<[id := f]> (items b)) (id :: lru b) (hits b) (misses b)).
Proof.
  intros I He Hl Hwf Hid. split; cbn.
  - apply I.
  - constructor; [|apply I]. rewrite (inv_dom b I), He. by intros [? ?].
  - intros j. rewrite elem_of_cons, (inv_dom b I), lookup_insert. case_decide; naive_solver.
  - unfold len in *. cbn [length]. lia.
  - intros j g. rewrite lookup_insert. case_decide; [naive_solver|apply I].
Qed.

(** Writing a cached page's own content to disk, clean or torn, keeps the view
    and the other pages' coherence. *)
Lemma writeDisk_keeps b d p o d' :
  pool_ok (b, d) -> page_wf p -> items b !! ID p = Some (MkEntry p true) ->
  writeDisk p d = (o, d') -> pool_ok (b, d') /\ keeps (b, d) (b, d').
Proof.
  intros [I C] Hwf Hp Hw. split; [split; [done|]|].
  - intros id e He Hd. destruct (decide (id = ID p)) as [->|Hne].
    { simpl in He. rewrite Hp in He. by simplify_eq/=. }
    by eapply writeDisk_other; eauto.
  - intros id q. unfold view; simpl. destruct (items b !! id) eqn:E; [done|].
    intros Hq. eapply writeDisk_other; eauto. intros ->. congruence.
Qed.

(** Dropping the back element [e] once its page is on disk. *)
Lemma evict_ok b d d' l e pe :
  pool_inv b -> lru b = l ++ [e] -> items b !! e = Some pe -> coherent (b, d') ->
  keeps (b, d) (b, d') -> disk_page d' e = Some (pe_page pe) -> capacity b <= len (lru b) ->
  let b' := set_lru (filter (.≠ e)) (set_items (delete (ID (pe_page pe))) b) in
  pool_ok (b', d') /\ keeps (b, d) (b', d') /\ len (lru b') < capacity b /\
  items b' ⊆ items b /\ lru b' = take (Z.to_nat (capacity b - 1)) (lru b).
Proof.
  intros I Hl Hpe C K Hdisk Hfull. cbn. destruct (inv_id b I e pe Hpe) as [_ ->].
  assert (NoDup (l ++ [e])) as Hnd by (rewrite <- Hl; apply I).
  assert (e ∉ l) as He by (apply NoDup_app in Hnd; set_solver).
  assert (filter (.≠ e) (lru b) = l) as Hfl.
  { rewrite Hl, filter_app, (filter_all (.≠ e) l), (filter_cons_False (.≠ e)); [apply app_nil_r|tauto|].
    apply Forall_forall. by intros y Hy ->. }
  pose proof (inv_len b I) as Hle. rewrite Hl in Hfull, Hle.
  assert (length (l ++ [e]) = S (length l)) as HS by (simpl_length; lia).
  unfold len in *. rewrite HS in *. rewrite Hfl.
  split_and!; [split; cbn|..]; [split; cbn; rewrite ?Hfl; try apply I|..].
  - apply NoDup_app in Hnd; tauto.
  - intros j. rewrite lookup_delete_is_Some, <- (inv_dom b I), Hl. set_solver.
  - unfold len. lia.
  - intros j g [? ?]%lookup_delete_Some. by apply I.
  - intros j g Hj. cbn in Hj. apply lookup_delete_Some in Hj as [_ Hj]. by apply C.
  - intros j p Hj. apply K in Hj. unfold view in *. cbn in *. rewrite lookup_delete.
    case_decide; [|done]. subst j. rewrite Hpe in Hj. naive_solver.
  - lia.
  - apply delete_subseteq.
  - rewrite Hl, take_app_le, take_ge by lia. done.
Qed.

Lemma makeRoomLocked_spec b d :
  pool_ok (b, d) -> exists o s', makeRoomLocked (b, d) = (o, s') /\
  pool_ok s' /\ keeps (b, d) s' /\ capacity s'.1 = capacity b /\
  ((o = Ok tt /\ len (lru s'.1) < capacity b /\ items s'.1 ⊆ items b /\
    lru s'.1 = take (Z.to_nat (capacity b - 1)) (lru b)) \/
   (s'.1 = b /\ exists e, o = Err e)).
Proof.
  intros Hok. pose proof Hok as [I C]. cbn [fst] in I.
  unfold makeRoomLocked. cbv [mbind M_bind gets]. cbn [fst snd].
  case_decide as Hlen.
  { do 2 eexists. split; [reflexivity|]. cbn. split_and!; try done. left. split_and!; try done.
    by rewrite take_ge by (revert Hlen; unfold len; lia). }
  destruct (last (lru b)) as [e|] eqn:Elast; last first.
  { apply last_None in Elast. pose proof (inv_cap b I). rewrite Elast in Hlen.
    unfold len in Hlen. simpl in Hlen. lia. }
  apply last_Some in Elast as [l Hl].
  assert (is_Some (items b !! e)) as [pe Hpe] by (apply (inv_dom b I); rewrite Hl; set_solver).
  destruct (inv_id b I e pe Hpe) as [Hwf Hide]. cbn [of_option lift]. rewrite Hpe. cbn [of_option lift].
  pose proof (fun d' C' K' Hd => evict_ok b d d' l e pe I Hl Hpe C' K' Hd ltac:(lia)) as Hevict.
  destruct pe as [p [|]]; cbn [pe_dirty pe_page] in *; last first.
  { destruct (Hevict d C ltac:(done) (C _ _ Hpe eq_refl)) as (?&?&?&?&?).
    do 2 eexists. split; [reflexivity|]. cbn in *. split_and!; auto. }
  unfold catch, on_disk, zoom. cbn [fst snd].
  destruct (writeDisk_result p d Hwf) as [(d'&Hw&Hdisk)|(err&d'&Hw)]; rewrite Hw.
  - destruct (writeDisk_keeps b d p _ d' Hok Hwf ltac:(by rewrite Hide) Hw) as [[_ C'] K'].
    rewrite Hide in Hdisk. destruct (Hevict d' C' K' Hdisk) as (?&?&?&?&?).
    do 2 eexists. split; [reflexivity|]. cbn in *. split_and!; auto.
  - destruct (writeDisk_keeps b d p _ d' Hok Hwf ltac:(by rewrite Hide) Hw) as [? K'].
    do 2 eexists. split; [reflexivity|]. cbn. split_and!; eauto.
Qed.

Lemma MoveToFront_take b id :
  pool_inv b -> id ∈ lru b ->
  MoveToFront id (lru b) = take (Z.to_nat (capacity b)) (MoveToFront id (lru b)).
Proof.
  intros I Hin. rewrite take_ge; [done|]. pose proof (inv_len b I). unfold len, MoveToFront in *.
  cbn [length]. pose proof (length_filter_lt (.≠ id) (lru b) id Hin ltac:(tauto)). lia.
Qed.

Lemma push_take b id :
  pool_inv b -> id ∉ lru b ->
  id :: take (Z.to_nat (capacity b - 1)) (lru b) =
  take (Z.to_nat (capacity b)) (MoveToFront id (lru b)).
Proof.
  intros I Hin. pose proof (inv_cap b I). unfold MoveToFront.
  rewrite filter_all by (apply Forall_forall; by intros y Hy ->).
  replace (Z.to_nat (capacity b)) with (S (Z.to_nat (capacity b - 1))) by lia. done.
Qed.

Lemma not_cached_lru b id : pool_inv b -> items b !! id = None -> id ∉ lru b.
Proof. intros I E Hin. apply (inv_dom b I) in Hin. rewrite E in Hin. by destruct Hin. Qed.

(** Caching a page under an ID the pool does not hold. *)
Lemma push_ok b d p dirty :
  pool_ok (b, d) -> page_wf p -> items b !! ID p = None -> len (lru b) < capacity b ->
  (dirty = true \/ disk_page d (ID p) = Some p) ->
  let b' := set_items (<[ID p := MkEntry p dirty]>) (set_lru (cons (ID p)) b) in
  pool_ok (b', d) /\ view (b', d) (ID p) = Some p /\
  (forall id q, id <> ID p -> view (b, d) id = Some q -> view (b', d) id = Some q).
Proof.
  intros [I C] Hwf Hn Hl Hd. cbn in *. split; [split|split].
  - cbn. apply (pool_inv_fields (MkPool (capacity b) (<[ID p := MkEntry p dirty]> (items b)) (ID p :: lru b) (hits b) (misses b))); try done.
    by apply push_inv.
  - intros id e. cbn. rewrite lookup_insert. case_decide; [|apply C].
    intros [= <-] Hdd. cbn in *. subst. naive_solver.
  - unfold view; cbn. by rewrite lookup_insert_eq.
  - intros id q Hne. unfold view; cbn. by rewrite lookup_insert_ne.
Qed.

(** A call leaves [s'] with outcome [o]: the state stays well formed and nothing
    visible is lost; [Q] says more about a success, [F] about a failure. *)
Definition pool_post {A} (s : BufferPool * D) (r : outcome A * (BufferPool * D))
    (Q : A -> BufferPool * D -> Prop) (F : Prop) : Prop :=
  pool_ok r.2 /\ capacity r.2.1 = capacity s.1 /\
  match r.1 with
  | Ok a => Q a r.2
  | Err _ => F /\ keeps s r.2
  | _ => False
  end.

Lemma pool_post_ok {A} s s' (a : A) (Q : A -> BufferPool * D -> Prop) F :
  pool_ok s' -> capacity s'.1 = capacity s.1 -> Q a s' -> pool_post s (Ok a, s') Q F.
Proof. done. Qed.
Lemma pool_post_err {A} s s' e (Q : A -> BufferPool * D -> Prop) (F : Prop) :
  pool_ok s' -> capacity s'.1 = capacity s.1 -> F -> keeps s s' -> pool_post s (Err e, s') Q F.
Proof. done. Qed.

Lemma pool_ok_same s s' :
  capacity s'.1 = capacity s.1 -> items s'.1 = items s.1 -> lru s'.1 = lru s.1 -> s'.2 = s.2 ->
  pool_ok s -> pool_ok s'.
Proof.
  intros E1 E2 E3 E4 [I C]. split; [by eapply pool_inv_fields|].
  intros id e. rewrite E2, E4. apply C.
Qed.

Lemma Get_spec s id :
  pool_ok s -> 0 <= id < 2 ^ 32 -> pool_post s (Get id s)
    (fun p s' => view s id = Some p /\ keeps s s' /\
      lru s'.1 = take (Z.to_nat (capacity s.1)) (MoveToFront id (lru s.1)))
    (items s.1 !! id = None).
Proof.
  destruct s as [b d]. intros Hok Hu32. pose proof Hok as [I C]. cbn [fst snd] in *.
  unfold Get. cbv [mbind M_bind gets on_pool modify lift]. cbn [fst snd].
  destruct (items b !! id) as [e|] eqn:He.
  - destruct (inv_id b I id e He) as [Hwf Hid]. apply pool_post_ok; [split|done|split_and!].
    + eapply (pool_inv_fields (MkPool (capacity b) (<[id := e]> (items b)) (MoveToFront id (lru b)) (hits b) (misses b))); try done.
      { cbn. by rewrite insert_id. } by eapply MoveToFront_inv.
    + apply C.
    + unfold view; cbn. by rewrite He.
    + by apply keeps_same.
    + apply (MoveToFront_take b); [done|]. apply (inv_dom b I). eauto.
  - cbn. destruct (disk_page d id) as [p|] eqn:Hd; last first.
    { destruct (readDisk_err d id Hu32 Hd) as [e ->].
      apply pool_post_err; try done; [by apply (pool_ok_same (b, d))|by apply keeps_same]. }
    destruct (disk_page_wf d id p Hd) as [Hwf Hid]. rewrite (readDisk_ok d id p Hd). cbn. rewrite He.
    destruct (makeRoomLocked_spec (count_miss b) d) as (o&[b' d']&->&Hok'&K&Hcap&[(->&Hl&Hsub&Hlru)|(Hb&err&->)]).
    { by apply (pool_ok_same (b, d)). }
    + cbn in *. subst id. assert (items b' !! ID p = None) as Hn by (eapply lookup_weaken_None; eauto).
      assert (disk_page d' (ID p) = Some p) as Hd'.
      { pose proof (K (ID p) p) as Kp. unfold view in Kp. cbn in Kp. rewrite He, Hn in Kp. auto. }
      destruct (push_ok b' d' p false) as (?&Hv&Ho); try done; [by rewrite Hcap|by right|].
      apply pool_post_ok; [done..|]. split_and!.
      * unfold view; cbn. by rewrite He.
      * intros j q Hj. apply K in Hj. destruct (decide (j = ID p)) as [->|]; [|by apply Ho].
        rewrite Hv. unfold view in Hj. cbn in Hj. rewrite Hn in Hj. congruence.
      * cbn. rewrite Hlru. apply (push_take b); [done|]. by apply not_cached_lru.
    + apply pool_post_err; try done.
Qed.

Lemma Put_spec s p :
  pool_ok s -> page_wf p -> pool_post s (Put p true s)
    (fun _ s' => view s' (ID p) = Some p /\
      (forall id q, id <> ID p -> view s id = Some q -> view s' id = Some q) /\
      lru s'.1 = take (Z.to_nat (capacity s.1)) (MoveToFront (ID p) (lru s.1)))
    (items s.1 !! ID p = None).
Proof.
  destruct s as [b d]. intros Hok Hwf. pose proof Hok as [I C]. cbn [fst snd] in *.
  unfold Put. cbv [mbind M_bind gets on_pool modify]. cbn [fst snd].
  destruct (items b !! ID p) as [e|] eqn:He.
  - rewrite orb_true_r. apply pool_post_ok; [split|done|split_and!].
    + eapply (pool_inv_fields (MkPool (capacity b) (<[ID p := MkEntry p true]> (items b)) (MoveToFront (ID p) (lru b)) (hits b) (misses b))); try done.
      by eapply MoveToFront_inv.
    + intros id f. cbn. rewrite lookup_insert. case_decide; [by intros [= <-]|apply C].
    + unfold view; cbn. by rewrite lookup_insert_eq.
    + intros id q Hne. unfold view; cbn. by rewrite lookup_insert_ne.
    + apply (MoveToFront_take b); [done|]. apply (inv_dom b I). eauto.
  - destruct (makeRoomLocked_spec b d Hok) as (o&[b' d']&->&Hok'&K&Hcap&[(->&Hl&Hsub&Hlru)|(Hb&err&->)]).
    + cbn in *. assert (items b' !! ID p = None) as Hn by (eapply lookup_weaken_None; eauto).
      destruct (push_ok b' d' p true) as (?&Hv&Ho); try done; [by rewrite Hcap|by left|].
      apply pool_post_ok; [done..|]. split_and!; [done|by eauto|].
      cbn. rewrite Hlru. apply (push_take b); [done|]. by apply not_cached_lru.
    + apply pool_post_err; try done.
Qed.

(** Marking a page clean right after its content reached the disk. *)
Lemma clean_ok b d id p :
  pool_ok (b, d) -> items b !! id = Some (MkEntry p true) -> disk_page d id = Some p ->
  pool_ok (set_items (<[id := MkEntry p false]>) b, d).
Proof.
  intros [I C] Hp Hd. destruct (inv_id b I id _ Hp) as [Hwf Hid]. split; [split|]; cbn; try apply I.
  - intros j. rewrite (inv_dom b I), lookup_insert. case_decide; naive_solver.
  - intros j e. rewrite lookup_insert. case_decide; [naive_solver|apply I].
  - intros j e. cbn. rewrite lookup_insert. case_decide; [naive_solver|apply C].
Qed.

Lemma flushLoop_spec order b d :
  pool_ok (b, d) -> (forall id, id ∈ order -> is_Some (items b !! id)) ->
  exists o b' d', flushLoop order (b, d) = (o, (b', d')) /\ pool_ok (b', d') /\
    capacity b' = capacity b /\ lru b' = lru b /\ pe_page <$> items b' = pe_page <$> items b /\
    (forall id e, items b !! id = Some e -> pe_dirty e = false -> items b' !! id = Some e) /\
    (forall id q, items b !! id = None -> disk_page d id = Some q -> disk_page d' id = Some q) /\
    match o with
    | Ok _ => forall id e, id ∈ order -> items b' !! id = Some e -> pe_dirty e = false
    | Err _ => True
    | _ => False
    end.
Proof.
  revert b d. induction order as [|id order IH]; intros b d Hok Hin; cbn [flushLoop].
  { do 3 eexists. split; [reflexivity|]. split_and!; try done. set_solver. }
  cbv [mbind M_bind gets lift on_pool modify on_disk zoom mret M_ret]. cbn [fst snd].
  destruct (Hin id ltac:(set_solver)) as [[p dirty] Hp]. rewrite Hp. cbn.
  assert (page_wf p /\ ID p = id) as [Hwf Hid] by apply (inv_id b (proj1 Hok) id _ Hp).
  destruct dirty; last first.
  { destruct (IH b d Hok ltac:(set_solver)) as (o&b'&d'&->&Hok'&Hc&Hl&Hi&Hk&Hd&Ho).
    do 3 eexists. split; [reflexivity|]. split_and!; try done. destruct o; try done.
    intros j e [->|Hj]%elem_of_cons; [|by eauto]. rewrite (Hk _ _ Hp eq_refl). naive_solver. }
  destruct (writeDisk_result p d Hwf) as [(d1&Hw&Hdisk)|(err&d1&Hw)]; cbn; rewrite Hw; cbn;
    destruct (writeDisk_keeps b d p _ d1 Hok Hwf ltac:(by rewrite Hid) Hw) as [Hok1 K1]; last first.
  { do 3 eexists. split; [reflexivity|]. split_and!; try done.
    intros j q Hj Hq. eapply writeDisk_other; eauto. congruence. }
  rewrite Hid in Hdisk. pose proof (clean_ok b d1 id p Hok1 Hp Hdisk) as Hok2.
  destruct (IH _ d1 Hok2) as (o&b'&d'&->&Hok'&Hc&Hl&Hi&Hk&Hd&Ho).
  { intros j Hj. cbn. rewrite lookup_insert. case_decide; [eauto|]. apply Hin. set_solver. }
  cbn in *. do 3 eexists. split; [reflexivity|]. split_and!; try done.
  - rewrite Hi, fmap_insert. cbn. apply insert_id. by rewrite lookup_fmap, Hp.
  - intros j e Hj He. apply Hk; [|done]. rewrite lookup_insert_ne; [done|]. naive_solver.
  - intros j q Hj Hq. apply Hd; [rewrite lookup_insert_ne; [done|congruence]|].
    eapply writeDisk_other; eauto. congruence.
  - destruct o; try done. intros j e [->|Hj]%elem_of_cons; [|by eauto].
    rewrite (Hk _ (MkEntry p false)); [naive_solver|by rewrite lookup_insert_eq|done].
Qed.

Lemma elem_of_items b id : id ∈ (map_to_list (items b)).*1 <-> is_Some (items b !! id).
Proof.
  rewrite list_elem_of_fmap. split.
  - intros ([? ?]&->&Hin). apply elem_of_map_to_list in Hin. eauto.
  - intros [e He]. exists (id, e). split; [done|]. by apply elem_of_map_to_list.
Qed.

Lemma view_wf s id p : pool_ok s -> view s id = Some p -> page_wf p /\ ID p = id.
Proof.
  intros [I _]. unfold view. destruct (items s.1 !! id) as [e|] eqn:E.
  - intros [= <-]. by apply I.
  - apply disk_page_wf.
Qed.

Lemma flush_keeps b d b' d' :
  coherent (b', d') -> pe_page <$> items b' = pe_page <$> items b ->
  (forall id q, items b !! id = None -> disk_page d id = Some q -> disk_page d' id = Some q) ->
  keeps (b, d) (b', d').
Proof.
  intros C Hi Hd id q. unfold view. cbn. apply (f_equal (.!! id)) in Hi. rewrite !lookup_fmap in Hi.
  destruct (items b !! id) eqn:E, (items b' !! id); simpl in Hi; try congruence. by apply Hd.
Qed.

Lemma Flush_spec s :
  pool_ok s -> pool_post s (Flush s)
    (fun _ s' => keeps s s' /\ lru s'.1 = lru s.1 /\
      (forall id p, view s id = Some p -> disk_page s'.2 id = Some p)) True.
Proof.
  destruct s as [b d]. intros Hok. unfold Flush. cbv [mbind M_bind gets]. cbn [fst snd].
  pose proof (elem_of_items b) as Hdom.
  destruct (flushLoop_spec (map_to_list (items b)).*1 b d Hok) as (o&b'&d'&->&Hok'&Hc&Hl&Hi&_&Hd&Ho).
  { intros id. apply Hdom. }
  pose proof (flush_keeps b d b' d' (proj2 Hok') Hi Hd) as K.
  destruct o as [[]| | |]; try done. apply pool_post_ok; [done..|].
  split_and!; [done..|]. intros id p Hp. apply K in Hp. unfold view in Hp. cbn in *.
  destruct (items b' !! id) as [e|] eqn:E; [|done]. simplify_eq.
  apply Hok'; [done|]. apply (Ho id); [|done]. apply Hdom.
  apply (f_equal (.!! id)) in Hi. rewrite !lookup_fmap, E in Hi. by destruct (items b !! id).
Qed.
End pool_proofs.

(** ** Disk invariants

    The pool only ever writes pages it caches, so a property of the disk that
    survives writing pages with IDs in [Q] survives every call; and on a disk
    whose writes succeed no call on a visible page fails. *)
Section disk_inv.
Context {D : Type} `{DiskLaws D} (Q : Z -> Prop) (J : D -> Prop).
Hypothesis J_write : forall p d, page_wf p -> Q (ID p) -> J d -> J (writeDisk p d).2.

Definition cached_in (b : BufferPool) : Prop := forall id, is_Some (items b !! id) -> Q id.
Definition disk_ok (s : BufferPool * D) : Prop := pool_inv s.1 /\ cached_in s.1 /\ J s.2.

Lemma makeRoomLocked_disk s : disk_ok s ->
  J (makeRoomLocked s).2.2 /\ cached_in (makeRoomLocked s).2.1.
Proof using J_write.
  destruct s as [b d]. intros (I&Hc&HJ). cbn in *.
  unfold makeRoomLocked. cbv [mbind M_bind gets lift on_pool modify on_disk zoom catch fail]. cbn [fst snd].
  case_decide; [done|]. destruct (last (lru b)) as [e|]; [|done]. cbn.
  destruct (items b !! e) as [pe|] eqn:He; [|done]. cbn.
  destruct (inv_id b I e pe He) as [Hwf Hid].
  assert (forall j, is_Some (delete (ID (pe_page pe)) (items b) !! j) -> Q j) as Hdel.
  { intros j [? [_ ?]%lookup_delete_Some]. eauto. }
  destruct (pe_dirty pe); cbn; [|done].
  pose proof (J_write (pe_page pe) d Hwf) as HJ'. rewrite Hid in HJ'.
  destruct (writeDisk (pe_page pe) d) as [[]]; cbn in *; eauto.
Qed.

Lemma pool_push_disk b f id : cached_in b -> Q id ->
  cached_in (set_items (<[id := f]>) (set_lru (cons id) b)).
Proof. intros Hc Hq j. cbn. rewrite lookup_insert. case_decide; [naive_solver|apply Hc]. Qed.

Lemma Get_disk s id : disk_ok s -> Q id -> J (Get id s).2.2 /\ cached_in (Get id s).2.1.
Proof using J_write.
  destruct s as [b d]. intros (I&Hc&HJ) Hq. cbn in *.
  unfold Get. cbv [mbind M_bind gets lift on_pool modify]. cbn [fst snd].
  destruct (items b !! id) as [e|] eqn:He; [done|]. cbn.
  destruct (readDisk id d); try done. cbn. rewrite He.
  destruct (makeRoomLocked_disk (count_miss b, d)) as [HJ' Hc'].
  { split; [|done]. by apply (pool_inv_fields b). }
  destruct (makeRoomLocked (count_miss b, d)) as [[] [b' d']]; cbn in *; try done.
  split; [done|]. by apply pool_push_disk.
Qed.

Lemma Put_disk s p dirty : disk_ok s ->
  J (Put p dirty s).2.2 /\ (is_ok (Put p dirty s).1 = false -> cached_in (Put p dirty s).2.1) /\
  (forall id, is_Some (items (Put p dirty s).2.1 !! id) -> id = ID p \/ Q id).
Proof using J_write.
  destruct s as [b d]. intros (I&Hc&HJ). cbn in *.
  unfold Put. cbv [mbind M_bind gets on_pool modify]. cbn [fst snd].
  destruct (items b !! ID p) as [e|] eqn:He.
  { split_and!; [done..|]. intros j. cbn. rewrite lookup_insert. case_decide; [auto|]. right. by apply Hc. }
  destruct (makeRoomLocked_disk (b, d)) as [HJ' Hc']; [done|].
  destruct (makeRoomLocked (b, d)) as [[] [b' d']]; cbn in *; split_and!; try done; try by eauto.
  intros j. cbn. rewrite lookup_insert. case_decide; [auto|]. right. by apply Hc'.
Qed.

Lemma flushLoop_disk order s : disk_ok s ->
  J (flushLoop order s).2.2 /\ cached_in (flushLoop order s).2.1.
Proof using J_write.
  revert s. induction order as [|id order IH]; intros [b d] (I&Hc&HJ); cbn [flushLoop]; [done|].
  cbv [mbind M_bind gets lift on_pool modify on_disk zoom mret M_ret]. cbn [fst snd] in *.
  destruct (items b !! id) as [[p dirty]|] eqn:He; [|done]. cbn.
  destruct (inv_id b I id _ He) as [Hwf Hid]. cbn in Hwf, Hid.
  destruct dirty; cbn; [|by apply IH].
  pose proof (J_write p d Hwf) as HJ'. rewrite Hid in HJ'. specialize (HJ' (Hc id ltac:(eauto)) HJ).
  destruct (writeDisk p d) as [[] d']; cbn in *; try done.
  apply IH. split; [|split; [|done]]; cbn.
  - split; cbn; try apply I.
    + intros j. rewrite (inv_dom b I), lookup_insert. case_decide; naive_solver.
    + intros j e. rewrite lookup_insert. case_decide; [naive_solver|apply I].
  - intros j. cbn. rewrite lookup_insert. case_decide; [naive_solver|apply Hc].
Qed.

(** On a healthy disk. *)
Hypothesis J_healthy : forall p d, page_wf p -> J d -> (writeDisk p d).1 = Ok tt.

Lemma makeRoomLocked_healthy b d : pool_ok (b, d) -> J d -> (makeRoomLocked (b, d)).1 = Ok tt.
Proof using J_healthy.
  intros Hok HJ. destruct (makeRoomLocked_spec b d Hok) as (o&s'&E&_&_&_&[(->&_)|(_&e&->)]); rewrite E; [done|].
  exfalso. revert E. unfold makeRoomLocked.
  cbv [mbind M_bind gets lift on_pool modify on_disk zoom catch fail]. cbn [fst snd].
  case_decide; [done|]. destruct (last (lru b)) as [i|]; [|done]. cbn.
  destruct (items b !! i) as [pe|] eqn:He; [|done]. cbn.
  destruct (inv_id b (proj1 Hok) i pe He) as [Hwf _].
  pose proof (J_healthy _ d Hwf HJ). destruct (pe_dirty pe); [|done]. cbn.
  destruct (writeDisk (pe_page pe) d) as [o' d']. cbn in *. by subst o'.
Qed.

Lemma Get_healthy b d id p :
  pool_ok (b, d) -> J d -> 0 <= id < 2 ^ 32 -> view (b, d) id = Some p -> (Get id (b, d)).1 = Ok p.
Proof using J_healthy.
  intros Hok HJ Hu32 Hv. pose proof (Get_spec (b, d) id Hok Hu32) as HG.
  destruct (Get id (b, d)) as [o s'] eqn:E. destruct HG as (_&_&HG). cbn [fst snd] in *.
  destruct o as [q|e| |]; try done; [destruct HG as [HG _]; congruence|]. exfalso.
  destruct HG as [Hn _]. revert E. unfold Get. cbv [mbind M_bind gets lift on_pool modify]. cbn [fst snd].
  rewrite Hn. cbn. unfold view in Hv. cbn in Hv. rewrite Hn in Hv. rewrite (readDisk_ok d id p Hv). cbn. rewrite Hn.
  pose proof (makeRoomLocked_healthy (count_miss b) d) as Hm.
  destruct (makeRoomLocked (count_miss b, d)) as [o s'']. cbn in Hm.
  rewrite Hm; [done| |done]. by apply (pool_ok_same (b, d)).
Qed.

Lemma flushLoop_healthy order b d :
  disk_ok (b, d) -> (forall id, id ∈ order -> is_Some (items b !! id)) ->
  (flushLoop order (b, d)).1 = Ok tt.
Proof using J_write J_healthy.
  revert b d. induction order as [|id order IH]; intros b d (I&Hc&HJ) Hin; cbn [flushLoop]; [done|].
  cbv [mbind M_bind gets lift on_pool modify on_disk zoom mret M_ret]. cbn [fst snd] in *.
  destruct (Hin id ltac:(set_solver)) as [[p dirty] He]. rewrite He. cbn.
  destruct (inv_id b I id _ He) as [Hwf Hid]. cbn in Hwf, Hid.
  destruct dirty; cbn; [|apply IH; [done|set_solver]].
  pose proof (J_write p d Hwf) as HJ'. rewrite Hid in HJ'. specialize (HJ' (Hc id ltac:(eauto)) HJ).
  pose proof (J_healthy p d Hwf HJ) as Ho.
  destruct (writeDisk p d) as [o d']. cbn in *. subst o.
  apply IH; [split; [|split; [|done]]; cbn|].
  - split; cbn; try apply I.
    + intros j. rewrite (inv_dom b I), lookup_insert. case_decide; naive_solver.
    + intros j e. rewrite lookup_insert. case_decide; [naive_solver|apply I].
  - intros j. cbn. rewrite lookup_insert. case_decide; [naive_solver|apply Hc].
  - intros j Hj. cbn. rewrite lookup_insert. case_decide; [eauto|]. apply Hin. set_solver.
Qed.

Lemma Put_healthy b d p dirty : pool_ok (b, d) -> J d -> (Put p dirty (b, d)).1 = Ok tt.
Proof using J_healthy.
  intros Hok HJ. unfold Put. cbv [mbind M_bind gets on_pool modify]. cbn [fst snd].
  destruct (items b !! ID p); [done|].
  pose proof (makeRoomLocked_healthy b d Hok HJ) as Hm.
  destruct (makeRoomLocked (b, d)) as [o s']. cbn in Hm. by rewrite Hm.
Qed.
End disk_inv.

(** ** A disk held in memory *)

#[global] Instance page_wf_dec p : Decision (page_wf p).
Proof. unfold page_wf. apply _. Defined.

#[global] Instance MapDisk : Disk (gmap Z Page) := {
  readDisk id d :=
    match d !! id with
    | Some p => if decide (page_wf p /\ ID p = id) then Ok p else Err EOF
    | None => Err EOF
    end;
  writeDisk p d := (Ok tt, <[ID p := p]> d)
}.

#[global] Program Instance MapDiskLaws : DiskLaws (gmap Z Page) := {
  disk_page d id := p ← d !! id; if decide (page_wf p /\ ID p = id) then Some p else None
}.
Next Obligation. intros d id p. simpl. destruct (d !! id); simpl; [case_decide|]; naive_solver. Qed.
Next Obligation. intros d id p. simpl. destruct (d !! id); simpl; [case_decide|]; naive_solver. Qed.
Next Obligation. intros d id _. simpl. destruct (d !! id); simpl; [case_decide|]; naive_solver. Qed.
Next Obligation.
  intros p d Hwf. left. eexists. split; [reflexivity|]. rewrite lookup_insert_eq. simpl.
  by rewrite decide_True.
Qed.
Next Obligation.
  intros p d o d' id q Hwf [= <- <-] Hne. by rewrite lookup_insert_ne.
Qed.

(** ** Properties *)

(** the pool is transparent. From a well-formed state, [Get] can only return
    the page currently visible under the ID, and it changes nothing anybody can
    read; it fails only for a page that is not cached, and a failed call (the
    page is not on disk, or writing back the evicted page failed) also loses no
    page. It never dereferences a missing list element. *)
Theorem Get_transparent {D} `{DiskLaws D} (s : BufferPool * D) (id : Z)
    (Hok : pool_ok s) (Hid : 0 <= id < 2 ^ 32) :
  let '(o, s') := Get id s in
  pool_ok s' /\ keeps s s' /\
  match o with
  | Ok p => view s id = Some p
  | Err _ => items s.1 !! id = None
  | _ => False
  end.
Proof.
  pose proof (Get_spec s id Hok Hid) as HG. destruct (Get id s) as [o s'].
  destruct HG as (?&_&HG). cbn in *. destruct o; naive_solver.
Qed.
Lemma Get_transparent_witness :
  match Get 3 (NewBufferPool 1, {[3 := NewPage 3]} : gmap Z Page) with
  | (Ok p, s') => view s' 3 = Some p
  | _ => False
  end.
Proof.
  pose proof (Get_transparent (NewBufferPool 1, {[3 := NewPage 3]} : gmap Z Page) 3) as H.
  assert (pool_ok (NewBufferPool 1, {[3 := NewPage 3]} : gmap Z Page)) as Hok.
  { split; [apply NewBufferPool_inv|]. intros id e. cbn. by rewrite lookup_empty. }
  specialize (H Hok ltac:(lia)).
  assert (is_ok (Get 3 (NewBufferPool 1, {[3 := NewPage 3]} : gmap Z Page)).1 = true) as Hr by (vm_compute; reflexivity).
  destruct (Get 3 _) as [[p| | |] s']; try discriminate Hr.
  destruct H as (_&K&V). by apply K.
Defined.

(** [Put] of a dirty page makes it the visible page of its ID and changes no
    other, evicting (after writing it back) at most the back of the list; when
    the write-back fails every page stays visible and the call reports it. *)
Theorem Put_visible {D} `{DiskLaws D} (s : BufferPool * D) (p : Page)
    (Hok : pool_ok s) (Hp : page_wf p) :
  let '(o, s') := Put p true s in
  pool_ok s' /\
  match o with
  | Ok _ => view s' (ID p) = Some p /\
            (forall id q, id <> ID p -> view s id = Some q -> view s' id = Some q)
  | Err _ => items s.1 !! ID p = None /\ keeps s s'
  | _ => False
  end.
Proof.
  pose proof (Put_spec s p Hok Hp) as HP. destruct (Put p true s) as [o s'].
  destruct HP as (?&_&HP). cbn in *. destruct o; naive_solver.
Qed.
Lemma Put_visible_witness :
  match Put (NewPage 5) true (NewBufferPool 1, ∅ : gmap Z Page) with
  | (Ok _, s') => view s' 5 = Some (NewPage 5)
  | _ => False
  end.
Proof.
  pose proof (Put_visible (NewBufferPool 1, ∅ : gmap Z Page) (NewPage 5)) as H.
  assert (is_ok (Put (NewPage 5) true (NewBufferPool 1, ∅ : gmap Z Page)).1 = true) as Hr by (vm_compute; reflexivity).
  destruct (Put _ _ _) as [[p| | |] s']; try discriminate Hr.
  destruct H as (_&H&_); [|by apply NewPage_wf|exact H].
  split; [apply NewBufferPool_inv|]. intros id e. cbn. by rewrite lookup_empty.
Defined.

(** replacement is least-recently-used: a successful [Get] or [Put] puts the
    page in front and the recency list keeps exactly its first [capacity]
    elements, so only the page used longest ago can have been evicted. *)
Theorem pool_lru {D} `{DiskLaws D} (s : BufferPool * D) (Hok : pool_ok s) :
  (forall id p s', 0 <= id < 2 ^ 32 -> Get id s = (Ok p, s') ->
    lru s'.1 = take (Z.to_nat (capacity s.1)) (MoveToFront id (lru s.1))) /\
  (forall p s', page_wf p -> Put p true s = (Ok tt, s') ->
    lru s'.1 = take (Z.to_nat (capacity s.1)) (MoveToFront (ID p) (lru s.1))).
Proof.
  split.
  - intros id p s' Hid E. pose proof (Get_spec s id Hok Hid) as HG. rewrite E in HG. by destruct HG as (_&_&_&_&?).
  - intros p s' Hp E. pose proof (Put_spec s p Hok Hp) as HG. rewrite E in HG. by destruct HG as (_&_&_&_&?).
Qed.
Lemma pool_lru_witness :
  lru (Put (NewPage 9) true
    (MkPool 2 {[1 := MkEntry (NewPage 1) true; 2 := MkEntry (NewPage 2) true]} [2; 1] 0 0, ∅ : gmap Z Page)).2.1 = [9; 2].
Proof.
  assert (pool_ok (MkPool 2 {[1 := MkEntry (NewPage 1) true; 2 := MkEntry (NewPage 2) true]} [2; 1] 0 0, ∅ : gmap Z Page)) as Hok.
  { split; [split|]; cbn.
    - lia.
    - by apply (bool_decide_unpack _).
    - intros id. rewrite !elem_of_cons, elem_of_nil, lookup_insert, lookup_singleton.
      repeat case_decide; naive_solver.
    - done.
    - intros id e. rewrite lookup_insert, lookup_singleton.
      repeat case_decide; intros; simplify_eq; (split; [by apply NewPage_wf|done]).
    - intros id e. cbn. rewrite lookup_insert, lookup_singleton. repeat case_decide; intros; simplify_eq. }
  destruct (pool_lru _ Hok) as [_ H]. rewrite (H (NewPage 9) _); [reflexivity|by apply NewPage_wf|].
  apply surjective_pairing.
Defined.

(** [Flush] is durable: whatever order the map is ranged over, after a
    successful flush every page a reader could see is on disk, byte for byte,
    and stays cached; a failed flush loses nothing. *)
Theorem Flush_durable {D} `{DiskLaws D} (b : BufferPool) (d : D) (order : list Z)
    (Hok : pool_ok (b, d)) (Horder : order ≡ₚ (map_to_list (items b)).*1) :
  exists o b' d', flushLoop order (b, d) = (o, (b', d')) /\ pool_ok (b', d') /\ keeps (b, d) (b', d') /\
  lru b' = lru b /\ pe_page <$> items b' = pe_page <$> items b /\
  (o = Ok tt -> forall id p, view (b, d) id = Some p -> disk_page d' id = Some p).
Proof.
  assert (forall id, id ∈ order <-> is_Some (items b !! id)) as Hdom.
  { intros id. rewrite Horder. apply elem_of_items. }
  destruct (flushLoop_spec order b d Hok) as (o&b'&d'&->&Hok'&Hc&Hl&Hi&_&Hd&Ho); [by intros; apply Hdom|].
  pose proof (flush_keeps b d b' d' (proj2 Hok') Hi Hd) as K.
  do 3 eexists. split; [reflexivity|]. split_and!; try done. intros ->.
  intros id p Hp. apply K in Hp. unfold view in Hp. cbn in *.
  destruct (items b' !! id) as [e|] eqn:E; [|done]. simplify_eq.
  apply Hok'; [done|]. apply (Ho id); [|done]. apply Hdom.
  apply (f_equal (.!! id)) in Hi. rewrite !lookup_fmap, E in Hi. by destruct (items b !! id).
Qed.
Lemma Flush_durable_witness :
  exists o b' d', flushLoop [1] (MkPool 2 {[1 := MkEntry (NewPage 1) true]} [1] 0 0, ∅ : gmap Z Page) = (o, (b', d')) /\
  (o = Ok tt -> disk_page d' 1 = Some (NewPage 1)).
Proof.
  destruct (Flush_durable (MkPool 2 {[1 := MkEntry (NewPage 1) true]} [1] 0 0) (∅ : gmap Z Page) [1])
    as (o&b'&d'&E&_&_&_&_&H).
  - split; [split|]; cbn.
    + lia.
    + by apply (bool_decide_unpack _).
    + intros id. rewrite elem_of_cons, elem_of_nil, lookup_singleton. case_decide; naive_solver.
    + done.
    + intros id e. rewrite lookup_singleton. case_decide; intros; simplify_eq.
      split; [by apply NewPage_wf|done].
    + intros id e. cbn. rewrite lookup_singleton. case_decide; intros; simplify_eq.
  - cbn [items]. by rewrite map_to_list_singleton.
  - exists o, b', d'. split; [exact E|]. intros Ho. apply (H Ho). unfold view. cbn. by rewrite lookup_singleton_eq.
Defined.
