(* ===== verification/Pager.v ===== *)
(** * The pager ([src/storage/pager.go])

    The pager owns the database file and serves pages by ID through the buffer
    pool. The file is its bytes plus an injectable write fault, so that the error
    paths of the pool and the pager are reachable, and the state of the handle:
    after [Close] every access fails. It is the instance of the pool's disk
    interface. Page structures are pointers in the source; every
    caller in [kv/] hands a page it has changed back with [WritePage], and between
    the change and that call it touches at most one other page, so the changed
    page is still among the 64 cached ones and cannot be evicted half-way: pages
    travel by value here. *)
From S2P Require Import Prelude Page BufferPool.

(** ** The operating system's file *)

Record File := MkFile { contents : bytes; write_fault : option error; fclosed : bool }.

(** [f.Close()], and the file that the next [os.OpenFile] finds. *)
Definition shut (f : File) : File := MkFile (contents f) (write_fault f) true.
Definition at_rest (f : File) : File := MkFile (contents f) (write_fault f) false.

Lemma at_rest_shut f : fclosed f = false -> at_rest (shut f) = f.
Proof. destruct f. cbn. by intros ->. Qed.
Lemma at_rest_open f : fclosed f = false -> at_rest f = f.
Proof. destruct f. cbn. by intros ->. Qed.

(** [f.ReadAt(buf[:n], off)]: all [n] bytes or [io.EOF]. *)
Definition ReadAt (n off : Z) (f : File) : outcome bytes :=
  if fclosed f then Err ErrFileClosed
  else if decide (0 <= off /\ off + n <= len (contents f))
  then Ok (slice (Z.to_nat off) (Z.to_nat (off + n)) (contents f))
  else Err EOF.

(** [f.WriteAt(data, off)]: writing past the end fills the gap with zeros. *)
Definition write_at (off : nat) (data c : bytes) : bytes :=
  splice off data (c ++ replicate (off + length data - length c) Byte.x00).

Definition WriteAt (data : bytes) (off : Z) (f : File) : outcome unit * File :=
  if fclosed f then (Err ErrFileClosed, f)
  else
    match write_fault f with
    | Some e => (Err e, f)
    | None => (Ok tt, {| contents := write_at (Z.to_nat off) data (contents f); write_fault := None; fclosed := false |})
    end.

(** [f.Sync()] forces what [WriteAt] already stored: the contents do not change. *)
Definition handle_Sync : M File unit := fun f => (if fclosed f then Err ErrFileClosed else Ok tt, f).
Definition handle_Close : M File unit := fun f => (if fclosed f then Err ErrFileClosed else Ok tt, shut f).

(** ** The pager *)

Definition readPageDisk (id : Z) (f : File) : outcome Page :=
  let offset := id * PageSize in
  match ReadAt PageSize offset f with
  | Ok d => Ok {| ID := id; Data := d |}
  | Err err => Err (Errorf "reading page %d: %w" [AInt id; AErr err])
  | Panic => Panic
  | NoFuel => NoFuel
  end.

Definition writePageDisk (page : Page) : M File unit :=
  let offset := ID page * PageSize in
  catch (WriteAt (Data page) offset)
    (fun err => fail (Errorf "writing page %d: %w" [AInt (ID page); AErr err])).

#[global] Instance FileDisk : Disk File := {
  readDisk := readPageDisk;
  writeDisk := writePageDisk
}.

Record Pager := MkPager { numPages : Z; pool : BufferPool; file : File }.

Definition with_pool {A} (m : M (BufferPool * File) A) : M Pager A :=
  zoom (fun p => (pool p, file p))
    (fun s p => {| numPages := numPages p; pool := s.1; file := s.2 |}) m.

Definition on_file {A} : M File A -> M Pager A :=
  zoom file (fun f p => {| numPages := numPages p; pool := pool p; file := f |}).

Definition set_numPages (f : Z -> Z) (p : Pager) : Pager :=
  {| numPages := f (numPages p); pool := pool p; file := file p |}.

(** [Open] on the (possibly just created, empty) file [f]: a new handle. *)
Definition Open (f : File) : outcome Pager :=
  let size := len (contents f) in
  if decide (size mod PageSize <> 0)
  then Err (Errorf "corrupt db file: size %d is not a multiple of page size %d" [AInt size; AInt PageSize])
  else Ok {| numPages := u32 (size / PageSize); pool := NewBufferPool 64; file := at_rest f |}.

Definition AllocatePage : M Pager Page :=
  id ← gets numPages;
  let page := NewPage id in
  _ ← modify (set_numPages (fun n => u32 (n + 1)));
  _ ← catch (with_pool (Put page true))
    (fun err => _ ← modify (set_numPages (fun n => u32 (n - 1))); fail err);
  mret page.

Definition ReadPage (id : Z) : M Pager Page :=
  n ← gets numPages;
  if decide (id >= n)
  then fail (Errorf "page %d does not exist (numPages=%d)" [AInt id; AInt n])
  else with_pool (Get id).

Definition WritePage (page : Page) : M Pager unit :=
  n ← gets numPages;
  if decide (ID page >= n)
  then fail (Errorf "page %d does not exist (numPages=%d)" [AInt (ID page); AInt n])
  else with_pool (Put page true).

Definition Flush : M Pager unit := with_pool BufferPool.Flush.

Definition Sync : M Pager unit := on_file handle_Sync.

(** [Close]: what is left is the file. *)
Definition Close : M Pager unit :=
  _ ← Flush;
  _ ← on_file handle_Sync;
  on_file handle_Close.

Definition NumPages (p : Pager) : Z := numPages p.

Definition PagerStats (p : Pager) : BufferPoolStats := Stats (pool p).

(** ** The file is a disk *)

Definition file_page (f : File) (id : Z) : option Page :=
  if decide (fclosed f = false /\ 0 <= id < 2 ^ 32 /\ (id + 1) * PageSize <= len (contents f))
  then Some {| ID := id; Data := slice (Z.to_nat (id * PageSize)) (Z.to_nat ((id + 1) * PageSize)) (contents f) |}
  else None.

Lemma length_write_at off data c :
  length (write_at off data c) = (length c `max` (off + length data))%nat.
Proof. unfold write_at. rewrite length_splice, length_app, length_replicate. lia. Qed.

Lemma write_at_same off data c : slice off (off + length data) (write_at off data c) = data.
Proof.
  unfold write_at. apply slice_splice_same. rewrite length_app, length_replicate. lia.
Qed.

Lemma write_at_other off data c lo hi :
  (hi <= length c)%nat -> (hi <= off \/ off + length data <= lo)%nat ->
  slice lo hi (write_at off data c) = slice lo hi c.
Proof.
  intros Hhi [Ho|Ho]; unfold write_at.
  - rewrite slice_splice_before, slice_app_l; [done|done|done|solve_length].
  - rewrite slice_splice_after, slice_app_l; [done|done|done|solve_length].
Qed.

Lemma write_page_other p c id :
  page_wf p -> 0 <= id -> (id + 1) * PageSize <= len c -> id <> ID p ->
  slice (Z.to_nat (id * PageSize)) (Z.to_nat ((id + 1) * PageSize))
    (write_at (Z.to_nat (ID p * PageSize)) (Data p) c) =
  slice (Z.to_nat (id * PageSize)) (Z.to_nat ((id + 1) * PageSize)) c.
Proof.
  intros [Hid Hl] Hid' Hlen Hne. apply write_at_other; unfold len, PageSize in *.
  - lia.
  - rewrite Hl. change (Z.to_nat 4096) with 4096%nat. lia.
Qed.

#[global] Program Instance FileDiskLaws : DiskLaws File := { disk_page := file_page }.
Next Obligation.
  intros f id p. unfold file_page. case_decide as Hd; [|done]. intros [= <-].
  split; [|done]. split; cbn; [lia|]. unfold len, PageSize in *. rewrite length_slice by lia. lia.
Qed.
Next Obligation.
  intros f id p. unfold file_page. case_decide as Hd; [|done]. intros [= <-]. cbn.
  unfold readPageDisk, ReadAt. destruct Hd as [-> Hd]. rewrite decide_True by (unfold PageSize in *; lia).
  by replace (id * PageSize + PageSize) with ((id + 1) * PageSize) by lia.
Qed.
Next Obligation.
  intros f id Hid. unfold file_page. case_decide as Hd; [done|]. intros _. cbn.
  unfold readPageDisk, ReadAt. destruct (fclosed f); [eauto|]. rewrite decide_False by (unfold PageSize in *; intuition lia). eauto.
Qed.
Next Obligation.
  intros p f Hwf. cbn. unfold writePageDisk, catch, WriteAt.
  destruct (fclosed f); [right; cbn; eauto|]. destruct (write_fault f) as [e|]; [right; cbn; eauto|left].
  eexists. split; [reflexivity|]. unfold file_page. cbn. destruct Hwf as [Hid Hl].
  rewrite decide_True; [|unfold len, PageSize in *; rewrite length_write_at, Hl; lia].
  replace (Z.to_nat ((ID p + 1) * PageSize)) with (Z.to_nat (ID p * PageSize) + length (Data p))%nat
    by (rewrite Hl; unfold PageSize in *; lia).
  rewrite write_at_same. by destruct p.
Qed.
Next Obligation.
  intros p f o f' id q Hwf. cbn. unfold writePageDisk, catch, WriteAt.
  destruct (fclosed f) eqn:Ho; [by intros [= <- <-]|]. destruct (write_fault f) as [e|]; [by intros [= <- <-]|]. intros [= <- <-] Hne.
  unfold file_page. cbn. case_decide as Hd; [|done]. intros [= <-].
  rewrite decide_True; [|unfold len in *; rewrite length_write_at; lia].
  by rewrite write_page_other by (try done; lia).
Qed.

(** ** The abstract pager: an array of pages *)

Record pager_rep (p : Pager) (ps : list Page) : Prop := {
  rep_pool : pool_ok (pool p, file p);
  rep_num : numPages p = len ps;
  rep_u32 : len ps < 2 ^ 32;
  rep_view (i : nat) q : ps !! i = Some q -> view (pool p, file p) (Z.of_nat i) = Some q;
  rep_cached id : is_Some (items (pool p) !! id) -> 0 <= id < len ps;
  rep_mod : len (contents (file p)) mod PageSize = 0;
  rep_size : len (contents (file p)) <= len ps * PageSize;
  rep_open : fclosed (file p) = false
}.

(** What the pool keeps true of the file: whole pages, at most [n] of them, the
    same health, an open handle. *)
Definition file_inv (n : Z) (w : option error) (f : File) : Prop :=
  len (contents f) mod PageSize = 0 /\ len (contents f) <= n * PageSize /\ write_fault f = w /\ fclosed f = false.

Lemma file_inv_write n w p f :
  page_wf p -> 0 <= ID p < n -> file_inv n w f -> file_inv n w (writeDisk p f).2.
Proof.
  intros [_ Hl] Hid (Hm&Hs&Hw&Ho). cbn. unfold writePageDisk, catch, WriteAt. rewrite Ho.
  destruct (write_fault f) as [e|] eqn:Ef; [unfold file_inv; cbn; by rewrite Ef|]. cbn. unfold file_inv. cbn. unfold len in *.
  rewrite length_write_at, Hl. split_and!; [|unfold PageSize in *; lia|done|done].
  destruct (Z.max_spec (Z.of_nat (length (contents f))) ((ID p + 1) * PageSize)) as [[? Hmax]|[? Hmax]];
    rewrite Nat2Z.inj_max, Nat2Z.inj_add, !Z2Nat.id by (unfold PageSize; lia);
    replace (ID p * PageSize + PageSize) with ((ID p + 1) * PageSize) by lia; rewrite Hmax; [|done].
  apply Z_mod_mult.
Qed.

Lemma file_inv_healthy n p f : page_wf p -> file_inv n None f -> (writeDisk p f).1 = Ok tt.
Proof. intros _ (_&_&Hw&Ho). cbn. unfold writePageDisk, catch, WriteAt. by rewrite Ho, Hw. Qed.

Lemma file_inv_mono n n' w f : n <= n' -> file_inv n w f -> file_inv n' w f.
Proof. intros ? (?&?&?&?). split; [done|split; [|done]]. unfold PageSize in *. lia. Qed.

Lemma rep_disk_ok p ps : pager_rep p ps ->
  disk_ok (fun id => 0 <= id < len ps) (file_inv (len ps) (write_fault (file p))) (pool p, file p).
Proof. intros R. split; [apply R|split]; [intros id; apply R|split_and!; [apply R|apply R|done|apply R]]. Qed.

Lemma rep_page p ps i q : pager_rep p ps -> ps !! i = Some q -> page_wf q /\ ID q = Z.of_nat i.
Proof. intros R Hq. eapply view_wf; [apply R|]. by eapply rep_view. Qed.

(** Rebuild the representation after a pool call. *)
Lemma pager_rep_intro n b f ps w :
  pool_ok (b, f) -> n = len ps -> len ps < 2 ^ 32 ->
  (forall (i : nat) q, ps !! i = Some q -> view (b, f) (Z.of_nat i) = Some q) ->
  cached_in (fun id => 0 <= id < len ps) b -> file_inv (len ps) w f ->
  pager_rep (MkPager n b f) ps.
Proof. intros ? ? ? ? ? (?&?&?&?). by split. Qed.

Lemma Open_spec f :
  len (contents f) mod PageSize = 0 -> len (contents f) / PageSize < 2 ^ 32 ->
  exists p, Open f = Ok p /\ file p = at_rest f /\
  forall ps, len ps = len (contents f) / PageSize ->
    (forall (i : nat) q, ps !! i = Some q -> file_page (at_rest f) (Z.of_nat i) = Some q) -> pager_rep p ps.
Proof.
  intros Hm Hn. unfold Open. rewrite decide_False by lia. eexists. split; [reflexivity|].
  split; [done|]. intros ps Hps Hpages.
  assert (0 <= len (contents f) / PageSize) by (apply Z.div_pos; unfold len, PageSize; lia).
  apply (pager_rep_intro _ _ _ _ (write_fault f)).
  - split; [apply NewBufferPool_inv|]. intros id e. cbn. by rewrite lookup_empty.
  - unfold u32. rewrite Z.mod_small by lia. done.
  - lia.
  - intros i q Hq. unfold view. cbn. rewrite lookup_empty. by apply Hpages.
  - intros id. cbn. rewrite lookup_empty. by intros [? ?].
  - split; [done|split; [|done]]. rewrite Hps. cbn [at_rest contents].
    pose proof (Z.div_mod (len (contents f)) PageSize). unfold PageSize in *. lia.
Qed.

Lemma with_pool_eq {A} (m : M (BufferPool * File) A) p :
  with_pool m p = let '(o, s) := m (pool p, file p) in (o, MkPager (numPages p) s.1 s.2).
Proof. done. Qed.

Lemma AllocatePage_spec p ps :
  pager_rep p ps -> len ps + 1 < 2 ^ 32 ->
  exists o p', AllocatePage p = (o, p') /\ write_fault (file p') = write_fault (file p) /\
  ((o = Ok (NewPage (len ps)) /\ pager_rep p' (ps ++ [NewPage (len ps)])) \/
   (write_fault (file p) <> None /\ pager_rep p' ps /\ exists e, o = Err e)).
Proof.
  intros R Hn. unfold AllocatePage, catch, fail. cbv [mbind M_bind gets modify mret M_ret]. cbn.
  rewrite with_pool_eq. cbn. rewrite (rep_num p ps R).
  assert (0 <= len ps) by (unfold len; lia).
  assert (page_wf (NewPage (len ps))) as Hwf by (apply NewPage_wf; lia).
  pose proof (Put_spec _ _ (rep_pool p ps R) Hwf) as HP.
  set (P := Put (NewPage (len ps)) true (pool p, file p)) in *.
  destruct (Put_disk _ _ (file_inv_write (len ps) (write_fault (file p))) _ (NewPage (len ps)) true (rep_disk_ok p ps R))
    as (HJ&He&Hc). fold P in HJ, He, Hc.
  destruct P as [o [b' f']] eqn:EP. destruct HP as (Hok'&_&HP). cbn in *.
  assert (write_fault f' = write_fault (file p)) by apply HJ.
  assert (len (ps ++ [NewPage (len ps)]) = len ps + 1) as Hlen by solve_length.
  destruct o as [[]|e| |]; try done; do 2 eexists; (split; [reflexivity|]); (split; [done|]).
  - left. split; [done|]. apply (pager_rep_intro _ _ _ _ (write_fault (file p))); rewrite ?Hlen; try done.
    + unfold u32. by rewrite Z.mod_small by lia.
    + destruct HP as (Hv&Ho&_). intros i q Hi. apply lookup_app_Some in Hi as [Hi|[Hge Hi]].
      * apply Ho; [|by apply R]. apply lookup_lt_Some in Hi. unfold len in *. cbn. lia.
      * apply list_lookup_singleton_Some in Hi as [Hi <-].
        replace (Z.of_nat i) with (len ps) by (unfold len in *; lia). apply Hv.
    + intros id [Hi|Hi]%Hc; cbn in *; lia.
    + eapply file_inv_mono; [|done]. lia.
  - right. destruct HP as [Hnone K]. split_and!; [|cbn|by eauto].
    + intros Hw0. pose proof (Put_healthy (file_inv (len ps) None) (file_inv_healthy (len ps))
        (pool p) (file p) (NewPage (len ps)) true (rep_pool p ps R)) as HH.
      unfold P in EP. rewrite EP in HH. discriminate HH. rewrite <- Hw0. apply rep_disk_ok, R.
    + apply (pager_rep_intro _ _ _ _ (write_fault (file p))); [done| |apply R| | |done].
      * cbn. unfold u32. rewrite Zminus_mod_idemp_l, Z.add_simpl_r. apply Z.mod_small. lia.
      * intros i q Hi. apply K. by apply R.
      * by apply He.
Qed.

Lemma ReadPage_spec p ps id :
  pager_rep p ps -> 0 <= id ->
  exists o p', ReadPage id p = (o, p') /\ write_fault (file p') = write_fault (file p) /\ pager_rep p' ps /\
  match ps !! Z.to_nat id with
  | Some q => o = Ok q \/ (write_fault (file p) <> None /\ exists e, o = Err e)
  | None => o = Err (Errorf "page %d does not exist (numPages=%d)" [AInt id; AInt (len ps)]) /\ p' = p
  end.
Proof.
  intros R Hid. unfold ReadPage, fail. cbv [mbind M_bind gets]. rewrite (rep_num p ps R).
  case_decide as Hge.
  { rewrite (proj2 (lookup_ge_None ps _)) by (unfold len in *; lia). do 2 eexists. split_and!; eauto. }
  destruct (lookup_lt_is_Some_2 ps (Z.to_nat id)) as [q Hq]; [unfold len in *; lia|]. rewrite Hq, with_pool_eq.
  pose proof (rep_u32 p ps R) as Hu. assert (0 <= id < 2 ^ 32) as Hu32 by lia.
  assert (view (pool p, file p) id = Some q) as Hv.
  { rewrite <- (Z2Nat.id id) by done. by apply R. }
  pose proof (Get_spec _ id (rep_pool p ps R) Hu32) as HG.
  destruct (Get_disk _ _ (file_inv_write (len ps) (write_fault (file p))) _ id (rep_disk_ok p ps R)) as [HJ Hc]; [lia|].
  destruct (Get id (pool p, file p)) as [o [b' f']] eqn:EG. destruct HG as (Hok'&_&HG). cbn [fst snd] in *.
  assert (keeps (pool p, file p) (b', f')) as K by (destruct o; naive_solver).
  assert (pager_rep (MkPager (len ps) b' f') ps).
  { apply (pager_rep_intro _ _ _ _ (write_fault (file p))); try done. intros i q' Hi. apply K. by apply R. }
  rewrite (rep_num p ps R).
  do 2 eexists. split; [reflexivity|]. split_and!; [apply HJ|done|]. destruct o as [q'|e| |]; try done.
  - left. destruct HG as [HG _]. congruence.
  - right. split; [|by eauto]. intros Hw.
    pose proof (Get_healthy (file_inv (len ps) None) (file_inv_healthy (len ps))
      (pool p) (file p) id q (rep_pool p ps R)) as HH. rewrite EG in HH.
    discriminate HH; try done. rewrite <- Hw. apply rep_disk_ok, R.
Qed.

Lemma WritePage_spec p ps q :
  pager_rep p ps -> page_wf q -> ID q < len ps ->
  exists o p', WritePage q p = (o, p') /\ write_fault (file p') = write_fault (file p) /\
  ((o = Ok tt /\ pager_rep p' (<[Z.to_nat (ID q) := q]> ps)) \/
   (write_fault (file p) <> None /\ pager_rep p' ps /\ exists e, o = Err e)).
Proof.
  intros R Hq Hlt. unfold WritePage. cbv [mbind M_bind gets]. rewrite (rep_num p ps R).
  rewrite decide_False by lia. rewrite with_pool_eq, (rep_num p ps R).
  assert (0 <= ID q) by apply Hq.
  pose proof (Put_spec _ _ (rep_pool p ps R) Hq) as HP.
  destruct (Put_disk _ _ (file_inv_write (len ps) (write_fault (file p))) _ q true (rep_disk_ok p ps R)) as (HJ&He&Hc).
  destruct (Put q true (pool p, file p)) as [o [b' f']] eqn:EP. destruct HP as (Hok'&_&HP). cbn [fst snd] in *.
  do 2 eexists. split; [reflexivity|]. split; [apply HJ|]. destruct o as [[]|e| |]; try done.
  - left. split; [done|]. destruct HP as (Hv&Ho&_).
    assert (len (<[Z.to_nat (ID q) := q]> ps) = len ps) as Hlen by solve_length.
    apply (pager_rep_intro _ _ _ _ (write_fault (file p))); rewrite ?Hlen; try done; [apply R| |].
    + intros i q' Hi. apply list_lookup_insert_Some in Hi as [(<-&->&_)|[Hne Hi]].
      * by rewrite Z2Nat.id.
      * apply Ho; [lia|]. by apply R.
    + intros id [->|Hi]%Hc; cbn in *; lia.
  - right. destruct HP as [Hnone K]. split_and!; [| |by eauto].
    + intros Hw0. pose proof (Put_healthy (file_inv (len ps) None) (file_inv_healthy (len ps))
        (pool p) (file p) q true (rep_pool p ps R)) as HH.
      rewrite EP in HH. discriminate HH. rewrite <- Hw0. apply rep_disk_ok, R.
    + apply (pager_rep_intro _ _ _ _ (write_fault (file p))); [done|done|apply R| |by apply He|done].
      intros i q' Hi. apply K. by apply R.
Qed.

(** Writing a page that does not exist is refused and changes nothing. *)
Lemma WritePage_missing p ps q :
  pager_rep p ps -> len ps <= ID q ->
  WritePage q p = (Err (Errorf "page %d does not exist (numPages=%d)" [AInt (ID q); AInt (len ps)]), p).
Proof.
  intros R Hlt. unfold WritePage, fail. cbv [mbind M_bind gets].
  by rewrite (rep_num p ps R), decide_True by lia.
Qed.

Lemma Flush_rep p ps :
  pager_rep p ps ->
  exists o p', Flush p = (o, p') /\ write_fault (file p') = write_fault (file p) /\ pager_rep p' ps /\
  ((o = Ok tt /\ forall i q, ps !! i = Some q -> file_page (file p') (Z.of_nat i) = Some q) \/
   (write_fault (file p) <> None /\ exists e, o = Err e)).
Proof.
  intros R. unfold Flush. rewrite with_pool_eq, (rep_num p ps R).
  pose proof (Flush_spec _ (rep_pool p ps R)) as HF.
  assert (disk_ok (fun id => 0 <= id < len ps) (file_inv (len ps) (write_fault (file p))) (pool p, file p)) as Hd
    by apply rep_disk_ok, R.
  pose proof (flushLoop_disk _ _ (file_inv_write (len ps) (write_fault (file p))) (map_to_list (items (pool p))).*1 _ Hd) as [HJ Hc].
  change (flushLoop (map_to_list (items (pool p))).*1 (pool p, file p)) with (BufferPool.Flush (pool p, file p)) in *.
  destruct (BufferPool.Flush (pool p, file p)) as [o [b' f']] eqn:EF. destruct HF as (Hok'&_&HF). cbn [fst snd] in *.
  do 2 eexists. split; [reflexivity|]. split_and!; [apply HJ|..].
  - apply (pager_rep_intro _ _ _ _ (write_fault (file p))); [done|done|apply R| |done|done].
    intros i q Hi. destruct o as [[]|e| |]; try done; destruct HF as [? ?]; [|].
    all: match goal with K : keeps _ _ |- _ => apply K end; by apply R.
  - destruct o as [[]|e| |]; try done.
    + left. split; [done|]. destruct HF as (_&_&HF). intros i q Hi. apply HF. by apply R.
    + right. split; [|by eauto]. intros Hw. rewrite Hw in Hd.
      pose proof (flushLoop_healthy _ _ (file_inv_write (len ps) None) (file_inv_healthy (len ps))
        (map_to_list (items (pool p))).*1 _ _ Hd ltac:(intros; by apply elem_of_items)) as HH.
      change (flushLoop (map_to_list (items (pool p))).*1 (pool p, file p)) with (BufferPool.Flush (pool p, file p)) in HH.
      by rewrite EF in HH.
Qed.

(** The pager after [Close]: the handle is shut. *)
Definition shut_pager (p : Pager) : Pager := MkPager (numPages p) (pool p) (shut (file p)).

Lemma Sync_open p : fclosed (file p) = false -> Sync p = (Ok tt, p).
Proof. intros Ho. unfold Sync, on_file, zoom, handle_Sync. rewrite Ho. by destruct p. Qed.

Lemma Close_flushed p p' : Flush p = (Ok tt, p') -> fclosed (file p') = false -> Close p = (Ok tt, shut_pager p').
Proof.
  intros E Ho. unfold Close. rewrite (bind_ok _ _ _ _ _ E), (bind_ok _ _ _ _ _ (Sync_open p' Ho)).
  unfold on_file, zoom, handle_Close. by rewrite Ho.
Qed.

Lemma Close_err p p' e : Flush p = (Err e, p') -> Close p = (Err e, p').
Proof. intros E. unfold Close. by apply bind_err. Qed.

(** Once every page is on disk, the file is exactly the page array. *)
Lemma rep_flushed_size p ps :
  pager_rep p ps -> (forall i q, ps !! i = Some q -> file_page (file p) (Z.of_nat i) = Some q) ->
  len (contents (file p)) = len ps * PageSize.
Proof.
  intros R HF. pose proof (rep_size p ps R). destruct (last ps) as [q|] eqn:El.
  - rewrite last_lookup in El. pose proof (lookup_lt_Some _ _ _ El) as Hlt.
    apply HF in El. unfold file_page in El. case_decide as Hd; [|done]. destruct Hd as [_ Hd].
    replace (Z.of_nat (pred (length ps)) + 1) with (len ps) in Hd by (unfold len; lia). lia.
  - apply last_None in El as ->. unfold len, PageSize in *. cbn in *. lia.
Qed.

Lemma reopen_rep p ps :
  pager_rep p ps -> (forall i q, ps !! i = Some q -> file_page (file p) (Z.of_nat i) = Some q) ->
  exists p', Open (shut (file p)) = Ok p' /\ file p' = file p /\ pager_rep p' ps.
Proof.
  intros R HF. pose proof (rep_flushed_size p ps R HF) as Hs.
  assert (len (contents (file p)) / PageSize = len ps) as Hdiv by (rewrite Hs; by apply Z_div_mult).
  destruct (Open_spec (shut (file p))) as (p'&E&Ef&HO); [apply R|cbn [shut contents]; rewrite Hdiv; apply R|].
  rewrite at_rest_shut in Ef, HO by apply R. exists p'. split_and!; [done..|]. apply HO; [cbn [shut contents]; by rewrite Hdiv|done].
Qed.

(** ** Properties *)

(** The calls a client makes, and what they do on an array of pages. *)
Inductive pager_op : Type :=
| OpAlloc
| OpRead (id : Z)
| OpWrite (q : Page)
| OpFlush.

Definition pager_step (op : pager_op) : M Pager (option Page) :=
  match op with
  | OpAlloc => Some <$> AllocatePage
  | OpRead id => Some <$> ReadPage id
  | OpWrite q => _ ← WritePage q; mret None
  | OpFlush => _ ← Flush; mret None
  end.

Definition no_page (id : Z) (ps : list Page) : error :=
  Errorf "page %d does not exist (numPages=%d)" [AInt id; AInt (len ps)].

Definition array_step (op : pager_op) (ps : list Page) : outcome (option Page) * list Page :=
  match op with
  | OpAlloc => (Ok (Some (NewPage (len ps))), ps ++ [NewPage (len ps)])
  | OpRead id =>
      match ps !! Z.to_nat id with
      | Some q => (Ok (Some q), ps)
      | None => (Err (no_page id ps), ps)
      end
  | OpWrite q =>
      if decide (ID q < len ps) then (Ok None, <[Z.to_nat (ID q) := q]> ps)
      else (Err (no_page (ID q) ps), ps)
  | OpFlush => (Ok None, ps)
  end.

(** Arguments of the Go types, and room for another page ID. *)
Definition op_ok (op : pager_op) (ps : list Page) : Prop :=
  match op with
  | OpAlloc => len ps + 1 < 2 ^ 32
  | OpRead id => 0 <= id
  | OpWrite q => page_wf q
  | OpFlush => True
  end.

Fixpoint run {S R} (step : pager_op -> S -> outcome R * S) (ops : list pager_op) (s : S) : list (outcome R) * S :=
  match ops with
  | [] => ([], s)
  | op :: ops =>
      let '(o, s) := step op s in
      let '(os, s) := run step ops s in (o :: os, s)
  end.

Fixpoint ops_ok (ops : list pager_op) (ps : list Page) : Prop :=
  match ops with
  | [] => True
  | op :: ops => op_ok op ps /\ ops_ok ops (array_step op ps).2
  end.

Lemma pager_step_refines op p ps :
  pager_rep p ps -> write_fault (file p) = None -> op_ok op ps ->
  exists p', pager_step op p = ((array_step op ps).1, p') /\
  pager_rep p' (array_step op ps).2 /\ write_fault (file p') = None.
Proof.
  intros R Hw Hop. destruct op as [|id|q|]; cbn in Hop |- *; unfold fmap, M_fmap; cbv [mbind M_bind mret M_ret].
  - destruct (AllocatePage_spec p ps R Hop) as (o&p'&->&Hw'&[(->&R')|(?&_)]); [|done].
    eexists. split_and!; [done|done|congruence].
  - destruct (ReadPage_spec p ps id R Hop) as (o&p'&->&Hw'&R'&Ho).
    destruct (ps !! Z.to_nat id).
    + destruct Ho as [->|[? _]]; [|done]. eexists. split_and!; [done|done|congruence].
    + destruct Ho as [-> ->]. eexists. split_and!; [done|done|congruence].
  - case_decide as Hd; cbn.
    + destruct (WritePage_spec p ps q R Hop Hd) as (o&p'&->&Hw'&[(->&R')|(?&_)]); [|done].
      eexists. split_and!; [done|done|congruence].
    + rewrite (WritePage_missing p ps q R) by lia. eexists. split_and!; done.
  - destruct (Flush_rep p ps R) as (o&p'&->&Hw'&R'&[[-> _]|[? _]]); [|done].
    eexists. split_and!; [done|done|congruence].
Qed.

(** C38: the pager refines an array of pages. On a healthy file, every sequence
    of allocations, reads, writes and flushes returns exactly what the array
    returns, errors included, and ends in a pager representing the array's final
    state: caching, write-back and eviction through the 64-page pool, and the
    translation of page IDs to file offsets, are invisible. *)
Theorem pager_refines_array (ops : list pager_op) (p : Pager) (ps : list Page)
    (R : pager_rep p ps) (Hw : write_fault (file p) = None) (Hops : ops_ok ops ps) :
  exists p', run pager_step ops p = ((run array_step ops ps).1, p') /\
  pager_rep p' (run array_step ops ps).2 /\ write_fault (file p') = None.
Proof.
  revert p ps R Hw Hops. induction ops as [|op ops IH]; intros p ps R Hw Hops; cbn.
  { eexists. split_and!; done. }
  destruct Hops as [Hop Hops]. destruct (pager_step_refines op p ps R Hw Hop) as (p1&->&R1&Hw1).
  destruct (array_step op ps) as [o ps1]. cbn in *.
  destruct (IH p1 ps1 R1 Hw1 Hops) as (p2&->&R2&Hw2).
  destruct (run array_step ops ps1) as [os ps2]. eexists. split_and!; done.
Qed.
Lemma empty_pager_rep :
  pager_rep (MkPager 0 (NewBufferPool 64) (MkFile [] None false)) [].
Proof.
  apply (pager_rep_intro _ _ _ _ None); [|done|done|done| |done].
  - split; [apply NewBufferPool_inv|]. intros id e. cbn. by rewrite lookup_empty.
  - intros id. cbn. rewrite lookup_empty. by intros [? ?].
Qed.
Lemma pager_refines_array_witness :
  exists p', run pager_step [OpAlloc; OpWrite (SetFreeOffset 99 (NewPage 0)); OpRead 0; OpRead 1]
    (MkPager 0 (NewBufferPool 64) (MkFile [] None false)) =
    ([Ok (Some (NewPage 0)); Ok None; Ok (Some (SetFreeOffset 99 (NewPage 0)));
      Err (no_page 1 [SetFreeOffset 99 (NewPage 0)])], p').
Proof.
  edestruct (pager_refines_array
    [OpAlloc; OpWrite (SetFreeOffset 99 (NewPage 0)); OpRead 0; OpRead 1] _ [] empty_pager_rep)
    as (p'&E&_); [reflexivity| |].
  - cbn. split_and!; try lia; try done.
  - exists p'. rewrite E. reflexivity.
Defined.

(** closing and reopening is lossless: after a successful [Close] the file is
    exactly [numPages] pages long and [Open] of it gives a pager with the same
    pages; on a healthy file [Close] does succeed. *)
Theorem close_reopen (p : Pager) (ps : list Page) (R : pager_rep p ps) :
  let '(o, p') := Close p in
  (write_fault (file p) = None -> o = Ok tt) /\
  (o = Ok tt -> len (contents (file p')) = len ps * PageSize /\
    exists p'', Open (file p') = Ok p'' /\ pager_rep p'' ps).
Proof.
  destruct (Flush_rep p ps R) as (o&p'&E&_&R'&Ho). destruct o as [[]|e| |]; [rewrite (Close_flushed _ _ E) by apply R'|rewrite (Close_err _ _ _ E)|naive_solver..].
  - split; [done|]. intros _. destruct Ho as [[_ HF]|[_ [? ?]]]; [|done]. split; [by apply (rep_flushed_size p' ps)|].
    destruct (reopen_rep p' ps R' HF) as (p''&?&_&?). eauto.
  - split; [|done]. intros ?. destruct Ho as [[? _]|[? _]]; done.
Qed.
Lemma close_reopen_witness :
  exists p', Close (AllocatePage (MkPager 0 (NewBufferPool 64) (MkFile [] None false))).2 = (Ok tt, p') /\
  len (contents (file p')) = 4096.
Proof.
  destruct (AllocatePage_spec _ [] empty_pager_rep) as (o&p&E&Hw&[[-> R]|[? _]]); [done| |done].
  pose proof (close_reopen p _ R) as H. rewrite E. cbn [snd].
  destruct (Close p) as [o p']. destruct H as [H1 H2].
  rewrite (H1 Hw) in *. exists p'. split; [reflexivity|]. apply (H2 eq_refl).
Defined.

(** a write fault loses nothing. When the file refuses writes, an allocation,
    a read or a page write that fails leaves the page array, and the page count,
    as they were (so the count [AllocatePage] had advanced is put back). *)
Theorem pager_fault_safe (p : Pager) (ps : list Page) (R : pager_rep p ps) (Hn : len ps + 1 < 2 ^ 32) :
  (forall e p', AllocatePage p = (Err e, p') -> pager_rep p' ps) /\
  (forall id e p', 0 <= id -> ReadPage id p = (Err e, p') -> pager_rep p' ps) /\
  (forall q e p', page_wf q -> WritePage q p = (Err e, p') -> pager_rep p' ps).
Proof.
  split_and!.
  - intros e p' E. destruct (AllocatePage_spec p ps R Hn) as (o&p1&E'&_&[[-> _]|(_&?&_)]); rewrite E in E'; by simplify_eq.
  - intros id e p' Hid E. destruct (ReadPage_spec p ps id R Hid) as (o&p1&E'&_&?&_); rewrite E in E'; by simplify_eq.
  - intros q e p' Hq E. destruct (decide (ID q < len ps)) as [Hd|Hd].
    + destruct (WritePage_spec p ps q R Hq Hd) as (o&p1&E'&_&[[-> _]|(_&?&_)]); rewrite E in E'; by simplify_eq.
    + rewrite (WritePage_missing p ps q R) in E by lia. by simplify_eq.
Qed.
Lemma pager_fault_safe_witness :
  let full := MkPool 1 {[0 := MkEntry (NewPage 0) true]} [0] 0 0 in
  let p := MkPager 1 full (MkFile [] (Some EOF) false) in
  exists e p', AllocatePage p = (Err e, p') /\ pager_rep p' [NewPage 0] /\ numPages p' = 1.
Proof.
  intros full p.
  assert (pager_rep p [NewPage 0]) as R.
  { apply (pager_rep_intro _ _ _ _ (Some EOF)); [|done|done| | |done].
    - split; [split|]; cbn.
      + lia.
      + by apply (bool_decide_unpack _).
      + intros id. rewrite elem_of_cons, elem_of_nil, lookup_singleton. case_decide; naive_solver.
      + done.
      + intros id e. rewrite lookup_singleton. case_decide; intros; simplify_eq.
        split; [by apply NewPage_wf|done].
      + intros id e. cbn. rewrite lookup_singleton. case_decide; intros; simplify_eq.
    - intros [|[|i]] q Hq; simplify_eq/=. done.
    - intros id. cbn. rewrite lookup_singleton. case_decide; [subst; intros _; unfold len; cbn; lia|by intros [? ?]]. }
  pose proof (pager_fault_safe p _ R) as (H&_); [done|].
  destruct (AllocatePage p) as [o p'] eqn:E.
  assert (is_ok (AllocatePage p).1 = false) as Hno by (vm_compute; reflexivity).
  assert (numPages (AllocatePage p).2 = 1) as Hnum by (vm_compute; reflexivity).
  destruct (AllocatePage_spec p _ R) as (o1&p1&E1&_&[[-> _]|(_&_&e&->)]); [done| |]; rewrite E in E1.
  - rewrite E, E1 in Hno. discriminate Hno.
  - injection E1 as -> ->. rewrite E in Hnum. exists e, p1. split; [reflexivity|]. split; [|exact Hnum].
    by apply (H e).
Defined.
