(* ===== verification/BTree.v ===== *)
(** * The B+Tree index ([src/kv/btree.go])

    Nodes are shared mutable objects linked by pointers (children, and the leaf
    chain [next]), so the tree is a heap of [btreeNode]s: a pointer is an address
    in [heap], [fresh] the next unused address, and every method a transformer of
    that heap. Dereferencing a missing node or indexing out of range is [Panic];
    the loops of the source take fuel, which [fresh] always covers. *)
From S2P Require Import Prelude OrderedMap.

Definition btreeOrder : nat := 32.

Record btreeNode := MkNode {
  leaf : bool;
  keys : list bytes;
  values : list bytes;
  children : list nat;
  next : option nat
}.

Record btree := MkTree { root : option nat; heap : gmap nat btreeNode; fresh : nat }.

(** The zero value of the Go type. *)
Definition empty_btree : btree := MkTree None ∅ 0.

(** ** Pointers *)

Definition deref (n : nat) : M btree btreeNode :=
  t ← get_state; lift (of_option (heap t !! n)).
Definition store (n : nat) (x : btreeNode) : M btree unit :=
  modify (fun t => MkTree (root t) (<[n := x]> (heap t)) (fresh t)).
Definition alloc (x : btreeNode) : M btree nat := fun t =>
  (Ok (fresh t), MkTree (root t) (<[fresh t := x]> (heap t)) (S (fresh t))).
Definition set_root (r : option nat) : M btree unit :=
  modify (fun t => MkTree r (heap t) (fresh t)).
(** [l[i]]. *)
Definition index {S A} (l : list A) (i : nat) : M S A := lift (of_option (l !! i)).

(** ** Search within a node *)

Fixpoint childIndex (keys : list bytes) (key : bytes) : nat :=
  match keys with
  | [] => O
  | k :: keys =>
      match bytes_compare key k with
      | Lt => O
      | _ => S (childIndex keys key)
      end
  end.

Fixpoint keyIndex_loop (fuel : nat) (keys : list bytes) (key : bytes) (lo hi : nat) : outcome nat :=
  if decide (lo < hi)%nat then
    match fuel with
    | O => NoFuel
    | S fuel =>
        let m := ((lo + hi) / 2)%nat in
        match keys !! m with
        | None => Panic
        | Some k =>
            match bytes_compare k key with
            | Lt => keyIndex_loop fuel keys key (m + 1) hi
            | _ => keyIndex_loop fuel keys key lo m
            end
        end
    end
  else Ok lo.

Definition keyIndex (keys : list bytes) (key : bytes) : outcome nat :=
  keyIndex_loop (length keys) keys key 0 (length keys).

(** ** Walking the tree *)

(** [for !n.leaf { n = n.children[0] }]. *)
Fixpoint leftmost (fuel : nat) (n : nat) : M btree nat :=
  match fuel with
  | O => lift NoFuel
  | S fuel =>
      x ← deref n;
      if leaf x then mret n else
      c ← index (children x) 0;
      leftmost fuel c
  end.

(** [for ; n != nil; n = n.next]: the entries of a leaf chain. *)
Fixpoint chainEntries (fuel : nat) (n : option nat) : M btree kvs :=
  match n with
  | None => mret []
  | Some n =>
      match fuel with
      | O => lift NoFuel
      | S fuel =>
          x ← deref n;
          rest ← chainEntries fuel (next x);
          mret (zip (keys x) (values x) ++ rest)
      end
  end.

Definition entries : M btree kvs :=
  t ← get_state;
  match root t with
  | None => mret []
  | Some r =>
      n ← leftmost (fresh t) r;
      chainEntries (fresh t) (Some n)
  end.

(** [for !n.leaf { n = n.children[childIndex(n.keys, key)] }]. *)
Fixpoint descend (fuel : nat) (n : nat) (key : bytes) : M btree btreeNode :=
  match fuel with
  | O => lift NoFuel
  | S fuel =>
      x ← deref n;
      if leaf x then mret x else
      c ← index (children x) (childIndex (keys x) key);
      descend fuel c key
  end.

Definition get (key : bytes) : M btree (option bytes) :=
  t ← get_state;
  match root t with
  | None => mret None
  | Some r =>
      n ← descend (fresh t) r key;
      i ← lift (keyIndex (keys n) key);
      match keys n !! i with
      | Some k =>
          if decide (k = key) then v ← index (values n) i; mret (Some v)
          else mret None
      | None => mret None
      end
  end.

(** ** Insertion *)

Definition splitChild (parent : nat) (i : nat) : M btree unit :=
  p ← deref parent;
  c ← index (children p) i;
  old ← deref c;
  let mid := (length (keys old) / 2)%nat in
  '(rp, sep) ←
    (if leaf old then
       sep ← index (drop mid (keys old)) 0;
       rp ← alloc (MkNode true (drop mid (keys old)) (drop mid (values old)) [] (next old));
       _ ← store c (MkNode true (take mid (keys old)) (take mid (values old)) (children old) (Some rp));
       mret (rp, sep)
     else
       let cut := (length (children old) / 2)%nat in
       sep ← index (keys old) (cut - 1);
       rp ← alloc (MkNode false (drop cut (keys old)) [] (drop cut (children old)) None);
       _ ← store c (MkNode false (take (cut - 1) (keys old)) (values old) (take cut (children old)) (next old));
       mret (rp, sep));
  p ← deref parent;
  store parent (MkNode (leaf p) (shift_insert i sep (keys p)) (values p)
    (shift_insert (i + 1) rp (children p)) (next p)).

Fixpoint insertNonFull (fuel : nat) (n : nat) (key value : bytes) : M btree unit :=
  match fuel with
  | O => lift NoFuel
  | S fuel =>
      x ← deref n;
      if leaf x then
        i ← lift (keyIndex (keys x) key);
        if decide (keys x !! i = Some key) then
          store n (MkNode true (keys x) (<[i := value]> (values x)) (children x) (next x))
        else
          store n (MkNode true (shift_insert i key (keys x)) (shift_insert i value (values x))
            (children x) (next x))
      else
        let i := childIndex (keys x) key in
        c ← index (children x) i;
        cn ← deref c;
        i ← (if decide (length (keys cn) = btreeOrder) then
               _ ← splitChild n i;
               x ← deref n;
               k ← index (keys x) i;
               mret (match bytes_compare key k with Lt => i | _ => S i end)
             else mret i);
        x ← deref n;
        c ← index (children x) i;
        insertNonFull fuel c key value
  end.

Definition put (key value : bytes) : M btree unit :=
  t ← get_state;
  match root t with
  | None =>
      n ← alloc (MkNode true [key] [value] [] None);
      set_root (Some n)
  | Some r =>
      x ← deref r;
      r ← (if decide (length (keys x) = btreeOrder) then
             n ← alloc (MkNode false [] [] [r] None);
             _ ← set_root (Some n);
             _ ← splitChild n 0;
             mret n
           else mret r);
      t ← get_state;
      insertNonFull (fresh t) r key value
  end.

(** ** Deletion: repack from the leaf chain *)

Fixpoint putAll (l : kvs) : M btree unit :=
  match l with
  | [] => mret tt
  | (k, v) :: l => _ ← put k v; putAll l
  end.

Definition delete (key : bytes) : M btree bool :=
  found ← get key;
  match found with
  | None => mret false
  | Some _ =>
      l ← entries;
      _ ← set_root None;
      _ ← putAll (filter (fun e => e.1 <> key) l);
      mret true
  end.
