(* ===== verification/BTreeInv.v ===== *)
(** * The B+Tree invariant

    The heap of [BTree] is described by a ghost tree: its shape in the heap, its
    search-tree ordering with separators, its node sizes and uniform depth, and
    the leaf chain. Every operation on the heap is matched with one on the ghost
    tree. *)
From S2P Require Import Prelude OrderedMap BTree.

(** A key bound: [None] is minus infinity on the left, plus infinity on the right. *)
Abbreviation bound := (option bytes).

(** Each child comes with the lower bound of its key range; from the second
    child on it is the separator key of the node. *)
Inductive tree : Type :=
| TLeaf (p : nat) (es : kvs)
| TNode (p : nat) (kids : list (bound * tree)).

Definition tloc (t : tree) : nat := match t with TLeaf p _ | TNode p _ => p end.

Fixpoint leaves (t : tree) : list (nat * kvs) :=
  match t with
  | TLeaf p es => [(p, es)]
  | TNode _ kids => flat_map (fun bc => leaves bc.2) kids
  end.

Fixpoint locs (t : tree) : list nat :=
  match t with
  | TLeaf p _ => [p]
  | TNode p kids => p :: flat_map (fun bc => locs bc.2) kids
  end.

Definition kleaves (kids : list (bound * tree)) : list (nat * kvs) := flat_map (fun bc => leaves bc.2) kids.
Definition klocs (kids : list (bound * tree)) : list nat := flat_map (fun bc => locs bc.2) kids.
Definition contents (t : tree) : kvs := concat (leaves t).*2.
Definition kcontents (kids : list (bound * tree)) : kvs := concat (kleaves kids).*2.

(** The separators of a node: the lower bounds of all children but the first. *)
Definition seps (kids : list (bound * tree)) : list bytes := omap fst (tail kids).

Definition nkeys (t : tree) : nat :=
  match t with TLeaf _ es => length es | TNode _ kids => length kids - 1 end.

(** ** Key ranges *)

Definition above (lo : bound) (k : bytes) : Prop := match lo with None => True | Some l => ~ bytes_lt k l end.
Definition strictly_above (lo : bound) (k : bytes) : Prop := match lo with None => True | Some l => bytes_lt l k end.
Definition below (hi : bound) (k : bytes) : Prop := match hi with None => True | Some h => bytes_lt k h end.
Definition in_range (lo hi : bound) (k : bytes) : Prop := above lo k /\ below hi k.

Inductive kids_wf (P : bound -> bound -> tree -> Prop) : bound -> bound -> list (bound * tree) -> Prop :=
| kids_one lo hi c : P lo hi c -> kids_wf P lo hi [(lo, c)]
| kids_cons lo hi s c rest :
    P lo (Some s) c -> strictly_above lo s -> below hi s ->
    kids_wf P (Some s) hi rest -> kids_wf P lo hi ((lo, c) :: rest).

(** Sorted leaves within their range, separators between children, at most
    [btreeOrder] keys per node, all leaves at depth [d]. *)
Fixpoint wf (d : nat) (lo hi : bound) (t : tree) : Prop :=
  match d, t with
  | O, TLeaf _ es => sorted_keys es /\ (forall k, k ∈ es.*1 -> in_range lo hi k) /\ (length es <= btreeOrder)%nat
  | S d, TNode _ kids => kids_wf (wf d) lo hi kids /\ (length kids <= S btreeOrder)%nat
  | _, _ => False
  end.

(** ** The heap *)

Fixpoint shape (d : nat) (h : gmap nat btreeNode) (t : tree) : Prop :=
  match d, t with
  | O, TLeaf p es => exists nx, h !! p = Some (MkNode true es.*1 es.*2 [] nx)
  | S d, TNode p kids =>
      h !! p = Some (MkNode false (seps kids) [] ((fun bc => tloc bc.2) <$> kids) None) /\
      Forall (fun bc => shape d h bc.2) kids
  | _, _ => False
  end.

Definition head_or (ls : list nat) (nxt : option nat) : option nat :=
  match ls with [] => nxt | l :: _ => Some l end.

(** The leaves are linked in order. *)
Fixpoint chain (h : gmap nat btreeNode) (ls : list nat) (nxt : option nat) : Prop :=
  match ls with
  | [] => True
  | l :: rest => next <$> h !! l = Some (head_or rest nxt) /\ chain h rest nxt
  end.

Definition leaf_locs (t : tree) : list nat := (leaves t).*1.

(** What an update of the subtree [t] to [t'] does to the heap around it. *)
Record step_rel (d : nat) (bt : btree) (t : tree) (bt' : btree) (t' : tree) : Prop := {
  st_shape : shape d (heap bt') t';
  st_nodup : NoDup (locs t');
  st_loc : tloc t' = tloc t;
  st_new l : l ∈ locs t' -> l ∈ locs t \/ (fresh bt <= l < fresh bt')%nat;
  st_fresh : (fresh bt <= fresh bt')%nat;
  st_frame l : l ∉ locs t -> (l < fresh bt)%nat -> heap bt' !! l = heap bt !! l;
  st_head nxt : head_or (leaf_locs t') nxt = head_or (leaf_locs t) nxt;
  st_chain nxt : chain (heap bt) (leaf_locs t) nxt -> chain (heap bt') (leaf_locs t') nxt;
  st_root : root bt' = root bt
}.

(** ** Lists of children *)

Lemma kleaves_app k1 k2 : kleaves (k1 ++ k2) = kleaves k1 ++ kleaves k2.
Proof. apply flat_map_app. Qed.
Lemma klocs_app k1 k2 : klocs (k1 ++ k2) = klocs k1 ++ klocs k2.
Proof. apply flat_map_app. Qed.
Lemma kcontents_app k1 k2 : kcontents (k1 ++ k2) = kcontents k1 ++ kcontents k2.
Proof. unfold kcontents. by rewrite kleaves_app, fmap_app, concat_app. Qed.
Lemma kcontents_cons b c k : kcontents ((b, c) :: k) = contents c ++ kcontents k.
Proof. unfold kcontents, contents, kleaves. cbn [flat_map snd]. by rewrite fmap_app, concat_app. Qed.
Lemma klocs_cons b c k : klocs ((b, c) :: k) = locs c ++ klocs k.
Proof. done. Qed.
Lemma kleaves_cons b c k : kleaves ((b, c) :: k) = leaves c ++ kleaves k.
Proof. done. Qed.
Lemma contents_node p kids : contents (TNode p kids) = kcontents kids.
Proof. done. Qed.

Lemma elem_of_klocs l kids : l ∈ klocs kids <-> exists bc, bc ∈ kids /\ l ∈ locs bc.2.
Proof.
  induction kids as [|[b c] kids IH]; [set_solver|].
  rewrite klocs_cons, elem_of_app, IH. set_solver.
Qed.

Lemma kids_wf_nonempty P lo hi kids : kids_wf P lo hi kids -> exists c rest, kids = (lo, c) :: rest.
Proof. destruct 1; eauto. Qed.

Lemma kids_wf_impl (P Q : bound -> bound -> tree -> Prop) lo hi kids :
  (forall lo hi c, P lo hi c -> Q lo hi c) -> kids_wf P lo hi kids -> kids_wf Q lo hi kids.
Proof. intros HPQ. induction 1; econstructor; eauto. Qed.

(** ** Ranges *)

Lemma above_trans lo s k : strictly_above lo s -> ~ bytes_lt k s -> above lo k.
Proof.
  destruct lo as [l|]; [|done]. simpl. intros H1 H2 H3. apply H2. eauto with godb.
Qed.

Lemma below_trans hi s k : below hi s -> bytes_lt k s -> below hi k.
Proof. destruct hi as [h|]; [|done]. simpl. eauto with godb. Qed.

Lemma kids_range d lo hi kids k :
  (forall lo hi c, wf d lo hi c -> forall k, k ∈ (contents c).*1 -> in_range lo hi k) ->
  kids_wf (wf d) lo hi kids -> k ∈ (kcontents kids).*1 -> in_range lo hi k.
Proof.
  intros HP H. induction H as [lo hi c Hc|lo hi s c rest Hc Hlo Hhi Hr IH];
    rewrite kcontents_cons, fmap_app, elem_of_app.
  - intros [Hk|Hk]; [by eapply HP|set_solver].
  - intros [Hk|Hk].
    + destruct (HP _ _ _ Hc _ Hk) as [? ?]. split; [done|]. by eapply below_trans.
    + destruct (IH Hk) as [? ?]. split; [|done]. by eapply above_trans.
Qed.

Lemma wf_range d lo hi t k : wf d lo hi t -> k ∈ (contents t).*1 -> in_range lo hi k.
Proof.
  revert lo hi t k. induction d as [|d IH]; intros lo hi [p es|p kids] k; cbn [wf]; try done.
  - intros (_&H&_). unfold contents. cbn. rewrite app_nil_r. apply H.
  - intros [H _]. rewrite contents_node. eapply kids_range; eauto.
Qed.

Lemma kids_wf_range d lo hi kids k :
  kids_wf (wf d) lo hi kids -> k ∈ (kcontents kids).*1 -> in_range lo hi k.
Proof. apply kids_range. intros. by eapply wf_range. Qed.

Lemma wf_sorted d lo hi t : wf d lo hi t -> sorted_keys (contents t).
Proof.
  revert lo hi t. induction d as [|d IH]; intros lo hi [p es|p kids]; cbn [wf]; try done.
  - intros (H&_). unfold contents. cbn. by rewrite app_nil_r.
  - intros [H _]. rewrite contents_node.
    induction H as [lo hi c Hc|lo hi s c rest Hc Hlo Hhi Hr IHr]; rewrite kcontents_cons.
    + rewrite app_nil_r. eauto.
    + apply sorted_keys_app. split_and!; eauto. intros k k' Hk Hk'.
      apply (wf_range _ _ _ _ _ Hc) in Hk as [_ Hk]. apply (kids_wf_range _ _ _ _ _ Hr) in Hk' as [Hk' _].
      simpl in *. apply bytes_nlt_le in Hk' as [->|]; eauto with godb.
Qed.

(** ** Choosing and replacing a child *)

Lemma kids_wf_app P lo hi pre s c post :
  kids_wf P lo (Some s) pre -> kids_wf P (Some s) hi ((Some s, c) :: post) ->
  strictly_above lo s -> below hi s -> kids_wf P lo hi (pre ++ (Some s, c) :: post).
Proof.
  intros H. remember (Some s) as hs eqn:Ehs. revert Ehs.
  induction H as [lo hs c0 Hc0|lo hs s0 c0 rest Hc0 Hlo Hhi Hr IH]; intros -> Hpost Hs Hh; cbn [app].
  - by eapply kids_cons.
  - eapply kids_cons; [done|done| |].
    + by eapply below_trans.
    + apply IH; done.
Qed.

Lemma kids_wf_split P lo hi pre s c post :
  pre <> [] -> kids_wf P lo hi (pre ++ (Some s, c) :: post) ->
  kids_wf P lo (Some s) pre /\ kids_wf P (Some s) hi ((Some s, c) :: post) /\
  strictly_above lo s /\ below hi s.
Proof.
  revert lo. induction pre as [|[b c0] pre IH]; intros lo Hne H; [done|].
  cbn [app] in H. inversion H as [|? ? s0 ? ? Hc0 Hlo Hhi Hr]; subst; [by destruct pre|].
  destruct pre as [|[b1 c1] pre].
  - cbn [app] in Hr. assert (s0 = s) as -> by (by inversion Hr).
    split_and!; [by constructor|done..].
  - destruct (IH (Some s0) ltac:(done) Hr) as (H1&H2&H3&H4).
    split_and!; [by eapply kids_cons|done| |done].
    match goal with |- strictly_above ?x _ => destruct x end; simpl in *; eauto with godb.
Qed.

(** The child [childIndex] picks is the one whose range holds the key; what is
    left of it is smaller than the key, what is right of it larger, and any
    replacement covering the same range keeps the node well formed. *)
Lemma childIndex_focus d lo hi kids key :
  kids_wf (wf d) lo hi kids -> in_range lo hi key ->
  exists pre l h c post, kids = pre ++ (l, c) :: post /\ length pre = childIndex (seps kids) key /\
    wf d l h c /\ in_range l h key /\
    (forall new, kids_wf (wf d) l h new -> kids_wf (wf d) lo hi (pre ++ new ++ post)) /\
    (forall k, k ∈ (kcontents pre).*1 -> bytes_lt k key) /\
    (forall k, k ∈ (kcontents post).*1 -> bytes_lt key k).
Proof.
  intros H. induction H as [lo hi c Hc|lo hi s c rest Hc Hlo Hhi Hr IH]; intros Hk.
  - exists [], lo, hi, c, []. split_and!; try done; try set_solver.
    intros new. by rewrite app_nil_r.
  - destruct (kids_wf_nonempty _ _ _ _ Hr) as (c1&rest1&->).
    assert (seps ((lo, c) :: (Some s, c1) :: rest1) = s :: seps ((Some s, c1) :: rest1)) as -> by done.
    cbn [childIndex].
    assert (bytes_lt key s \/ (~ bytes_lt key s /\ bytes_compare key s <> Lt)) as Hcase.
    { destruct (bytes_compareP key s) as [->| |]; [right|by left|right].
      - split; [apply bytes_lt_irrefl|done].
      - split; [|done]. apply bytes_nlt_le. auto. }
    destruct Hcase as [Hlt|[Hge Hne]].
    + assert (bytes_compare key s = Lt) as -> by (unfold bytes_lt, bytes_ltb in Hlt; by destruct (bytes_compare key s)).
      exists [], lo, (Some s), c, ((Some s, c1) :: rest1).
      split_and!; try done; [by split; [apply Hk|]|..|set_solver|].
      * intros new Hnew. cbn [app]. by eapply kids_wf_app.
      * intros k Hin. apply (kids_wf_range _ _ _ _ _ Hr) in Hin as [Hin _]. simpl in Hin.
        apply bytes_nlt_le in Hin as [->|]; eauto with godb.
    + destruct IH as (pre&l&h&cc&post&E&Hlen&Hwf&Hr'&Hrep&Hpre&Hpost); [split; [done|apply Hk]|].
      exists ((lo, c) :: pre), l, h, cc, post. rewrite E. split_and!; try done.
      * cbn [length]. rewrite Hlen, E. by destruct (bytes_compare key s).
      * intros new Hnew. apply Hrep in Hnew.
        cbn [app]. by eapply kids_cons.
      * intros k. rewrite kcontents_cons, fmap_app, elem_of_app. intros [Hin|Hin]; [|by apply Hpre].
        apply (wf_range _ _ _ _ _ Hc) in Hin as [_ Hin]. simpl in Hin.
        apply bytes_nlt_le in Hge as [->|]; eauto with godb.
Qed.

Lemma seps_length P lo hi kids : kids_wf P lo hi kids -> length (seps kids) = (length kids - 1)%nat.
Proof.
  unfold seps. induction 1 as [|? ? s c rest ? ? ? Hr IH]; [done|].
  destruct (kids_wf_nonempty _ _ _ _ Hr) as (c1&rest1&->).
  cbn [tail length omap list_omap fst] in *. lia.
Qed.

Lemma nkeys_keys d h t lo hi nx :
  shape d h t -> wf d lo hi t -> h !! tloc t = Some nx -> length (keys nx) = nkeys t.
Proof.
  destruct d as [|d], t as [p es|p kids]; cbn [shape wf tloc nkeys]; try done.
  - intros [? ->] _ [= <-]. cbn. apply length_fmap.
  - intros [-> _] [H _] [= <-]. cbn. by eapply seps_length.
Qed.

(** ** Frames *)

Lemma shape_frame d h h' t :
  shape d h t -> (forall l, l ∈ locs t -> h' !! l = h !! l) -> shape d h' t.
Proof.
  revert t. induction d as [|d IH]; intros [p es|p kids]; cbn [shape]; try done.
  - intros [nx Hp] E. exists nx. rewrite E; [done|]. set_solver.
  - intros [Hp Hk] E. split; [rewrite E; [done|]; cbn; set_solver|].
    rewrite Forall_forall in Hk |- *. intros bc Hbc. apply IH; [by apply Hk|].
    intros l Hl. apply E. cbn. apply elem_of_cons. right. apply elem_of_klocs. eauto.
Qed.

Lemma chain_frame h h' ls nxt :
  (forall l, l ∈ ls -> next <$> h' !! l = next <$> h !! l) -> chain h ls nxt -> chain h' ls nxt.
Proof.
  induction ls as [|l ls IH]; intros E; [done|]. intros [H1 H2]. split.
  - rewrite E by set_solver. done.
  - apply IH; [set_solver|done].
Qed.

Lemma chain_app h l1 l2 nxt : chain h (l1 ++ l2) nxt <-> chain h l1 (head_or l2 nxt) /\ chain h l2 nxt.
Proof.
  induction l1 as [|l l1 IH]; cbn [app chain]; [tauto|]. rewrite IH.
  destruct l1; cbn [app head_or]; tauto.
Qed.

Lemma head_or_app l1 l2 nxt : head_or (l1 ++ l2) nxt = head_or l1 (head_or l2 nxt).
Proof. by destruct l1. Qed.

Lemma elem_of_kleaves l kids : l ∈ (kleaves kids).*1 <-> exists bc, bc ∈ kids /\ l ∈ leaf_locs bc.2.
Proof.
  induction kids as [|[b c] kids IH]; [set_solver|].
  rewrite kleaves_cons, fmap_app, elem_of_app, IH. unfold leaf_locs. set_solver.
Qed.

Lemma leaf_locs_sub d h t l : shape d h t -> l ∈ leaf_locs t -> l ∈ locs t.
Proof.
  revert t. induction d as [|d IH]; intros [p es|p kids]; cbn [shape]; try done.
  intros [_ H] Hl. apply elem_of_kleaves in Hl as (bc&Hbc&Hl).
  rewrite Forall_forall in H. apply elem_of_cons. right. apply elem_of_klocs. eauto.
Qed.

Lemma leaf_locs_node p pre b c post :
  leaf_locs (TNode p (pre ++ (b, c) :: post)) = (kleaves pre).*1 ++ leaf_locs c ++ (kleaves post).*1.
Proof. change (leaf_locs (TNode p ?k)) with ((kleaves k).*1). by rewrite kleaves_app, kleaves_cons, !fmap_app. Qed.

Lemma locs_node p pre b c post :
  locs (TNode p (pre ++ (b, c) :: post)) = p :: klocs pre ++ locs c ++ klocs post.
Proof. change (locs (TNode p ?k)) with (p :: klocs k). by rewrite klocs_app, klocs_cons. Qed.

(** ** Binary search *)

(** [i] splits the keys into the smaller ones and the others. *)
Definition split_point (ks : list bytes) (key : bytes) (i : nat) : Prop :=
  (i <= length ks)%nat /\
  (forall (j : nat) k, (j < i)%nat -> ks !! j = Some k -> bytes_lt k key) /\
  (forall (j : nat) k, (i <= j)%nat -> ks !! j = Some k -> ~ bytes_lt k key).

Lemma sorted_lookup ks (i j : nat) a b :
  StronglySorted bytes_lt ks -> (i < j)%nat -> ks !! i = Some a -> ks !! j = Some b -> bytes_lt a b.
Proof.
  intros H. revert i j. induction H as [|k ks Hs IH Hk]; intros i j Hij Ha Hb; [done|].
  destruct j as [|j]; [lia|]. destruct i as [|i]; simpl in *.
  - simplify_eq. rewrite Forall_forall in Hk. apply Hk. by eapply list_elem_of_lookup_2.
  - apply (IH i j); [lia|done..].
Qed.

Lemma keyIndex_loop_spec fuel ks key lo hi :
  StronglySorted bytes_lt ks -> (hi - lo <= fuel)%nat -> (lo <= hi <= length ks)%nat ->
  (forall (j : nat) k, (j < lo)%nat -> ks !! j = Some k -> bytes_lt k key) ->
  (forall (j : nat) k, (hi <= j)%nat -> ks !! j = Some k -> ~ bytes_lt k key) ->
  exists i, keyIndex_loop fuel ks key lo hi = Ok i /\ split_point ks key i.
Proof.
  intros Hs. revert lo hi. induction fuel as [|fuel IH]; intros lo hi Hf Hb Hlo Hhi; cbn [keyIndex_loop].
  { rewrite decide_False by lia. exists lo. split; [done|]. split_and!; try lia; [done|].
    intros j k Hj. apply Hhi. lia. }
  case_decide as Hlt; cycle 1.
  { exists lo. split; [done|]. split_and!; try lia; [done|]. intros j k Hj. apply Hhi. lia. }
  set (m := ((lo + hi) / 2)%nat).
  assert (lo <= m < hi)%nat as Hm.
  { unfold m. split; [apply Nat.div_le_lower_bound; lia|apply Nat.div_lt_upper_bound; lia]. }
  destruct (lookup_lt_is_Some_2 ks m) as [k Hk]; [lia|]. rewrite Hk.
  assert (bytes_lt k key -> bytes_compare k key = Lt) as Hc.
  { unfold bytes_lt, bytes_ltb. by destruct (bytes_compare k key). }
  destruct (decide (bytes_lt k key)) as [Hkk|Hkk].
  - rewrite Hc by done. apply IH; try lia; [|done]. intros j k' Hj Hk'.
    destruct (decide (j = m)) as [->|]; [naive_solver|].
    eapply bytes_lt_trans; [|exact Hkk]. eapply (sorted_lookup ks j m); eauto. lia.
  - assert (bytes_compare k key <> Lt) as Hc'.
    { intros E. apply Hkk. unfold bytes_lt, bytes_ltb. by rewrite E. }
    enough (exists i, keyIndex_loop fuel ks key lo m = Ok i /\ split_point ks key i) as (i&?&?).
    { exists i. by destruct (bytes_compare k key). }
    apply IH; try lia; [done|]. intros j k' Hj Hk' Hlt'. apply Hkk.
    destruct (decide (j = m)) as [->|]; [naive_solver|].
    eapply bytes_lt_trans; [|exact Hlt']. eapply (sorted_lookup ks m j); eauto. lia.
Qed.

Lemma keyIndex_spec ks key :
  StronglySorted bytes_lt ks -> exists i, keyIndex ks key = Ok i /\ split_point ks key i.
Proof.
  intros Hs. apply keyIndex_loop_spec; try done; try lia.
  intros j k Hj Hk. apply lookup_lt_Some in Hk. lia.
Qed.

(** The split point decides lookup and insertion in a sorted list. *)
Lemma split_point_get es key i :
  sorted_keys es -> split_point es.*1 key i ->
  kv_get key es = match es !! i with Some (k, v) => if decide (k = key) then Some v else None | None => None end.
Proof.
  intros Hs (Hi&Hl&Hr). rewrite length_fmap in Hi.
  rewrite <- (take_drop i es) at 1. rewrite <- (app_nil_r (drop i es)).
  assert (kv_get key (take i es ++ drop i es ++ []) = kv_get key (drop i es)) as ->.
  { apply kv_get_app; [|set_solver]. intros k Hk. apply list_elem_of_lookup in Hk as [j Hj].
    rewrite fmap_take in Hj. apply lookup_take_Some in Hj as [Hj ?]. eauto. }
  destruct (es !! i) as [[k v]|] eqn:E; [|by rewrite drop_ge by (by apply lookup_ge_None)].
  rewrite (drop_S es _ i E). cbn [kv_get]. case_decide as Hd; [by rewrite decide_True|].
  rewrite decide_False by congruence. apply kv_get_None. intros Hin.
  apply list_elem_of_lookup in Hin as [j Hj]. rewrite fmap_drop, lookup_drop in Hj.
  assert (bytes_lt k key).
  { eapply (sorted_lookup es.*1 i (S i + j)); eauto; [lia|]. by rewrite list_lookup_fmap, E. }
  eapply (Hr i k); [lia| |done]. by rewrite list_lookup_fmap, E.
Qed.

Lemma split_point_put es key v i :
  sorted_keys es -> split_point es.*1 key i ->
  kv_put key v es = take i es ++ (key, v) ::
    (if decide (es.*1 !! i = Some key) then drop (S i) es else drop i es).
Proof.
  intros Hs (Hi&Hl&Hr). rewrite length_fmap in Hi.
  rewrite <- (take_drop i es) at 1. rewrite <- (app_nil_r (drop i es)) at 1.
  assert (kv_put key v (take i es ++ drop i es ++ []) = take i es ++ kv_put key v (drop i es) ++ []) as ->.
  { apply kv_put_app; [|set_solver]. intros k Hk. apply list_elem_of_lookup in Hk as [j Hj].
    rewrite fmap_take in Hj. apply lookup_take_Some in Hj as [Hj ?]. eauto. }
  rewrite app_nil_r. f_equal.
  destruct (es !! i) as [[k w]|] eqn:E; rewrite list_lookup_fmap, E; cbn.
  - rewrite (drop_S es _ i E). cbn [kv_put].
    assert (~ bytes_lt k key) as Hk by (apply (Hr i); [lia|by rewrite list_lookup_fmap, E]).
    destruct (bytes_compareP key k) as [->| |]; [by rewrite decide_True| |done].
    rewrite decide_False; [done|]. intros [= ->]. by eapply bytes_lt_irrefl.
  - rewrite drop_ge by (by apply lookup_ge_None). done.
Qed.

(** ** Reading *)

Lemma deref_ok n x t : heap t !! n = Some x -> deref n t = (Ok x, t).
Proof. intros E. unfold deref. cbv [mbind M_bind get_state lift]. by rewrite E. Qed.

Lemma index_ok {S A} (l : list A) i a (s : S) : l !! i = Some a -> index l i s = (Ok a, s).
Proof. intros E. unfold index, lift. by rewrite E. Qed.

Lemma lookup_middle_loc (pre : list (bound * tree)) b c post i :
  length pre = i -> ((fun bc => tloc bc.2) <$> (pre ++ (b, c) :: post)) !! i = Some (tloc c).
Proof.
  intros <-. rewrite list_lookup_fmap, lookup_app_r, Nat.sub_diag by done. done.
Qed.

Lemma shape_child d h p pre b c post :
  shape (S d) h (TNode p (pre ++ (b, c) :: post)) -> shape d h c.
Proof. intros [_ H]. rewrite Forall_app, Forall_cons in H. tauto. Qed.

Lemma descend_spec d fuel bt lo hi t key :
  (d < fuel)%nat -> shape d (heap bt) t -> wf d lo hi t -> in_range lo hi key ->
  exists es nx, descend fuel (tloc t) key bt = (Ok (MkNode true es.*1 es.*2 [] nx), bt) /\
  sorted_keys es /\ kv_get key (contents t) = kv_get key es.
Proof.
  revert fuel lo hi t. induction d as [|d IH]; intros [|fuel] lo hi [p es|p kids] Hf Hsh Hwf Hk;
    cbn [shape wf] in *; try lia; try done; cbn [descend tloc].
  - destruct Hsh as [nx Hp]. rewrite (bind_ok _ _ _ _ _ (deref_ok _ _ _ Hp)). cbn.
    exists es, nx. split_and!; [done|apply Hwf|]. unfold contents. cbn. by rewrite app_nil_r.
  - destruct Hwf as [Hwf Hn]. pose proof Hsh as [Hp _].
    rewrite (bind_ok _ _ _ _ _ (deref_ok _ _ _ Hp)). cbn [leaf children BTree.keys].
    destruct (childIndex_focus d lo hi kids key Hwf Hk) as (pre&l&h&c&post&->&Hi&Hc&Hr&_&Hpre&Hpost).
    rewrite (bind_ok _ _ _ _ _ (index_ok _ _ _ _ (lookup_middle_loc pre l c post _ Hi))).
    destruct (IH fuel l h c ltac:(lia) (shape_child d _ p pre l c post Hsh) Hc Hr) as (es&nx&E&Hs&Hg).
    exists es, nx. split_and!; [done..|].
    rewrite contents_node, kcontents_app, kcontents_cons. rewrite <- Hg. by apply kv_get_app.
Qed.

Lemma leftmost_spec d fuel bt lo hi t :
  (d < fuel)%nat -> shape d (heap bt) t -> wf d lo hi t ->
  exists l, leftmost fuel (tloc t) bt = (Ok l, bt) /\ forall nxt, head_or (leaf_locs t) nxt = Some l.
Proof.
  revert fuel lo hi t. induction d as [|d IH]; intros [|fuel] lo hi [p es|p kids] Hf Hsh Hwf;
    cbn [shape wf] in *; try lia; try done; cbn [leftmost tloc].
  - destruct Hsh as [nx Hp]. rewrite (bind_ok _ _ _ _ _ (deref_ok _ _ _ Hp)). cbn. eauto.
  - destruct Hwf as [Hwf Hn]. pose proof Hsh as [Hp _].
    rewrite (bind_ok _ _ _ _ _ (deref_ok _ _ _ Hp)). cbn [leaf children].
    destruct (kids_wf_nonempty _ _ _ _ Hwf) as (c&rest&->).
    rewrite (bind_ok _ _ _ _ _ (index_ok _ _ _ _ (lookup_middle_loc [] lo c rest 0 eq_refl))).
    assert (exists h, wf d lo h c) as [h Hc] by (inversion Hwf; subst; eauto).
    destruct (IH fuel lo h c ltac:(lia) (shape_child d _ p [] lo c rest Hsh) Hc) as (l&E&Hl).
    exists l. split; [done|]. intros nxt. unfold leaf_locs. cbn [leaves flat_map snd].
    rewrite fmap_app, head_or_app. apply Hl.
Qed.

(** A chained list of leaves with their entries. *)
Lemma chainEntries_spec fuel bt (ls : list (nat * kvs)) :
  (length ls <= fuel)%nat -> chain (heap bt) ls.*1 None ->
  (forall l es, (l, es) ∈ ls -> exists nx, heap bt !! l = Some (MkNode true es.*1 es.*2 [] nx)) ->
  chainEntries fuel (head_or ls.*1 None) bt = (Ok (concat ls.*2), bt).
Proof.
  revert fuel. induction ls as [|[l es] ls IH]; intros fuel Hf Hc Hn; [by destruct fuel|].
  destruct fuel as [|fuel]; [simpl in Hf; lia|]. cbn [fmap list_fmap fst head_or chainEntries].
  destruct (Hn l es ltac:(set_solver)) as [nx Hl].
  rewrite (bind_ok _ _ _ _ _ (deref_ok _ _ _ Hl)). cbn [BTree.next BTree.keys values].
  destruct Hc as [Hnx Hc]. cbn [fst] in Hnx. rewrite Hl in Hnx. cbn in Hnx. injection Hnx as ->.
  rewrite (bind_ok _ _ _ _ _ (IH fuel ltac:(simpl in Hf; lia) Hc ltac:(set_solver))).
  cbn [mret M_ret]. unfold mret, M_ret. cbn [fmap list_fmap snd concat]. by rewrite zip_fst_snd.
Qed.

Lemma shape_leaves d h lo hi t l es :
  shape d h t -> wf d lo hi t -> (l, es) ∈ leaves t -> exists nx, h !! l = Some (MkNode true es.*1 es.*2 [] nx).
Proof.
  revert lo hi t. induction d as [|d IH]; intros lo hi [p es'|p kids] Hsh Hwf; cbn [shape wf leaves] in *; try done.
  - intros Hin. apply list_elem_of_singleton in Hin as [= -> ->]. done.
  - destruct Hwf as [Hwf _], Hsh as [_ Hsh]. change (flat_map _ kids) with (kleaves kids).
    induction Hwf as [lo hi c Hc|lo hi s c rest Hc Hlo Hhi Hr IHr];
      apply Forall_cons in Hsh as [Hs Hsh]; rewrite kleaves_cons, elem_of_app; intros [Hin|Hin]; eauto.
    by apply elem_of_nil in Hin.
Qed.

Lemma length_leaves_locs d lo hi t : wf d lo hi t -> (length (leaves t) <= length (locs t))%nat.
Proof.
  revert lo hi t. induction d as [|d IH]; intros lo hi [p es|p kids] Hwf; cbn [wf leaves locs] in *; try done.
  destruct Hwf as [Hwf _]. change (flat_map _ kids) with (kleaves kids) at 1.
  change (flat_map _ kids) with (klocs kids). cbn [length].
  enough (length (kleaves kids) <= length (klocs kids))%nat by lia.
  induction Hwf as [lo hi c Hc|lo hi s c rest Hc Hlo Hhi Hr IHr];
    rewrite kleaves_cons, klocs_cons, !length_app; apply IH in Hc; [simpl; lia|lia].
Qed.

Lemma depth_locs d lo hi t : wf d lo hi t -> (d < length (locs t))%nat.
Proof.
  revert lo hi t. induction d as [|d IH]; intros lo hi [p es|p kids] Hwf; cbn [wf locs] in *; try done; [simpl; lia|].
  destruct Hwf as [Hwf _]. change (flat_map _ kids) with (klocs kids). cbn [length].
  destruct Hwf as [lo hi c Hc|lo hi s c rest Hc Hlo Hhi Hr]; rewrite klocs_cons, length_app; apply IH in Hc; lia.
Qed.

Lemma NoDup_bounded (l : list nat) n : NoDup l -> (forall x, x ∈ l -> (x < n)%nat) -> (length l <= n)%nat.
Proof.
  intros Hd Hb. replace n with (length (seq 0 n)) by apply length_seq.
  apply submseteq_length, NoDup_submseteq; [done|].
  intros x Hx. apply elem_of_seq. split; [lia|]. by apply Hb.
Qed.
