(* ===== verification/BTreeProofs.v ===== *)
(** * The B+Tree operations preserve the invariant *)
From S2P Require Import Prelude OrderedMap BTree BTreeInv.

(** ** Composing updates *)

Lemma step_rel_trans d bt t bt1 t1 bt2 t2 :
  step_rel d bt t bt1 t1 -> step_rel d bt1 t1 bt2 t2 -> step_rel d bt t bt2 t2.
Proof.
  intros A B. pose proof (st_fresh _ _ _ _ _ A). pose proof (st_fresh _ _ _ _ _ B). split.
  - apply B.
  - apply B.
  - by rewrite (st_loc _ _ _ _ _ B), (st_loc _ _ _ _ _ A).
  - intros l [Hl|Hl]%(st_new _ _ _ _ _ B); [|right; lia].
    apply (st_new _ _ _ _ _ A) in Hl as [Hl|Hl]; [by left|right; lia].
  - lia.
  - intros l Hl Hlt. rewrite (st_frame _ _ _ _ _ B); [by apply A| |lia].
    intros [Hin|Hin]%(st_new _ _ _ _ _ A); [done|lia].
  - intros nxt. by rewrite (st_head _ _ _ _ _ B), (st_head _ _ _ _ _ A).
  - intros nxt Hc. apply B. by apply A.
  - by rewrite (st_root _ _ _ _ _ B), (st_root _ _ _ _ _ A).
Qed.

(** Addresses in use are below [fresh] and pairwise different. *)
Definition owned (bt : btree) (t : tree) : Prop :=
  NoDup (locs t) /\ forall l, l ∈ locs t -> (l < fresh bt)%nat.

Lemma owned_step d bt t bt' t' : step_rel d bt t bt' t' -> owned bt t -> owned bt' t'.
Proof.
  intros A [_ Hb]. split; [apply A|]. intros l [Hl|Hl]%(st_new _ _ _ _ _ A); [|lia].
  apply Hb in Hl. pose proof (st_fresh _ _ _ _ _ A). lia.
Qed.

Lemma owned_child bt p pre b c post : owned bt (TNode p (pre ++ (b, c) :: post)) -> owned bt c.
Proof.
  unfold owned. rewrite locs_node. intros [Hd Hb]. split; [|set_solver].
  apply NoDup_cons in Hd as [_ Hd]. apply NoDup_app in Hd as (_&_&Hd). apply NoDup_app in Hd. tauto.
Qed.

(** Children whose nodes are untouched stay as they are. *)
Lemma kids_frame_shape d h h' kids :
  (forall l, l ∈ klocs kids -> h' !! l = h !! l) ->
  Forall (fun bc => shape d h bc.2) kids -> Forall (fun bc => shape d h' bc.2) kids.
Proof.
  intros E. rewrite !Forall_forall. intros H bc Hbc. eapply shape_frame; [by apply H|].
  intros l Hl. apply E, elem_of_klocs. eauto.
Qed.

Lemma kids_frame_chain d h h' kids nxt :
  (forall l, l ∈ klocs kids -> h' !! l = h !! l) -> Forall (fun bc => shape d h bc.2) kids ->
  chain h (kleaves kids).*1 nxt -> chain h' (kleaves kids).*1 nxt.
Proof.
  intros E H. apply chain_frame. intros l Hl. rewrite E; [done|].
  apply elem_of_kleaves in Hl as (bc&Hbc&Hl). rewrite Forall_forall in H.
  apply elem_of_klocs. exists bc. split; [done|]. eapply leaf_locs_sub; eauto.
Qed.

(** Updating one child updates the node. *)
Lemma step_plug d bt bt' p pre b c c' post :
  shape (S d) (heap bt) (TNode p (pre ++ (b, c) :: post)) -> owned bt (TNode p (pre ++ (b, c) :: post)) ->
  step_rel d bt c bt' c' ->
  step_rel (S d) bt (TNode p (pre ++ (b, c) :: post)) bt' (TNode p (pre ++ (b, c') :: post)).
Proof.
  intros [Hp Hk] [Hd Hb] A. pose proof (st_fresh _ _ _ _ _ A).
  rewrite locs_node in Hd, Hb. apply NoDup_cons in Hd as [Hpn Hd].
  apply NoDup_app in Hd as (Hd1&Hd2&Hd3). apply NoDup_app in Hd3 as (Hd3&Hd4&Hd5).
  assert (forall l, l ∈ p :: klocs pre ++ klocs post -> heap bt' !! l = heap bt !! l) as Hfr.
  { intros l Hl. apply A; [|apply Hb; set_solver]. set_solver. }
  apply Forall_app in Hk as [Hk1 Hk2]. apply Forall_cons in Hk2 as [Hkc Hk2].
  assert ((forall l, l ∈ klocs pre -> heap bt' !! l = heap bt !! l) /\
          (forall l, l ∈ klocs post -> heap bt' !! l = heap bt !! l)) as [Hf1 Hf2].
  { split; intros l Hl; apply Hfr; right; apply elem_of_app; auto. }
  split.
  - split.
    + rewrite Hfr by set_solver. rewrite Hp. do 2 f_equal.
      * unfold seps. destruct pre; cbn; [done|]. by rewrite !omap_app.
      * rewrite !fmap_app, !fmap_cons. cbn. by rewrite (st_loc _ _ _ _ _ A).
    + apply Forall_app; split; [by eapply kids_frame_shape|].
      apply Forall_cons; split; [apply A|by eapply kids_frame_shape].
  - rewrite locs_node. apply NoDup_cons.
    assert (forall l, l ∈ locs c' -> l ∈ p :: klocs pre ++ klocs post -> False) as Hdis.
    { intros l [Hl|Hl]%(st_new _ _ _ _ _ A) Hl'; [set_solver|]. specialize (Hb l). set_solver by lia. }
    split; [set_solver|]. apply NoDup_app; split_and!; [done|set_solver|].
    apply NoDup_app; split_and!; [apply A|set_solver|done].
  - done.
  - intros l. rewrite !locs_node. intros Hl.
    assert (l ∈ locs c' \/ l ∈ p :: klocs pre ++ klocs post) as [Hl'|Hl'] by set_solver; [|set_solver].
    apply (st_new _ _ _ _ _ A) in Hl' as [?|?]; [set_solver|by right].
  - done.
  - intros l. rewrite locs_node. intros Hl Hlt. apply A; [set_solver|done].
  - intros nxt. rewrite !leaf_locs_node, !head_or_app. by rewrite (st_head _ _ _ _ _ A).
  - intros nxt. rewrite !leaf_locs_node, !chain_app. intros (C1&C2&C3).
    split_and!; [eapply kids_frame_chain; eauto|by apply A|by eapply kids_frame_chain].
    rewrite head_or_app in C1 |- *. by rewrite (st_head _ _ _ _ _ A).
  - apply A.
Qed.

(** ** Splitting a full child *)

(** All lower bounds but the first are keys. *)
Definition somes (kids : list (bound * tree)) : Prop := Forall (fun bc => is_Some bc.1) (drop 1 kids).
Definition sep_of (bc : bound * tree) : bytes := default [] bc.1.

Lemma kids_wf_somes P lo hi kids : kids_wf P lo hi kids -> somes kids.
Proof.
  unfold somes. induction 1 as [|? ? s c rest ? ? ? Hr IH]; [constructor|].
  destruct (kids_wf_nonempty _ _ _ _ Hr) as (c1&rest1&->). cbn in *. constructor; [eauto|done].
Qed.

Lemma seps_fmap kids : somes kids -> seps kids = sep_of <$> drop 1 kids.
Proof.
  unfold seps, somes. destruct kids as [|bc kids]; [done|]. cbn [tail]. rewrite skipn_cons, drop_0. clear bc.
  induction 1 as [|[b c] ks [s Hs] _ IH]; [done|]. cbn in *. subst b. cbn. by f_equal.
Qed.

Lemma somes_take n kids : somes kids -> somes (take n kids).
Proof. unfold somes. intros H. rewrite skipn_firstn_comm. by apply Forall_take. Qed.
Lemma somes_drop n kids : somes kids -> somes (drop n kids).
Proof. unfold somes. intros H. rewrite drop_drop, Nat.add_comm, <- drop_drop. by apply Forall_drop. Qed.

Lemma seps_take n kids : somes kids -> seps (take n kids) = take (n - 1) (seps kids).
Proof.
  intros H. rewrite !seps_fmap by auto using somes_take. by rewrite skipn_firstn_comm, fmap_take.
Qed.
Lemma seps_drop n kids : somes kids -> seps (drop n kids) = drop n (seps kids).
Proof.
  intros H. rewrite !seps_fmap by auto using somes_drop.
  by rewrite drop_drop, Nat.add_comm, <- drop_drop, fmap_drop.
Qed.

(** Adding a separator and a child right of position [length pre]. *)
Lemma seps_insert pre b c cl s cr post :
  somes (pre ++ (b, c) :: post) ->
  seps (pre ++ (b, cl) :: (Some s, cr) :: post) = shift_insert (length pre) s (seps (pre ++ (b, c) :: post)).
Proof.
  intros H. assert (somes (pre ++ (b, cl) :: (Some s, cr) :: post)) as H'.
  { unfold somes in *. destruct pre as [|x pre]; cbn in *; [by constructor; eauto|].
    rewrite drop_0 in *. apply Forall_app in H as [H1 H2]. apply Forall_cons in H2 as [H2 H3].
    apply Forall_app. split; [done|]. do 2 (constructor; [by eauto|]). done. }
  rewrite !seps_fmap by done. destruct pre as [|x pre]; cbn [app length]; rewrite !skipn_cons, !drop_0.
  - rewrite shift_insert_eq by lia. cbn. done.
  - rewrite shift_insert_eq by (rewrite length_fmap, length_app; cbn; lia).
    rewrite !fmap_app, !fmap_cons. rewrite take_app_ge, drop_app_ge by (rewrite length_fmap; lia).
    rewrite length_fmap. replace (S (length pre) - length pre)%nat with 1%nat by lia. cbn.
    by rewrite <- app_assoc.
Qed.

Definition split_tree (r : nat) (c : tree) : tree * bytes * tree :=
  match c with
  | TLeaf q es =>
      let mid := (length es / 2)%nat in
      (TLeaf q (take mid es), default [] ((drop mid es).*1 !! 0%nat), TLeaf r (drop mid es))
  | TNode q kids =>
      let cut := (length kids / 2)%nat in
      (TNode q (take cut kids), default [] (seps kids !! (cut - 1)%nat), TNode r (drop cut kids))
  end.

(** A node with at least two keys splits into two well-formed halves around a
    separator within its range. *)
Lemma split_wf d l h c r cl s cr :
  wf d l h c -> nkeys c = btreeOrder -> split_tree r c = (cl, s, cr) ->
  wf d l (Some s) cl /\ wf d (Some s) h cr /\ strictly_above l s /\ below h s /\
  contents cl ++ contents cr = contents c /\ (nkeys cl < btreeOrder)%nat /\ (nkeys cr < btreeOrder)%nat.
Proof.
  unfold btreeOrder. destruct d as [|d], c as [q es|q kids]; cbn [wf nkeys split_tree]; try done.
  - intros (Hs&Hr&_) Hn. rewrite Hn. change (32 / 2)%nat with 16%nat. intros [= <- <- <-].
    destruct (drop 16 es) as [|[k v] es2] eqn:E2; [apply (f_equal length) in E2; by rewrite length_drop, Hn in E2|].
    destruct (take 16 es) as [|[k0 v0] es1] eqn:E1; [apply (f_equal length) in E1; by rewrite length_take, Hn in E1|].
    assert (es = ((k0, v0) :: es1) ++ (k, v) :: es2) as Ees by (by rewrite <- E1, <- E2, take_drop).
    assert (length ((k, v) :: es2) = 16%nat) as Hl2 by (rewrite <- E2, length_drop; lia).
    assert (length ((k0, v0) :: es1) = 16%nat) as Hl1 by (rewrite <- E1, length_take; lia).
    clear E1 E2. subst es. apply sorted_keys_app in Hs as (Hs1&Hs2&Hs3).
    rewrite fmap_app in Hr. setoid_rewrite elem_of_app in Hr. cbn [fmap list_fmap fst] in *.
    cbn [nkeys wf]. unfold btreeOrder. assert (in_range l h k) as Hk by (apply Hr; right; constructor).
    assert (in_range l h k0) as [Hk0 _] by (apply Hr; left; constructor).
    assert (bytes_lt k0 k) as Hlt by (apply Hs3; constructor). cbn [default].
    split_and!; rewrite ?Hl1, ?Hl2; try lia; try done.
    + intros k' Hk'. split; [apply Hr; by left|]. apply Hs3; [done|constructor].
    + intros k' Hk'. split; [|apply Hr; by right]. cbn. apply bytes_nlt_le.
      apply sorted_keys_cons in Hs2 as [_ Hs2]. apply elem_of_cons in Hk' as [->|Hk']; auto.
    + destruct l as [l|]; [|done]. cbn in *. apply bytes_nlt_le in Hk0 as [->|]; eauto with godb.
    + apply Hk.
    + unfold contents. cbn [leaves fmap list_fmap snd concat]. by rewrite !app_nil_r.
  - intros [Hk Hn0] Hn. assert (length kids = 33%nat) as Hlen by lia.
    rewrite Hlen. change (33 / 2)%nat with 16%nat. change (16 - 1)%nat with 15%nat. intros [= <- <- <-].
    pose proof (kids_wf_somes _ _ _ _ Hk) as Hso.
    destruct (drop 16 kids) as [|[b c0] post] eqn:E2; [apply (f_equal length) in E2; by rewrite length_drop, Hlen in E2|].
    assert (seps kids !! 15%nat = Some (sep_of (b, c0))) as Hsep.
    { rewrite seps_fmap by done. rewrite list_lookup_fmap, lookup_drop. cbn [Nat.add].
      rewrite <- (Nat.add_0_r 16), <- lookup_drop, E2. done. }
    assert (exists s, b = Some s) as [s ->].
    { unfold somes in Hso. rewrite Forall_forall in Hso. apply (Hso (b, c0)).
      apply list_elem_of_lookup. exists 15%nat. rewrite lookup_drop. cbn [Nat.add].
      rewrite <- (Nat.add_0_r 16), <- lookup_drop, E2. done. }
    rewrite Hsep. cbn [default sep_of fst].
    rewrite <- (take_drop 16 kids), E2 in Hk.
    assert (length (take 16 kids) = 16%nat) as Hl1 by (rewrite length_take; lia).
    apply kids_wf_split in Hk as (H1&H2&H3&H4); [|intros E; by rewrite E in Hl1].
    assert (length ((Some s, c0) :: post) = 17%nat) as Hl2 by (rewrite <- E2, length_drop; lia).
    cbn [nkeys wf]. unfold btreeOrder. split_and!; rewrite ?Hl1, ?Hl2; try lia; try done.
    rewrite !contents_node, <- E2, <- kcontents_app. by rewrite take_drop.
Qed.

Lemma split_locs r c cl s cr :
  split_tree r c = (cl, s, cr) -> tloc cl = tloc c /\ tloc cr = r /\ locs cl ++ locs cr ≡ₚ r :: locs c.
Proof.
  destruct c as [q es|q kids]; cbn [split_tree].
  - generalize (length es / 2)%nat. intros mid [= <- <- <-]. split_and!; [done..|]. cbn. constructor.
  - generalize (length kids / 2)%nat. intros cut [= <- <- <-]. split_and!; [done..|]. cbn [locs].
    change (flat_map _ ?k) with (klocs k). rewrite <- (take_drop cut kids) at 3.
    rewrite klocs_app. cbn. rewrite <- Permutation_middle. constructor.
Qed.

Lemma split_head r c cl s cr nxt :
  split_tree r c = (cl, s, cr) -> head_or (leaf_locs cl ++ leaf_locs cr) nxt = head_or (leaf_locs c) nxt.
Proof.
  destruct c as [q es|q kids]; cbn [split_tree].
  - generalize (length es / 2)%nat. by intros mid [= <- <- <-].
  - generalize (length kids / 2)%nat. intros cut [= <- <- <-]. unfold leaf_locs. cbn [leaves].
    change (flat_map _ ?k) with (kleaves k). by rewrite <- fmap_app, <- kleaves_app, take_drop.
Qed.

(** The last assignments of [splitChild], to the parent. *)
Lemma splitChild_last bt p pre b c post :
  heap bt !! p = Some (MkNode false (seps (pre ++ (b, c) :: post)) [] ((fun bc => tloc bc.2) <$> (pre ++ (b, c) :: post)) None) ->
  p <> tloc c -> p <> fresh bt -> forall sep rp xl xr t,
  (deref p ≫= fun p0 => store p (MkNode (leaf p0) (shift_insert (length pre) sep (keys p0)) (values p0)
      (shift_insert (length pre + 1) rp (children p0)) (next p0)))
    (MkTree (root bt) (<[tloc c := xl]> (<[fresh bt := xr]> (heap bt))) t) =
  (Ok tt, MkTree (root bt) (<[p := MkNode false (shift_insert (length pre) sep (seps (pre ++ (b, c) :: post))) []
     (shift_insert (length pre + 1) rp ((fun bc => tloc bc.2) <$> (pre ++ (b, c) :: post))) None]>
    (<[tloc c := xl]> (<[fresh bt := xr]> (heap bt)))) t).
Proof.
  intros Hp Hpc Hpf sep rp xl xr t.
  erewrite bind_ok; [|apply deref_ok; cbn; rewrite !lookup_insert_ne by done; exact Hp]. done.
Qed.

Lemma kid_locs_insert pre b c post cl s cr rp :
  tloc cl = tloc c -> tloc cr = rp ->
  shift_insert (length pre + 1) rp ((fun bc : bound * tree => tloc bc.2) <$> (pre ++ (b, c) :: post)) =
  (fun bc => tloc bc.2) <$> (pre ++ (b, cl) :: (Some s, cr) :: post).
Proof.
  intros El Er. rewrite shift_insert_eq by (rewrite length_fmap, length_app; cbn; lia).
  rewrite !fmap_app, !fmap_cons. cbn [snd]. rewrite El, Er.
  rewrite take_app_ge, drop_app_ge by (rewrite length_fmap; lia). rewrite length_fmap.
  replace (length pre + 1 - length pre)%nat with 1%nat by lia. cbn. rewrite drop_0. by rewrite <- app_assoc.
Qed.

(** The heap after a split: the right half is new, the left half replaces the
    old child, the parent has one more separator and child. *)
Lemma splitChild_run d bt p pre b c post lo hi l h cl s cr :
  shape (S d) (heap bt) (TNode p (pre ++ (b, c) :: post)) -> owned bt (TNode p (pre ++ (b, c) :: post)) ->
  wf (S d) lo hi (TNode p (pre ++ (b, c) :: post)) -> wf d l h c -> nkeys c = btreeOrder ->
  split_tree (fresh bt) c = (cl, s, cr) ->
  exists xl xr, splitChild p (length pre) bt = (Ok tt,
    MkTree (root bt)
      (<[p := MkNode false (seps (pre ++ (b, cl) :: (Some s, cr) :: post)) []
                ((fun bc => tloc bc.2) <$> (pre ++ (b, cl) :: (Some s, cr) :: post)) None]>
        (<[tloc c := xl]> (<[fresh bt := xr]> (heap bt)))) (S (fresh bt))) /\
  (forall h', h' !! tloc c = Some xl -> h' !! fresh bt = Some xr ->
     (forall l, l ∈ locs c -> l <> tloc c -> h' !! l = heap bt !! l) ->
     shape d h' cl /\ shape d h' cr /\
     forall nxt, chain (heap bt) (leaf_locs c) nxt -> chain h' (leaf_locs cl ++ leaf_locs cr) nxt).
Proof.
  intros Hsh Ho [Hkw _] Hwf Hn Hsp. destruct (owned_child _ _ _ _ _ _ Ho) as [Hdc _]. destruct Ho as [Hd Hb]. pose proof (shape_child _ _ _ _ _ _ _ Hsh) as Hc. destruct Hsh as [Hp Hk].
  pose proof (kids_wf_somes _ _ _ _ Hkw) as Hso.
  destruct (split_locs _ _ _ _ _ Hsp) as (El&Er&_).
  rewrite locs_node in Hd, Hb. apply NoDup_cons in Hd as [Hpn _].
  assert (p < fresh bt)%nat as Hpf by (apply Hb; constructor).
  assert (tloc c ∈ locs c) as Hcin by (destruct c; cbn; constructor).
  assert (p <> tloc c) as Hpc by (intros ->; apply Hpn; set_solver).
  unfold splitChild. rewrite (bind_ok _ _ _ _ _ (deref_ok _ _ _ Hp)). cbn [children].
  rewrite (bind_ok _ _ _ _ _ (index_ok _ _ _ _ (lookup_middle_loc pre b c post _ eq_refl))).
  pose proof (fun rp => kid_locs_insert pre b c post cl s cr rp El) as Hkids.
  pose proof (splitChild_last bt p pre b c post Hp Hpc ltac:(lia)) as Hlast.
  destruct d as [|d], c as [q es|q kids]; cbn [shape wf] in Hc, Hwf; try done; cbn [nkeys tloc] in *.
  - destruct Hc as [nx Hq]. rewrite (bind_ok _ _ _ _ _ (deref_ok _ _ _ Hq)). cbn [leaf keys values children next].
    cbn [split_tree] in Hsp. rewrite length_fmap, Hn in *. change (btreeOrder / 2)%nat with 16%nat in *.
    rewrite <- !fmap_drop, <- !fmap_take.
    destruct (lookup_lt_is_Some_2 ((drop 16 es).*1) 0) as [sep Hsep].
    { rewrite length_fmap, length_drop, Hn. unfold btreeOrder. lia. }
    rewrite Hsep in Hsp. cbn [default] in Hsp. injection Hsp as <- <- <-.
    erewrite bind_ok; [|erewrite bind_ok by (by apply index_ok); reflexivity].
    do 2 eexists. split.
    { etrans; [apply Hlast|]. by rewrite (Hkids _ Er), <- (seps_insert pre b _ (TLeaf q (take 16 es)) sep (TLeaf (fresh bt) (drop 16 es)) post Hso). }
    intros h' H1 H2 _. cbn [shape]. split_and!; [by eauto..|].
    intros nxt. cbn. rewrite Hq, H1, H2. cbn. naive_solver.
  - destruct Hc as [Hq Hkc], Hwf as [Hkw' _]. rewrite (bind_ok _ _ _ _ _ (deref_ok _ _ _ Hq)). cbn [leaf keys values children next].
    pose proof (kids_wf_somes _ _ _ _ Hkw') as Hso'. cbn [split_tree] in Hsp.
    assert (length kids = 33%nat) as Hlen by (unfold btreeOrder in Hn; lia).
    rewrite length_fmap, Hlen in *. change (33 / 2)%nat with 16%nat in *. change (16 - 1)%nat with 15%nat in *.
    destruct (lookup_lt_is_Some_2 (seps kids) 15) as [sep Hsep].
    { rewrite (seps_length _ _ _ _ Hkw'). lia. }
    rewrite Hsep in Hsp. cbn [default] in Hsp. injection Hsp as <- <- <-.
    erewrite bind_ok; [|erewrite bind_ok by (by apply index_ok); reflexivity].
    do 2 eexists. split.
    { etrans; [apply Hlast|]. by rewrite (Hkids _ Er), <- (seps_insert pre b _ (TNode q (take 16 kids)) sep (TNode (fresh bt) (drop 16 kids)) post Hso). }
    intros h' H1 H2 H3. apply NoDup_cons in Hdc as [Hqk _].
    assert (forall l', l' ∈ klocs kids -> h' !! l' = heap bt !! l') as Hsame.
    { intros l' Hl'. apply H3; [by right|]. intros ->. done. }
    pose proof (kids_frame_shape _ _ _ _ Hsame Hkc) as Hkids'.
    cbn [shape]. split_and!.
    + rewrite H1, seps_take, fmap_take by done. done.
    + by apply Forall_take.
    + rewrite H2, seps_drop, fmap_drop by done. done.
    + by apply Forall_drop.
    + intros nxt Hch. unfold leaf_locs. cbn [leaves]. change (flat_map _ ?k) with (kleaves k).
      rewrite <- fmap_app, <- kleaves_app, take_drop. by eapply kids_frame_chain.
Qed.

(** Splitting a full child keeps the tree: the parent gets two well-formed
    halves in the child's place. *)
Lemma splitChild_spec d bt p pre b c post lo hi l h cl s cr :
  shape (S d) (heap bt) (TNode p (pre ++ (b, c) :: post)) -> owned bt (TNode p (pre ++ (b, c) :: post)) ->
  wf (S d) lo hi (TNode p (pre ++ (b, c) :: post)) -> wf d l h c -> nkeys c = btreeOrder ->
  split_tree (fresh bt) c = (cl, s, cr) ->
  exists bt', splitChild p (length pre) bt = (Ok tt, bt') /\
  step_rel (S d) bt (TNode p (pre ++ (b, c) :: post)) bt' (TNode p (pre ++ (b, cl) :: (Some s, cr) :: post)).
Proof.
  intros Hsh Ho Hw Hwf Hn Hsp.
  destruct (splitChild_run d bt p pre b c post lo hi l h cl s cr Hsh Ho Hw Hwf Hn Hsp) as (xl&xr&E&Hh).
  eexists. split; [exact E|]. clear E.
  destruct (split_locs _ _ _ _ _ Hsp) as (El&Er&Hperm).
  pose proof (shape_child _ _ _ _ _ _ _ Hsh) as Hc. destruct Hsh as [Hp Hk], Ho as [Hd Hb].
  rewrite locs_node in Hd, Hb.
  assert (tloc c ∈ locs c) as Hcin by (destruct c; cbn; constructor).
  assert (fresh bt ∉ p :: klocs pre ++ locs c ++ klocs post) as Hff by (intros Hin%Hb; lia).
  apply NoDup_cons in Hd as [Hpn Hd].
  assert (forall l, l ∈ klocs pre ++ locs c ++ klocs post -> l <> p /\ l <> fresh bt) as Hne.
  { intros l' Hl'. split; intros ->; [done|]. apply Hff. by right. }
  assert (forall l, l ∈ locs c -> l <> p /\ l <> fresh bt) as Hnc.
  { intros l' Hl'. apply Hne, elem_of_app. right. apply elem_of_app. by left. }
  assert (p <> fresh bt) as Hpf by (intros E; apply Hff; rewrite <- E; constructor).
  assert (forall l, l ∈ klocs pre ++ klocs post -> l <> tloc c) as Hnt.
  { intros l' Hl' ->. apply NoDup_app in Hd as (_&Hd2&Hd3). apply NoDup_app in Hd3 as (_&Hd4&_).
    apply elem_of_app in Hl' as [Hl'|Hl']; [eapply Hd2|eapply Hd4]; eauto. apply elem_of_app; by left. }
  set (t' := TNode p (pre ++ (b, cl) :: (Some s, cr) :: post)).
  assert (locs t' ≡ₚ fresh bt :: p :: klocs pre ++ locs c ++ klocs post) as Hlocs.
  { unfold t'. rewrite locs_node, klocs_cons.
    rewrite (app_assoc (locs cl)), Hperm. rewrite <- app_comm_cons, <- Permutation_middle. apply perm_swap. }
  set (h' := <[p:=_]> (<[tloc c:=xl]> (<[fresh bt:=xr]> (heap bt)))).
  assert (forall l, l <> p -> l <> tloc c -> l <> fresh bt -> h' !! l = heap bt !! l) as Hfr.
  { intros l' H1 H2 H3. unfold h'. by rewrite !lookup_insert_ne by done. }
  destruct (Hnc _ Hcin) as [Hcp Hcf].
  destruct (Hh h') as (S1&S2&S3).
  { unfold h'. rewrite lookup_insert_ne by done. by rewrite lookup_insert_eq. }
  { unfold h'. rewrite !lookup_insert_ne by done. by rewrite lookup_insert_eq. }
  { intros l' Hl' Hl2. destruct (Hnc _ Hl'). by apply Hfr. }
  assert (forall l, l ∈ klocs pre ++ klocs post -> h' !! l = heap bt !! l) as Hfr'.
  { intros l' Hl'. destruct (Hne l') as [? ?]; [rewrite !elem_of_app in *; tauto|]. apply Hfr; auto. }
  apply Forall_app in Hk as [Hk1 Hk2]. apply Forall_cons in Hk2 as [_ Hk2]. 
  assert ((forall l, l ∈ klocs pre -> h' !! l = heap bt !! l) /\
          (forall l, l ∈ klocs post -> h' !! l = heap bt !! l)) as [Hf1 Hf2].
  { split; intros l' Hl'; apply Hfr', elem_of_app; auto. }
  pose proof (fun nxt => split_head _ _ _ _ _ nxt Hsp) as Hhd. split; fold h' t'.
  - split; [apply lookup_insert_eq|]. cbn [heap].
    apply Forall_app; split; [|apply Forall_cons; split; [done|]; apply Forall_cons; split; [done|]].
    all: by eapply kids_frame_shape.
  - rewrite Hlocs. apply NoDup_cons; split; [done|]. by apply NoDup_cons.
  - done.
  - intros l'. rewrite Hlocs, locs_node, elem_of_cons. intros [->|?]; [right; cbn; lia|by left].
  - cbn. lia.
  - intros l'. rewrite locs_node. intros Hl' Hlt. cbn [heap].
    apply Hfr; [intros ->; apply Hl'; constructor| |lia].
    intros ->. apply Hl'. right. rewrite !elem_of_app. auto.
  - intros nxt. unfold t'. rewrite !leaf_locs_node, kleaves_cons, fmap_app, !head_or_app.
    specialize (Hhd (head_or (kleaves post).*1 nxt)). rewrite head_or_app in Hhd. unfold leaf_locs in *. congruence.
  - intros nxt. unfold t'. rewrite !leaf_locs_node, kleaves_cons, fmap_app.
    rewrite (app_assoc (leaf_locs cl)), !(chain_app _ (kleaves pre).*1), !(chain_app _ _ (kleaves post).*1), !head_or_app.
    intros (C1&C2&C3). specialize (Hhd (head_or (kleaves post).*1 nxt)). rewrite head_or_app in Hhd.
    unfold leaf_locs in *. rewrite Hhd.
    split_and!; [by eapply kids_frame_chain|by apply S3|by eapply kids_frame_chain].
  - done.
Qed.

(** ** Insertion *)

Definition inserted (d : nat) (bt : btree) (lo hi : bound) (t : tree) (key value : bytes) (r : outcome unit * btree) : Prop :=
  exists bt' t', r = (Ok tt, bt') /\ step_rel d bt t bt' t' /\ wf d lo hi t' /\
    contents t' = kv_put key value (contents t).

Lemma leaf_update bt p es es' nx :
  heap bt !! p = Some (MkNode true es.*1 es.*2 [] nx) -> owned bt (TLeaf p es) ->
  step_rel 0 bt (TLeaf p es) (MkTree (root bt) (<[p := MkNode true es'.*1 es'.*2 [] nx]> (heap bt)) (fresh bt)) (TLeaf p es').
Proof.
  intros Hp [Hd Hb]. split; cbn [heap fresh root]; try done.
  - exists nx. apply lookup_insert_eq.
  - intros l Hl. by left.
  - intros l Hl _. rewrite lookup_insert_ne; [done|]. intros ->. apply Hl. constructor.
  - intros nxt. cbn. rewrite lookup_insert_eq, Hp. done.
Qed.

Lemma insert_leaf bt lo hi p es key value nx :
  heap bt !! p = Some (MkNode true es.*1 es.*2 [] nx) -> owned bt (TLeaf p es) ->
  wf 0 lo hi (TLeaf p es) -> in_range lo hi key -> (length es < btreeOrder)%nat -> forall fuel,
  inserted 0 bt lo hi (TLeaf p es) key value (insertNonFull (S fuel) p key value bt).
Proof.
  intros Hp Ho (Hs&Hr&_) Hk Hn fuel. cbn [insertNonFull].
  rewrite (bind_ok _ _ _ _ _ (deref_ok _ _ _ Hp)). cbn [leaf keys values children next].
  destruct (keyIndex_spec es.*1 key Hs) as (i&Ei&Hi). unfold lift at 1. rewrite Ei.
  pose proof (split_point_put es key value i Hs Hi) as Hput.
  assert (i <= length es)%nat as Hil by (destruct Hi as [Hi _]; by rewrite length_fmap in Hi).
  assert (length (kv_put key value es) <= btreeOrder)%nat as Hlen.
  { rewrite Hput. case_decide; rewrite length_app, length_take; cbn [length]; rewrite length_drop; lia. }
  assert (forall bt', step_rel 0 bt (TLeaf p es) bt' (TLeaf p (kv_put key value es)) ->
    inserted 0 bt lo hi (TLeaf p es) key value (Ok tt, bt')) as Hfin.
  { intros bt' Hst. exists bt', (TLeaf p (kv_put key value es)). split_and!; [done|done| |].
    - cbn. split_and!; [by apply kv_put_sorted| |done]. intros k [->|?]%kv_put_keys; auto.
    - unfold contents. cbn. by rewrite !app_nil_r. }
  pose proof (leaf_update bt p es (kv_put key value es) nx Hp Ho) as Hst.
  cbv [mbind M_bind]. case_decide as Hd; apply Hfin; revert Hst; rewrite Hput.
  - assert (i < length es)%nat by (apply lookup_lt_Some in Hd; by rewrite length_fmap in Hd).
    rewrite <- (insert_take_drop es i (key, value)), !list_fmap_insert by done. cbn [fst snd].
    by rewrite (list_insert_id es.*1 i key).
  - rewrite !fmap_app, !fmap_cons. cbn [fst snd].
    rewrite !shift_insert_eq by (rewrite length_fmap; lia). by rewrite !fmap_take, !fmap_drop.
Qed.

(** Inserting into the child at position [length pre]. *)
Lemma insert_child d fuel bt p pre b h c post key value :
  shape (S d) (heap bt) (TNode p (pre ++ (b, c) :: post)) -> owned bt (TNode p (pre ++ (b, c) :: post)) ->
  (forall k, k ∈ (kcontents pre).*1 -> bytes_lt k key) -> (forall k, k ∈ (kcontents post).*1 -> bytes_lt key k) ->
  inserted d bt b h c key value (insertNonFull fuel (tloc c) key value bt) ->
  exists bt' c', (deref p ≫= fun x => index (children x) (length pre) ≫= fun c => insertNonFull fuel c key value) bt = (Ok tt, bt') /\
    step_rel (S d) bt (TNode p (pre ++ (b, c) :: post)) bt' (TNode p (pre ++ (b, c') :: post)) /\
    wf d b h c' /\
    contents (TNode p (pre ++ (b, c') :: post)) = kv_put key value (contents (TNode p (pre ++ (b, c) :: post))).
Proof.
  intros Hsh Ho Hpre Hpost (bt'&c'&E&Hst&Hwf&Hc). exists bt', c'. split_and!.
  - destruct Hsh as [Hp _]. rewrite (bind_ok _ _ _ _ _ (deref_ok _ _ _ Hp)). cbn [children].
    by rewrite (bind_ok _ _ _ _ _ (index_ok _ _ _ _ (lookup_middle_loc pre b c post _ eq_refl))).
  - by apply step_plug.
  - done.
  - rewrite !contents_node, !kcontents_app, !kcontents_cons, Hc. by rewrite kv_put_app.
Qed.

Lemma wf_nkeys d lo hi t : wf d lo hi t -> (nkeys t <= btreeOrder)%nat.
Proof. destruct d, t; cbn [wf nkeys]; try done; [tauto|]. intros [_ ?]. lia. Qed.

Lemma seps_middle pre b c s c' post :
  somes (pre ++ (b, c) :: (Some s, c') :: post) ->
  seps (pre ++ (b, c) :: (Some s, c') :: post) !! length pre = Some s.
Proof.
  intros H. rewrite seps_fmap by done. destruct pre as [|x pre]; [done|].
  cbn [app length]. rewrite skipn_cons, drop_0, list_lookup_fmap.
  rewrite lookup_app_r by lia. replace (S (length pre) - length pre)%nat with 1%nat by lia. done.
Qed.

(** The full child was split: the insertion goes on in the half that covers the key. *)
Lemma insert_halves d fuel bt lo hi p pre l h cl s cr post key value :
  (forall bt lo hi t, shape d (heap bt) t -> owned bt t -> wf d lo hi t -> in_range lo hi key ->
    (nkeys t < btreeOrder)%nat -> inserted d bt lo hi t key value (insertNonFull fuel (tloc t) key value bt)) ->
  shape (S d) (heap bt) (TNode p (pre ++ (l, cl) :: (Some s, cr) :: post)) ->
  owned bt (TNode p (pre ++ (l, cl) :: (Some s, cr) :: post)) ->
  kids_wf (wf d) lo hi (pre ++ (l, cl) :: (Some s, cr) :: post) ->
  (forall new, kids_wf (wf d) l h new -> kids_wf (wf d) lo hi (pre ++ new ++ post)) ->
  wf d l (Some s) cl -> wf d (Some s) h cr -> strictly_above l s -> below h s -> in_range l h key ->
  (nkeys cl < btreeOrder)%nat -> (nkeys cr < btreeOrder)%nat ->
  (forall k, k ∈ (kcontents pre).*1 -> bytes_lt k key) -> (forall k, k ∈ (kcontents post).*1 -> bytes_lt key k) ->
  (length (pre ++ (l, cl) :: (Some s, cr) :: post) <= S btreeOrder)%nat ->
  inserted (S d) bt lo hi (TNode p (pre ++ (l, cl) :: (Some s, cr) :: post)) key value
    ((i ← (x ← deref p; k ← index (keys x) (length pre);
           mret (match bytes_compare key k with Lt => length pre | _ => S (length pre) end));
      x ← deref p; c ← index (children x) i; insertNonFull fuel c key value) bt).
Proof.
  intros IH Hsh Ho Hkw Hrep Hcl Hcr Hls Hhs Hk Hnl Hnr Hpre Hpost Hlen.
  erewrite bind_ok; cycle 1.
  { rewrite (bind_ok _ _ _ _ _ (deref_ok _ _ _ (proj1 Hsh))). cbn [keys].
    rewrite (bind_ok _ _ _ _ _ (index_ok _ _ _ _ (seps_middle pre l cl s cr post (kids_wf_somes _ _ _ _ Hkw)))). reflexivity. }
  destruct (decide (bytes_lt key s)) as [Hlt|Hge].
  - assert (bytes_compare key s = Lt) as -> by (unfold bytes_lt, bytes_ltb in Hlt; by destruct (bytes_compare key s)).
    destruct (insert_child d fuel bt p pre l (Some s) cl ((Some s, cr) :: post) key value Hsh Ho Hpre)
      as (bt'&c'&E&Hst&Hwf'&Hct).
    { intros k. rewrite kcontents_cons, fmap_app, elem_of_app. intros [Hin|Hin]; [|auto].
      apply (wf_range _ _ _ _ _ Hcr) in Hin as [Hin _]. cbn in Hin. apply bytes_nlt_le in Hin as [->|]; eauto with godb. }
    { apply IH; try done; [by eapply shape_child|by eapply owned_child|]. split; [apply Hk|done]. }
    exists bt', (TNode p (pre ++ (l, c') :: (Some s, cr) :: post)). split_and!; [exact E|done| |done].
    split; [|by rewrite length_app in *].
    apply (Hrep [(l, c'); (Some s, cr)]). eapply kids_cons; [done..|]. by constructor.
  - assert (forall a b : nat, match bytes_compare key s with Lt => a | _ => b end = b) as Hcmp.
    { intros a b. unfold bytes_lt, bytes_ltb in Hge. by destruct (bytes_compare key s). }
    rewrite Hcmp. 
    change ((l, cl) :: (Some s, cr) :: post) with ([(l, cl)] ++ (Some s, cr) :: post) in *.
    rewrite (app_assoc pre) in *.
    destruct (insert_child d fuel bt p (pre ++ [(l, cl)]) (Some s) h cr post key value Hsh Ho)
      as (bt'&c'&E&Hst&Hwf'&Hct); [|done|..].
    { intros k. rewrite kcontents_app, kcontents_cons, app_nil_r, fmap_app, elem_of_app. intros [Hin|Hin]; [auto|].
      apply (wf_range _ _ _ _ _ Hcl) in Hin as [_ Hin]. cbn in Hin. apply bytes_nlt_le in Hge as [->|]; eauto with godb. }
    { apply IH; try done; [by eapply shape_child|by eapply owned_child|]. split; [done|apply Hk]. }
    exists bt', (TNode p ((pre ++ [(l, cl)]) ++ (Some s, c') :: post)). split_and!; [|done| |done].
    { rewrite length_app, Nat.add_comm in E. exact E. }
    split; [|by rewrite length_app in *]. rewrite <- app_assoc.
    apply (Hrep [(l, cl); (Some s, c')]). eapply kids_cons; [done..|]. by constructor.
Qed.

Lemma insertNonFull_spec d fuel bt lo hi t key value :
  (d < fuel)%nat -> shape d (heap bt) t -> owned bt t -> wf d lo hi t -> in_range lo hi key ->
  (nkeys t < btreeOrder)%nat -> inserted d bt lo hi t key value (insertNonFull fuel (tloc t) key value bt).
Proof.
  revert fuel bt lo hi t. induction d as [|d IH]; intros [|fuel] bt lo hi t Hf Hsh Ho Hwf Hk Hn; try lia;
    destruct t as [p es|p kids]; try done.
  { destruct Hsh as [nx Hp]. by eapply insert_leaf. }
  cbn [tloc]. destruct Hwf as [Hkw Hlen]. cbn [nkeys] in Hn.
  destruct (childIndex_focus d lo hi kids key Hkw Hk) as (pre&l&h&c&post&->&Hi&Hc&Hr&Hrep&Hpre&Hpost).
  pose proof (shape_child _ _ _ _ _ _ _ Hsh) as Hsc.
  cbn [insertNonFull]. rewrite (bind_ok _ _ _ _ _ (deref_ok _ _ _ (proj1 Hsh))). cbn [leaf keys children].
  rewrite <- Hi. rewrite (bind_ok _ _ _ _ _ (index_ok _ _ _ _ (lookup_middle_loc pre l c post _ eq_refl))).
  assert (exists xc, heap bt !! tloc c = Some xc) as [xc Hxc].
  { destruct d, c; cbn [shape] in Hsc; try done; [destruct Hsc as [? Hsc]|destruct Hsc as [Hsc _]]; cbn; eauto. }
  rewrite (bind_ok _ _ _ _ _ (deref_ok _ _ _ Hxc)).
  rewrite (nkeys_keys _ _ _ _ _ _ Hsc Hc Hxc).
  case_decide as Hfull.
  - destruct (split_tree (fresh bt) c) as [[cl s] cr] eqn:Hsp.
    destruct (split_wf _ _ _ _ _ _ _ _ Hc Hfull Hsp) as (W1&W2&W3&W4&W5&W6&W7).
    destruct (splitChild_spec d bt p pre l c post lo hi l h cl s cr Hsh Ho (conj Hkw Hlen) Hc Hfull Hsp) as (bt1&E1&St1).
    assert (kids_wf (wf d) lo hi (pre ++ (l, cl) :: (Some s, cr) :: post)) as Hkw1.
    { apply (Hrep [(l, cl); (Some s, cr)]). eapply kids_cons; [done..|]. by constructor. }
    assert (inserted (S d) bt1 lo hi (TNode p (pre ++ (l, cl) :: (Some s, cr) :: post)) key value
      ((i ← (x ← deref p; k ← index (keys x) (length pre);
           mret (match bytes_compare key k with Lt => length pre | _ => S (length pre) end));
        x ← deref p; c ← index (children x) i; insertNonFull fuel c key value) bt1)) as (bt'&t'&E&St&Wf&Ct).
    { eapply insert_halves; try done; [intros; apply IH; (done || lia)|apply St1|by eapply owned_step|].
      rewrite length_app in *. cbn [length] in *. lia. }
    exists bt', t'. split_and!; [|by eapply step_rel_trans|done|].
    + cbv [mbind M_bind] in E1, E |- *. by rewrite E1.
    + rewrite Ct, !contents_node, !kcontents_app, !kcontents_cons. by rewrite (app_assoc (contents cl)), W5.
  - cbv [mret M_ret]. rewrite (bind_ok _ _ _ _ _ eq_refl).
    pose proof (wf_nkeys _ _ _ _ Hc) as Hnc.
    destruct (insert_child d fuel bt p pre l h c post key value Hsh Ho Hpre Hpost) as (bt'&c'&E&Hst&Hwf'&Hct).
    { apply IH; try done; [lia|by eapply owned_child|lia]. }
    exists bt', (TNode p (pre ++ (l, c') :: post)). split_and!; [exact E|done| |done].
    cbn [wf]. split; [apply (Hrep [(l, c')]); by constructor|].
    rewrite length_app in *. done.
Qed.

(** ** The representation predicate and the operations *)

(** [bt] holds exactly the entries [l]. *)
Definition bt_rep (bt : btree) (l : kvs) : Prop :=
  match root bt with
  | None => l = []
  | Some r => exists d t, tloc t = r /\ shape d (heap bt) t /\ owned bt t /\ wf d None None t /\
      chain (heap bt) (leaf_locs t) None /\ contents t = l
  end.

Lemma bt_rep_sorted bt l : bt_rep bt l -> sorted_keys l.
Proof.
  unfold bt_rep. destruct (root bt); [|intros ->; apply sorted_keys_nil].
  intros (d&t&_&_&_&Hwf&_&<-). by eapply wf_sorted.
Qed.

(** [fresh] is enough fuel: a path and the leaf chain visit every node at most once. *)
Lemma owned_locs bt t : owned bt t -> (length (locs t) <= fresh bt)%nat.
Proof. intros [Hd Hb]. by apply NoDup_bounded. Qed.

Lemma owned_depth bt d lo hi t : owned bt t -> wf d lo hi t -> (d < fresh bt)%nat.
Proof. intros Ho Hw. apply depth_locs in Hw. apply owned_locs in Ho. lia. Qed.

Lemma get_spec bt l key : bt_rep bt l -> get key bt = (Ok (kv_get key l), bt).
Proof.
  unfold bt_rep, get. rewrite bind_get. destruct (root bt) as [r|]; [|by intros ->].
  intros (d&t&<-&Hsh&Ho&Hwf&Hch&<-).
  destruct (descend_spec d (fresh bt) bt None None t key) as (es&nx&E&Hs&Hg); try done.
  { by eapply owned_depth. }
  rewrite (bind_ok _ _ _ _ _ E). cbn [keys values]. rewrite Hg.
  destruct (keyIndex_spec es.*1 key Hs) as (i&Ei&Hi).
  rewrite (split_point_get es key i Hs Hi). cbv [mbind M_bind lift mret M_ret index]. rewrite Ei, list_lookup_fmap.
  destruct (es !! i) as [[k v]|] eqn:Ees; [|done]. cbn. case_decide; [|done].
  by rewrite list_lookup_fmap, Ees.
Qed.

Lemma entries_spec bt l : bt_rep bt l -> entries bt = (Ok l, bt).
Proof.
  unfold bt_rep, entries. rewrite bind_get. destruct (root bt) as [r|]; [|by intros ->].
  intros (d&t&<-&Hsh&Ho&Hwf&Hch&<-).
  destruct (leftmost_spec d (fresh bt) bt None None t) as (n&E&Hn); try done.
  { by eapply owned_depth. }
  rewrite (bind_ok _ _ _ _ _ E). rewrite <- (Hn None). apply chainEntries_spec; [|done|].
  - apply length_leaves_locs in Hwf. apply owned_locs in Ho. lia.
  - intros n' es Hin. by eapply shape_leaves.
Qed.

Lemma put_root bt d t key value :
  root bt = Some (tloc t) -> shape d (heap bt) t -> owned bt t -> wf d None None t ->
  chain (heap bt) (leaf_locs t) None -> (nkeys t < btreeOrder)%nat ->
  exists bt', insertNonFull (fresh bt) (tloc t) key value bt = (Ok tt, bt') /\
    bt_rep bt' (kv_put key value (contents t)).
Proof.
  intros Hr Hsh Ho Hwf Hch Hn.
  destruct (insertNonFull_spec d (fresh bt) bt None None t key value) as (bt'&t'&E&Hst&Hwf'&Hct); try done.
  { by eapply owned_depth. }
  exists bt'. split; [done|]. unfold bt_rep. rewrite (st_root _ _ _ _ _ Hst), Hr.
  exists d, t'. split_and!; [apply Hst|apply Hst|by eapply owned_step|done|by apply Hst|done].
Qed.

(** A full root gets a new root above it. *)
Lemma grow_root bt d t :
  root bt = Some (tloc t) -> shape d (heap bt) t -> owned bt t -> wf d None None t ->
  let bt1 := MkTree (Some (fresh bt)) (<[fresh bt := MkNode false [] [] [tloc t] None]> (heap bt)) (S (fresh bt)) in
  shape (S d) (heap bt1) (TNode (fresh bt) [(None, t)]) /\ owned bt1 (TNode (fresh bt) [(None, t)]) /\
  wf (S d) None None (TNode (fresh bt) [(None, t)]) /\
  (chain (heap bt) (leaf_locs t) None -> chain (heap bt1) (leaf_locs (TNode (fresh bt) [(None, t)])) None).
Proof.
  intros Hr Hsh [Hd Hb] Hwf bt1.
  assert (forall l, l ∈ locs t -> heap bt1 !! l = heap bt !! l) as Hfr.
  { intros l Hl. cbn. rewrite lookup_insert_ne; [done|]. apply Hb in Hl. lia. }
  assert (locs (TNode (fresh bt) [(None, t)]) = fresh bt :: locs t) as Hl.
  { cbn. by rewrite app_nil_r. }
  split_and!.
  - split; [apply lookup_insert_eq|]. constructor; [|constructor]. by eapply shape_frame.
  - split; rewrite Hl; [apply NoDup_cons; split; [intros Hin%Hb; lia|done]|].
    intros l [->|Hin]%elem_of_cons; [cbn; lia|]. apply Hb in Hin. cbn. lia.
  - split; [by constructor|]. unfold btreeOrder. cbn. lia.
  - change (leaf_locs (TNode (fresh bt) [(None, t)])) with ((leaves t ++ []).*1). rewrite app_nil_r.
    apply chain_frame. intros l Hin. rewrite Hfr; [done|]. by eapply leaf_locs_sub.
Qed.

Lemma put_spec bt l key value :
  bt_rep bt l -> exists bt', put key value bt = (Ok tt, bt') /\ bt_rep bt' (kv_put key value l).
Proof.
  intros Hrep. pose proof Hrep as Hrep'. unfold bt_rep in Hrep. unfold put.
  rewrite bind_get. destruct (root bt) as [r|] eqn:Hr.
  - destruct Hrep as (d&t&<-&Hsh&Ho&Hwf&Hch&<-).
    assert (exists x, heap bt !! tloc t = Some x) as [x Hx].
    { destruct d, t; cbn [shape] in Hsh; try done; [destruct Hsh as [? H]|destruct Hsh as [H _]]; cbn; eauto. }
    rewrite (bind_ok _ _ _ _ _ (deref_ok _ _ _ Hx)), (nkeys_keys _ _ _ _ _ _ Hsh Hwf Hx). case_decide as Hf.
    + destruct (grow_root bt d t Hr Hsh Ho Hwf) as (S1&O1&W1&C1). specialize (C1 Hch).
      set (bt1 := MkTree _ _ _) in *.
      destruct (split_tree (fresh bt1) t) as [[cl s] cr] eqn:Hsp.
      destruct (split_wf _ _ _ _ _ _ _ _ Hwf Hf Hsp) as (V1&V2&V3&V4&V5&V6&V7).
      destruct (splitChild_spec d bt1 (fresh bt) [] None t [] None None None None cl s cr S1 O1 W1 Hwf Hf Hsp)
        as (bt2&E2&St2). cbn [length app] in E2, St2.
      destruct (put_root bt2 (S d) (TNode (fresh bt) [(None, cl); (Some s, cr)]) key value) as (bt'&E'&R').
      { by rewrite (st_root _ _ _ _ _ St2). } { apply St2. } { by eapply owned_step. }
      { split; [|unfold btreeOrder; cbn; lia]. eapply kids_cons; [done..|]. by constructor. }
      { by apply St2. } { unfold btreeOrder. cbn. lia. }
      exists bt'. split.
      * erewrite bind_ok; cycle 1.
        { erewrite bind_ok by reflexivity. erewrite bind_ok by reflexivity. by rewrite (bind_ok _ _ _ _ _ E2). }
        exact E'.
      * by rewrite contents_node, !kcontents_cons, app_nil_r, V5 in R'.
    + rewrite bind_ret, bind_get. apply (put_root bt d t); try done.
      pose proof (wf_nkeys _ _ _ _ Hwf). lia.
  - subst l. eexists. split; [reflexivity|]. unfold bt_rep. cbn [root set_root modify alloc snd].
    exists O, (TLeaf (fresh bt) [(key, value)]). split_and!; try done.
    + exists None. apply lookup_insert_eq.
    + split; [apply NoDup_singleton|]. intros n Hn. apply list_elem_of_singleton in Hn as ->. cbn. lia.
    + cbn. split_and!; [by repeat constructor|done|unfold btreeOrder; lia].
    + cbn. by rewrite lookup_insert_eq.
Qed.

(** Re-inserting sorted entries above what is there appends them. *)
Lemma putAll_spec bt l acc :
  bt_rep bt acc -> sorted_keys (acc ++ l) -> exists bt', putAll l bt = (Ok tt, bt') /\ bt_rep bt' (acc ++ l).
Proof.
  revert bt acc. induction l as [|[k v] l IH]; intros bt acc Hrep Hs; cbn [putAll].
  { exists bt. by rewrite app_nil_r. }
  destruct (put_spec bt acc k v Hrep) as (bt1&E1&R1).
  assert (kv_put k v acc = acc ++ [(k, v)]) as Hput.
  { rewrite <- (app_nil_r acc) at 1. rewrite <- (app_nil_r []), kv_put_app; [done| |set_solver].
    apply sorted_keys_app in Hs as (_&_&Hs). intros k' Hk'. apply Hs; [done|constructor]. }
  rewrite Hput in R1. destruct (IH bt1 (acc ++ [(k, v)])) as (bt2&E2&R2); [done|by rewrite <- app_assoc|].
  exists bt2. rewrite (bind_ok _ _ _ _ _ E1). by rewrite <- app_assoc in R2.
Qed.

Lemma delete_spec bt l key :
  bt_rep bt l -> exists bt', delete key bt = (Ok (bool_decide (is_Some (kv_get key l))), bt') /\ bt_rep bt' (kv_del key l).
Proof.
  intros Hrep. unfold delete. rewrite (bind_ok _ _ _ _ _ (get_spec _ _ key Hrep)).
  destruct (kv_get key l) as [v|] eqn:Hg.
  - rewrite (bind_ok _ _ _ _ _ (entries_spec _ _ Hrep)).
    set (bt0 := MkTree None (heap bt) (fresh bt)).
    destruct (putAll_spec bt0 (kv_del key l) []) as (bt'&E&R); [done|by apply kv_del_sorted, (bt_rep_sorted bt)|].
    exists bt'. split; [|done]. erewrite bind_ok by reflexivity. fold bt0. by rewrite (bind_ok _ _ _ _ _ E).
  - exists bt. split; [done|]. unfold kv_del. rewrite filter_all; [done|].
    apply Forall_forall. intros [k v] Hin Hk. cbn in Hk. subst k. apply kv_get_None in Hg. apply Hg.
    apply list_elem_of_fmap. by exists (key, v).
Qed.

Lemma empty_btree_rep : bt_rep empty_btree [].
Proof. done. Qed.

(** ** The tree refines a sorted map *)

Inductive index_op := IGet (key : bytes) | IPut (key value : bytes) | IDelete (key : bytes) | IEntries.
Inductive index_res := RGet (v : option bytes) | RPut | RDelete (found : bool) | REntries (l : kvs).

Definition run_index (o : index_op) : M btree index_res :=
  match o with
  | IGet k => RGet <$> get k
  | IPut k v => _ ← put k v; mret RPut
  | IDelete k => RDelete <$> delete k
  | IEntries => REntries <$> entries
  end.

Definition spec_index (o : index_op) (l : kvs) : index_res * kvs :=
  match o with
  | IGet k => (RGet (kv_get k l), l)
  | IPut k v => (RPut, kv_put k v l)
  | IDelete k => (RDelete (bool_decide (is_Some (kv_get k l))), kv_del k l)
  | IEntries => (REntries l, l)
  end.

Fixpoint run_indexes (os : list index_op) : M btree (list index_res) :=
  match os with
  | [] => mret []
  | o :: os => r ← run_index o; rs ← run_indexes os; mret (r :: rs)
  end.

Fixpoint spec_indexes (os : list index_op) (l : kvs) : list index_res * kvs :=
  match os with
  | [] => ([], l)
  | o :: os => let '(r, l) := spec_index o l in let '(rs, l) := spec_indexes os l in (r :: rs, l)
  end.

Lemma run_index_spec o bt l :
  bt_rep bt l -> exists bt', run_index o bt = (Ok (spec_index o l).1, bt') /\ bt_rep bt' (spec_index o l).2.
Proof.
  intros Hrep. destruct o as [k|k v|k|]; cbn [run_index spec_index fst snd]; cbv [fmap M_fmap].
  - exists bt. by rewrite (bind_ok _ _ _ _ _ (get_spec _ _ k Hrep)).
  - destruct (put_spec _ _ k v Hrep) as (bt'&E&R). exists bt'. by rewrite (bind_ok _ _ _ _ _ E).
  - destruct (delete_spec _ _ k Hrep) as (bt'&E&R). exists bt'. by rewrite (bind_ok _ _ _ _ _ E).
  - exists bt. by rewrite (bind_ok _ _ _ _ _ (entries_spec _ _ Hrep)).
Qed.

Lemma run_indexes_spec os bt l :
  bt_rep bt l -> exists bt', run_indexes os bt = (Ok (spec_indexes os l).1, bt') /\ bt_rep bt' (spec_indexes os l).2.
Proof.
  revert bt l. induction os as [|o os IH]; intros bt l Hrep; cbn [run_indexes spec_indexes]; [by exists bt|].
  destruct (run_index_spec o bt l Hrep) as (bt1&E1&R1). rewrite (bind_ok _ _ _ _ _ E1).
  destruct (spec_index o l) as [r l1]. destruct (IH bt1 l1 R1) as (bt2&E2&R2).
  exists bt2. rewrite (bind_ok _ _ _ _ _ E2). by destruct (spec_indexes os l1).
Qed.

(** C7: from the empty tree, every sequence of [get], [put], [delete] and
    [entries] runs without panicking or running out of fuel, and answers as the
    sorted association list does; the tree stays well formed (sorted leaves
    within their separators, at most 32 keys per node, uniform depth, leaves
    chained in order). *)
Theorem btree_refines_map os :
  exists bt, run_indexes os empty_btree = (Ok (spec_indexes os []).1, bt) /\ bt_rep bt (spec_indexes os []).2.
Proof. apply run_indexes_spec, empty_btree_rep. Qed.

(** on every well-formed tree, a [put] makes [get] return the new value for
    that key and leaves the value of every other key, and [entries] stays
    strictly sorted. *)
Theorem btree_put_get bt l key value :
  bt_rep bt l -> exists bt' es, put key value bt = (Ok tt, bt') /\
    (forall k, get k bt' = (Ok (if decide (k = key) then Some value else kv_get k l), bt')) /\
    entries bt' = (Ok es, bt') /\ sorted_keys es.
Proof.
  intros Hrep. destruct (put_spec bt l key value Hrep) as (bt'&E&R). exists bt', (kv_put key value l).
  pose proof (bt_rep_sorted _ _ Hrep). split_and!; [done| |by apply entries_spec|by eapply bt_rep_sorted].
  intros k. by rewrite (get_spec _ _ k R), kv_get_put.
Qed.

Definition two_keys : btree := (run_indexes [IPut [Byte.x02] [Byte.x61]; IPut [Byte.x01] [Byte.x62]] empty_btree).2.

Lemma btree_put_get_witness : bt_rep two_keys [([Byte.x01], [Byte.x62]); ([Byte.x02], [Byte.x61])] /\
  exists bt' es, put [Byte.x01] [Byte.x63] two_keys = (Ok tt, bt') /\
    (forall k, get k bt' = (Ok (if decide (k = [Byte.x01]) then Some [Byte.x63]
       else kv_get k [([Byte.x01], [Byte.x62]); ([Byte.x02], [Byte.x61])]), bt')) /\
    entries bt' = (Ok es, bt') /\ sorted_keys es.
Proof.
  assert (bt_rep two_keys [([Byte.x01], [Byte.x62]); ([Byte.x02], [Byte.x61])]) as Hrep.
  { destruct (run_indexes_spec [IPut [Byte.x02] [Byte.x61]; IPut [Byte.x01] [Byte.x62]] empty_btree [] empty_btree_rep)
      as (bt&E&R). unfold two_keys. rewrite E. exact R. }
  split; [exact Hrep|]. exact (btree_put_get _ _ _ _ Hrep).
Defined.
