(* ===== verification/Wal.v ===== *)
(** * The write-ahead log ([src/kv/wal.go])

    The log is the byte contents of its file, appended record by record; a write
    fault stores a prefix of the record and reports an error, so that torn
    records arise in the model too, and after [close] every access fails. [replay] walks the bytes as the source does,
    with the record count bounded by the file length as fuel, and hands every
    operation to a callback in the state monad of the caller. *)
From S2P Require Import Prelude.

Definition walMagic : bytes :=
  [Byte.x4d; Byte.x59; Byte.x57; Byte.x41; Byte.x4c; Byte.x30; Byte.x31; Byte.x00].
Definition walHeader : Z := 8 + 1 + 4 + 4 + 4.
Definition walPut : byte := Byte.x01.
Definition walDelete : byte := Byte.x02.
Definition walTxPut : byte := Byte.x03.
Definition walTxDelete : byte := Byte.x04.
Definition walTxCommit : byte := Byte.x05.

(** Injectable faults: a write that stores only its first [n] bytes and fails
    (truncation then fails too), or a failing [Sync]; [HandleClosed]: the handle has
    been closed. *)
Inductive wal_error := WriteFault (n : nat) (e : error) | SyncFault (e : error) | HandleClosed.

Record wal := MkWal { wal_file : bytes; wal_fault : option wal_error }.

Record BatchOp := MkOp { bKey : bytes; bValue : bytes; bDelete : bool }.

#[global] Instance BatchOp_eq_dec : EqDecision BatchOp.
Proof. solve_decision. Defined.

(** ** [crc32.ChecksumIEEE]: the reflected polynomial, bit by bit *)

Definition crc_poly : Z := 0xEDB88320.

Definition crc_bit (c : Z) : Z :=
  if Z.testbit c 0 then Z.lxor (Z.shiftr c 1) crc_poly else Z.shiftr c 1.

Definition crc_byte (c : Z) (b : byte) : Z :=
  Nat.iter 8 crc_bit (Z.lxor c (Z_of_byte b)).

Definition ChecksumIEEE (data : bytes) : Z :=
  Z.lxor (foldl crc_byte 0xFFFFFFFF data) 0xFFFFFFFF.

(** ** Writing *)

Definition size (w : wal) : outcome Z :=
  match wal_fault w with
  | Some HandleClosed => Err (Errorf "stat WAL: %w" [AErr ErrFileClosed])
  | _ => Ok (len (wal_file w))
  end.

(** [w.file.Write(record)] on a file opened with [O_APPEND]. *)
Definition file_Write (record : bytes) : M wal unit := fun w =>
  match wal_fault w with
  | Some (WriteFault n e) => (Err e, MkWal (wal_file w ++ take n record) (wal_fault w))
  | Some HandleClosed => (Err ErrFileClosed, w)
  | _ => (Ok tt, MkWal (wal_file w ++ record) (wal_fault w))
  end.

Definition file_Sync : M wal unit := fun w =>
  match wal_fault w with
  | Some (SyncFault e) => (Err e, w)
  | Some HandleClosed => (Err ErrFileClosed, w)
  | _ => (Ok tt, w)
  end.

Definition file_Truncate0 : M wal unit := fun w =>
  match wal_fault w with
  | Some (WriteFault n e) => (Err e, w)
  | Some HandleClosed => (Err ErrFileClosed, w)
  | _ => (Ok tt, MkWal [] (wal_fault w))
  end.

Definition encode_record (op : byte) (key value : bytes) : bytes :=
  let payload := op :: key ++ value in
  let record := replicate (Z.to_nat walHeader + length key + length value) Byte.x00 in
  let record := splice 0 walMagic record in
  let record := <[8%nat := op]> record in
  let record := splice 9 (put_le 4 (len key)) record in
  let record := splice 13 (put_le 4 (len value)) record in
  let record := splice 17 (put_le 4 (ChecksumIEEE payload)) record in
  let record := splice 21 key record in
  splice (21 + length key) value record.

Definition append (op : byte) (key value : bytes) : M wal unit :=
  if decide (u64 (u64 (len key) + u64 (len value)) > 2 ^ 32 - 1) then
    fail (Errorf "WAL record too large" [])
  else
    _ ← catch (file_Write (encode_record op key value))
      (fun err => fail (Errorf "writing WAL: %w" [AErr err]));
    catch file_Sync (fun err => fail (Errorf "syncing WAL: %w" [AErr err])).

Fixpoint appendOps (idbuf : bytes) (ops : list BatchOp) : M wal unit :=
  match ops with
  | [] => mret tt
  | op :: ops =>
      let key := idbuf ++ bKey op in
      let kind := if bDelete op then walTxDelete else walTxPut in
      _ ← append kind key (bValue op);
      appendOps idbuf ops
  end.

Definition appendTransaction (id : Z) (ops : list BatchOp) : M wal unit :=
  let idbuf := put_le 8 id in
  _ ← appendOps idbuf ops;
  append walTxCommit idbuf [].

Definition clear : M wal unit := _ ← file_Truncate0; file_Sync.

Definition close : M wal unit := fun w =>
  match wal_fault w with
  | Some HandleClosed => (Err ErrFileClosed, w)
  | _ => (Ok tt, MkWal (wal_file w) (Some HandleClosed))
  end.

(** The log that the next [openWAL] finds. *)
Definition openWAL (w : wal) : wal :=
  match wal_fault w with Some HandleClosed => MkWal (wal_file w) None | _ => w end.

(** ** Recovery *)

Section replay.
Context {S : Type} (apply : byte -> bytes -> bytes -> M S unit).

(** [for _, op := range pending[id]]. *)
Fixpoint applyPending (ops : list BatchOp) : M S unit :=
  match ops with
  | [] => mret tt
  | op :: ops =>
      let kind := if bDelete op then walDelete else walPut in
      _ ← apply kind (bKey op) (bValue op);
      applyPending ops
  end.

(** [r] is what the buffered reader has not delivered yet. *)
Fixpoint replay_loop (fuel : nat) (r : bytes) (remaining : Z)
    (pending : gmap Z (list BatchOp)) : M S unit :=
  match fuel with
  | O => lift NoFuel
  | Datatypes.S fuel =>
      if decide (len r < walHeader) then mret tt else
      let h := take (Z.to_nat walHeader) r in
      let r := drop (Z.to_nat walHeader) r in
      if decide (take 8 h <> walMagic) then fail (Errorf "invalid WAL magic" []) else
      let remaining := remaining - walHeader in
      let keyLen := get_le (slice 9 13 h) in
      let valLen := get_le (slice 13 17 h) in
      let bodyLen := u64 (keyLen + valLen) in
      if decide (bodyLen > u64 remaining \/ bodyLen > 2 ^ 63 - 1) then
        fail (Errorf "invalid WAL record length" [])
      else
      if decide (len r < bodyLen) then mret tt else
      let body := take (Z.to_nat bodyLen) r in
      let r := drop (Z.to_nat bodyLen) r in
      let remaining := remaining - bodyLen in
      op ← lift (of_option (h !! 8%nat));
      if decide (ChecksumIEEE (op :: body) <> get_le (slice 17 21 h)) then
        fail (Errorf "WAL checksum mismatch" [])
      else
      if decide (op <> walPut /\ op <> walDelete /\ op <> walTxPut /\ op <> walTxDelete /\ op <> walTxCommit) then
        fail (Errorf "unknown WAL operation %d" [AInt (Z_of_byte op)])
      else
      let key := take (Z.to_nat keyLen) body in
      let value := drop (Z.to_nat keyLen) body in
      if decide (op = walTxPut \/ op = walTxDelete) then
        if decide (len key < 8) then fail (Errorf "invalid transaction WAL key" []) else
        let id := get_le (take 8 body) in
        let op' := MkOp (slice 8 (Z.to_nat keyLen) body) value (bool_decide (op = walTxDelete)) in
        replay_loop fuel r remaining (<[id := default [] (pending !! id) ++ [op']]> pending)
      else
      if decide (op = walTxCommit) then
        if decide (len key <> 8) then fail (Errorf "invalid transaction commit" []) else
        let id := get_le (take 8 body) in
        _ ← applyPending (default [] (pending !! id));
        replay_loop fuel r remaining (delete id pending)
      else
        _ ← apply op key value;
        replay_loop fuel r remaining pending
  end.

Definition replay (file : bytes) : M S unit :=
  replay_loop (Datatypes.S (length file)) file (len file) ∅.
End replay.

(** ** The record layout *)

(** What a reader finds on disk. *)
Definition record_bytes (op : byte) (key value : bytes) : bytes :=
  walMagic ++ [op] ++ put_le 4 (len key) ++ put_le 4 (len value) ++
  put_le 4 (ChecksumIEEE (op :: key ++ value)) ++ key ++ value.

Lemma encode_record_eq op key value : encode_record op key value = record_bytes op key value.
Proof.
  unfold encode_record, record_bytes. change (Z.to_nat walHeader) with 21%nat.
  set (kl := put_le 4 (len key)). set (vl := put_le 4 (len value)). set (cs := put_le 4 (ChecksumIEEE _)).
  assert (length kl = 4%nat) as Hk by apply length_put_le. assert (length vl = 4%nat) as Hv by apply length_put_le.
  assert (length cs = 4%nat) as Hc by apply length_put_le.
  rewrite <- (app_nil_l (replicate _ _)), (splice_fresh 8) by (try done; rewrite length_replicate; lia).
  rewrite drop_replicate. replace (21 + length key + length value - 8)%nat with (S (12 + length key + length value)) by lia.
  cbn [replicate app]. change (walMagic ++ Byte.x00 :: ?r) with (walMagic ++ [Byte.x00] ++ r).
  rewrite (insert_app_r_alt walMagic) by (cbn; lia). change (8 - length walMagic)%nat with O.
  change (<[0%nat:=op]> ([Byte.x00] ++ ?r)) with ([op] ++ r). rewrite (app_assoc walMagic).
  rewrite (splice_fresh 4) by (try done; rewrite length_replicate; lia). rewrite drop_replicate.
  rewrite (app_assoc _ kl).
  rewrite (splice_fresh 4) by (try done; rewrite ?length_replicate, ?length_app, ?Hk; (done || lia)). rewrite drop_replicate.
  rewrite (app_assoc _ vl).
  rewrite (splice_fresh 4) by (try done; rewrite ?length_replicate, ?length_app, ?Hk, ?Hv; (done || lia)). rewrite drop_replicate.
  rewrite (app_assoc _ cs).
  rewrite (splice_fresh (length key)) by (try done; rewrite ?length_replicate, ?length_app, ?Hk, ?Hv, ?Hc; (done || lia)). rewrite drop_replicate.
  rewrite (app_assoc _ key).
  rewrite (splice_fresh (length value)) by (try done; rewrite ?length_replicate, ?length_app, ?Hk, ?Hv, ?Hc; cbn [length]; lia).
  rewrite drop_replicate. replace (_ - length value)%nat with O by lia. cbn [replicate].
  by rewrite app_nil_r, <- !app_assoc.
Qed.

Definition header_bytes (op : byte) (key value : bytes) : bytes :=
  walMagic ++ [op] ++ put_le 4 (len key) ++ put_le 4 (len value) ++ put_le 4 (ChecksumIEEE (op :: key ++ value)).

Lemma record_bytes_eq op key value : record_bytes op key value = header_bytes op key value ++ key ++ value.
Proof. unfold record_bytes, header_bytes. by rewrite <- !app_assoc. Qed.

Lemma header_length op key value : length (header_bytes op key value) = 21%nat.
Proof. unfold header_bytes. rewrite !length_app, !length_put_le. done. Qed.

Lemma header_fields op key value :
  take 8 (header_bytes op key value) = walMagic /\ header_bytes op key value !! 8%nat = Some op /\
  slice 9 13 (header_bytes op key value) = put_le 4 (len key) /\
  slice 13 17 (header_bytes op key value) = put_le 4 (len value) /\
  slice 17 21 (header_bytes op key value) = put_le 4 (ChecksumIEEE (op :: key ++ value)).
Proof.
  unfold header_bytes. split_and!; [done|done|..].
  - rewrite (app_assoc walMagic). apply slice_mid; rewrite ?length_put_le; done.
  - rewrite (app_assoc walMagic), (app_assoc _ (put_le 4 (len key))).
    apply slice_mid; rewrite ?length_app, ?length_put_le; done.
  - rewrite (app_assoc walMagic), (app_assoc _ (put_le 4 (len key))), (app_assoc _ (put_le 4 (len value))).
    rewrite <- (app_nil_r (put_le 4 (ChecksumIEEE _))). apply slice_mid; rewrite ?length_app, ?length_put_le; done.
Qed.

(** ** The checksum *)

Lemma crc_bit_range c : 0 <= c < 2 ^ 32 -> 0 <= crc_bit c < 2 ^ 32.
Proof.
  intros Hc. unfold crc_bit.
  assert (0 <= Z.shiftr c 1 < 2 ^ 31) as Hs.
  { rewrite Z.shiftr_div_pow2 by lia. change (2 ^ 1) with 2.
    split; [apply Z.div_pos; lia|apply Z.div_lt_upper_bound; lia]. }
  destruct (Z.testbit c 0); [|lia].
  assert (0 <= Z.lxor (Z.shiftr c 1) crc_poly) by (apply Z.lxor_nonneg; unfold crc_poly; lia).
  split; [done|]. destruct (decide (Z.lxor (Z.shiftr c 1) crc_poly = 0)) as [->|]; [lia|].
  apply Z.log2_lt_pow2; [lia|]. eapply Z.le_lt_trans; [apply Z.log2_lxor; unfold crc_poly; lia|].
  apply Z.max_lub_lt; [|done]. destruct (decide (Z.shiftr c 1 = 0)) as [->|]; [done|].
  apply Z.log2_lt_pow2; lia.
Qed.

Lemma lxor_range n a b : 0 <= n -> 0 <= a < 2 ^ n -> 0 <= b < 2 ^ n -> 0 <= Z.lxor a b < 2 ^ n.
Proof.
  intros Hn Ha Hb. assert (0 <= Z.lxor a b) by (apply Z.lxor_nonneg; lia). split; [done|].
  destruct (decide (Z.lxor a b = 0)) as [->|]; [lia|]. apply Z.log2_lt_pow2; [lia|].
  eapply Z.le_lt_trans; [apply Z.log2_lxor; lia|].
  apply Z.max_lub_lt.
  - destruct (decide (a = 0)) as [->|]; [|apply Z.log2_lt_pow2; lia]. destruct (decide (n = 0)); [|cbn; lia].
    subst. assert (b = 0) by lia. subst. done.
  - destruct (decide (b = 0)) as [->|]; [|apply Z.log2_lt_pow2; lia]. destruct (decide (n = 0)); [|cbn; lia].
    subst. assert (a = 0) by lia. subst. done.
Qed.

Lemma crc_iter_range n c : 0 <= c < 2 ^ 32 -> 0 <= Nat.iter n crc_bit c < 2 ^ 32.
Proof. intros Hc. induction n; [done|]. cbn. by apply crc_bit_range. Qed.

Lemma crc_byte_range c b : 0 <= c < 2 ^ 32 -> 0 <= crc_byte c b < 2 ^ 32.
Proof.
  intros Hc. unfold crc_byte. apply crc_iter_range.
  apply lxor_range; [lia|done|]. pose proof (Z_of_byte_range b). lia.
Qed.

Lemma crc_fold_range c data : 0 <= c < 2 ^ 32 -> 0 <= foldl crc_byte c data < 2 ^ 32.
Proof. revert c. induction data as [|b data IH]; intros c Hc; [done|]. apply IH. by apply crc_byte_range. Qed.

Lemma checksum_range data : 0 <= ChecksumIEEE data < 2 ^ 32.
Proof. apply lxor_range; [lia| |lia]. apply crc_fold_range. lia. Qed.

(** The step of the checksum register loses nothing: the low bit that is
    shifted out comes back as the top bit, through the polynomial. *)
Lemma crc_bit_inj c c' : 0 <= c < 2 ^ 32 -> 0 <= c' < 2 ^ 32 -> crc_bit c = crc_bit c' -> c = c'.
Proof.
  intros Hc Hc'. unfold crc_bit.
  assert (forall z, z = 2 * Z.shiftr z 1 + Z.b2z (Z.testbit z 0)) as Hz.
  { intros z. rewrite Z.shiftr_div_pow2, Z.bit0_mod by lia. apply Z.div_mod. done. }
  assert (forall z, 0 <= z < 2 ^ 32 -> Z.testbit (Z.shiftr z 1) 31 = false) as H31.
  { intros z Hz'. rewrite Z.shiftr_spec by lia. destruct (decide (z = 0)) as [->|]; [done|].
    apply Z.bits_above_log2; [lia|]. apply Z.log2_lt_pow2; lia. }
  destruct (Z.testbit c 0) eqn:E, (Z.testbit c' 0) eqn:E'; intros Heq.
  - apply (f_equal (fun z => Z.lxor z crc_poly)) in Heq. rewrite !Z.lxor_assoc, Z.lxor_nilpotent, !Z.lxor_0_r in Heq.
    rewrite (Hz c), (Hz c'), E, E', Heq. done.
  - apply (f_equal (fun z => Z.testbit z 31)) in Heq. rewrite Z.lxor_spec, !H31 in Heq by done. done.
  - apply (f_equal (fun z => Z.testbit z 31)) in Heq. rewrite Z.lxor_spec, !H31 in Heq by done. done.
  - rewrite (Hz c), (Hz c'), E, E', Heq. done.
Qed.

Lemma crc_iter_inj n c c' :
  0 <= c < 2 ^ 32 -> 0 <= c' < 2 ^ 32 -> Nat.iter n crc_bit c = Nat.iter n crc_bit c' -> c = c'.
Proof.
  intros Hc Hc'. induction n as [|n IH]; [done|]. cbn. intros H. apply IH.
  by apply crc_bit_inj in H; [|by apply crc_iter_range..].
Qed.

Lemma lxor_cancel a b b' : Z.lxor a b = Z.lxor a b' -> b = b'.
Proof. intros H. rewrite <- (Z.lxor_0_l b), <- (Z.lxor_nilpotent a), Z.lxor_assoc, H, <- Z.lxor_assoc, Z.lxor_nilpotent. apply Z.lxor_0_l. Qed.

Lemma crc_byte_inj c c' b b' :
  0 <= c < 2 ^ 32 -> 0 <= c' < 2 ^ 32 -> crc_byte c b = crc_byte c' b' -> Z.lxor c (Z_of_byte b) = Z.lxor c' (Z_of_byte b').
Proof.
  intros Hc Hc'. apply crc_iter_inj; (apply lxor_range; [lia|done|]).
  - pose proof (Z_of_byte_range b). lia.
  - pose proof (Z_of_byte_range b'). lia.
Qed.

Lemma crc_fold_inj data c c' :
  0 <= c < 2 ^ 32 -> 0 <= c' < 2 ^ 32 -> foldl crc_byte c data = foldl crc_byte c' data -> c = c'.
Proof.
  revert c c'. induction data as [|b data IH]; intros c c' Hc Hc' H; [done|].
  apply IH in H; [|by apply crc_byte_range..]. apply crc_byte_inj in H; [|done..].
  rewrite !(Z.lxor_comm _ (Z_of_byte b)) in H. by apply lxor_cancel in H.
Qed.

(** Data that differs in one byte has a different checksum. *)
Lemma checksum_byte pre b b' post :
  b <> b' -> ChecksumIEEE (pre ++ b :: post) <> ChecksumIEEE (pre ++ b' :: post).
Proof.
  intros Hne H. unfold ChecksumIEEE in H. rewrite !(Z.lxor_comm _ 0xFFFFFFFF) in H. apply lxor_cancel in H.
  rewrite !foldl_app in H. cbn [foldl] in H. set (c := foldl crc_byte 0xFFFFFFFF pre) in *.
  assert (0 <= c < 2 ^ 32) by (apply crc_fold_range; lia).
  apply crc_fold_inj in H; [|by apply crc_byte_range..]. apply crc_byte_inj in H; [|done..].
  apply lxor_cancel in H. by apply (inj Z_of_byte) in H.
Qed.

(** ** Replaying what was written *)

Definition wrec : Type := byte * bytes * bytes.
Definition encode (r : wrec) : bytes := record_bytes r.1.1 r.1.2 r.2.

(** The records [append] writes on behalf of the store. *)
Definition rec_ok (r : wrec) : Prop :=
  let '(op, key, value) := r in
  len key + len value < 2 ^ 32 /\
  (op = walPut \/ op = walDelete \/ ((op = walTxPut \/ op = walTxDelete) /\ 8 <= len key) \/
   (op = walTxCommit /\ len key = 8)).

(** The pending operations after a transaction record. *)
Definition add_pending (r : wrec) (pending : gmap Z (list BatchOp)) : gmap Z (list BatchOp) :=
  let '(op, key, value) := r in
  let id := get_le (take 8 key) in
  <[id := default [] (pending !! id) ++ [MkOp (drop 8 key) value (bool_decide (op = walTxDelete))]]> pending.

Section replay_step.
Context {S : Type} (apply : byte -> bytes -> bytes -> M S unit).

Definition step_record (fuel : nat) (r : wrec) (rest : bytes) (pending : gmap Z (list BatchOp)) : M S unit :=
  let '(op, key, value) := r in
  if decide (op = walTxPut \/ op = walTxDelete) then
    replay_loop apply fuel rest (len rest) (add_pending r pending)
  else if decide (op = walTxCommit) then
    let id := get_le (take 8 key) in
    _ ← applyPending apply (default [] (pending !! id));
    replay_loop apply fuel rest (len rest) (delete id pending)
  else _ ← apply op key value; replay_loop apply fuel rest (len rest) pending.

(** The header and body of the record at the front of the log are found again. *)
Lemma replay_step fuel r rest pending s :
  rec_ok r -> len (encode r ++ rest) < 2 ^ 63 ->
  replay_loop apply (Datatypes.S fuel) (encode r ++ rest) (len (encode r ++ rest)) pending s =
  step_record fuel r rest pending s.
Proof.
  destruct r as [[op key] value]. unfold encode. cbn [fst snd rec_ok]. intros [Hsz Hop] Hlen.
  rewrite record_bytes_eq in *. rewrite <- (app_assoc (header_bytes op key value)) in *.
  destruct (header_fields op key value) as (F1&F2&F3&F4&F5). pose proof (header_length op key value) as Hl.
  set (h := header_bytes op key value) in *. cbn [replay_loop]. change (Z.to_nat walHeader) with 21%nat.
  assert (len (h ++ (key ++ value) ++ rest) = 21 + len key + len value + len rest) as Htot by solve_length.
  assert (0 <= len key /\ 0 <= len value /\ 0 <= len rest) as (P1&P2&P3) by (unfold len; lia).
  rewrite decide_False by (unfold walHeader; lia).
  rewrite take_app_length', drop_app_length' by done. rewrite F1, F2, F3, F4, F5.
  rewrite decide_False by congruence.
  rewrite !get_put_le_small by (change (256 ^ Z.of_nat 4) with (2 ^ 32); pose proof (checksum_range (op :: key ++ value)); lia).
  rewrite Htot. unfold walHeader. unfold u64. rewrite !Z.mod_small by lia.
  rewrite decide_False by lia. rewrite decide_False by (rewrite !len_app; lia).
  assert (Z.to_nat (len key + len value) = length (key ++ value)) as Hb by (unfold len; rewrite length_app; lia).
  rewrite Hb, take_app_length, drop_app_length.
  assert (Z.to_nat (len key) = length key) as Hk by (unfold len; lia).
  rewrite Hk, take_app_length, drop_app_length.
  replace (21 + len key + len value + len rest - (8 + 1 + 4 + 4 + 4) - (len key + len value)) with (len rest) by lia.
  cbv [mbind M_bind lift of_option].
  rewrite decide_False by congruence.
  rewrite decide_False by (destruct Hop as [->|[->|[[[->| ->] _]|[-> _]]]]; tauto).
  unfold step_record, add_pending. case_decide as Ht.
  - assert (8 <= len key) as H8 by (destruct Hop as [->|[->|[[_ ?]|[-> _]]]]; done || (destruct Ht; done)).
    rewrite decide_False by lia. unfold len in H8.
    rewrite take_app_le by lia. unfold slice. rewrite drop_app_le by lia.
    by rewrite take_app_length' by (rewrite length_drop; lia).
  - case_decide as Hc; [|done].
    assert (len key = 8) as H8.
    { subst op. destruct Hop as [?|[?|[[? _]|[_ ?]]]]; done || tauto. }
    rewrite decide_False by lia. unfold len in H8. by rewrite take_app_le by lia.
Qed.
End replay_step.

(** The [apply] calls the records of a log stand for, given what is pending. *)
Definition pending_calls (ops : list BatchOp) : list wrec :=
  (fun op => (if bDelete op then walDelete else walPut, bKey op, bValue op)) <$> ops.

Fixpoint calls (pending : gmap Z (list BatchOp)) (rs : list wrec) : list wrec * gmap Z (list BatchOp) :=
  match rs with
  | [] => ([], pending)
  | (op, key, value) :: rs =>
      if decide (op = walTxPut \/ op = walTxDelete) then calls (add_pending (op, key, value) pending) rs
      else if decide (op = walTxCommit) then
        let id := get_le (take 8 key) in
        let '(cs, p) := calls (delete id pending) rs in (pending_calls (default [] (pending !! id)) ++ cs, p)
      else let '(cs, p) := calls pending rs in ((op, key, value) :: cs, p)
  end.

Definition log_bytes (rs : list wrec) : bytes := concat (encode <$> rs).

Section replay_log.
Context {S : Type} (apply : byte -> bytes -> bytes -> M S unit).

Fixpoint apply_all (cs : list wrec) : M S unit :=
  match cs with
  | [] => mret tt
  | (op, key, value) :: cs => _ ← apply op key value; apply_all cs
  end.

Lemma apply_all_app c1 c2 s : apply_all (c1 ++ c2) s = (_ ← apply_all c1; apply_all c2) s.
Proof.
  revert s. induction c1 as [|[[op k] v] c1 IH]; intros s; [done|]. cbn [apply_all app].
  rewrite bind_assoc. apply bind_ext. intros _ s'. apply IH.
Qed.

Lemma applyPending_calls ops s : applyPending apply ops s = apply_all (pending_calls ops) s.
Proof.
  revert s. induction ops as [|op ops IH]; intros s; [done|]. cbn [applyPending pending_calls fmap list_fmap apply_all].
  apply bind_ext. intros _ s'. apply IH.
Qed.

Lemma replay_records fuel rs tail pending s :
  Forall rec_ok rs -> len (log_bytes rs ++ tail) < 2 ^ 63 ->
  replay_loop apply (length rs + fuel) (log_bytes rs ++ tail) (len (log_bytes rs ++ tail)) pending s =
  (_ ← apply_all (calls pending rs).1; replay_loop apply fuel tail (len tail) (calls pending rs).2) s.
Proof.
  intros Hok. revert pending s. induction Hok as [|r rs Hr _ IH]; intros pending s Hlen; [done|].
  change (log_bytes (r :: rs)) with (encode r ++ log_bytes rs) in *. rewrite <- app_assoc in *. cbn [length Nat.add].
  rewrite replay_step by done. rewrite len_app in Hlen. pose proof (len_nonneg (encode r)).
  destruct r as [[op key] value]. cbn [calls]. unfold step_record. case_decide; [apply IH; lia|]. case_decide.
  - destruct (calls (delete _ pending) rs) as [cs p] eqn:Ec. cbn [fst snd]. 
    erewrite (bind_ext (apply_all (_ ++ _))) by reflexivity.
    transitivity ((_ ← apply_all (pending_calls (default [] (pending !! get_le (take 8 key))));
      replay_loop apply (length rs + fuel) (log_bytes rs ++ tail) (len (log_bytes rs ++ tail)) (delete (get_le (take 8 key)) pending)) s).
    { cbv [mbind M_bind]. by rewrite applyPending_calls. }
    cbv [mbind M_bind]. rewrite apply_all_app. cbv [mbind M_bind].
    destruct (apply_all (pending_calls _) s) as [[]]; try done. rewrite IH, Ec by lia. done.
  - destruct (calls pending rs) as [cs p] eqn:Ec. cbn [fst snd apply_all]. rewrite bind_assoc. apply bind_ext.
    intros _ s'. rewrite IH, Ec by lia. done.
Qed.

Lemma log_fuel rs tail : (length rs <= length (log_bytes rs ++ tail))%nat.
Proof.
  rewrite length_app. enough (length rs <= length (log_bytes rs))%nat by lia.
  induction rs as [|r rs IH]; [done|]. change (log_bytes (r :: rs)) with (encode r ++ log_bytes rs).
  rewrite length_app. unfold encode at 1. rewrite record_bytes_eq, length_app, header_length. cbn [length]. lia.
Qed.

(** [replay] of complete records followed by whatever a crash left. *)
Lemma replay_log rs tail s :
  Forall rec_ok rs -> len (log_bytes rs ++ tail) < 2 ^ 63 ->
  exists fuel, (length tail <= fuel)%nat /\ replay apply (log_bytes rs ++ tail) s =
  (_ ← apply_all (calls ∅ rs).1; replay_loop apply (Datatypes.S fuel) tail (len tail) (calls ∅ rs).2) s.
Proof.
  intros Hok Hlen. pose proof (log_fuel rs tail) as Hf. pose proof (log_fuel rs []) as Hf'. rewrite app_nil_r in Hf'.
  exists (length (log_bytes rs ++ tail) - length rs)%nat. split; [rewrite length_app; lia|].
  unfold replay. replace (Datatypes.S (length (log_bytes rs ++ tail)))
    with (length rs + Datatypes.S (length (log_bytes rs ++ tail) - length rs))%nat by lia.
  by apply replay_records.
Qed.

(** A tail shorter than a header is an interrupted append and is ignored. *)
Lemma replay_torn_header fuel tail pending s :
  len tail < walHeader -> replay_loop apply (Datatypes.S fuel) tail (len tail) pending s = (Ok tt, s).
Proof. intros Ht. cbn [replay_loop]. by rewrite decide_True. Qed.

Lemma replay_complete rs tail s :
  Forall rec_ok rs -> len (log_bytes rs ++ tail) < 2 ^ 63 -> len tail < walHeader ->
  replay apply (log_bytes rs ++ tail) s = apply_all (calls ∅ rs).1 s.
Proof.
  intros Hok Hlen Ht. destruct (replay_log rs tail s Hok Hlen) as (fuel&_&->). cbv [mbind M_bind].
  destruct (apply_all _ s) as [[[]| | |] s']; try done. by apply replay_torn_header.
Qed.
End replay_log.

(** ** The log as a sequence of commands *)

Inductive wal_cmd := CPut (key value : bytes) | CDelete (key : bytes) | CTx (id : Z) (ops : list BatchOp).

Definition run_cmd (c : wal_cmd) : M wal unit :=
  match c with
  | CPut key value => append walPut key value
  | CDelete key => append walDelete key []
  | CTx id ops => appendTransaction id ops
  end.

Fixpoint run_cmds (cs : list wal_cmd) : M wal unit :=
  match cs with [] => mret tt | c :: cs => _ ← run_cmd c; run_cmds cs end.

(** What recovery owes each command. *)
Definition cmd_calls (c : wal_cmd) : list wrec :=
  match c with
  | CPut key value => [(walPut, key, value)]
  | CDelete key => [(walDelete, key, [])]
  | CTx id ops => pending_calls ops
  end.

Definition tx_recs (id : Z) (ops : list BatchOp) : list wrec :=
  (fun op => (if bDelete op then walTxDelete else walTxPut, put_le 8 id ++ bKey op, bValue op)) <$> ops.

Definition cmd_recs (c : wal_cmd) : list wrec :=
  match c with
  | CPut key value => [(walPut, key, value)]
  | CDelete key => [(walDelete, key, [])]
  | CTx id ops => tx_recs id ops ++ [(walTxCommit, put_le 8 id, [])]
  end.

Definition op_fits (op : BatchOp) : Prop := 8 + len (bKey op) + len (bValue op) < 2 ^ 32.
Definition cmd_fits (c : wal_cmd) : Prop :=
  match c with
  | CPut key value => len key + len value < 2 ^ 32
  | CDelete key => len key < 2 ^ 32
  | CTx id ops => Forall op_fits ops
  end.

Lemma log_bytes_app r1 r2 : log_bytes (r1 ++ r2) = log_bytes r1 ++ log_bytes r2.
Proof. unfold log_bytes. by rewrite fmap_app, concat_app. Qed.

Lemma len_put_le n z : len (put_le n z) = Z.of_nat n.
Proof. unfold len. by rewrite length_put_le. Qed.

Lemma append_ok op key value w :
  len key + len value < 2 ^ 32 ->
  append op key value (MkWal w None) = (Ok tt, MkWal (w ++ log_bytes [(op, key, value)]) None).
Proof.
  intros Hs. pose proof (len_nonneg key). pose proof (len_nonneg value). unfold append, u64.
  rewrite (Z.mod_small (len key)), (Z.mod_small (len value)), Z.mod_small, decide_False by lia.
  cbv [mbind M_bind catch file_Write file_Sync]. cbn [wal_fault wal_file].
  unfold log_bytes. cbn [fmap list_fmap concat]. by rewrite encode_record_eq, app_nil_r.
Qed.

Lemma appendOps_ok id ops w :
  Forall op_fits ops ->
  appendOps (put_le 8 id) ops (MkWal w None) = (Ok tt, MkWal (w ++ log_bytes (tx_recs id ops)) None).
Proof.
  intros H. revert w. induction H as [|op ops Ho _ IH]; intros w; cbn [appendOps]; [by rewrite app_nil_r|].
  assert (len (put_le 8 id ++ bKey op) + len (bValue op) < 2 ^ 32) as Hs by (by rewrite len_app, len_put_le).
  rewrite (bind_ok _ _ _ _ _ (append_ok _ _ _ _ Hs)).
  rewrite IH, <- app_assoc, <- log_bytes_app. done.
Qed.

Lemma run_cmd_ok c w : cmd_fits c -> run_cmd c (MkWal w None) = (Ok tt, MkWal (w ++ log_bytes (cmd_recs c)) None).
Proof.
  destruct c as [key value|key|id ops]; cbn [run_cmd cmd_fits cmd_recs]; intros H.
  - by apply append_ok.
  - apply append_ok. change (len []) with 0. lia.
  - unfold appendTransaction. rewrite (bind_ok _ _ _ _ _ (appendOps_ok _ _ _ H)), append_ok.
    + by rewrite <- app_assoc, <- log_bytes_app.
    + rewrite len_put_le. change (len []) with 0. lia.
Qed.

Lemma run_cmds_ok cs w :
  Forall cmd_fits cs ->
  run_cmds cs (MkWal w None) = (Ok tt, MkWal (w ++ log_bytes (concat (cmd_recs <$> cs))) None).
Proof.
  intros H. revert w. induction H as [|c cs Hc _ IH]; intros w; cbn [run_cmds]; [by rewrite app_nil_r|].
  rewrite (bind_ok _ _ _ _ _ (run_cmd_ok _ _ Hc)), IH. cbn [fmap list_fmap concat].
  by rewrite log_bytes_app, app_assoc.
Qed.

Lemma tx_recs_ok id ops : Forall op_fits ops -> Forall rec_ok (tx_recs id ops).
Proof.
  intros H. apply Forall_fmap. eapply Forall_impl; [exact H|]. intros op Ho. unfold op_fits in Ho. cbn.
  rewrite len_app, len_put_le. pose proof (len_nonneg (bKey op)).
  split; [lia|]. right. right. left. split; [destruct (bDelete op); auto|lia].
Qed.

Lemma cmd_recs_ok c : cmd_fits c -> Forall rec_ok (cmd_recs c).
Proof.
  destruct c as [key value|key|id ops]; cbn [cmd_fits cmd_recs]; intros H.
  - constructor; [|constructor]. cbn. split; [lia|]. auto.
  - constructor; [|constructor]. cbn. change (len []) with 0. split; [lia|]. auto.
  - apply Forall_app. split; [by apply tx_recs_ok|]. constructor; [|constructor]. cbn.
    rewrite len_put_le. change (len []) with 0. split; [lia|]. auto.
Qed.

(** Transaction records only collect under their id. *)
Lemma calls_tx id ops rs pending :
  calls pending (tx_recs id ops ++ rs) =
  calls (match ops with [] => pending | _ => <[u64 id := default [] (pending !! u64 id) ++ ops]> pending end) rs.
Proof.
  revert pending. induction ops as [|op ops IH]; intros pending; [done|]. cbn [tx_recs fmap list_fmap app].
  change ((fun op0 => _) <$> ops) with (tx_recs id ops). cbn [calls].
  rewrite decide_True by (destruct (bDelete op); auto). unfold add_pending.
  rewrite take_app_length', drop_app_length' by (by rewrite length_put_le). rewrite u64_put, IH.
  assert (MkOp (bKey op) (bValue op) (bool_decide ((if bDelete op then walTxDelete else walTxPut) = walTxDelete)) = op) as ->.
  { destruct op as [k v []]; done. }
  destruct ops as [|op' ops']; [done|].
  rewrite lookup_insert_eq, insert_insert_eq. do 2 f_equal. symmetry. apply (app_assoc _ [op]).
Qed.

Lemma calls_cmd c rs :
  calls ∅ (cmd_recs c ++ rs) = let '(cs, p) := calls ∅ rs in (cmd_calls c ++ cs, p).
Proof.
  destruct c as [key value|key|id ops]; cbn [cmd_recs cmd_calls app]; [done|done|].
  rewrite <- app_assoc, calls_tx. cbn [app calls]. rewrite decide_False by (intros [?|?]; done).
  rewrite decide_True by done. rewrite take_ge by (by rewrite length_put_le). rewrite u64_put.
  destruct ops as [|op ops].
  - rewrite lookup_empty, delete_empty. done.
  - rewrite lookup_empty, lookup_insert_eq, delete_insert_eq, delete_empty. done.
Qed.

Lemma calls_cmds cs rs :
  calls ∅ (concat (cmd_recs <$> cs) ++ rs) = let '(l, p) := calls ∅ rs in (concat (cmd_calls <$> cs) ++ l, p).
Proof.
  induction cs as [|c cs IH]; cbn [fmap list_fmap concat].
  { cbn [app]. by destruct (calls ∅ rs). }
  rewrite <- app_assoc, calls_cmd, IH. destruct (calls ∅ rs). by rewrite app_assoc.
Qed.

(** ** Properties *)

Lemma calls_uncommitted cs id ops :
  (calls ∅ (concat (cmd_recs <$> cs) ++ tx_recs id ops)).1 = concat (cmd_calls <$> cs).
Proof.
  rewrite calls_cmds. rewrite <- (app_nil_r (tx_recs id ops)), calls_tx. cbn [calls fst]. by rewrite app_nil_r.
Qed.

Lemma recs_ok cs : Forall cmd_fits cs -> Forall rec_ok (concat (cmd_recs <$> cs)).
Proof.
  intros H. induction H as [|c cs Hc _ IH]; cbn [fmap list_fmap concat]; [constructor|].
  apply Forall_app. auto using cmd_recs_ok.
Qed.

(** C37: crash recovery of the log. Take any sequence of logged puts, deletes
    and transactions, then any part of a further transaction that never reached
    its commit record, then any torn header: replay calls back exactly the puts
    and deletes of the completed commands, in order, and nothing else. *)
Theorem wal_recovery {S} (apply : byte -> bytes -> bytes -> M S unit) (s : S)
    (cs : list wal_cmd) (id : Z) (ops : list BatchOp) (torn : bytes)
    (Hcs : Forall cmd_fits cs) (Hops : Forall op_fits ops) (Htorn : len torn < walHeader)
    (Hlen : len (log_bytes (concat (cmd_recs <$> cs) ++ tx_recs id ops) ++ torn) < 2 ^ 63) :
  exists w, run_cmds cs (MkWal [] None) = (Ok tt, w) /\
    replay apply (wal_file w ++ log_bytes (tx_recs id ops) ++ torn) s =
    apply_all apply (concat (cmd_calls <$> cs)) s.
Proof.
  eexists. split; [by apply run_cmds_ok|]. cbn [wal_file app]. rewrite app_assoc, <- log_bytes_app.
  rewrite replay_complete; [|apply Forall_app; auto using recs_ok, tx_recs_ok|done|done].
  by rewrite calls_uncommitted.
Qed.

(** A callback that records its calls. *)
Definition trace (op : byte) (key value : bytes) : M (list wrec) unit := modify (fun l => l ++ [(op, key, value)]).

Lemma wal_recovery_witness :
  let cs := [CPut [Byte.x61] [Byte.x31]; CTx 7 [MkOp [Byte.x62] [Byte.x32] false; MkOp [Byte.x61] [] true]; CDelete [Byte.x63]] in
  let ops := [MkOp [Byte.x64] [] false] in
  exists w, run_cmds cs (MkWal [] None) = (Ok tt, w) /\
    replay trace (wal_file w ++ log_bytes (tx_recs 9 ops) ++ walMagic) [] =
    apply_all trace (concat (cmd_calls <$> cs)) [].
Proof.
  intros cs ops. apply (wal_recovery trace [] cs 9 ops walMagic).
  - repeat constructor.
  - repeat constructor.
  - reflexivity.
  - vm_compute. reflexivity.
Defined.

(** a record whose header was written but whose body was cut short is not
    taken for an interrupted append: once the complete records are applied,
    replay fails, so the store does not open. *)
Theorem wal_torn_body {S} (apply : byte -> bytes -> bytes -> M S unit) (s : S)
    (cs : list wal_cmd) (op : byte) (key value : bytes) (n : nat)
    (Hcs : Forall cmd_fits cs) (Hsz : len key + len value < 2 ^ 32)
    (Hn : (Z.to_nat walHeader <= n < length (encode_record op key value))%nat)
    (Hlen : len (log_bytes (concat (cmd_recs <$> cs))) + len (encode_record op key value) < 2 ^ 63) :
  replay apply (log_bytes (concat (cmd_recs <$> cs)) ++ take n (encode_record op key value)) s =
  (_ ← apply_all apply (concat (cmd_calls <$> cs)); fail (Errorf "invalid WAL record length" [])) s.
Proof.
  rewrite encode_record_eq, record_bytes_eq in *. rewrite length_app, header_length in Hn. change (Z.to_nat walHeader) with 21%nat in Hn.
  destruct (header_fields op key value) as (F1&F2&F3&F4&F5). pose proof (header_length op key value) as Hl.
  set (h := header_bytes op key value) in *.
  assert (take n (h ++ key ++ value) = h ++ take (n - 21) (key ++ value)) as Ht.
  { rewrite take_app_ge by lia. by rewrite Hl. }
  rewrite !len_app in Hlen. pose proof (len_nonneg key). pose proof (len_nonneg value).
  pose proof (len_nonneg (log_bytes (concat (cmd_recs <$> cs)))) as Hp.
  assert (len (take (n - 21) (key ++ value)) = Z.of_nat (n - 21)) as Htk.
  { unfold len. rewrite length_take. rewrite length_app in *. lia. }
  assert (len h = 21) as Hlh by (unfold len; by rewrite Hl).
  destruct (replay_log apply (concat (cmd_recs <$> cs)) (take n (h ++ key ++ value)) s (recs_ok cs Hcs)) as (fuel&_&->).
  { rewrite Ht, !len_app, Htk. unfold len in *. rewrite length_app in Hn. lia. }
  pose proof (calls_uncommitted cs 0 []) as Hc. cbn [tx_recs fmap list_fmap] in Hc. rewrite app_nil_r in Hc. rewrite Hc.
  apply bind_ext. intros _ s'. rewrite Ht. cbn [replay_loop]. change (Z.to_nat walHeader) with 21%nat.
  rewrite len_app, Hlh, Htk, decide_False by (unfold walHeader; lia).
  rewrite take_app_length' by done. rewrite F1, F3, F4, decide_False by congruence.
  rewrite !get_put_le_small by (change (256 ^ Z.of_nat 4) with (2 ^ 32); lia).
  rewrite decide_True; [done|]. left. unfold walHeader, u64. unfold len in *. rewrite length_app in Hn.
  rewrite !Z.mod_small by lia. lia.
Qed.

Lemma wal_torn_body_witness :
  replay trace (log_bytes (concat (cmd_recs <$> [CDelete [Byte.x61]])) ++ take 22 (encode_record walPut [Byte.x62] [Byte.x63])) [] =
  (_ ← apply_all trace (concat (cmd_calls <$> [CDelete [Byte.x61]])); fail (Errorf "invalid WAL record length" [])) [].
Proof.
  apply (wal_torn_body trace [] [CDelete [Byte.x61]] walPut [Byte.x62] [Byte.x63] 22).
  - repeat constructor.
  - reflexivity.
  - vm_compute. lia.
  - vm_compute. reflexivity.
Defined.

(** a change of any one byte of the key or value of a logged record is
    detected: what precedes it is applied, then replay fails. *)
Theorem wal_detects_corruption {S} (apply : byte -> bytes -> bytes -> M S unit) (s : S)
    (cs : list wal_cmd) (op : byte) (key value a c rest : bytes) (b b' : byte)
    (Hcs : Forall cmd_fits cs) (Hsz : len key + len value < 2 ^ 32)
    (Hbody : key ++ value = a ++ b :: c) (Hne : b <> b')
    (Hlen : len (log_bytes (concat (cmd_recs <$> cs)) ++ header_bytes op key value ++ (a ++ b' :: c) ++ rest) < 2 ^ 63) :
  encode_record op key value = header_bytes op key value ++ a ++ b :: c /\
  replay apply (log_bytes (concat (cmd_recs <$> cs)) ++ header_bytes op key value ++ (a ++ b' :: c) ++ rest) s =
  (_ ← apply_all apply (concat (cmd_calls <$> cs)); fail (Errorf "WAL checksum mismatch" [])) s.
Proof.
  split; [by rewrite encode_record_eq, record_bytes_eq, Hbody|].
  destruct (header_fields op key value) as (F1&F2&F3&F4&F5). pose proof (header_length op key value) as Hl.
  set (h := header_bytes op key value) in *.
  destruct (replay_log apply (concat (cmd_recs <$> cs)) (h ++ (a ++ b' :: c) ++ rest) s (recs_ok cs Hcs) Hlen) as (fuel&_&->).
  pose proof (calls_uncommitted cs 0 []) as Hc. cbn [tx_recs fmap list_fmap] in Hc. rewrite app_nil_r in Hc. rewrite Hc.
  apply bind_ext. intros _ s'. cbn [replay_loop]. change (Z.to_nat walHeader) with 21%nat.
  assert (len h = 21) as Hlh by (unfold len; by rewrite Hl).
  assert (len (a ++ b' :: c) = len key + len value) as Hlb.
  { apply (f_equal len) in Hbody. unfold len in *. rewrite !length_app in *. cbn [length] in *. lia. }
  rewrite !len_app in *. rewrite Hlh in *. pose proof (len_nonneg rest). pose proof (len_nonneg key). pose proof (len_nonneg value).
  pose proof (len_nonneg (log_bytes (concat (cmd_recs <$> cs)))).
  rewrite decide_False by (unfold walHeader; lia).
  rewrite take_app_length', drop_app_length' by done. rewrite F1, F2, F3, F4, F5, decide_False by congruence.
  rewrite !get_put_le_small by (change (256 ^ Z.of_nat 4) with (2 ^ 32); pose proof (checksum_range (op :: key ++ value)); lia).
  unfold walHeader, u64. rewrite !Z.mod_small by lia. rewrite decide_False by lia.
  rewrite decide_False by (rewrite !len_app; lia).
  replace (Z.to_nat (len key + len value)) with (length (a ++ b' :: c)) by (unfold len in *; rewrite length_app; cbn [length] in *; lia).
  rewrite take_app_length. cbv [mbind M_bind lift of_option].
  rewrite decide_True; [done|]. rewrite Hbody.
  apply (checksum_byte (op :: a) b' b c). congruence.
Qed.

Lemma wal_detects_corruption_witness :
  encode_record walPut [Byte.x62] [Byte.x63] = header_bytes walPut [Byte.x62] [Byte.x63] ++ [Byte.x62] ++ [Byte.x63] /\
  replay trace (log_bytes (concat (cmd_recs <$> [CDelete [Byte.x61]])) ++
    header_bytes walPut [Byte.x62] [Byte.x63] ++ ([Byte.x62] ++ [Byte.x64]) ++ []) [] =
  (_ ← apply_all trace (concat (cmd_calls <$> [CDelete [Byte.x61]])); fail (Errorf "WAL checksum mismatch" [])) [].
Proof.
  apply (wal_detects_corruption trace [] [CDelete [Byte.x61]] walPut [Byte.x62] [Byte.x63] [Byte.x62] [] [] Byte.x63 Byte.x64).
  - repeat constructor.
  - reflexivity.
  - reflexivity.
  - discriminate.
  - vm_compute. reflexivity.
Defined.

(** transaction records are collected by id only, so the operations of a
    transaction that never committed are applied when a later transaction of the
    same log commits under the same id (commit ids restart with the process,
    and opening a store keeps the log). *)
Theorem wal_id_reuse {S} (apply : byte -> bytes -> bytes -> M S unit) (s : S) (id : Z) (lost ops : list BatchOp)
    (Hlost : Forall op_fits lost) (Hops : Forall op_fits ops)
    (Hlen : len (log_bytes (tx_recs id lost ++ cmd_recs (CTx id ops))) < 2 ^ 63) :
  replay apply (log_bytes (tx_recs id lost ++ cmd_recs (CTx id ops))) s =
  apply_all apply (pending_calls (lost ++ ops)) s.
Proof.
  rewrite <- (app_nil_r (log_bytes _)), replay_complete; [|..|by rewrite app_nil_r|done]; cycle 1.
  { apply Forall_app. split; [by apply tx_recs_ok|]. by apply (cmd_recs_ok (CTx id ops)). }
  f_equal. cbn [cmd_recs]. rewrite !calls_tx. cbn [calls].
  rewrite decide_False by (intros [?|?]; done). rewrite decide_True by done.
  rewrite take_ge by (by rewrite length_put_le). rewrite u64_put. cbn [fst]. rewrite app_nil_r.
  destruct lost, ops; cbn [app]; rewrite ?lookup_insert_eq, ?lookup_empty; cbn [default app]; by rewrite ?app_nil_r.
Qed.

Lemma wal_id_reuse_witness :
  replay trace (log_bytes (tx_recs 1 [MkOp [Byte.x61] [Byte.x31] false] ++ cmd_recs (CTx 1 [MkOp [Byte.x62] [] true]))) [] =
  apply_all trace (pending_calls ([MkOp [Byte.x61] [Byte.x31] false] ++ [MkOp [Byte.x62] [] true])) [].
Proof.
  apply (wal_id_reuse trace [] 1).
  - repeat constructor.
  - repeat constructor.
  - vm_compute. reflexivity.
Defined.
