(* ===== verification/Record.v ===== *)
(** * Records on pages ([readRecord], [writeRecord] of [src/kv/store.go])

    A record is a flag byte, the two 16-bit lengths, the key and the value,
    appended at the page's free offset. The scan of a page that [validatePages],
    [rebuildIndex] and [rebuildVersions] share is [forRecords]. *)
From S2P Require Import Prelude Page.

Definition flagLive : byte := Byte.x00.
Definition flagTombstone : byte := Byte.x01.
Definition recordHeaderSize : Z := 5.

Record record := MkRecord { rflag : byte; rkey : bytes; rvalue : bytes; rsize : Z }.

Definition readRecord (data : bytes) (offset : Z) : outcome record :=
  if decide (offset + recordHeaderSize > len data) then
    Err (Errorf "record header out of bounds at offset %d" [AInt offset])
  else
    flag ← of_option (data !! Z.to_nat offset);
    let keyLen := get_le (slice (Z.to_nat (offset + 1)) (Z.to_nat (offset + 3)) data) in
    let valLen := get_le (slice (Z.to_nat (offset + 3)) (Z.to_nat (offset + 5)) data) in
    let start := offset + recordHeaderSize in
    let end_ := start + keyLen + valLen in
    if decide (end_ > len data) then
      Err (Errorf "record body out of bounds at offset %d" [AInt offset])
    else Ok {| rflag := flag;
               rkey := slice (Z.to_nat start) (Z.to_nat (start + keyLen)) data;
               rvalue := slice (Z.to_nat (start + keyLen)) (Z.to_nat end_) data;
               rsize := recordHeaderSize + keyLen + valLen |}.

Definition writeRecord (page : Page) (key value : bytes) (flag : byte) : outcome Page :=
  let needed := recordHeaderSize + len key + len value in
  if decide (Remaining page < needed) then Err (Errorf "page full" [])
  else
    let offset := FreeOffset page in
    let off := Z.to_nat offset in
    let data := Data page in
    let data := <[off := flag]> data in
    let data := splice (off + 1) (put_le 2 (len key)) data in
    let data := splice (off + 3) (put_le 2 (len value)) data in
    let start := (off + Z.to_nat recordHeaderSize)%nat in
    let data := splice start key data in
    let data := splice (start + length key) value data in
    Ok (SetFreeOffset (u16 (offset + u16 needed)) (MkPage (ID page) data)).

(** [for off < free { r := readRecord(...); body; off += uint16(r.size) }]. *)
Fixpoint forRecords {S} (fuel : nat) (page : Page) (off : Z) (body : record -> M S unit) : M S unit :=
  if decide (off < FreeOffset page) then
    match fuel with
    | O => lift NoFuel
    | Datatypes.S fuel =>
        r ← lift (readRecord (Data page) off);
        _ ← body r;
        forRecords fuel page (u16 (off + u16 (rsize r))) body
    end
  else mret tt.

(** A record takes at least its header, so a page holds fewer than [PageSize]. *)
Definition scan_fuel : nat := Z.to_nat PageSize.

Definition scanPage {S} (page : Page) (body : record -> M S unit) : M S unit :=
  forRecords scan_fuel page HeaderSize body.

(** ** What a page holds *)

Definition lrec : Type := byte * bytes * bytes.
Definition enc (r : lrec) : bytes :=
  let '(flag, key, value) := r in flag :: put_le 2 (len key) ++ put_le 2 (len value) ++ key ++ value.
Definition encs (rs : list lrec) : bytes := concat (enc <$> rs).
Definition rec_size (r : lrec) : Z := let '(flag, key, value) := r in recordHeaderSize + len key + len value.
Definition of_lrec (r : lrec) : record := let '(flag, key, value) := r in MkRecord flag key value (rec_size r).

(** The records of the page, in order, fill its bytes from the header to the
    free offset. *)
Record page_holds (p : Page) (rs : list lrec) : Prop := {
  ph_wf : page_wf p;
  ph_free : FreeOffset p = HeaderSize + len (encs rs);
  ph_max : FreeOffset p <= PageSize;
  ph_data : slice (Z.to_nat HeaderSize) (Z.to_nat (FreeOffset p)) (Data p) = encs rs
}.

Lemma len_enc r : len (enc r) = rec_size r.
Proof.
  destruct r as [[f k] v]. cbn [enc rec_size]. unfold len, recordHeaderSize. cbn [length].
  rewrite !length_app, !length_put_le. lia.
Qed.

Lemma encs_app r1 r2 : encs (r1 ++ r2) = encs r1 ++ encs r2.
Proof. unfold encs. by rewrite fmap_app, concat_app. Qed.
Lemma encs_one r : encs [r] = enc r.
Proof. unfold encs. cbn. apply app_nil_r. Qed.
Lemma encs_cons r rs : encs (r :: rs) = enc r ++ encs rs.
Proof. done. Qed.

Lemma rec_size_pos r : recordHeaderSize <= rec_size r.
Proof. destruct r as [[f k] v]. cbn. pose proof (len_nonneg k). pose proof (len_nonneg v). unfold recordHeaderSize. lia. Qed.

(** The bytes of a page are its header, its records and free space. *)
Lemma page_split p rs :
  page_holds p rs -> Data p = take 16 (Data p) ++ encs rs ++ drop (Z.to_nat (FreeOffset p)) (Data p).
Proof.
  intros H. rewrite <- (ph_data _ _ H). rewrite <- (take_drop 16 (Data p)) at 1. f_equal.
  rewrite <- (take_drop (Z.to_nat (FreeOffset p) - 16) (drop 16 (Data p))) at 1. unfold slice.
  change (Z.to_nat HeaderSize) with 16%nat. f_equal. rewrite drop_drop. f_equal.
  pose proof (ph_free _ _ H). pose proof (len_nonneg (encs rs)). unfold HeaderSize in *. lia.
Qed.

Lemma NewPage_holds id : 0 <= id < 2 ^ 32 -> page_holds (NewPage id) [].
Proof.
  intros Hid. pose proof (NewPage_wf id Hid) as Hwf.
  pose proof (FreeOffset_NewPage id) as Hf.
  split; rewrite ?Hf; try done.
Qed.

Lemma SetNextPageID_holds id p rs : page_holds p rs -> page_holds (SetNextPageID id p) rs.
Proof.
  intros [Hwf Hf Hm Hd]. pose proof (len_nonneg (encs rs)). split; rewrite ?FreeOffset_SetNextPageID by done; auto with godb.
  rewrite <- Hd. apply body_SetNextPageID; [done|unfold HeaderSize; lia].
Qed.

Lemma page_room p rs : page_holds p rs -> 16 <= FreeOffset p <= PageSize /\ Z.of_nat (length (Data p)) = PageSize.
Proof.
  intros [[_ Hl] Hf Hm _]. pose proof (len_nonneg (encs rs)). unfold HeaderSize in *.
  split; [lia|]. rewrite Hl. done.
Qed.

(** ** Appending a record *)

(** The bytes after the four copies of [writeRecord]. *)
Lemma write_bytes (off : nat) (flag : byte) (key value d : bytes) :
  (off + 5 + length key + length value <= length d)%nat ->
  splice (off + 5 + length key) value (splice (off + 5) key
    (splice (off + 3) (put_le 2 (len value)) (splice (off + 1) (put_le 2 (len key)) (<[off := flag]> d)))) =
  take off d ++ enc (flag, key, value) ++ drop (off + 5 + length key + length value) d.
Proof.
  intros Hl. cbn [enc]. set (kl := put_le 2 (len key)). set (vl := put_le 2 (len value)).
  assert (length kl = 2%nat) as Hk by apply length_put_le. assert (length vl = 2%nat) as Hv by apply length_put_le.
  rewrite insert_take_drop by lia.
  assert (length (take off d) = off) as Ht by (rewrite length_take; lia).
  change (flag :: drop (S off) d) with ([flag] ++ drop (S off) d). rewrite app_assoc.
  rewrite (splice_fresh 2) by (rewrite ?length_app, ?length_drop, ?Ht; cbn [length]; lia). rewrite drop_drop, app_assoc.
  rewrite (splice_fresh 2) by (rewrite ?length_app, ?length_drop, ?Ht, ?Hk; cbn [length]; lia). rewrite drop_drop, app_assoc.
  rewrite (splice_fresh (length key)) by (rewrite ?length_app, ?length_drop, ?Ht, ?Hk, ?Hv; cbn [length]; lia). rewrite drop_drop, app_assoc.
  rewrite (splice_fresh (length value)) by (rewrite ?length_app, ?length_drop, ?Ht, ?Hk, ?Hv; cbn [length]; lia). rewrite drop_drop.
  rewrite <- !app_comm_cons, <- !app_assoc. cbn [app]. repeat (f_equal; try lia).
Qed.

Lemma writeRecord_ok p rs key value flag :
  page_holds p rs -> rec_size (flag, key, value) <= Remaining p ->
  exists p', writeRecord p key value flag = Ok p' /\ page_holds p' (rs ++ [(flag, key, value)]) /\
    ID p' = ID p /\ NextPageID p' = NextPageID p /\ HeaderID p' = HeaderID p.
Proof.
  intros H Hr. destruct (page_room p rs H) as [Hfo Hl]. pose proof (ph_wf _ _ H) as Hwf. cbn [rec_size] in Hr.
  unfold Remaining in Hr. unfold writeRecord, Remaining. rewrite decide_False by lia. eexists. split; [reflexivity|].
  pose proof (len_nonneg key) as Hk. pose proof (len_nonneg value) as Hv.
  set (off := Z.to_nat (FreeOffset p)). set (needed := recordHeaderSize + len key + len value).
  assert (needed = 5 + Z.of_nat (length key) + Z.of_nat (length value)) as Hnd by done.
  assert (needed <= 4096 - FreeOffset p) as Hr' by done. clearbody needed. clear Hr. unfold PageSize, HeaderSize in *.
  change (Z.to_nat recordHeaderSize) with 5%nat. rewrite write_bytes; cycle 1.
  { unfold off. lia. }
  set (d' := take off (Data p) ++ _).
  assert (take off (Data p) = take 16 (Data p) ++ encs rs) as Htk.
  { rewrite <- (ph_data _ _ H). unfold off, slice. change (Z.to_nat HeaderSize) with 16%nat.
    rewrite <- (take_drop 16 (take (Z.to_nat (FreeOffset p)) (Data p))). rewrite take_take, skipn_firstn_comm. do 3 f_equal. lia. }
  assert (length (take off (Data p)) = off) as Hto by (rewrite length_take; unfold off; lia).
  assert (length d' = 4096%nat) as Hd'.
  { unfold d'. rewrite !length_app, length_drop, Hto. pose proof (len_enc (flag, key, value)) as He. cbn [rec_size] in He.
    unfold len, recordHeaderSize in He. unfold off. lia. }
  assert (page_wf (MkPage (ID p) d')) as Hwf' by (split; [apply Hwf|done]).
  assert (u16 (FreeOffset p + u16 needed) = FreeOffset p + needed) as Hu.
  { unfold u16. rewrite (Z.mod_small needed) by lia. apply Z.mod_small. lia. }
  rewrite Hu.
  assert (FreeOffset (SetFreeOffset (FreeOffset p + needed) (MkPage (ID p) d')) = FreeOffset p + needed) as Hf'.
  { rewrite FreeOffset_SetFreeOffset by done. unfold u16. apply Z.mod_small. lia. }
  assert (forall lo hi, (hi <= 16)%nat -> slice lo hi d' = slice lo hi (Data p)) as Hhead.
  { intros lo hi Hh. unfold d'. rewrite Htk, <- app_assoc.
    transitivity (slice lo hi (take 16 (Data p) ++ drop 16 (Data p))); [|by rewrite take_drop].
    rewrite !slice_app_l by (rewrite length_take; lia). done. }
  split_and!; [|done|..].
  - split; rewrite ?Hf'; [auto with godb|..].
    + rewrite encs_app, encs_one, len_app, len_enc. cbn [rec_size]. rewrite (ph_free _ _ H). unfold recordHeaderSize, len, HeaderSize in *. lia.
    + unfold PageSize; lia.
    + rewrite body_SetFreeOffset by (done || (unfold HeaderSize; lia)). cbn [Data]. unfold d'. rewrite Htk.
      rewrite <- app_assoc, (app_assoc (encs rs)), encs_app, encs_one. apply slice_mid.
      * rewrite length_take. unfold HeaderSize; lia.
      * pose proof (len_enc (flag, key, value)) as He. cbn [rec_size] in He. rewrite length_app.
        pose proof (ph_free _ _ H). unfold len, HeaderSize, recordHeaderSize in *. lia.
  - rewrite NextPageID_SetFreeOffset by done. unfold NextPageID. cbn [Data]. by rewrite Hhead by lia.
  - rewrite HeaderID_SetFreeOffset by done. unfold HeaderID. cbn [Data]. by rewrite Hhead by lia.
Qed.

Lemma writeRecord_full p key value flag :
  Remaining p < rec_size (flag, key, value) -> writeRecord p key value flag = Err (Errorf "page full" []).
Proof. intros Hr. unfold writeRecord. cbn [rec_size] in Hr. by rewrite decide_True by lia. Qed.

(** ** Reading records back *)

Lemma slice_at (a b c d : bytes) (lo hi : Z) :
  d = a ++ b ++ c -> lo = len a -> hi = len a + len b -> slice (Z.to_nat lo) (Z.to_nat hi) d = b.
Proof. intros -> -> ->. apply slice_mid; unfold len; lia. Qed.

Lemma readRecord_enc (pre post : bytes) r :
  rec_size r < 2 ^ 16 -> readRecord (pre ++ enc r ++ post) (len pre) = Ok (of_lrec r).
Proof.
  destruct r as [[flag key] value]. intros Hs. cbn [rec_size] in Hs. unfold recordHeaderSize in Hs.
  pose proof (len_nonneg key). pose proof (len_nonneg value). pose proof (len_nonneg post). pose proof (len_nonneg pre).
  set (kl := put_le 2 (len key)). set (vl := put_le 2 (len value)).
  assert (len kl = 2) as Hk by (unfold len, kl; by rewrite length_put_le).
  assert (len vl = 2) as Hv by (unfold len, vl; by rewrite length_put_le).
  set (d := pre ++ enc (flag, key, value) ++ post).
  assert (d = pre ++ [flag] ++ kl ++ vl ++ key ++ value ++ post) as Ed.
  { unfold d. cbn [enc app]. by rewrite <- !app_assoc. }
  assert (len d = len pre + 5 + len key + len value + len post) as Hd.
  { rewrite Ed, !len_app, Hk, Hv. change (len [flag]) with 1. lia. }
  unfold readRecord, recordHeaderSize. rewrite Hd. rewrite decide_False by lia.
  assert (d !! Z.to_nat (len pre) = Some flag) as ->.
  { rewrite Ed, lookup_app_r by (unfold len; lia). by replace (Z.to_nat (len pre) - length pre)%nat with O by (unfold len; lia). }
  cbn [of_option mbind outcome_bind]. unfold mbind, outcome_bind.
  rewrite (slice_at (pre ++ [flag]) kl (vl ++ key ++ value ++ post));
    [|by rewrite Ed, <- app_assoc|rewrite len_app; done|rewrite len_app, Hk; change (len [flag]) with 1; lia].
  rewrite (slice_at (pre ++ [flag] ++ kl) vl (key ++ value ++ post));
    [|by rewrite Ed, <- !app_assoc|rewrite !len_app, Hk; change (len [flag]) with 1; lia..].
  assert (get_le kl = len key) as -> by (apply get_put_le_small; change (256 ^ Z.of_nat 2) with (2 ^ 16); lia).
  assert (get_le vl = len value) as -> by (apply get_put_le_small; change (256 ^ Z.of_nat 2) with (2 ^ 16); lia).
  rewrite decide_False by lia.
  rewrite (slice_at (pre ++ [flag] ++ kl ++ vl) key (value ++ post));
    [|by rewrite Ed, <- !app_assoc|rewrite !len_app, Hk, Hv; change (len [flag]) with 1; lia..].
  rewrite (slice_at (pre ++ [flag] ++ kl ++ vl ++ key) value post);
    [done|by rewrite Ed, <- !app_assoc|rewrite !len_app, Hk, Hv; change (len [flag]) with 1; lia..].
Qed.

Section scan.
Context {S : Type} (body : record -> M S unit).

Fixpoint forEach (rs : list lrec) : M S unit :=
  match rs with
  | [] => mret tt
  | r :: rs => _ ← body (of_lrec r); forEach rs
  end.

Lemma forRecords_spec fuel p pre rs s :
  page_holds p (pre ++ rs) -> (length rs <= fuel)%nat ->
  forRecords fuel p (HeaderSize + len (encs pre)) body s = forEach rs s.
Proof.
  revert pre fuel s. induction rs as [|r rs IH]; intros pre fuel s H Hf.
  - rewrite app_nil_r in H. destruct fuel; cbn [forRecords]; rewrite decide_False by (rewrite (ph_free _ _ H); lia); done.
  - destruct fuel as [|fuel]; [cbn in Hf; lia|]. cbn [forRecords forEach].
    pose proof (ph_free _ _ H) as Hfr. pose proof (ph_max _ _ H) as Hmx. pose proof (rec_size_pos r) as Hrs.
    rewrite encs_app, encs_cons, !len_app, len_enc in Hfr. pose proof (len_nonneg (encs pre)). pose proof (len_nonneg (encs rs)).
    unfold recordHeaderSize, HeaderSize, PageSize in *. rewrite decide_True by lia.
    pose proof (page_split _ _ H) as Hsp. rewrite encs_app, encs_cons, <- !app_assoc, app_assoc in Hsp.
    assert (len (take 16 (Data p) ++ encs pre) = 16 + len (encs pre)) as Hlen.
    { rewrite len_app. destruct (page_room _ _ H) as [_ Hl]. unfold len in *. rewrite length_take. unfold PageSize in Hl. lia. }
    assert (readRecord (Data p) (16 + len (encs pre)) = Ok (of_lrec r)) as Hrd.
    { rewrite Hsp, <- Hlen. apply readRecord_enc. lia. }
    cbv [mbind M_bind lift]. rewrite Hrd. destruct (body (of_lrec r) s) as [[[]| | |] s']; try done.
    assert (rsize (of_lrec r) = rec_size r) as Hsz by (by destruct r as [[? ?] ?]).
    rewrite Hsz. unfold u16. rewrite (Z.mod_small (rec_size r)), Z.mod_small by lia.
    replace (16 + len (encs pre) + rec_size r) with (16 + len (encs (pre ++ [r]))) by (rewrite encs_app, encs_one, len_app, len_enc; lia).
    apply IH; [by rewrite <- app_assoc|]. cbn in Hf. lia.
Qed.

Lemma page_records_bound p rs : page_holds p rs -> (length rs <= scan_fuel)%nat.
Proof.
  intros H. pose proof (ph_free _ _ H) as Hf. pose proof (ph_max _ _ H) as Hm.
  enough (Z.of_nat (length rs) <= len (encs rs)) by (unfold scan_fuel, HeaderSize in *; lia). clear.
  induction rs as [|r rs IH]; [done|]. rewrite encs_cons, len_app, len_enc. cbn [length].
  pose proof (rec_size_pos r). unfold recordHeaderSize in *. lia.
Qed.

(** Scanning a page visits its records in order. *)
Lemma scanPage_spec p rs s : page_holds p rs -> scanPage p body s = forEach rs s.
Proof.
  intros H. unfold scanPage. replace HeaderSize with (HeaderSize + len (encs [])) by (unfold len; cbn; lia).
  apply forRecords_spec; [done|]. by eapply page_records_bound.
Qed.

Lemma forEach_app r1 r2 s : forEach (r1 ++ r2) s = (_ ← forEach r1; forEach r2) s.
Proof.
  revert s. induction r1 as [|r r1 IH]; intros s; [done|]. cbn [forEach app].
  rewrite bind_assoc. apply bind_ext. intros _ s'. apply IH.
Qed.
End scan.

(** ** Properties *)

Definition collect (r : record) : M (list record) unit := modify (fun l => l ++ [r]).

Lemma forEach_collect rs l : forEach collect rs l = (Ok tt, l ++ (of_lrec <$> rs)).
Proof.
  revert l. induction rs as [|r rs IH]; intros l; cbn [forEach]; [by rewrite app_nil_r|].
  erewrite bind_ok by reflexivity. rewrite IH. by rewrite <- app_assoc.
Qed.

(** a record either fits, and then scanning the page returns all previous
    records followed by the new one, with the page's identity and link intact, or
    the page reports that it is full. *)
Theorem record_roundtrip (p : Page) (rs : list lrec) (key value : bytes) (flag : byte) (H : page_holds p rs) :
  if decide (rec_size (flag, key, value) <= Remaining p) then
    exists p', writeRecord p key value flag = Ok p' /\ page_holds p' (rs ++ [(flag, key, value)]) /\
      scanPage p' collect [] = (Ok tt, of_lrec <$> rs ++ [(flag, key, value)]) /\
      ID p' = ID p /\ HeaderID p' = HeaderID p /\ NextPageID p' = NextPageID p
  else writeRecord p key value flag = Err (Errorf "page full" []).
Proof.
  case_decide as Hd; [|apply writeRecord_full; lia].
  destruct (writeRecord_ok p rs key value flag H Hd) as (p'&E&H'&?&?&?). exists p'. split_and!; try done.
  by rewrite (scanPage_spec collect _ _ _ H'), forEach_collect.
Qed.

Lemma record_roundtrip_witness :
  exists p', writeRecord (NewPage 0) [Byte.x61] [Byte.x62] flagLive = Ok p' /\
    page_holds p' [(flagLive, [Byte.x61], [Byte.x62])] /\
    scanPage p' collect [] = (Ok tt, [MkRecord flagLive [Byte.x61] [Byte.x62] 7]) /\
    ID p' = 0 /\ HeaderID p' = 0 /\ NextPageID p' = NoPage.
Proof.
  pose proof (record_roundtrip (NewPage 0) [] [Byte.x61] [Byte.x62] flagLive (NewPage_holds 0 ltac:(lia))) as H.
  unfold Remaining in H. rewrite FreeOffset_NewPage, HeaderID_NewPage, NextPageID_NewPage in H by lia. exact H.
Defined.
