(* ===== verification/Store.v ===== *)
(** * The key/value store ([src/kv/store.go])

    A store owns three files: the database file behind the pager, the log and
    the index sidecar. [Files] is what is on disk, so that closing, crashing and
    reopening can be composed: a crash keeps [files_of s] and forgets the rest,
    the state of the file handles included.
    The index file is encoded with [encoding/gob], whose wire format is not
    modelled: [IndexCodec] is the codec and [IndexCodecLaws] the round trip the
    store relies on. Loops over a page chain take the page count as fuel; a chain
    that is not cyclic never exceeds it. Methods return byte slices that are
    copies ([append([]byte(nil), ...)]), which are plain values here. *)
From S2P Require Import Prelude OrderedMap Page BufferPool Pager BTree Wal Record.

Class IndexCodec := {
  gob_encode : kvs -> bytes;
  gob_decode : bytes -> outcome kvs
}.
Class IndexCodecLaws `{IndexCodec} := gob_roundtrip l : gob_decode (gob_encode l) = Ok l.

(** The sidecar: absent, or its bytes; a fault makes writing it fail. *)
Record IndexFile := MkIdx { idx_data : option bytes; idx_fault : option error }.

Record version := MkVersion { vseq : Z; vvalue : bytes; vfound : bool }.

Record Store := MkStore {
  pager : Pager;
  firstPage : Z;
  hasPages : bool;
  index : btree;
  log : wal;
  indexFile : IndexFile;
  seq : Z;
  versions : gmap bytes (list version);
  activeSnapshots : Z
}.

Record Files := MkFiles { db_file : File; wal_data : wal; idx_file : IndexFile }.

Definition files_of (s : Store) : Files := MkFiles (at_rest (file (pager s))) (openWAL (log s)) (indexFile s).

(** ** Field access *)

Definition set_pager (p : Pager) (s : Store) : Store :=
  MkStore p (firstPage s) (hasPages s) (index s) (log s) (indexFile s) (seq s) (versions s) (activeSnapshots s).
Definition set_chain (first : Z) (has : bool) (s : Store) : Store :=
  MkStore (pager s) first has (index s) (log s) (indexFile s) (seq s) (versions s) (activeSnapshots s).
Definition set_index (t : btree) (s : Store) : Store :=
  MkStore (pager s) (firstPage s) (hasPages s) t (log s) (indexFile s) (seq s) (versions s) (activeSnapshots s).
Definition set_log (w : wal) (s : Store) : Store :=
  MkStore (pager s) (firstPage s) (hasPages s) (index s) w (indexFile s) (seq s) (versions s) (activeSnapshots s).
Definition set_indexFile (f : IndexFile) (s : Store) : Store :=
  MkStore (pager s) (firstPage s) (hasPages s) (index s) (log s) f (seq s) (versions s) (activeSnapshots s).
Definition set_versions (n : Z) (v : gmap bytes (list version)) (s : Store) : Store :=
  MkStore (pager s) (firstPage s) (hasPages s) (index s) (log s) (indexFile s) n v (activeSnapshots s).
Definition set_active (n : Z) (s : Store) : Store :=
  MkStore (pager s) (firstPage s) (hasPages s) (index s) (log s) (indexFile s) (seq s) (versions s) n.

Definition on_pager {A} : M Pager A -> M Store A := zoom pager set_pager.
Definition on_index {A} : M btree A -> M Store A := zoom index set_index.
Definition on_log {A} : M wal A -> M Store A := zoom log set_log.

(** ** Versions *)

(** [s.seq++] and the append to [s.versions[string(key)]]. *)
Definition addVersion (key value : bytes) (flag : byte) : M Store unit :=
  modify (fun s =>
    let n := u64 (seq s + 1) in
    set_versions n
      (<[key := default [] (versions s !! key) ++ [MkVersion n value (bool_decide (flag = flagLive))]]> (versions s)) s).

(** [for i := len(vs) - 1; i >= 0; i--]: the newest version not after [snapshot]. *)
Fixpoint visible (snapshot : Z) (newest_first : list version) : option version :=
  match newest_first with
  | [] => None
  | v :: vs => if decide (vseq v <= snapshot) then Some v else visible snapshot vs
  end.

Definition BeginSnapshot : M Store Z :=
  s ← get_state;
  _ ← modify (set_active (u64 (activeSnapshots s + 1)));
  mret (seq s).

Definition ReleaseSnapshot (snapshot : Z) : M Store unit :=
  modify (fun s => if decide (activeSnapshots s > 0) then set_active (activeSnapshots s - 1) s else s).

Definition ChangedSince (snapshot : Z) (key : bytes) (s : Store) : bool :=
  match last (default [] (versions s !! key)) with
  | None => false
  | Some v => bool_decide (vseq v > snapshot)
  end.

Definition GetAt (snapshot : Z) (key : bytes) (s : Store) : bytes * bool :=
  match visible snapshot (reverse (default [] (versions s !! key))) with
  | Some v => (vvalue v, vfound v)
  | None => ([], false)
  end.

(** The iteration order of a Go map is unspecified; [map_to_list] fixes one. *)
Definition KeysAt (snapshot : Z) (s : Store) : list bytes :=
  omap (fun '(key, vs) =>
    match visible snapshot (reverse vs) with
    | Some v => if vfound v then Some key else None
    | None => None
    end) (map_to_list (versions s)).

Section with_codec.
Context `{Codec : IndexCodec}.

(** ** The index file *)

Definition saveIndex : M Store unit :=
  l ← on_index entries;
  s ← get_state;
  match idx_fault (indexFile s) with
  | Some err => fail (Errorf "write index: %w" [AErr err])
  | None => modify (set_indexFile (MkIdx (Some (gob_encode l)) None))
  end.

Definition loadIndex : M Store bool :=
  s ← get_state;
  match idx_data (indexFile s) with
  | None => mret false
  | Some data =>
      l ← lift (gob_decode data);
      _ ← on_index (putAll l);
      mret true
  end.

(** ** The page chain *)

Fixpoint lastPage_loop (fuel : nat) (page : Page) : M Store Page :=
  if decide (NextPageID page <> NoPage) then
    match fuel with
    | O => lift NoFuel
    | S fuel =>
        page ← on_pager (ReadPage (NextPageID page));
        lastPage_loop fuel page
    end
  else mret page.

Definition lastPage : M Store Page :=
  s ← get_state;
  if hasPages s then
    page ← on_pager (ReadPage (firstPage s));
    lastPage_loop (Z.to_nat (NumPages (pager s))) page
  else
    page ← on_pager AllocatePage;
    _ ← modify (set_chain (ID page) true);
    mret page.

Definition append (key value : bytes) (flag : byte) : M Store unit :=
  _ ← addVersion key value flag;
  last ← lastPage;
  match writeRecord last key value flag with
  | Err _ =>
      newPage ← on_pager AllocatePage;
      newPage ← (match writeRecord newPage key value flag with
                 | Err writeErr => fail (Errorf "record too large for an empty page: %w" [AErr writeErr])
                 | o => lift o
                 end);
      _ ← on_pager (WritePage (SetNextPageID (ID newPage) last));
      _ ← on_pager (WritePage newPage);
      _ ← (if decide (flag = flagLive) then on_index (put key value)
           else _ ← on_index (delete key); mret tt);
      saveIndex
  | o =>
      last ← lift o;
      _ ← on_pager (WritePage last);
      _ ← (if decide (flag = flagLive) then on_index (put key value) else mret tt);
      saveIndex
  end.

(** ** Operations *)

Definition Get (key : bytes) : M Store (option bytes) := on_index (get key).

Definition Put (key value : bytes) : M Store unit :=
  _ ← on_log (Wal.append walPut key value);
  append key value flagLive.

Definition Delete (key : bytes) : M Store unit :=
  _ ← on_log (Wal.append walDelete key []);
  _ ← append key [] flagTombstone;
  _ ← on_index (delete key);
  saveIndex.

Fixpoint applyOps (ops : list BatchOp) : M Store unit :=
  match ops with
  | [] => mret tt
  | op :: ops =>
      let flag := if bDelete op then flagTombstone else flagLive in
      _ ← append (bKey op) (bValue op) flag;
      _ ← (if bDelete op then _ ← on_index (delete (bKey op)); mret tt else mret tt);
      applyOps ops
  end.

Definition ApplyBatch (id : Z) (ops : list BatchOp) : M Store unit :=
  _ ← on_log (appendTransaction id ops);
  _ ← applyOps ops;
  saveIndex.

Record Stats := MkStoreStats { sBufferPool : BufferPoolStats; sPageCount : Z; sWALSize : Z }.

Definition StoreStats (s : Store) : outcome Stats :=
  walSize ← Wal.size (log s);
  Ok (MkStoreStats (PagerStats (pager s)) (NumPages (pager s)) walSize).

Definition Flush : M Store unit :=
  _ ← on_pager Pager.Flush;
  _ ← on_pager Pager.Sync;
  _ ← saveIndex;
  on_log Wal.clear.

Definition Close : M Store unit :=
  _ ← on_pager Pager.Flush;
  _ ← on_pager Pager.Sync;
  _ ← saveIndex;
  _ ← on_log Wal.clear;
  _ ← on_log Wal.close;
  on_pager Pager.Close.

(** ** Validation *)

Definition validatePage (id : Z) : M Store unit :=
  page ← on_pager (ReadPage id);
  s ← get_state;
  if decide (HeaderID page <> id) then fail (Errorf "page %d has mismatched header ID" [AInt id]) else
  let free := FreeOffset page in
  if decide (free < HeaderSize \/ free > PageSize) then
    fail (Errorf "page %d has invalid free offset %d" [AInt id; AInt free])
  else
  let next := NextPageID page in
  if decide (next <> NoPage /\ next >= NumPages (pager s)) then
    fail (Errorf "page %d points to nonexistent page %d" [AInt id; AInt next])
  else
    catch (scanPage page (fun _ => mret tt)) (fun err => fail (Errorf "page %d: %w" [AInt id; AErr err])).

Fixpoint validateLoop (n : nat) (id : Z) : M Store unit :=
  match n with
  | O => mret tt
  | S n => _ ← validatePage id; validateLoop n (id + 1)
  end.

Definition validatePages : M Store unit :=
  s ← get_state;
  validateLoop (Z.to_nat (NumPages (pager s))) 0.

Fixpoint checkEntries (l : kvs) : M Store unit :=
  match l with
  | [] => mret tt
  | (key, value) :: l =>
      v ← Get key;
      if decide (v <> Some value) then fail (Errorf "index mismatch for key %q" [AStr key]) else checkEntries l
  end.

Definition CheckInvariants : M Store unit :=
  _ ← validatePages;
  l ← on_index entries;
  checkEntries l.

(** ** Opening *)

Fixpoint rebuild_loop (fuel : nat) (id : Z) (body : record -> M Store unit) : M Store unit :=
  match fuel with
  | O => lift NoFuel
  | S fuel =>
      p ← on_pager (ReadPage id);
      _ ← scanPage p body;
      if decide (NextPageID p = NoPage) then mret tt
      else rebuild_loop fuel (NextPageID p) body
  end.

Definition rebuildVersions_body (r : record) : M Store unit :=
  addVersion (rkey r) (rvalue r) (rflag r).

Definition rebuildIndex_body (r : record) : M Store unit :=
  _ ← (if decide (rflag r = flagTombstone) then _ ← on_index (delete (rkey r)); mret tt
       else on_index (put (rkey r) (rvalue r)));
  addVersion (rkey r) (rvalue r) (rflag r).

Definition rebuildIndex : M Store unit :=
  s ← get_state;
  rebuild_loop (S (Z.to_nat (NumPages (pager s)))) (firstPage s) rebuildIndex_body.

Definition rebuildVersions : M Store unit :=
  s ← get_state;
  rebuild_loop (S (Z.to_nat (NumPages (pager s)))) (firstPage s) rebuildVersions_body.

(** The map literal indexed with the logged operation: a missing key gives 0. *)
Definition replayFlag (op : byte) : byte :=
  if decide (op = walPut) then flagLive else if decide (op = walDelete) then flagTombstone else Byte.x00.

Definition wrap {A} (fmt : string) (m : M Store A) : M Store A :=
  catch m (fun err => fail (Errorf fmt [AErr err])).

Definition openSteps : M Store unit :=
  _ ← wrap "validate database: %w" validatePages;
  indexLoaded ← wrap "load index: %w" loadIndex;
  s ← get_state;
  _ ← wrap "WAL recovery: %w"
        (Wal.replay (fun op key value => append key value (replayFlag op)) (wal_file (log s)));
  s ← get_state;
  _ ← (if decide (NumPages (pager s) > 0 /\ indexLoaded = false) then
         _ ← modify (set_chain 0 true); rebuildIndex
       else mret tt);
  s ← get_state;
  _ ← (if decide (NumPages (pager s) > 0 /\ indexLoaded = true) then rebuildVersions else mret tt);
  match indexLoaded with true => mret tt | false => saveIndex end.

(** [Open]: on an error the pager is closed, which writes its dirty pages. *)
Definition Open : M Files Store := fun f =>
  match Pager.Open (db_file f) with
  | Ok pager =>
      let s := MkStore pager 0 false empty_btree (wal_data f) (idx_file f) 0 ∅ 0 in
      match openSteps s with
      | (Ok _, s) => (Ok s, files_of s)
      | (Err e, s) => (Err e, files_of (on_pager Pager.Close s).2)
      | (Panic, s) => (Panic, files_of s)
      | (NoFuel, s) => (NoFuel, files_of s)
      end
  | Err e => (Err e, f)
  | Panic => (Panic, f)
  | NoFuel => (NoFuel, f)
  end.

(** ** Compaction *)

Fixpoint compactLoop (l : kvs) (last : option Page) : M Pager (option Page) :=
  match l with
  | [] => mret last
  | (key, value) :: l =>
      page ← (match last with Some p => mret p | None => AllocatePage end);
      page ← (match writeRecord page key value flagLive with
              | Err _ =>
                  let previous := page in
                  page ← AllocatePage;
                  _ ← WritePage (SetNextPageID (ID page) previous);
                  lift (writeRecord page key value flagLive)
              | o => lift o
              end);
      compactLoop l (Some page)
  end.

Definition compactFile (l : kvs) : M Pager bool :=
  last ← compactLoop l None;
  _ ← (match last with Some p => WritePage p | None => mret tt end);
  _ ← Pager.Flush;
  _ ← Pager.Sync;
  _ ← Pager.Close;
  mret (match last with Some _ => true | None => false end).

Definition Compact : M Store unit :=
  s ← get_state;
  if decide (activeSnapshots s > 0) then fail (Errorf "cannot compact while snapshots are active" []) else
  l ← on_index entries;
  newPager ← lift (Pager.Open (MkFile [] (write_fault (file (pager s))) false));
  let '(o, newPager) := compactFile l newPager in
  nonempty ← lift o;
  _ ← on_pager Pager.Close;
  p ← lift (Pager.Open (file newPager));
  _ ← modify (set_pager p);
  _ ← modify (set_chain 0 nonempty);
  on_log Wal.clear.

End with_codec.

(** ** A concrete codec *)

(** Byte strings are written with every byte preceded by 1 and closed by 0. *)
Definition enc_string (b : bytes) : bytes := concat ((fun x => [Byte.x01; x]) <$> b) ++ [Byte.x00].

Fixpoint dec_string (fuel : nat) (b : bytes) : option (bytes * bytes) :=
  match fuel, b with
  | S fuel, Byte.x01 :: x :: b => '(s, rest) ← dec_string fuel b; Some (x :: s, rest)
  | S _, Byte.x00 :: b => Some ([], b)
  | _, _ => None
  end.

Fixpoint dec_entries (fuel : nat) (b : bytes) : option kvs :=
  match b, fuel with
  | [], _ => Some []
  | _, S fuel =>
      '(k, b) ← dec_string (length b) b;
      '(v, b) ← dec_string (length b) b;
      l ← dec_entries fuel b;
      Some ((k, v) :: l)
  | _, O => None
  end.

#[global] Instance EscapeCodec : IndexCodec := {
  gob_encode l := concat ((fun kv => enc_string kv.1 ++ enc_string kv.2) <$> l);
  gob_decode b := match dec_entries (length b) b with Some l => Ok l | None => Err EOF end
}.

Lemma dec_enc_string s rest fuel :
  (length s < fuel)%nat -> dec_string fuel (enc_string s ++ rest) = Some (s, rest).
Proof.
  revert fuel. induction s as [|x s IH]; intros [|fuel] Hf; cbn in Hf; try lia; [done|].
  unfold enc_string. cbn [fmap list_fmap concat app dec_string].
  change ((concat _ ++ [Byte.x00]) ++ rest) with (enc_string s ++ rest).
  by rewrite IH by lia.
Qed.

Lemma length_enc_string s : (length s < length (enc_string s))%nat.
Proof. induction s as [|x s IH]; [cbn; lia|]. unfold enc_string in *. rewrite length_app in *. cbn in *. lia. Qed.

#[global] Instance EscapeCodecLaws : IndexCodecLaws.
Proof.
  intros l. cbn [gob_decode gob_encode EscapeCodec]. set (f := fun kv : bytes * bytes => _).
  enough (forall fuel, (length l <= fuel)%nat -> dec_entries fuel (concat (f <$> l)) = Some l) as Hd.
  { rewrite Hd; [done|]. clear. induction l as [|[k v] l IH]; [done|]. cbn [fmap list_fmap concat length].
    rewrite length_app. unfold f at 1. rewrite length_app. pose proof (length_enc_string (k, v).1). cbn [fst snd] in *. lia. }
  induction l as [|[k v] l IH]; intros [|fuel] Hf; cbn in Hf; try lia; [done..|].
  cbn [fmap list_fmap concat]. unfold f at 1. cbn [fst snd]. set (rest := concat (f <$> l)) in *.
  rewrite <- !app_assoc. pose proof (length_enc_string k) as Hk. pose proof (length_enc_string v) as Hv.
  destruct (enc_string k ++ enc_string v ++ rest) as [|b bs] eqn:E.
  { apply (f_equal length) in E. rewrite length_app in E. cbn in E. lia. }
  cbn [dec_entries]. rewrite <- E, dec_enc_string by (rewrite length_app; lia). cbn.
  rewrite dec_enc_string by (rewrite length_app; lia). cbn. by rewrite IH by lia.
Qed.
