(* ===== verification/StoreInv.v ===== *)
(** * The store invariant

    The page chain as a list of page segments with the records they hold, the
    version table as the history of key/value states, and the specifications of
    the store's building blocks on healthy files. *)
From S2P Require Import Prelude OrderedMap Page BufferPool Pager BTree BTreeInv BTreeProofs Wal Record Store.

(** ** The pager on a healthy file *)

Definition healthy (p : Pager) : Prop := write_fault (file p) = None.

Lemma ReadPage_healthy p ps id q :
  pager_rep p ps -> healthy p -> 0 <= id -> ps !! Z.to_nat id = Some q ->
  exists p', ReadPage id p = (Ok q, p') /\ pager_rep p' ps /\ healthy p'.
Proof.
  intros R Hh Hid Hq. destruct (ReadPage_spec p ps id R Hid) as (o&p'&E&Hw&R'&Ho). rewrite Hq in Ho.
  exists p'. destruct Ho as [->|[Hbad _]]; [|done]. split_and!; [done|done|]. unfold healthy in *. congruence.
Qed.

Lemma AllocatePage_healthy p ps :
  pager_rep p ps -> healthy p -> len ps + 1 < 2 ^ 32 ->
  exists p', AllocatePage p = (Ok (NewPage (len ps)), p') /\ pager_rep p' (ps ++ [NewPage (len ps)]) /\ healthy p'.
Proof.
  intros R Hh Hn. destruct (AllocatePage_spec p ps R Hn) as (o&p'&E&Hw&[[-> R']|[Hbad _]]); [|done].
  exists p'. split_and!; [done|done|]. unfold healthy in *. congruence.
Qed.

Lemma WritePage_healthy p ps q :
  pager_rep p ps -> healthy p -> page_wf q -> ID q < len ps ->
  exists p', WritePage q p = (Ok tt, p') /\ pager_rep p' (<[Z.to_nat (ID q) := q]> ps) /\ healthy p'.
Proof.
  intros R Hh Hq Hn. destruct (WritePage_spec p ps q R Hq Hn) as (o&p'&E&Hw&[[-> R']|[Hbad _]]); [|done].
  exists p'. split_and!; [done|done|]. unfold healthy in *. congruence.
Qed.

Lemma Flush_healthy p ps :
  pager_rep p ps -> healthy p ->
  exists p', Pager.Flush p = (Ok tt, p') /\ pager_rep p' ps /\ healthy p' /\
    forall i q, ps !! i = Some q -> file_page (file p') (Z.of_nat i) = Some q.
Proof.
  intros R Hh. destruct (Flush_rep p ps R) as (o&p'&E&Hw&R'&[[-> HF]|[Hbad _]]); [|done].
  exists p'. split_and!; [done|done| |done]. unfold healthy in *. congruence.
Qed.

(** ** The page chain *)

(** [segs] are the pages from [id] on, with their records, up to the page whose
    next pointer is [stop]. *)
Fixpoint chain_seg (ps : list Page) (id : Z) (segs : list (Z * list lrec)) (stop : Z) : Prop :=
  match segs with
  | [] => id = stop
  | (i, rs) :: segs =>
      i = id /\ 0 <= i /\ exists p, ps !! Z.to_nat i = Some p /\ page_holds p rs /\
      chain_seg ps (NextPageID p) segs stop
  end.

(** Every page of the file passes validation. *)
Definition page_valid (n : Z) (i : nat) (p : Page) : Prop :=
  HeaderID p = Z.of_nat i /\ (exists rs, page_holds p rs) /\ (NextPageID p = NoPage \/ Z.of_nat i < NextPageID p < n).
Definition pages_valid (ps : list Page) : Prop := forall i p, ps !! i = Some p -> page_valid (len ps) i p.

Lemma chain_seg_app ps id s1 s2 stop :
  chain_seg ps id (s1 ++ s2) stop <-> exists mid, chain_seg ps id s1 mid /\ chain_seg ps mid s2 stop.
Proof.
  revert id. induction s1 as [|[i rs] s1 IH]; intros id; cbn [app chain_seg]; [naive_solver|].
  setoid_rewrite IH. naive_solver.
Qed.

Lemma chain_seg_frame ps ps' id segs stop :
  (forall i, i ∈ segs.*1 -> ps' !! Z.to_nat i = ps !! Z.to_nat i) -> chain_seg ps id segs stop -> chain_seg ps' id segs stop.
Proof.
  revert id. induction segs as [|[i rs] segs IH]; intros id Hf; [done|]. cbn [chain_seg].
  intros (->&Hi&p&Hp&Hh&Hc). split_and!; [done|done|]. exists p. rewrite Hf by (cbn; constructor).
  split_and!; [done|done|]. apply IH; [|done]. intros j Hj. apply Hf. cbn. by constructor.
Qed.

Lemma chain_seg_ids ps id segs stop i : chain_seg ps id segs stop -> i ∈ segs.*1 -> 0 <= i < len ps.
Proof.
  revert id. induction segs as [|[j rs] segs IH]; intros id; cbn [chain_seg]; [set_solver|].
  intros (->&Hi&p&Hp&_&Hc) [->|Hin]%elem_of_cons; [|eauto].
  apply lookup_lt_Some in Hp. unfold len. cbn. lia.
Qed.

Lemma chain_seg_length ps id segs stop : chain_seg ps id segs stop -> NoDup segs.*1 -> (length segs <= length ps)%nat.
Proof.
  intros Hc Hd. rewrite <- (length_fmap fst), <- (length_fmap Z.to_nat).
  apply NoDup_bounded; [|intros x Hx].
  - apply NoDup_fmap_2_strong; [|done]. intros x y Hx Hy E.
    apply (chain_seg_ids _ _ _ _ _ Hc) in Hx, Hy. lia.
  - apply list_elem_of_fmap in Hx as (i&->&Hi). apply (chain_seg_ids _ _ _ _ _ Hc) in Hi. unfold len in Hi. lia.
Qed.

Lemma NoPage_eq : NoPage = 2 ^ 32 - 1.
Proof. done. Qed.

(** ** Versions as a history of states *)

Definition seen (r : bytes * bool) : option bytes := if r.2 then Some r.1 else None.

(** [H !! n] is the state after the first [n] appended records. *)
Record history (s : Store) (H : list kvs) : Prop := {
  h_len : seq s + 1 = len H;
  h_seq : 0 <= seq s < 2 ^ 64;
  h_range key v : v ∈ default [] (versions s !! key) -> vseq v <= seq s;
  h_at (n : nat) m key : H !! n = Some m -> seen (GetAt (Z.of_nat n) key s) = kv_get key m
}.

(** The effect of one record. *)
Definition apply_rec (r : lrec) (m : kvs) : kvs :=
  let '(flag, key, value) := r in if decide (flag = flagLive) then kv_put key value m else kv_del key m.

Lemma kv_get_del k m key : kv_get key (kv_del k m) = if decide (key = k) then None else kv_get key m.
Proof.
  rewrite !kv_get_map, kv_del_map. case_decide; [subst; by rewrite lookup_delete_eq|by rewrite lookup_delete_ne].
Qed.

Lemma apply_rec_get r m key :
  sorted_keys m -> kv_get key (apply_rec r m) =
    if decide (key = r.1.2) then (if decide (r.1.1 = flagLive) then Some r.2 else None) else kv_get key m.
Proof.
  intros Hs. destruct r as [[f k] v]. cbn [apply_rec fst snd]. destruct (decide (f = flagLive)).
  - by rewrite kv_get_put.
  - apply kv_get_del.
Qed.

Lemma apply_rec_sorted r m : sorted_keys m -> sorted_keys (apply_rec r m).
Proof. destruct r as [[f k] v]. cbn. case_decide; auto with godb. Qed.

(** The version table after [addVersion]. *)
Definition version_added (key value : bytes) (flag : byte) (s s' : Store) : Prop :=
  seq s' = u64 (seq s + 1) /\
  versions s' = <[key := default [] (versions s !! key) ++ [MkVersion (u64 (seq s + 1)) value (bool_decide (flag = flagLive))]]> (versions s).

(** One appended record extends the history by one state. *)
Lemma history_step s s' H m key value flag :
  history s H -> last H = Some m -> sorted_keys m -> seq s + 1 < 2 ^ 64 -> version_added key value flag s s' ->
  history s' (H ++ [apply_rec (flag, key, value) m]).
Proof.
  intros Hh Hl Hs Hb [Es Ev]. pose proof (h_seq _ _ Hh) as Hq. pose proof (h_len _ _ Hh) as HL.
  unfold u64 in Es, Ev. rewrite Z.mod_small in Es, Ev by lia.
  assert (forall k n, 0 <= n <= seq s -> GetAt n k s' = GetAt n k s) as Hold.
  { intros k n Hn. unfold GetAt. rewrite Ev, lookup_insert. destruct (decide (key = k)) as [<-|]; [|done].
    change (default [] (Some ?x)) with x. rewrite reverse_app. cbn [reverse rev_append app visible]. rewrite decide_False by (cbn; lia). done. }
  split.
  - rewrite Es, len_app, <- HL. done.
  - lia.
  - intros k v. rewrite Ev, lookup_insert. destruct (decide (key = k)) as [<-|]; [|intros Hin; apply (h_range _ _ Hh) in Hin; lia].
    change (default [] (Some ?x)) with x. rewrite elem_of_app, list_elem_of_singleton. intros [Hin| ->]; [apply (h_range _ _ Hh) in Hin|cbn]; lia.
  - intros n m' k Hn. unfold len in HL. apply lookup_app_Some in Hn as [Hn|[Hge Hn]].
    + pose proof (lookup_lt_Some _ _ _ Hn). rewrite Hold by lia. by apply (h_at _ _ Hh).
    + apply list_lookup_singleton_Some in Hn as [Hn <-]. rewrite apply_rec_get by done. cbn [fst snd].
      destruct (decide (k = key)) as [->|Hne].
      * unfold GetAt. rewrite Ev, lookup_insert_eq. change (default [] (Some ?x)) with x. rewrite reverse_app. cbn [reverse rev_append app visible].
        rewrite decide_True by (cbn; lia). unfold seen. cbn [vvalue vfound fst snd].
        case_bool_decide; [by rewrite decide_True|by rewrite decide_False].
      * transitivity (seen (GetAt (seq s) k s)).
        { f_equal. unfold GetAt. rewrite Ev, lookup_insert_ne by done.
          assert (forall vs, (forall v, v ∈ vs -> vseq v <= seq s) -> visible (Z.of_nat n) vs = visible (seq s) vs) as Hvis.
          { intros [|v vs] Hin; [done|]. cbn. rewrite !decide_True; [done|apply Hin; constructor|].
            etrans; [apply Hin; constructor|lia]. }
          rewrite Hvis; [done|]. intros v Hv. rewrite elem_of_reverse in Hv. exact (h_range _ _ Hh k v Hv). }
        rewrite last_lookup in Hl. replace (seq s) with (Z.of_nat (pred (length H))) by lia.
        by apply (h_at _ _ Hh).
Qed.

(** ** The invariant *)

(** [ps] are the pages of the file, [segs] the chain with its records, [m] the
    contents of the index. *)
Record store_ok (s : Store) (ps : list Page) (segs : list (Z * list lrec)) (m : kvs) : Prop := {
  so_pager : pager_rep (pager s) ps;
  so_healthy : healthy (pager s);
  so_valid : pages_valid ps;
  so_chain : if hasPages s then segs <> [] /\ chain_seg ps (firstPage s) segs NoPage /\ NoDup segs.*1 else segs = [];
  so_index : bt_rep (index s) m;
  so_idx : idx_fault (indexFile s) = None;
  so_wal : wal_fault (log s) = None
}.

(** The records of the chain, oldest first. *)
Definition chain_recs (segs : list (Z * list lrec)) : list lrec := concat segs.*2.

(** What page operations leave alone. *)
Definition same_mem (s s' : Store) : Prop :=
  index s' = index s /\ log s' = log s /\ indexFile s' = indexFile s /\ seq s' = seq s /\
  versions s' = versions s /\ activeSnapshots s' = activeSnapshots s.

Lemma on_pager_ok {A} (f : M Pager A) s a p : f (pager s) = (Ok a, p) -> on_pager f s = (Ok a, set_pager p s).
Proof. intros E. unfold on_pager, zoom. by rewrite E. Qed.
Lemma on_index_ok {A} (f : M btree A) s a t : f (index s) = (Ok a, t) -> on_index f s = (Ok a, set_index t s).
Proof. intros E. unfold on_index, zoom. by rewrite E. Qed.
Lemma on_log_ok {A} (f : M wal A) s a w : f (log s) = (Ok a, w) -> on_log f s = (Ok a, set_log w s).
Proof. intros E. unfold on_log, zoom. by rewrite E. Qed.

Lemma set_index_same s : set_index (index s) s = s.
Proof. by destruct s. Qed.

Lemma pages_valid_insert ps (i : nat) q :
  pages_valid ps -> page_valid (len ps) i q -> pages_valid (<[i := q]> ps).
Proof.
  intros Hv Hq j p Hj. replace (len (<[i:=q]> ps)) with (len ps) by (unfold len; by rewrite length_insert).
  apply list_lookup_insert_Some in Hj as [(<-&->&_)|[_ Hj]]; auto.
Qed.

Lemma pages_valid_snoc ps q :
  pages_valid ps -> page_valid (len ps) (length ps) q -> pages_valid (ps ++ [q]).
Proof.
  intros Hv Hq j p Hj. rewrite len_app. change (len [q]) with 1.
  apply lookup_app_Some in Hj as [Hj|[Hge Hj]].
  - destruct (Hv j p Hj) as (H1&H2&[H3|H3]); split_and!; auto. right. lia.
  - apply list_lookup_singleton_Some in Hj as [Hj <-]. replace j with (length ps) by lia.
    destruct Hq as (H1&H2&[H3|H3]); split_and!; auto. right. lia.
Qed.

Lemma NewPage_valid (ps : list Page) : len ps < 2 ^ 32 -> page_valid (len ps) (length ps) (NewPage (len ps)).
Proof.
  intros Hn. pose proof (len_nonneg ps). split_and!.
  - by rewrite HeaderID_NewPage.
  - exists []. by apply NewPage_holds.
  - left. apply NextPageID_NewPage.
Qed.

Section specs.
Context `{Codec : IndexCodec}.

Lemma saveIndex_ok s m :
  bt_rep (index s) m -> idx_fault (indexFile s) = None ->
  saveIndex s = (Ok tt, set_indexFile (MkIdx (Some (gob_encode m)) None) s).
Proof.
  intros Hr Hf. unfold saveIndex.
  rewrite (bind_ok _ _ _ _ _ (on_index_ok _ _ _ _ (entries_spec _ _ Hr))), set_index_same, bind_get, Hf. done.
Qed.

(** ** The last page *)

Lemma lastPage_loop_spec fuel s ps id p rs segs :
  pager_rep (pager s) ps -> healthy (pager s) -> ps !! Z.to_nat id = Some p -> page_holds p rs -> 0 <= id ->
  chain_seg ps (NextPageID p) segs NoPage -> (length segs <= fuel)%nat ->
  exists q p' segs0 l rs', lastPage_loop fuel p s = (Ok q, set_pager p' s) /\ pager_rep p' ps /\ healthy p' /\
    (id, rs) :: segs = segs0 ++ [(l, rs')] /\ ps !! Z.to_nat l = Some q /\ page_holds q rs' /\
    NextPageID q = NoPage.
Proof.
  revert s id p rs segs. induction fuel as [|fuel IH]; intros s id p rs segs R Hh Hp Hr Hid Hc Hf.
  - destruct segs; [|cbn in Hf; lia]. cbn in Hc. exists p, (pager s), [], id, rs. cbn [lastPage_loop].
    rewrite decide_False by (by intros ?). split_and!; try done. unfold mret, M_ret. by destruct s.
  - cbn [lastPage_loop]. destruct segs as [|[j rs2] segs].
    + cbn in Hc. exists p, (pager s), [], id, rs.
      rewrite decide_False by (by intros ?). split_and!; try done. unfold mret, M_ret. by destruct s.
    + destruct Hc as (->&Hj&p2&Hp2&Hr2&Hc). pose proof (rep_u32 _ _ R) as Hu.
      rewrite decide_True; cycle 1.
      { apply lookup_lt_Some in Hp2. rewrite NoPage_eq. unfold len in *. lia. }
      destruct (ReadPage_healthy _ _ _ _ R Hh Hj Hp2) as (p'&E&R'&Hh').
      rewrite (bind_ok _ _ _ _ _ (on_pager_ok _ _ _ _ E)).
      destruct (IH (set_pager p' s) _ p2 rs2 segs R' Hh' Hp2 Hr2 Hj Hc) as (q&p''&segs0&l&rs'&E2&?&?&Es&?&?&?);
        [cbn in Hf; lia|].
      exists q, p'', ((id, rs) :: segs0), l, rs'. split_and!; try done. by rewrite Es.
Qed.

Lemma lastPage_spec s ps segs m :
  store_ok s ps segs m -> len ps + 1 < 2 ^ 32 ->
  exists q s' ps' segs0 l rs, lastPage s = (Ok q, s') /\ store_ok s' ps' (segs0 ++ [(l, rs)]) m /\
    same_mem s s' /\ hasPages s' = true /\ ps' !! Z.to_nat l = Some q /\ page_holds q rs /\ NextPageID q = NoPage /\
    chain_recs segs = chain_recs (segs0 ++ [(l, rs)]) /\
    firstPage s' = (if hasPages s then firstPage s else len ps) /\
    ((ps' = ps) \/ (len ps' = len ps + 1 /\ rs = [])).
Proof.
  intros Hok Hn. pose proof (so_chain _ _ _ _ Hok) as Hc. unfold lastPage. rewrite bind_get.
  destruct (hasPages s) eqn:Ehas.
  - destruct Hc as (Hne&Hc&Hd). destruct segs as [|[i rs] segs]; [done|]. pose proof Hc as Hc0.
    destruct Hc as (->&Hi&p&Hp&Hr&Hc).
    destruct (ReadPage_healthy _ _ _ _ (so_pager _ _ _ _ Hok) (so_healthy _ _ _ _ Hok) Hi Hp) as (p1&E1&R1&Hh1).
    rewrite (bind_ok _ _ _ _ _ (on_pager_ok _ _ _ _ E1)).
    destruct (lastPage_loop_spec (Z.to_nat (NumPages (pager s))) (set_pager p1 s) ps _ p rs segs R1 Hh1 Hp Hr Hi Hc)
      as (q&p2&segs0&l&rs'&E2&R2&Hh2&Es&Hq&Hrq&Hnq).
    { apply chain_seg_length in Hc0; [|done]. unfold NumPages. rewrite (rep_num _ _ (so_pager _ _ _ _ Hok)).
      unfold len. cbn in Hc0. lia. }
    exists q, (set_pager p2 (set_pager p1 s)), ps, segs0, l, rs'. rewrite E2, <- Es.
    split_and!; try done; [|by left]. split; try apply Hok; try done.
  - subst segs. destruct (AllocatePage_healthy _ _ (so_pager _ _ _ _ Hok) (so_healthy _ _ _ _ Hok) Hn) as (p1&E1&R1&Hh1).
    rewrite (bind_ok _ _ _ _ _ (on_pager_ok _ _ _ _ E1)). pose proof (len_nonneg ps).
    pose proof (rep_u32 _ _ (so_pager _ _ _ _ Hok)) as Hu.
    assert ((ps ++ [NewPage (len ps)]) !! Z.to_nat (len ps) = Some (NewPage (len ps))) as Hlk.
    { unfold len. rewrite Nat2Z.id, lookup_app_r, Nat.sub_diag by lia. done. }
    exists (NewPage (len ps)). eexists. exists (ps ++ [NewPage (len ps)]), [], (len ps), []. split; [reflexivity|].
    assert (page_holds (NewPage (len ps)) []) as Hnew by (by apply NewPage_holds).
    split_and!; try done.
    + split; try apply Hok; try done.
      * apply pages_valid_snoc; [apply Hok|by apply NewPage_valid].
      * cbn [hasPages set_chain app]. split_and!; [done| |apply NoDup_singleton]. cbn [chain_seg firstPage set_chain].
        split_and!; [done|done|]. exists (NewPage (len ps)). split_and!; [done|done|]. apply NextPageID_NewPage.
    + right. split; [by rewrite len_app|done].
Qed.
End specs.
