(* ===== verification/StoreProofs.v ===== *)
(** * The store refines a history of key/value states *)
From S2P Require Import Prelude OrderedMap Page BufferPool Pager BTree BTreeInv BTreeProofs Wal Record Store StoreInv.

(** ** Updating the chain *)

Lemma chain_update_last ps id segs0 l rs rs' q' :
  chain_seg ps id (segs0 ++ [(l, rs)]) NoPage -> NoDup (segs0 ++ [(l, rs)]).*1 -> page_holds q' rs' ->
  chain_seg (<[Z.to_nat l := q']> ps) id (segs0 ++ [(l, rs')]) (NextPageID q').
Proof.
  intros Hc Hd Hq. pose proof Hc as Hc0. apply chain_seg_app in Hc as (mid&Hc1&Hc2). apply chain_seg_app. exists mid.
  rewrite fmap_app in Hd. apply NoDup_app in Hd as (_&Hd&_). split.
  - eapply chain_seg_frame; [|exact Hc1]. intros i Hi. rewrite list_lookup_insert_ne; [done|].
    apply (chain_seg_ids _ _ _ _ i) in Hc0 as Hi0; [|rewrite fmap_app; set_solver].
    apply (chain_seg_ids _ _ _ _ l) in Hc0 as Hl0; [|rewrite fmap_app; set_solver].
    intros E. assert (i = l) as -> by lia. apply (Hd l); [done|]. cbn. constructor.
  - destruct Hc2 as (->&Hl&p&Hp&_&_). split_and!; [done|done|]. exists q'.
    rewrite list_lookup_insert_eq by (by eapply lookup_lt_Some). done.
Qed.

Lemma chain_ids ps id segs0 l rs : chain_seg ps id (segs0 ++ [(l, rs)]) NoPage -> 0 <= l < len ps.
Proof. intros Hc. eapply chain_seg_ids; [exact Hc|]. rewrite fmap_app. set_solver. Qed.

Lemma chain_recs_snoc segs0 l rs r : chain_recs (segs0 ++ [(l, rs ++ [r])]) = chain_recs (segs0 ++ [(l, rs)]) ++ [r].
Proof. unfold chain_recs. rewrite !fmap_app, !concat_app. cbn. by rewrite !app_nil_r, app_assoc. Qed.

(** The last page gets more records. *)
Lemma write_last s ps segs0 l rs rs' m q q' :
  store_ok s ps (segs0 ++ [(l, rs)]) m -> hasPages s = true -> ps !! Z.to_nat l = Some q ->
  page_holds q' rs' -> ID q' = ID q -> HeaderID q' = HeaderID q -> NextPageID q' = NoPage ->
  exists p', on_pager (WritePage q') s = (Ok tt, set_pager p' s) /\
    store_ok (set_pager p' s) (<[Z.to_nat l := q']> ps) (segs0 ++ [(l, rs')]) m.
Proof.
  intros Hok Hhas Hq Hr Hid Hhid Hnx. pose proof (so_chain _ _ _ _ Hok) as Hc. rewrite Hhas in Hc. destruct Hc as (_&Hc&Hd).
  destruct (rep_page _ _ _ _ (so_pager _ _ _ _ Hok) Hq) as [Hwf Eid]. pose proof (chain_ids _ _ _ _ _ Hc) as Hl.
  assert (ID q' = l) as Eq' by (rewrite Hid, Eid; lia).
  destruct (WritePage_healthy _ _ q' (so_pager _ _ _ _ Hok) (so_healthy _ _ _ _ Hok) (ph_wf _ _ Hr)) as (p'&E&R&Hh); [lia|].
  exists p'. split; [by apply on_pager_ok|]. rewrite Eq' in R. split; try apply Hok; try done.
  - apply pages_valid_insert; [apply Hok|]. destruct (so_valid _ _ _ _ Hok _ _ Hq) as (V1&_&_).
    split_and!; [by rewrite Hhid|by eauto|by left].
  - cbn [hasPages set_pager]. rewrite Hhas. split_and!; [by destruct segs0|..].
    + rewrite <- Hnx. by eapply chain_update_last.
    + rewrite fmap_app in *. done.
Qed.

(** Linking a new page behind the last one. *)
Lemma chain_link ps id segs0 l rs q np r :
  chain_seg ps id (segs0 ++ [(l, rs)]) NoPage -> NoDup (segs0 ++ [(l, rs)]).*1 -> pages_valid ps ->
  ps !! Z.to_nat l = Some q -> page_holds q rs -> len ps + 1 < 2 ^ 32 ->
  page_holds np [r] -> HeaderID np = len ps -> NextPageID np = NoPage ->
  let ps' := <[Z.to_nat l := SetNextPageID (len ps) q]> ps ++ [np] in
  chain_seg ps' id ((segs0 ++ [(l, rs)]) ++ [(len ps, [r])]) NoPage /\
  NoDup ((segs0 ++ [(l, rs)]) ++ [(len ps, [r])]).*1 /\ pages_valid ps'.
Proof.
  intros Hc Hd Hv Hq Hrq Hn Hnp Hhid Hnx ps'. pose proof (chain_ids _ _ _ _ _ Hc) as Hl. pose proof (len_nonneg ps) as Hps.
  pose proof (ph_wf _ _ Hrq) as Hwf. set (q2 := SetNextPageID (len ps) q) in *.
  assert (length (<[Z.to_nat l:=q2]> ps) = length ps) as Hlen by apply length_insert.
  assert (NextPageID q2 = len ps) as Hnq2.
  { unfold q2. rewrite NextPageID_SetNextPageID by done. apply Z.mod_small. lia. }
  split_and!.
  - apply chain_seg_app. exists (len ps). split.
    + eapply (chain_seg_frame (<[Z.to_nat l:=q2]> ps)).
      { intros i Hi. apply lookup_app_l. rewrite Hlen.
        assert (0 <= i < len ps) as Hi' by (eapply chain_seg_ids; [exact Hc|]; rewrite fmap_app in *; exact Hi). unfold len in Hi'. lia. }
      rewrite <- Hnq2. eapply chain_update_last; [exact Hc|exact Hd|by apply SetNextPageID_holds].
    + split_and!; [done|done|]. exists np. unfold ps'. rewrite lookup_app_r by (rewrite Hlen; unfold len; lia).
      replace (Z.to_nat (len ps) - length (<[Z.to_nat l:=q2]> ps))%nat with O by (rewrite Hlen; unfold len; lia). done.
  - rewrite fmap_app. apply NoDup_app. split_and!; [done| |apply NoDup_singleton].
    intros i Hi Hi2. cbn in Hi2. apply list_elem_of_singleton in Hi2 as ->. apply (chain_seg_ids _ _ _ _ _ Hc) in Hi. lia.
  - intros i p Hi. unfold ps' in *. rewrite len_app. change (len [np]) with 1.
    replace (len (<[Z.to_nat l:=q2]> ps)) with (len ps) by (unfold len; by rewrite Hlen).
    apply lookup_app_Some in Hi as [Hi|[Hge Hi]].
    + apply list_lookup_insert_Some in Hi as [(<-&Ep&_)|[_ Hi]].
      * replace p with q2 by done. destruct (Hv _ _ Hq) as (V1&_&_).
        split_and!; [unfold q2; by rewrite HeaderID_SetNextPageID|exists rs; by apply SetNextPageID_holds|right; lia].
      * destruct (Hv _ _ Hi) as (V1&V2&[V3|V3]); split_and!; auto. right. lia.
    + apply list_lookup_singleton_Some in Hi as [Hi <-]. split_and!; [rewrite Hhid; unfold len; lia|by eauto|by left].
Qed.

(** The pager calls that add a new last page [np] behind [q]. *)
Lemma pager_link p ps l q np :
  pager_rep p ps -> healthy p -> 0 <= l < len ps -> ID q = l -> page_wf q -> len ps + 1 < 2 ^ 32 ->
  page_wf np -> ID np = len ps ->
  exists p1 p2 p3, AllocatePage p = (Ok (NewPage (len ps)), p1) /\
    pager_rep p1 (ps ++ [NewPage (len ps)]) /\ healthy p1 /\
    WritePage (SetNextPageID (len ps) q) p1 = (Ok tt, p2) /\
    pager_rep p2 (<[Z.to_nat l := SetNextPageID (len ps) q]> ps ++ [NewPage (len ps)]) /\ healthy p2 /\
    WritePage np p2 = (Ok tt, p3) /\
    pager_rep p3 (<[Z.to_nat l := SetNextPageID (len ps) q]> ps ++ [np]) /\ healthy p3.
Proof.
  intros R Hh Hl Eq Hwq Hn Hwn Hid. pose proof (len_nonneg ps).
  destruct (AllocatePage_healthy _ _ R Hh Hn) as (p1&E1&R1&H1).
  set (q2 := SetNextPageID (len ps) q). assert (ID q2 = l) as Eq2 by done.
  destruct (WritePage_healthy _ _ q2 R1 H1 (SetNextPageID_wf _ _ Hwq)) as (p2&E2&R2&H2).
  { rewrite len_app. change (len [NewPage (len ps)]) with 1. lia. }
  rewrite Eq2, insert_app_l in R2 by (unfold len in *; lia).
  destruct (WritePage_healthy _ _ np R2 H2 Hwn) as (p3&E3&R3&H3).
  { unfold len. rewrite length_app, length_insert. cbn [length]. unfold len in Hid. lia. }
  assert (length (<[Z.to_nat l:=q2]> ps) = length ps) as Hlen by apply length_insert.
  rewrite Hid, insert_app_r_alt in R3 by (unfold len; lia).
  replace (Z.to_nat (len ps) - length (<[Z.to_nat l:=q2]> ps))%nat with O in R3 by (unfold len; lia).
  exists p1, p2, p3. done.
Qed.

(** A new last page is linked in. *)
Lemma link_new s ps segs0 l rs m q np r :
  store_ok s ps (segs0 ++ [(l, rs)]) m -> hasPages s = true -> ps !! Z.to_nat l = Some q -> page_holds q rs ->
  len ps + 1 < 2 ^ 32 -> page_holds np [r] -> ID np = len ps -> HeaderID np = len ps -> NextPageID np = NoPage ->
  exists p1 p2 p3 ps', on_pager AllocatePage s = (Ok (NewPage (len ps)), set_pager p1 s) /\
    on_pager (WritePage (SetNextPageID (len ps) q)) (set_pager p1 s) = (Ok tt, set_pager p2 s) /\
    on_pager (WritePage np) (set_pager p2 s) = (Ok tt, set_pager p3 s) /\
    store_ok (set_pager p3 s) ps' ((segs0 ++ [(l, rs)]) ++ [(len ps, [r])]) m /\ len ps' = len ps + 1.
Proof.
  intros Hok Hhas Hq Hrq Hn Hnp Hid Hhid Hnx. pose proof (so_chain _ _ _ _ Hok) as Hc. rewrite Hhas in Hc. destruct Hc as (_&Hc&Hd).
  destruct (rep_page _ _ _ _ (so_pager _ _ _ _ Hok) Hq) as [Hwf Eid]. pose proof (chain_ids _ _ _ _ _ Hc) as Hl.
  destruct (pager_link (pager s) ps l q np) as (p1&p2&p3&E1&_&_&E2&_&_&E3&R3&H3);
    [apply Hok|apply Hok|done|lia|done|done|apply Hnp|done|].
  destruct (chain_link ps _ segs0 l rs q np r Hc Hd (so_valid _ _ _ _ Hok) Hq Hrq Hn Hnp Hhid Hnx) as (C1&C2&C3).
  exists p1, p2, p3, (<[Z.to_nat l := SetNextPageID (len ps) q]> ps ++ [np]).
  split_and!; [by apply on_pager_ok|unfold on_pager, zoom; cbn [pager set_pager]; by rewrite E2|
    unfold on_pager, zoom; cbn [pager set_pager]; by rewrite E3| |].
  - split; try apply Hok; try done. cbn [hasPages set_pager firstPage]. rewrite Hhas. by destruct segs0.
  - rewrite len_app. unfold len. by rewrite length_insert.
Qed.


Section ops.
Context `{Codec : IndexCodec}.

(** ** Appending a record *)

Definition fits (r : lrec) : Prop := rec_size r <= PageSize - HeaderSize.

(** The index after an append: a tombstone is only removed from it when it
    started a new page. *)
Definition index_after (r : lrec) (m m' : kvs) : Prop :=
  m' = apply_rec r m \/ (r.1.1 <> flagLive /\ m' = m).

Record appended (r : lrec) (s : Store) (ps : list Page) (segs : list (Z * list lrec)) (m : kvs)
    (s' : Store) (ps' : list Page) (segs' : list (Z * list lrec)) (m' : kvs) : Prop := {
  ap_ok : store_ok s' ps' segs' m';
  ap_recs : chain_recs segs' = chain_recs segs ++ [r];
  ap_pages : len ps' <= len ps + 1;
  ap_version : version_added r.1.2 r.2 r.1.1 s s';
  ap_index : index_after r m m';
  ap_log : log s' = log s;
  ap_active : activeSnapshots s' = activeSnapshots s;
  ap_idx : indexFile s' = MkIdx (Some (gob_encode m')) None;
  ap_has : hasPages s' = true;
  ap_first : firstPage s' = if hasPages s then firstPage s else len ps
}.

Lemma store_ok_index s ps segs m t m' :
  store_ok s ps segs m -> bt_rep t m' -> store_ok (set_index t s) ps segs m'.
Proof. intros Hok Hr. split; try apply Hok; try done. Qed.

Lemma store_ok_idx s ps segs m d :
  store_ok s ps segs m -> store_ok (set_indexFile (MkIdx d None) s) ps segs m.
Proof. intros Hok. split; try apply Hok; try done. Qed.

Lemma addVersion_ok s key value flag :
  exists s', addVersion key value flag s = (Ok tt, s') /\ version_added key value flag s s' /\
    (forall ps segs m, store_ok s ps segs m -> store_ok s' ps segs m) /\ log s' = log s /\
    activeSnapshots s' = activeSnapshots s /\ hasPages s' = hasPages s /\ firstPage s' = firstPage s.
Proof.
  eexists. split; [reflexivity|]. split_and!; try done.
  intros ps segs m Hok. split; try apply Hok; try done.
Qed.

(** The index update and the save that end every append. *)
Lemma index_step s ps segs m (f : M Store unit) m' t :
  store_ok s ps segs m -> f s = (Ok tt, set_index t s) -> bt_rep t m' ->
  (_ ← f; saveIndex) s = (Ok tt, set_indexFile (MkIdx (Some (gob_encode m')) None) (set_index t s)) /\
  store_ok (set_indexFile (MkIdx (Some (gob_encode m')) None) (set_index t s)) ps segs m'.
Proof.
  intros Hok E Hr. split.
  - rewrite (bind_ok _ _ _ _ _ E). apply saveIndex_ok; [done|apply Hok].
  - by apply store_ok_idx, (store_ok_index _ _ _ m).
Qed.

Lemma index_update s m key value flag :
  bt_rep (index s) m ->
  exists t, (if decide (flag = flagLive) then on_index (put key value)
             else _ ← on_index (delete key); mret tt) s = (Ok tt, set_index t s) /\
    bt_rep t (apply_rec (flag, key, value) m).
Proof.
  intros Hr. cbn [apply_rec]. case_decide.
  - destruct (put_spec _ _ key value Hr) as (t&E&R). exists t. split; [by apply on_index_ok|done].
  - destruct (delete_spec _ _ key Hr) as (t&E&R). exists t. split; [|done].
    by rewrite (bind_ok _ _ _ _ _ (on_index_ok _ _ _ _ E)).
Qed.

Lemma append_spec s ps segs m key value flag :
  store_ok s ps segs m -> len ps + 1 < 2 ^ 32 -> fits (flag, key, value) ->
  exists s' ps' segs' m', append key value flag s = (Ok tt, s') /\
    appended (flag, key, value) s ps segs m s' ps' segs' m'.
Proof.
  intros Hok Hn Hfit. unfold append.
  destruct (addVersion_ok s key value flag) as (s0&E0&V0&K0&L0&A0&P0&F0). rewrite (bind_ok _ _ _ _ _ E0).
  apply K0 in Hok as Hok0.
  destruct (lastPage_spec s0 ps segs m Hok0 Hn) as (q&s1&ps1&segs0&l&rs&E1&Hok1&Sm&Hhas&Hq&Hrq&Hnq&Hrecs&Hfst&Hps).
  rewrite P0, F0 in Hfst.
  rewrite (bind_ok _ _ _ _ _ E1). destruct Sm as (S1&S2&S3&S4&S5&S6). unfold fits in Hfit.
  assert (version_added key value flag s s1) as V1 by (unfold version_added in *; by rewrite S4, S5).
  destruct (decide (rec_size (flag, key, value) <= Remaining q)) as [Hroom|Hfull].
  - destruct (writeRecord_ok q rs key value flag Hrq Hroom) as (q'&Ew&Hrq'&Hid&Hnx&Hhid). rewrite Ew. cbn [lift].
    rewrite Hnq in Hnx.
    destruct (write_last s1 ps1 segs0 l rs _ m q q' Hok1 Hhas Hq Hrq' Hid Hhid Hnx) as (p2&E2&Hok2).
    erewrite bind_ok by reflexivity. rewrite (bind_ok _ _ _ _ _ E2).
    assert (exists t m', (if decide (flag = flagLive) then on_index (put key value) else mret tt) (set_pager p2 s1) =
      (Ok tt, set_index t (set_pager p2 s1)) /\ bt_rep t m' /\ index_after (flag, key, value) m m') as (t&m'&E3&Ht&Hia).
    { destruct (index_update (set_pager p2 s1) m key value flag (so_index _ _ _ _ Hok2)) as (t&E3&Ht). case_decide.
      - exists t, (apply_rec (flag, key, value) m). split_and!; [done|done|by left].
      - exists (index s1), m. split_and!; [unfold mret, M_ret; by destruct s1|apply Hok1|by right]. }
    destruct (index_step _ _ _ _ _ _ _ Hok2 E3 Ht) as [E4 Hok4].
    do 4 eexists. split; [exact E4|]. split; [exact Hok4|..]; try done.
    + by rewrite chain_recs_snoc, <- Hrecs.
    + unfold len. rewrite length_insert. destruct Hps as [->|[Hps _]]; unfold len in *; lia.
    + cbn. congruence.
    + cbn. congruence.
  - rewrite (writeRecord_full q key value flag) by lia.
    assert (ps1 = ps) as ->.
    { destruct Hps as [|[_ ->]]; [done|]. exfalso. apply Hfull. unfold Remaining. rewrite (ph_free _ _ Hrq).
      change (len (encs [])) with 0. lia. }
    pose proof (rep_u32 _ _ (so_pager _ _ _ _ Hok1)) as Hu. pose proof (len_nonneg ps) as Hp0.
    assert (page_holds (NewPage (len ps)) []) as Hnew by (by apply NewPage_holds).
    destruct (writeRecord_ok (NewPage (len ps)) [] key value flag Hnew) as (np&Ew&Hnp&Hid&Hnx&Hhid).
    { unfold Remaining. by rewrite FreeOffset_NewPage. }
    rewrite NextPageID_NewPage in Hnx. rewrite HeaderID_NewPage in Hhid by done. cbn [app] in Hnp.
    destruct (link_new s1 ps segs0 l rs m q np _ Hok1 Hhas Hq Hrq Hn Hnp Hid Hhid Hnx) as (p1&p2&p3&ps'&A1&A2&A3&Hok2&Hlen).
    rewrite (bind_ok _ _ _ _ _ A1). cbn beta. rewrite Ew. erewrite bind_ok by reflexivity.
    rewrite Hid. cbn [ID NewPage]. rewrite (bind_ok _ _ _ _ _ A2), (bind_ok _ _ _ _ _ A3).
    destruct (index_update (set_pager p3 s1) m key value flag (so_index _ _ _ _ Hok2)) as (t&E3&Ht).
    destruct (index_step _ _ _ _ _ _ _ Hok2 E3 Ht) as [E4 Hok4].
    do 4 eexists. split; [exact E4|]. split; [exact Hok4|..]; try done.
    + rewrite Hrecs. unfold chain_recs. rewrite !(fmap_app snd (segs0 ++ _)), concat_app. done.
    + lia.
    + by left.
    + cbn. congruence.
    + cbn. congruence.
Qed.

(** ** Replaying records *)

Definition state_after (m : kvs) (rs : list lrec) : kvs := foldl (fun m r => apply_rec r m) m rs.

Lemma state_after_snoc m rs r : state_after m (rs ++ [r]) = apply_rec r (state_after m rs).
Proof. unfold state_after. by rewrite foldl_app. Qed.

Lemma state_after_sorted m rs : sorted_keys m -> sorted_keys (state_after m rs).
Proof. revert m. induction rs as [|r rs IH]; intros m Hm; [done|]. apply IH. by apply apply_rec_sorted. Qed.

Definition flag_known (r : lrec) : Prop := r.1.1 = flagLive \/ r.1.1 = flagTombstone.

(** ** Sessions: the store against its history of states *)

(** [H] are all states since the store was empty, the last one [m]; pages and
    entries are at most as many as the records appended so far; the chain starts
    at page 0 and replays to the current state. *)
Record session (s : Store) (ps : list Page) (segs : list (Z * list lrec)) (m : kvs) (H : list kvs) : Prop := {
  se_ok : store_ok s ps segs m;
  se_hist : history s H;
  se_last : last H = Some m;
  se_fit k v : (k, v) ∈ m -> fits (flagLive, k, v);
  se_pages : len ps <= seq s;
  se_entries : len m <= seq s;
  se_root : if hasPages s then firstPage s = 0 else ps = [];
  se_log : state_after [] (chain_recs segs) = m;
  se_flags : Forall flag_known (chain_recs segs);
  se_recs : len (chain_recs segs) <= seq s
}.

Fixpoint states_of (m : kvs) (rs : list lrec) : list kvs :=
  match rs with [] => [] | r :: rs => apply_rec r m :: states_of (apply_rec r m) rs end.

Lemma states_of_length m rs : length (states_of m rs) = length rs.
Proof. revert m. induction rs as [|r rs IH]; intros m; cbn; [done|]. by rewrite IH. Qed.

Lemma states_of_app m r1 r2 : states_of m (r1 ++ r2) = states_of m r1 ++ states_of (foldl (fun m r => apply_rec r m) m r1) r2.
Proof. revert m. induction r1 as [|r r1 IH]; intros m; cbn; [done|]. by rewrite IH. Qed.

Lemma kv_del_idem k m : kv_del k (kv_del k m) = kv_del k m.
Proof.
  unfold kv_del at 1. apply filter_all, Forall_forall. intros e He. by apply list_elem_of_filter in He as [? _].
Qed.

Lemma kv_put_elem k v m k' v' : (k', v') ∈ kv_put k v m -> (k' = k /\ v' = v) \/ (k', v') ∈ m.
Proof.
  induction m as [|[k1 v1] m IH]; cbn [kv_put]; [set_solver|].
  destruct (bytes_compare k k1); rewrite !elem_of_cons; naive_solver.
Qed.

Lemma kv_put_length k v m : (length (kv_put k v m) <= S (length m))%nat.
Proof. induction m as [|[k1 v1] m IH]; cbn [kv_put]; [done|]. destruct (bytes_compare k k1); cbn [length]; lia. Qed.

Lemma apply_rec_fit r m :
  fits r -> (forall k v, (k, v) ∈ m -> fits (flagLive, k, v)) -> forall k v, (k, v) ∈ apply_rec r m -> fits (flagLive, k, v).
Proof.
  destruct r as [[f k0] v0]. intros Hr Hm k v. cbn [apply_rec]. case_decide.
  - intros [[-> ->]|Hin]%kv_put_elem; [exact Hr|auto].
  - intros Hin. apply list_elem_of_filter in Hin as [_ Hin]. auto.
Qed.

Lemma apply_rec_length r m : (length (apply_rec r m) <= S (length m))%nat.
Proof.
  destruct r as [[f k0] v0]. cbn [apply_rec]. case_decide; [apply kv_put_length|].
  unfold kv_del. etrans; [apply length_filter|]. lia.
Qed.

(** The tombstone's key is gone from the index once it is also deleted there. *)
Lemma index_after_del f k v m m1 :
  f <> flagLive -> index_after (f, k, v) m m1 -> kv_del k m1 = apply_rec (f, k, v) m.
Proof.
  intros Hf [->|[_ ->]]; cbn [apply_rec]; rewrite decide_False by done; [apply kv_del_idem|done].
Qed.

Lemma index_after_live k v m m1 : index_after (flagLive, k, v) m m1 -> m1 = apply_rec (flagLive, k, v) m.
Proof. intros [->|[Hf _]]; done. Qed.

(** An append and, for a tombstone, the explicit deletion that its callers add. *)
Definition append_full (r : lrec) : M Store unit :=
  let '(flag, key, value) := r in
  _ ← append key value flag;
  if decide (flag = flagLive) then mret tt else _ ← on_index (delete key); mret tt.

Lemma append_full_spec s ps segs m H r :
  session s ps segs m H -> seq s + 1 < 2 ^ 32 - 1 -> fits r -> flag_known r ->
  exists s' ps' segs', append_full r s = (Ok tt, s') /\
    session s' ps' segs' (apply_rec r m) (H ++ [apply_rec r m]) /\
    chain_recs segs' = chain_recs segs ++ [r] /\ log s' = log s /\ activeSnapshots s' = activeSnapshots s /\
    seq s' = seq s + 1 /\ hasPages s' = true.
Proof.
  intros Hse Hb Hfit Hfl. destruct r as [[flag key] value]. unfold append_full.
  pose proof (h_seq _ _ (se_hist _ _ _ _ _ Hse)) as Hsq. pose proof (se_pages _ _ _ _ _ Hse) as Hpg.
  destruct (append_spec s ps segs m key value flag (se_ok _ _ _ _ _ Hse)) as (s1&ps1&segs1&m1&E1&A); [lia|done|].
  rewrite (bind_ok _ _ _ _ _ E1).
  pose proof (bt_rep_sorted _ _ (so_index _ _ _ _ (se_ok _ _ _ _ _ Hse))) as Hsort.
  pose proof (history_step _ _ _ _ _ _ _ (se_hist _ _ _ _ _ Hse) (se_last _ _ _ _ _ Hse) Hsort ltac:(lia) (ap_version _ _ _ _ _ _ _ _ _ A)) as Hh.
  cbn [fst snd] in Hh.
  assert (seq s1 = seq s + 1) as Es.
  { destruct (ap_version _ _ _ _ _ _ _ _ _ A) as [-> _]. apply Z.mod_small. lia. }
  assert (forall s2, store_ok s2 ps1 segs1 (apply_rec (flag, key, value) m) -> seq s2 = seq s1 -> versions s2 = versions s1 ->
    hasPages s2 = true -> firstPage s2 = firstPage s1 ->
    session s2 ps1 segs1 (apply_rec (flag, key, value) m) (H ++ [apply_rec (flag, key, value) m])) as Hmk.
  { intros s2 Hok2 Es2 Ev2 Eh2 Ef2. split; [done|..].
    - destruct Hh as [h1 h2 h3 h4]. split; rewrite ?Es2; [done|done|intros k v; rewrite Ev2; apply h3|].
      intros n m' k. unfold GetAt. rewrite Ev2. apply h4.
    - by rewrite last_snoc.
    - apply apply_rec_fit; [done|apply Hse].
    - pose proof (ap_pages _ _ _ _ _ _ _ _ _ A). lia.
    - pose proof (apply_rec_length (flag, key, value) m). pose proof (se_entries _ _ _ _ _ Hse). unfold len in *. lia.
    - rewrite Eh2, Ef2, (ap_first _ _ _ _ _ _ _ _ _ A). pose proof (se_root _ _ _ _ _ Hse) as Hroot.
      destruct (hasPages s); [done|by subst ps].
    - rewrite (ap_recs _ _ _ _ _ _ _ _ _ A), state_after_snoc. by rewrite (se_log _ _ _ _ _ Hse).
    - rewrite (ap_recs _ _ _ _ _ _ _ _ _ A). apply Forall_app. split; [apply Hse|by constructor].
    - rewrite (ap_recs _ _ _ _ _ _ _ _ _ A), len_app, Es2, Es. pose proof (se_recs _ _ _ _ _ Hse). unfold len at 2. cbn. lia. }
  pose proof (ap_has _ _ _ _ _ _ _ _ _ A) as Hhas.
  case_decide as Hf.
  - subst flag. pose proof (index_after_live _ _ _ _ (ap_index _ _ _ _ _ _ _ _ _ A)) as ->.
    exists s1, ps1, segs1. split_and!; [done|by apply Hmk; [apply A|..]|apply A..|done|done].
  - destruct (delete_spec _ _ key (so_index _ _ _ _ (ap_ok _ _ _ _ _ _ _ _ _ A))) as (t&Ed&Hd).
    rewrite (index_after_del _ _ _ _ _ Hf (ap_index _ _ _ _ _ _ _ _ _ A)) in Hd.
    exists (set_index t s1), ps1, segs1. rewrite (bind_ok _ _ _ _ _ (on_index_ok _ _ _ _ Ed)).
    split_and!; [done|by apply Hmk; [eapply store_ok_index; [apply A|done]|..]|apply A..|done|done].
Qed.

(** What an operation that appends the records [rs] and logs [ws] does. *)
Record written (rs : list lrec) (ws : list wrec) (s : Store) (segs : list (Z * list lrec)) (m : kvs) (H : list kvs)
    (s' : Store) (ps' : list Page) (segs' : list (Z * list lrec)) : Prop := {
  wr_session : session s' ps' segs' (state_after m rs) (H ++ states_of m rs);
  wr_recs : chain_recs segs' = chain_recs segs ++ rs;
  wr_log : wal_file (log s') = wal_file (log s) ++ log_bytes ws;
  wr_active : activeSnapshots s' = activeSnapshots s;
  wr_seq : seq s' = seq s + len rs;
  wr_idx : idx_data (indexFile s') = Some (gob_encode (state_after m rs));
  wr_has : hasPages s' = bool_decide (rs <> []) || hasPages s
}.

Fixpoint append_all (rs : list lrec) : M Store unit :=
  match rs with [] => mret tt | r :: rs => _ ← append_full r; append_all rs end.

Lemma append_all_spec rs s ps segs m H :
  session s ps segs m H -> seq s + len rs < 2 ^ 32 - 1 -> Forall fits rs -> Forall flag_known rs ->
  exists s' ps' segs', append_all rs s = (Ok tt, s') /\
    session s' ps' segs' (state_after m rs) (H ++ states_of m rs) /\
    chain_recs segs' = chain_recs segs ++ rs /\ log s' = log s /\ activeSnapshots s' = activeSnapshots s /\
    seq s' = seq s + len rs /\ hasPages s' = bool_decide (rs <> []) || hasPages s.
Proof.
  intros Hse Hb Hfit. revert s ps segs m H Hse Hb.
  induction Hfit as [|r rs Hr _ IH]; intros s ps segs m H Hse Hb Hfl; [|apply Forall_cons in Hfl as [Hf1 Hfl]].
  - exists s, ps, segs. cbn [append_all states_of]. rewrite !app_nil_r. change (len []) with 0. split_and!; try done. lia.
  - change (len (r :: rs)) with (Z.of_nat (S (length rs))) in *. pose proof (len_nonneg rs).
    destruct (append_full_spec s ps segs m H r Hse) as (s1&ps1&segs1&E1&Hse1&Hr1&L1&A1&Q1&P1); [lia|done|done|].
    destruct (IH s1 ps1 segs1 _ _ Hse1) as (s2&ps2&segs2&E2&Hse2&Hr2&L2&A2&Q2&P2); [unfold len in *; lia|done|].
    exists s2, ps2, segs2. cbn [append_all states_of]. rewrite (bind_ok _ _ _ _ _ E1). split_and!; try congruence.
    + by rewrite <- app_assoc in Hse2.
    + rewrite Hr2, Hr1, <- app_assoc. done.
    + unfold len in *. lia.
    + rewrite P2, P1, orb_true_r. done.
Qed.

Lemma session_log s ps segs m H w :
  session s ps segs m H -> wal_fault w = None -> session (set_log w s) ps segs m H.
Proof. intros Hse Hw. destruct Hse as [Hok [h1 h2 h3 h4] ? ? ? ? ? ? ? ?]. split; [split; try apply Hok; done|by split|done..]. Qed.

Lemma session_idx s ps segs m H d : session s ps segs m H -> session (set_indexFile (MkIdx d None) s) ps segs m H.
Proof. intros Hse. destruct Hse as [Hok [h1 h2 h3 h4] ? ? ? ? ? ? ? ?]. split; [by apply store_ok_idx|by split|done..]. Qed.

(** Logging the records, appending them and saving the index. *)
Lemma write_spec (lg : M wal unit) (ap : M Store unit) rs ws s ps segs m H :
  session s ps segs m H -> seq s + len rs < 2 ^ 32 - 1 -> Forall fits rs -> Forall flag_known rs ->
  (forall w, lg (MkWal w None) = (Ok tt, MkWal (w ++ log_bytes ws) None)) ->
  (forall s, ap s = append_all rs s) ->
  exists s' ps' segs', (_ ← on_log lg; _ ← ap; saveIndex) s = (Ok tt, s') /\ written rs ws s segs m H s' ps' segs'.
Proof.
  intros Hse Hb Hfit Hfl Hlg Hap. pose proof (so_wal _ _ _ _ (se_ok _ _ _ _ _ Hse)) as Hw.
  assert (lg (log s) = (Ok tt, MkWal (wal_file (log s) ++ log_bytes ws) None)) as El.
  { destruct (log s) as [wf wfl]. cbn in Hw. subst wfl. apply Hlg. }
  rewrite (bind_ok _ _ _ _ _ (on_log_ok _ _ _ _ El)). set (s0 := set_log _ s).
  assert (session s0 ps segs m H) as Hse0 by (by apply session_log).
  destruct (append_all_spec rs s0 ps segs m H Hse0 Hb Hfit Hfl) as (s1&ps1&segs1&E1&Hse1&Hr1&L1&A1&Q1&P1).
  rewrite <- Hap in E1. rewrite (bind_ok _ _ _ _ _ E1).
  pose proof (so_index _ _ _ _ (se_ok _ _ _ _ _ Hse1)) as Hi. pose proof (so_idx _ _ _ _ (se_ok _ _ _ _ _ Hse1)) as Hf.
  rewrite (saveIndex_ok s1 _ Hi Hf). do 3 eexists. split; [reflexivity|].
  split; cbn; try done; [by apply session_idx|]. by rewrite L1.
Qed.

(** An append of a live record saves the index itself. *)
Lemma append_live_saved s ps segs m H key value s' :
  session s ps segs m H -> seq s + 1 < 2 ^ 32 - 1 -> fits (flagLive, key, value) ->
  append key value flagLive s = (Ok tt, s') -> saveIndex s' = (Ok tt, s').
Proof.
  intros Hse Hb Hfit E. pose proof (se_pages _ _ _ _ _ Hse).
  destruct (append_spec s ps segs m key value flagLive (se_ok _ _ _ _ _ Hse)) as (s1&ps1&segs1&m1&E1&A); [lia|done|].
  rewrite E in E1. injection E1 as <-. pose proof (ap_ok _ _ _ _ _ _ _ _ _ A) as Hok.
  rewrite (saveIndex_ok s' m1); [|apply Hok|apply Hok]. rewrite <- (ap_idx _ _ _ _ _ _ _ _ _ A). by destruct s'.
Qed.

Lemma Store_Put_spec s ps segs m H key value :
  session s ps segs m H -> seq s + 1 < 2 ^ 32 - 1 -> fits (flagLive, key, value) ->
  exists s' ps' segs', Put key value s = (Ok tt, s') /\
    written [(flagLive, key, value)] [(walPut, key, value)] s segs m H s' ps' segs'.
Proof.
  intros Hse Hb Hfit.
  assert (len key + len value < 2 ^ 32) as Hsz by (unfold fits, PageSize, HeaderSize in Hfit; cbn in Hfit; unfold recordHeaderSize in Hfit; lia).
  destruct (write_spec (Wal.append walPut key value) (append key value flagLive) [(flagLive, key, value)] [(walPut, key, value)]
    s ps segs m H Hse) as (s'&ps'&segs'&E&W).
  - done.
  - by constructor.
  - by repeat constructor.
  - intros w. by apply append_ok.
  - intros s0. cbn [append_all append_full]. rewrite bind_assoc.
    cbv [mbind M_bind mret M_ret]. by destruct (append key value flagLive s0) as [[[]| | |] s1].
  - exists s', ps', segs'. split; [|done]. rewrite <- E. unfold Put.
    destruct (on_log (Wal.append walPut key value) s) as [[[]| | |] s1] eqn:E1; cbv [mbind M_bind]; rewrite E1; try done.
    cbv [mbind M_bind] in E. rewrite E1 in E.
    destruct (append key value flagLive s1) as [[[]| | |] s2] eqn:E2; try done. symmetry.
    assert (session s1 ps segs m H /\ seq s1 = seq s) as [Hse1 Hs1].
    { unfold on_log, zoom in E1. pose proof (so_wal _ _ _ _ (se_ok _ _ _ _ _ Hse)) as Hw. destruct (log s) as [wf wfl].
      cbn in Hw. subst wfl. rewrite append_ok in E1 by done. injection E1 as <-. split; [by apply session_log|done]. }
    eapply append_live_saved; [exact Hse1|lia|done|done].
Qed.

Lemma Store_Delete_spec s ps segs m H key :
  session s ps segs m H -> seq s + 1 < 2 ^ 32 - 1 -> fits (flagTombstone, key, []) ->
  exists s' ps' segs', Delete key s = (Ok tt, s') /\
    written [(flagTombstone, key, [])] [(walDelete, key, [])] s segs m H s' ps' segs'.
Proof.
  intros Hse Hb Hfit.
  assert (len key + len ([] : bytes) < 2 ^ 32) as Hsz.
  { unfold fits, PageSize, HeaderSize in Hfit. cbn in Hfit. unfold recordHeaderSize in Hfit. change (len []) with 0 in *. lia. }
  destruct (write_spec (Wal.append walDelete key []) (append_full (flagTombstone, key, []))
    [(flagTombstone, key, [])] [(walDelete, key, [])] s ps segs m H Hse) as (s'&ps'&segs'&E&W).
  - done.
  - by constructor.
  - by repeat constructor.
  - intros w. by apply append_ok.
  - intros s0. cbn [append_all]. cbv [mbind M_bind mret M_ret]. by destruct (append_full _ s0) as [[[]| | |] s1].
  - exists s', ps', segs'. split; [|done]. rewrite <- E. unfold Delete. apply bind_ext. intros _ s0.
    unfold append_full. rewrite bind_assoc. apply bind_ext. intros _ s1.
    rewrite decide_False by done. rewrite bind_assoc. by apply bind_ext.
Qed.

(** The record a batch operation appends. *)
Definition op_rec (op : BatchOp) : lrec := (if bDelete op then flagTombstone else flagLive, bKey op, bValue op).

Lemma applyOps_all ops s : applyOps ops s = append_all (op_rec <$> ops) s.
Proof.
  revert s. induction ops as [|op ops IH]; intros s; [done|]. cbn [applyOps fmap list_fmap append_all].
  assert (op_rec op = (if bDelete op then flagTombstone else flagLive, bKey op, bValue op)) as -> by done.
  cbn [append_full]. destruct (bDelete op); rewrite bind_assoc; apply bind_ext; intros _ s1.
  - rewrite decide_False by done. rewrite !bind_assoc. apply bind_ext. intros _ s2. apply IH.
  - rewrite decide_True by done. apply IH.
Qed.

Lemma ApplyBatch_spec s ps segs m H id ops :
  session s ps segs m H -> seq s + len ops < 2 ^ 32 - 1 -> Forall fits (op_rec <$> ops) ->
  exists s' ps' segs', ApplyBatch id ops s = (Ok tt, s') /\
    written (op_rec <$> ops) (cmd_recs (CTx id ops)) s segs m H s' ps' segs'.
Proof.
  intros Hse Hb Hfit. apply (write_spec (appendTransaction id ops) (applyOps ops) _ _ _ ps); [done|..].
  - unfold len in *. by rewrite length_fmap.
  - done.
  - apply Forall_fmap, Forall_forall. intros op _. unfold flag_known, op_rec. cbn. destruct (bDelete op); auto.
  - intros w. apply (run_cmd_ok (CTx id ops)). cbn. rewrite Forall_fmap in Hfit. eapply Forall_impl; [exact Hfit|].
    intros op Ho. unfold fits, op_rec, op_fits, PageSize, HeaderSize in *. cbn in Ho. unfold recordHeaderSize in Ho. lia.
  - apply applyOps_all.
Qed.

Lemma Store_Get_spec s ps segs m H key : session s ps segs m H -> Get key s = (Ok (kv_get key m), s).
Proof.
  intros Hse. unfold Get. rewrite (on_index_ok _ _ _ _ (get_spec _ _ key (so_index _ _ _ _ (se_ok _ _ _ _ _ Hse)))).
  by rewrite set_index_same.
Qed.

(** ** Compaction *)

Definition live_recs (m : kvs) : list lrec := (fun kv => (flagLive, kv.1, kv.2)) <$> m.

(** The pages written so far: all but the last one are in the pager, the last
    one only as the value in hand. *)
Definition compacting (ps : list Page) (segs : list (Z * list lrec)) (last : option Page) : Prop :=
  match last with
  | None => ps = [] /\ segs = []
  | Some q => exists segs0 rs, segs = segs0 ++ [(ID q, rs)] /\ page_holds q rs /\ NextPageID q = NoPage /\
      HeaderID q = ID q /\ ID q < len ps /\ chain_seg (<[Z.to_nat (ID q) := q]> ps) 0 segs NoPage /\
      NoDup segs.*1 /\ pages_valid (<[Z.to_nat (ID q) := q]> ps)
  end.

Lemma compact_room p ps segs q key value :
  pager_rep p ps -> compacting ps segs (Some q) -> rec_size (flagLive, key, value) <= Remaining q ->
  exists q' segs', writeRecord q key value flagLive = Ok q' /\ compacting ps segs' (Some q') /\
    chain_recs segs' = chain_recs segs ++ [(flagLive, key, value)].
Proof.
  intros R (segs0&rs&->&Hq&Hnx&Hh&Hlt&Hc&Hd&Hv) Hroom.
  destruct (writeRecord_ok q rs key value flagLive Hq Hroom) as (q'&E&Hq'&Hid&Hnx'&Hh').
  exists q', (segs0 ++ [(ID q, rs ++ [(flagLive, key, value)])]). split_and!; [done| |apply chain_recs_snoc].
  exists segs0, (rs ++ [(flagLive, key, value)]). rewrite Hid. split_and!; try done; try congruence.
  - rewrite <- (list_insert_insert_eq ps _ q' q), <- Hnx, <- Hnx'. by eapply chain_update_last.
  - by rewrite fmap_app in *.
  - rewrite <- (list_insert_insert_eq ps _ q' q). apply pages_valid_insert; [done|].
    assert (<[Z.to_nat (ID q):=q]> ps !! Z.to_nat (ID q) = Some q) as Hl.
    { apply list_lookup_insert_eq. destruct (ph_wf _ _ Hq) as [? _]. unfold len in Hlt. lia. }
    destruct (Hv _ _ Hl) as (V1&_&_). split_and!; [congruence|by eauto|left; congruence].
Qed.

Lemma compact_full p ps segs q key value :
  pager_rep p ps -> healthy p -> compacting ps segs (Some q) -> Remaining q < rec_size (flagLive, key, value) ->
  fits (flagLive, key, value) -> len ps + 1 < 2 ^ 32 ->
  exists q' p' ps' segs',
    (page ← AllocatePage; _ ← WritePage (SetNextPageID (ID page) q); lift (writeRecord page key value flagLive)) p = (Ok q', p') /\
    pager_rep p' ps' /\ healthy p' /\ compacting ps' segs' (Some q') /\
    chain_recs segs' = chain_recs segs ++ [(flagLive, key, value)] /\ len ps' = len ps + 1.
Proof.
  intros R Hh (segs0&rs&->&Hq&Hnx&Hhd&Hlt&Hc&Hd&Hv) Hfull Hfit Hn. pose proof (len_nonneg ps) as Hps.
  pose proof (rep_u32 _ _ R) as Hu. destruct (ph_wf _ _ Hq) as [Hid0 _].
  assert (page_holds (NewPage (len ps)) []) as Hnew by (by apply NewPage_holds).
  destruct (writeRecord_ok (NewPage (len ps)) [] key value flagLive Hnew) as (np&Ew&Hnp&Hid&Hnx'&Hhid).
  { unfold Remaining. by rewrite FreeOffset_NewPage. }
  rewrite NextPageID_NewPage in Hnx'. rewrite HeaderID_NewPage in Hhid by done. cbn [app ID NewPage] in Hnp, Hid.
  destruct (pager_link p ps (ID q) q np R Hh ltac:(lia) eq_refl (ph_wf _ _ Hq) Hn (ph_wf _ _ Hnp) Hid)
    as (p1&p2&_&E1&_&_&E2&R2&H2&_).
  set (ps0 := <[Z.to_nat (ID q) := q]> ps) in *.
  assert (len ps0 = len ps) as Hl0 by (unfold len, ps0; by rewrite length_insert).
  assert (ps0 !! Z.to_nat (ID q) = Some q) as Hq0 by (apply list_lookup_insert_eq; unfold len in Hlt; lia).
  destruct (chain_link ps0 0 segs0 (ID q) rs q np (flagLive, key, value) Hc Hd Hv Hq0 Hq) as (C1&C2&C3);
    rewrite ?Hl0; try done. rewrite Hl0 in C1, C2, C3. unfold ps0 in C1, C3. rewrite list_insert_insert_eq in C1, C3.
  exists np, p2. eexists. exists ((segs0 ++ [(ID q, rs)]) ++ [(len ps, [(flagLive, key, value)])]).
  split_and!; [|exact R2|done|..].
  - rewrite (bind_ok _ _ _ _ _ E1). cbn [ID NewPage]. rewrite (bind_ok _ _ _ _ _ E2). unfold lift. by rewrite Ew.
  - exists (segs0 ++ [(ID q, rs)]), [(flagLive, key, value)]. rewrite Hid.
    assert (<[Z.to_nat (len ps) := np]> (<[Z.to_nat (ID q) := SetNextPageID (len ps) q]> ps ++ [NewPage (len ps)]) =
      <[Z.to_nat (ID q) := SetNextPageID (len ps) q]> ps ++ [np]) as Eins.
    { rewrite insert_app_r_alt by (rewrite length_insert; unfold len; lia). rewrite length_insert.
      replace (Z.to_nat (len ps) - length ps)%nat with O by (unfold len; lia). done. }
    rewrite Eins. split_and!; try done. rewrite len_app. unfold len. rewrite length_insert. cbn. lia.
  - unfold chain_recs. rewrite !(fmap_app snd (segs0 ++ _)), concat_app. done.
  - rewrite len_app. unfold len. by rewrite length_insert.
Qed.

Lemma compactLoop_spec l p ps segs last :
  pager_rep p ps -> healthy p -> compacting ps segs last ->
  (forall k v, (k, v) ∈ l -> fits (flagLive, k, v)) -> len ps + len l + 1 < 2 ^ 32 ->
  exists last' p' ps' segs', compactLoop l last p = (Ok last', p') /\ pager_rep p' ps' /\ healthy p' /\
    compacting ps' segs' last' /\ chain_recs segs' = chain_recs segs ++ live_recs l /\ len ps' <= len ps + len l /\
    (last' = None <-> last = None /\ l = []).
Proof.
  revert p ps segs last. induction l as [|[key value] l IH]; intros p ps segs last R Hh Hcp Hfit Hn.
  - exists last, p, ps, segs. cbn. rewrite app_nil_r. change (len []) with 0 in *. split_and!; try done; [lia|naive_solver].
  - change (len ((key, value) :: l)) with (Z.of_nat (S (length l))) in *. pose proof (len_nonneg ps) as Hps.
    assert (fits (flagLive, key, value)) as Hf by (apply Hfit; constructor).
    assert (exists q p1 ps1 segs1, (match last with Some p => mret p | None => AllocatePage end) p = (Ok q, p1) /\
      pager_rep p1 ps1 /\ healthy p1 /\ compacting ps1 segs1 (Some q) /\ chain_recs segs1 = chain_recs segs /\
      (ps1 = ps \/ (len ps1 = len ps + 1 /\ rec_size (flagLive, key, value) <= Remaining q))) as (q&p1&ps1&segs1&E1&R1&H1&C1&G1&L1).
    { destruct last as [q|]; [exists q, p, ps, segs; split_and!; auto|]. destruct Hcp as [-> ->].
      destruct (AllocatePage_healthy _ _ R Hh) as (p1&E1&R1&H1); [lia|]. change (len []) with 0 in *. cbn [app] in R1.
      pose proof (NewPage_holds 0 ltac:(lia)) as Hnew. pose proof (NextPageID_NewPage 0) as Hnn.
      exists (NewPage 0), p1, [NewPage 0], [(0, [])]. split_and!; try done.
      - exists [], []. split; [done|]. split; [done|]. split; [done|]. split; [by apply HeaderID_NewPage|]. split; [done|].
        split; [|split; [apply NoDup_singleton|]].
        + cbn [app chain_seg]. split_and!; [done|lia|]. exists (NewPage 0). done.
        + apply (pages_valid_snoc []); [intros i p0 Hi; by rewrite lookup_nil in Hi|by apply (NewPage_valid [])].
      - right. split; [done|]. unfold Remaining. by rewrite FreeOffset_NewPage. }
    cbn [compactLoop]. rewrite (bind_ok _ _ _ _ _ E1).
    assert (exists q2 p2 ps2 segs2, (match writeRecord q key value flagLive with
        | Err _ => page ← AllocatePage; _ ← WritePage (SetNextPageID (ID page) q); lift (writeRecord page key value flagLive)
        | o => lift o end) p1 = (Ok q2, p2) /\ pager_rep p2 ps2 /\ healthy p2 /\ compacting ps2 segs2 (Some q2) /\
      chain_recs segs2 = chain_recs segs1 ++ [(flagLive, key, value)] /\ len ps2 <= len ps + 1) as (q2&p2&ps2&segs2&E2&R2&H2&C2&G2&L2).
    { destruct (decide (rec_size (flagLive, key, value) <= Remaining q)) as [Hroom|Hfull].
      - destruct (compact_room p1 ps1 segs1 q key value R1 C1 Hroom) as (q'&segs'&->&C'&G'). exists q', p1, ps1, segs'.
        split_and!; try done. destruct L1 as [->|[L1 _]]; lia.
      - destruct L1 as [->|[_ ?]]; [|done]. rewrite writeRecord_full by lia.
        destruct (compact_full p1 ps segs1 q key value R1 H1 C1 ltac:(lia) Hf ltac:(lia)) as (q'&p'&ps'&segs'&E'&R'&H'&C'&G'&L').
        exists q', p', ps', segs'. split_and!; try done. lia. }
    rewrite (bind_ok _ _ _ _ _ E2).
    destruct (IH p2 ps2 segs2 (Some q2) R2 H2 C2) as (last'&p'&ps'&segs'&E'&R'&H'&C'&G'&L'&N').
    { intros k v Hin. apply Hfit. by constructor. } { unfold len in *. lia. }
    exists last', p', ps', segs'. split_and!; try done.
    + by rewrite G', G2, G1, <- app_assoc.
    + unfold len in *. lia.
    + rewrite N'. split; [intros [? _]|intros [_ ?]]; done.
Qed.

(** Re-inserting the sorted entries gives them back. *)
Lemma state_after_live m : sorted_keys m -> state_after [] (live_recs m) = m.
Proof.
  enough (forall acc, sorted_keys (acc ++ m) -> state_after acc (live_recs m) = acc ++ m) as He by (intros; by apply (He [])).
  induction m as [|[k v] m IH]; intros acc Hs; [by rewrite app_nil_r|].
  transitivity (state_after (kv_put k v acc) (live_recs m)); [done|].
  assert (kv_put k v acc = acc ++ [(k, v)]) as ->; [|rewrite IH; by rewrite <- app_assoc].
  rewrite <- (app_nil_r acc) at 1. rewrite <- (app_nil_r []), kv_put_app; [done| |set_solver].
  apply sorted_keys_app in Hs as (_&_&Hs). intros k' Hk'. apply Hs; [done|constructor].
Qed.

Lemma Pager_Close_healthy p ps :
  pager_rep p ps -> healthy p ->
  exists p', Pager.Close p = (Ok tt, shut_pager p') /\ pager_rep p' ps /\ healthy p' /\
    forall i q, ps !! i = Some q -> file_page (file p') (Z.of_nat i) = Some q.
Proof.
  intros R Hh. destruct (Flush_healthy p ps R Hh) as (p'&E&R'&?). exists p'. rewrite (Close_flushed _ _ E) by apply R'. done.
Qed.

(** The compacted file holds one live record per entry, in key order. *)
Lemma compactFile_spec l p :
  pager_rep p [] -> healthy p -> (forall k v, (k, v) ∈ l -> fits (flagLive, k, v)) -> len l + 1 < 2 ^ 32 ->
  exists p' ps segs, compactFile l p = (Ok (bool_decide (l <> [])), shut_pager p') /\ pager_rep p' ps /\ healthy p' /\
    (forall i q, ps !! i = Some q -> file_page (file p') (Z.of_nat i) = Some q) /\
    pages_valid ps /\ chain_recs segs = live_recs l /\ len ps <= len l /\
    (if bool_decide (l <> []) then segs <> [] /\ chain_seg ps 0 segs NoPage /\ NoDup segs.*1 else segs = []).
Proof.
  intros R Hh Hfit Hn. unfold compactFile.
  destruct (compactLoop_spec l p [] [] None R Hh ltac:(done) Hfit) as (last'&p1&ps1&segs1&E1&R1&H1&C1&G1&L1&N1); [change (len []) with 0; lia|].
  rewrite (bind_ok _ _ _ _ _ E1). change (len []) with 0 in L1.
  assert (exists p2 ps2, (match last' with Some p => WritePage p | None => mret tt end) p1 = (Ok tt, p2) /\ pager_rep p2 ps2 /\
    healthy p2 /\ pages_valid ps2 /\ len ps2 <= len l /\
    (if bool_decide (l <> []) then segs1 <> [] /\ chain_seg ps2 0 segs1 NoPage /\ NoDup segs1.*1 else segs1 = [])) as (p2&ps2&E2&R2&H2&V2&L2&S2).
  { destruct last' as [q|].
    - rewrite bool_decide_eq_true_2 by (intros ->; discriminate (proj2 N1 (conj eq_refl eq_refl))).
      destruct C1 as (segs0&rs&->&Hq&Hnx&Hhd&Hlt&Hc&Hd&Hv).
      destruct (WritePage_healthy _ _ q R1 H1 (ph_wf _ _ Hq) Hlt) as (p2&E2&R2&H2). exists p2. eexists.
      split_and!; [exact E2|exact R2|done|done| |by destruct segs0|done|done]. unfold len in *. rewrite length_insert. lia.
    - destruct (proj1 N1 eq_refl) as [_ ->]. destruct C1 as [-> ->]. exists p1, []. split_and!; try done. }
  rewrite (bind_ok _ _ _ _ _ E2).
  destruct (Flush_healthy p2 ps2 R2 H2) as (p3&E3&R3&H3&_). rewrite (bind_ok _ _ _ _ _ E3).
  rewrite (bind_ok _ _ _ _ _ (Sync_open p3 (rep_open _ _ R3))).
  destruct (Pager_Close_healthy p3 ps2 R3 H3) as (p4&E4&R4&H4&F4). rewrite (bind_ok _ _ _ _ _ E4).
  exists p4, ps2, segs1. split_and!; try done. unfold mret, M_ret. do 2 f_equal.
  destruct last' as [q|]; [by rewrite bool_decide_eq_true_2 by (intros ->; discriminate (proj2 N1 (conj eq_refl eq_refl)))|].
  destruct (proj1 N1 eq_refl) as [_ ->]. done.
Qed.

(** ** Closing *)

Lemma on_Sync s ps : pager_rep (pager s) ps -> on_pager Pager.Sync s = (Ok tt, s).
Proof using Type. intros R. rewrite (on_pager_ok _ _ _ _ (Sync_open _ (rep_open _ _ R))). by destruct s. Qed.

(** A store whose handles have been closed. *)
Definition shut_store (p : Pager) (s : Store) : Store := set_pager (shut_pager p) (set_log (MkWal (wal_file (log s)) (Some HandleClosed)) s).

Lemma files_of_shut p s ps : pager_rep p ps -> files_of (shut_store p s) = MkFiles (file p) (MkWal (wal_file (log s)) None) (indexFile s).
Proof using Type. intros R. unfold files_of. cbn. f_equal. apply at_rest_shut, R. Qed.

Lemma files_of_open s ps segs m : store_ok s ps segs m -> files_of s = MkFiles (file (pager s)) (log s) (indexFile s).
Proof using Type.
  intros Hok. unfold files_of, openWAL. rewrite (so_wal _ _ _ _ Hok), at_rest_open; [done|]. eapply rep_open, Hok.
Qed.

Lemma Flush_ok s ps segs m :
  store_ok s ps segs m ->
  exists p', Flush s = (Ok tt, set_log (MkWal [] None) (set_indexFile (MkIdx (Some (gob_encode m)) None) (set_pager p' s))) /\
    pager_rep p' ps /\ healthy p' /\ (forall i q, ps !! i = Some q -> file_page (file p') (Z.of_nat i) = Some q).
Proof using Type.
  intros Hok. destruct (Flush_healthy _ _ (so_pager _ _ _ _ Hok) (so_healthy _ _ _ _ Hok)) as (p1&E1&R1&H1&F1). exists p1. split; [|done].
  unfold Flush. rewrite (bind_ok _ _ _ _ _ (on_pager_ok _ _ _ _ E1)), (bind_ok _ _ _ _ _ (on_Sync (set_pager p1 s) ps R1)).
  erewrite bind_ok by (apply saveIndex_ok; [apply Hok|apply Hok]). pose proof (so_wal _ _ _ _ Hok) as Hw.
  unfold on_log, zoom, Wal.clear, file_Truncate0, file_Sync. cbv [mbind M_bind]. cbn [log set_pager set_indexFile]. by rewrite Hw.
Qed.

Lemma Close_after_Flush s s1 ps segs m :
  Flush s = (Ok tt, s1) -> store_ok s1 ps segs m ->
  exists p2, Close s = (Ok tt, shut_store p2 s1) /\ pager_rep p2 ps /\ healthy p2 /\
    (forall i q, ps !! i = Some q -> file_page (file p2) (Z.of_nat i) = Some q).
Proof using Type.
  intros E Hok. destruct (Pager_Close_healthy _ _ (so_pager _ _ _ _ Hok) (so_healthy _ _ _ _ Hok)) as (p2&E2&R2&H2&F2).
  exists p2. split; [|done].
  assert (Close s = (_ ← Flush; _ ← on_log Wal.close; on_pager Pager.Close) s) as ->.
  { unfold Close, Flush. rewrite !bind_assoc. repeat (apply bind_ext; intros ? ?; rewrite ?bind_assoc). done. }
  rewrite (bind_ok _ _ _ _ _ E). erewrite bind_ok by (unfold on_log, zoom, Wal.close; rewrite (so_wal _ _ _ _ Hok); reflexivity).
  erewrite on_pager_ok by exact E2. done.
Qed.

(** Compaction of a store with the entries [m], whatever its history. *)
Lemma Compact_ok s ps segs m :
  store_ok s ps segs m -> (forall k v, (k, v) ∈ m -> fits (flagLive, k, v)) -> activeSnapshots s <= 0 -> len m + 1 < 2 ^ 32 ->
  exists s' ps' segs', Compact s = (Ok tt, s') /\ store_ok s' ps' segs' m /\ chain_recs segs' = live_recs m /\ len ps' <= len m /\
    wal_file (log s') = [] /\ activeSnapshots s' = activeSnapshots s /\ seq s' = seq s /\ versions s' = versions s /\
    indexFile s' = indexFile s /\ hasPages s' = bool_decide (m <> []) /\ firstPage s' = 0.
Proof.
  intros Hok Hfit Ha Hb. unfold Compact. rewrite bind_get, decide_False by lia.
  rewrite (bind_ok _ _ _ _ _ (on_index_ok _ _ _ _ (entries_spec _ _ (so_index _ _ _ _ Hok)))), set_index_same.
  rewrite (so_healthy _ _ _ _ Hok).
  destruct (Open_spec (MkFile [] None false)) as (p0&E0&Ef0&HR0); [done|done|].
  assert (pager_rep p0 []) as R0 by (apply HR0; [done|intros i q Hi; by rewrite lookup_nil in Hi]).
  erewrite bind_ok by (unfold lift; rewrite E0; reflexivity).
  assert (healthy p0) as Hh0 by (unfold healthy; by rewrite Ef0).
  destruct (compactFile_spec m p0 R0 Hh0 Hfit Hb) as (p1&ps1&segs1&E1&R1&H1&F1&V1&G1&L1&S1).
  rewrite E1. erewrite bind_ok by reflexivity.
  destruct (Pager_Close_healthy _ _ (so_pager _ _ _ _ Hok) (so_healthy _ _ _ _ Hok)) as (p2&E2&_&_&_).
  rewrite (bind_ok _ _ _ _ _ (on_pager_ok _ _ _ _ E2)).
  destruct (reopen_rep p1 ps1 R1 F1) as (p3&E3&Ef3&R3).
  erewrite bind_ok by (unfold lift; cbn [shut_pager file]; rewrite E3; reflexivity).
  erewrite bind_ok by reflexivity. erewrite bind_ok by reflexivity.
  assert (wal_fault (log s) = None) as Hw by apply Hok.
  unfold on_log, zoom, Wal.clear, file_Truncate0, file_Sync. cbv [mbind M_bind]. cbn [log set_chain set_pager]. rewrite Hw. cbn [wal_fault].
  eexists. exists ps1, segs1. split; [reflexivity|]. split; [|by split_and!].
  split; cbn [pager set_log set_chain set_pager hasPages firstPage log wal_fault indexFile index]; try apply Hok; try done.
  unfold healthy. by rewrite Ef3.
Qed.

Lemma Compact_spec s ps segs m H :
  session s ps segs m H -> activeSnapshots s <= 0 -> seq s + 1 < 2 ^ 32 ->
  exists s' ps' segs', Compact s = (Ok tt, s') /\ session s' ps' segs' m H /\ chain_recs segs' = live_recs m /\
    wal_file (log s') = [] /\ activeSnapshots s' = activeSnapshots s /\ seq s' = seq s /\
    indexFile s' = indexFile s /\ hasPages s' = bool_decide (m <> []).
Proof.
  intros Hse Ha Hb. pose proof (se_ok _ _ _ _ _ Hse) as Hok. pose proof (se_entries _ _ _ _ _ Hse) as He.
  destruct (Compact_ok s ps segs m Hok (se_fit _ _ _ _ _ Hse) Ha) as (s'&ps'&segs'&E&Hok'&G&L&W&A&Q&V&I&P&F); [lia|].
  exists s', ps', segs'. split; [done|]. split; [|by split_and!].
  pose proof (bt_rep_sorted _ _ (so_index _ _ _ _ Hok)) as Hsort. destruct Hse as [_ [h1 h2 h3 h4] hl hf hp hen _ _ _ _].
  split; [done| |done|done|lia|lia|..].
  - split; rewrite ?Q, ?V; [done|done|done|]. intros n m' key Hn. unfold GetAt. rewrite V. by apply h4.
  - rewrite P. case_bool_decide as Hm; [done|]. subst m. apply nil_length_inv. unfold len in L. cbn in L. lia.
  - rewrite G. by apply state_after_live.
  - rewrite G. apply Forall_fmap, Forall_forall. intros kv _. by left.
  - rewrite G. unfold live_recs, len in *. rewrite length_fmap. lia.
Qed.
End ops.
