(* ===== verification/StoreSpec.v ===== *)
(** * The store against its specification

    The specification keeps the list of all states the store has been in: reads
    look at the last one, snapshot reads at the one that was current when the
    snapshot was taken. The store answers every sequence of calls as the
    specification does. *)
From S2P Require Import Prelude OrderedMap Page BufferPool Pager BTree BTreeInv BTreeProofs Wal Record Store StoreInv StoreProofs.

Inductive store_op :=
| SPut (key value : bytes)
| SDelete (key : bytes)
| SBatch (id : Z) (ops : list BatchOp)
| SGet (key : bytes)
| SBegin
| SGetAt (snapshot : Z) (key : bytes)
| SRelease (snapshot : Z)
| SFlush
| SCompact.

Inductive store_res := RDone | RValue (v : option bytes) | RSnapshot (n : Z).

(** ** The specification *)

Record spec_state := MkSpec { states : list kvs; readers : Z }.

Definition current (t : spec_state) : kvs := default [] (last (states t)).

Definition push (rs : list lrec) (t : spec_state) : spec_state :=
  MkSpec (states t ++ states_of (current t) rs) (readers t).

Definition spec_step (o : store_op) (t : spec_state) : outcome store_res * spec_state :=
  match o with
  | SPut key value => (Ok RDone, push [(flagLive, key, value)] t)
  | SDelete key => (Ok RDone, push [(flagTombstone, key, [])] t)
  | SBatch id ops => (Ok RDone, push (op_rec <$> ops) t)
  | SGet key => (Ok (RValue (kv_get key (current t))), t)
  | SBegin => (Ok (RSnapshot (len (states t) - 1)), MkSpec (states t) (readers t + 1))
  | SGetAt n key => (Ok (RValue (kv_get key (default (current t) (states t !! Z.to_nat n)))), t)
  | SRelease n => (Ok RDone, MkSpec (states t) (if decide (readers t > 0) then readers t - 1 else readers t))
  | SFlush => (Ok RDone, t)
  | SCompact =>
      (if decide (readers t > 0) then Err (Errorf "cannot compact while snapshots are active" []) else Ok RDone, t)
  end.

Fixpoint spec_run (os : list store_op) (t : spec_state) : list (outcome store_res) * spec_state :=
  match os with
  | [] => ([], t)
  | o :: os => let '(r, t) := spec_step o t in let '(rs, t) := spec_run os t in (r :: rs, t)
  end.

(** The records an operation appends. *)
Definition op_recs (o : store_op) : list lrec :=
  match o with
  | SPut key value => [(flagLive, key, value)]
  | SDelete key => [(flagTombstone, key, [])]
  | SBatch id ops => op_rec <$> ops
  | _ => []
  end.

Definition store_op_ok (o : store_op) : Prop :=
  Forall fits (op_recs o) /\ match o with SGetAt n _ => 0 <= n | _ => True end.

Section refinement.
Context `{Codec : IndexCodec}.

Definition store_step (o : store_op) : M Store store_res :=
  match o with
  | SPut key value => _ ← Put key value; mret RDone
  | SDelete key => _ ← Delete key; mret RDone
  | SBatch id ops => _ ← ApplyBatch id ops; mret RDone
  | SGet key => RValue <$> Get key
  | SBegin => RSnapshot <$> BeginSnapshot
  | SGetAt n key => gets (fun s => RValue (seen (GetAt n key s)))
  | SRelease n => _ ← ReleaseSnapshot n; mret RDone
  | SFlush => _ ← Flush; mret RDone
  | SCompact => _ ← Compact; mret RDone
  end.

(** A client goes on after an error. *)
Fixpoint store_run (os : list store_op) (s : Store) : list (outcome store_res) * Store :=
  match os with
  | [] => ([], s)
  | o :: os => let '(r, s) := store_step o s in let '(rs, s) := store_run os s in (r :: rs, s)
  end.

Definition simulates (s : Store) (t : spec_state) : Prop :=
  exists ps segs, session s ps segs (current t) (states t) /\ activeSnapshots s = readers t /\ 0 <= readers t.

Lemma session_last s ps segs m H : session s ps segs m H -> default [] (last H) = m.
Proof. intros Hse. by rewrite (se_last _ _ _ _ _ Hse). Qed.

Lemma state_after_last m H rs : last H = Some m -> default [] (last (H ++ states_of m rs)) = state_after m rs.
Proof.
  revert m H. induction rs as [|r rs IH]; intros m H Hl; cbn [states_of state_after foldl].
  - by rewrite app_nil_r, Hl.
  - change (apply_rec r m :: states_of (apply_rec r m) rs) with ([apply_rec r m] ++ states_of (apply_rec r m) rs).
    rewrite app_assoc. apply IH. by rewrite last_snoc.
Qed.

(** Operations that append records. *)
Lemma written_simulates rs ws s t segs s' ps' segs' :
  last (states t) = Some (current t) -> activeSnapshots s = readers t -> 0 <= readers t ->
  written rs ws s segs (current t) (states t) s' ps' segs' -> simulates s' (push rs t).
Proof.
  intros Hl Ha Hr W. exists ps', segs'. unfold current, push. cbn [states readers].
  rewrite (state_after_last _ _ _ Hl). split_and!; [apply W|by rewrite (wr_active _ _ _ _ _ _ _ _ _ W)|done].
Qed.

Lemma GetAt_clip s H n key m :
  history s H -> last H = Some m -> 0 <= n -> seen (GetAt n key s) = kv_get key (default m (H !! Z.to_nat n)).
Proof.
  intros Hh Hl Hn. destruct (H !! Z.to_nat n) as [mn|] eqn:E.
  - apply (h_at _ _ Hh) with (key := key) in E. by rewrite Z2Nat.id in E.
  - apply lookup_ge_None in E. pose proof (h_len _ _ Hh) as HL. unfold len in HL.
    rewrite last_lookup in Hl. apply (h_at _ _ Hh) with (key := key) in Hl. cbn [default]. change (default m None) with m. rewrite <- Hl.
    f_equal. unfold GetAt.
    assert (forall vs, (forall v, v ∈ vs -> vseq v <= seq s) -> visible n vs = visible (Z.of_nat (pred (length H))) vs) as Hvis.
    { intros [|v vs] Hin; [done|]. cbn. rewrite !decide_True; [done|..]; (etrans; [apply Hin; constructor|lia]). }
    rewrite Hvis; [done|]. intros v Hv. rewrite elem_of_reverse in Hv. by apply (h_range _ _ Hh key).
Qed.

Lemma Store_Flush_spec s ps segs m H :
  session s ps segs m H -> exists s', Flush s = (Ok tt, s') /\ session s' ps segs m H /\
    activeSnapshots s' = activeSnapshots s /\ seq s' = seq s /\ hasPages s' = hasPages s /\
    wal_file (log s') = [] /\ indexFile s' = MkIdx (Some (gob_encode m)) None /\
    (forall i q, ps !! i = Some q -> file_page (file (pager s')) (Z.of_nat i) = Some q).
Proof.
  intros Hse. pose proof (se_ok _ _ _ _ _ Hse) as Hok. destruct (Flush_ok _ _ _ _ Hok) as (p1&E1&R1&H1&F1).
  eexists. split; [exact E1|]. split; [|by split_and!].
  destruct Hse as [_ [h1 h2 h3 h4] hl hf hp hen hr1 hr2 hr3 hr4]. split; [|by split|done..].
  split; cbn; try apply Hok; try done.
Qed.

Lemma store_step_refines o s t :
  simulates s t -> store_op_ok o -> len (states t) + len (op_recs o) < 2 ^ 32 - 1 -> readers t + 1 < 2 ^ 64 ->
  exists s', store_step o s = ((spec_step o t).1, s') /\ simulates s' (spec_step o t).2.
Proof.
  intros (ps&segs&Hse&Ha&Hr) [Hfit Hop] Hb Hrd. pose proof (se_last _ _ _ _ _ Hse) as Hl.
  pose proof (h_len _ _ (se_hist _ _ _ _ _ Hse)) as HL. pose proof (len_nonneg (op_recs o)) as Hrs.
  destruct o as [key value|key|id ops|key| |n key|n| |]; cbn [store_step spec_step fst snd op_recs] in *; cbv [fmap M_fmap].
  - destruct (Store_Put_spec s ps segs _ _ key value Hse) as (s'&ps'&segs'&E&W); [change (len [(flagLive, key, value)]) with 1 in Hb; lia|by inversion Hfit|].
    exists s'. rewrite (bind_ok _ _ _ _ _ E). split; [done|]. by eapply written_simulates.
  - destruct (Store_Delete_spec s ps segs _ _ key Hse) as (s'&ps'&segs'&E&W); [change (len [(flagTombstone, key, [])]) with 1 in Hb; lia|by inversion Hfit|].
    exists s'. rewrite (bind_ok _ _ _ _ _ E). split; [done|]. by eapply written_simulates.
  - destruct (ApplyBatch_spec s ps segs _ _ id ops Hse) as (s'&ps'&segs'&E&W); [unfold len in *; rewrite length_fmap in Hb; lia|done|].
    exists s'. rewrite (bind_ok _ _ _ _ _ E). split; [done|]. by eapply written_simulates.
  - exists s. rewrite (bind_ok _ _ _ _ _ (Store_Get_spec _ _ _ _ _ key Hse)). split; [done|]. by exists ps, segs.
  - eexists. split; [|exists ps, segs; split_and!].
    + unfold BeginSnapshot. cbv [mbind M_bind get_state modify mret M_ret]. do 3 f_equal. lia.
    + cbn [current states]. destruct Hse as [Hok [h1 h2 h3 h4] ? ? ? ? ? ? ? ?]. split; [split; try apply Hok; done|by split|done..].
    + cbn. rewrite Ha. apply Z.mod_small. lia.
    + cbn. lia.
  - exists s. split; [|by exists ps, segs]. unfold gets.
    by rewrite (GetAt_clip _ _ _ _ _ (se_hist _ _ _ _ _ Hse) Hl Hop).
  - unfold ReleaseSnapshot. eexists. split; [reflexivity|]. cbn [snd modify]. exists ps, segs. split_and!.
    + cbn [current states]. destruct (decide (activeSnapshots s > 0)); [|done].
      destruct Hse as [Hok [h1 h2 h3 h4] ? ? ? ? ? ? ? ?]. split; [split; try apply Hok; done|by split|done..].
    + cbn [readers]. rewrite <- Ha. by destruct (decide (activeSnapshots s > 0)).
    + cbn [readers]. case_decide; lia.
  - destruct (Store_Flush_spec s ps segs _ _ Hse) as (s'&E&Hse'&Ha'&_). exists s'. rewrite (bind_ok _ _ _ _ _ E).
    split; [done|]. exists ps, segs. split_and!; [done|congruence|done].
  - case_decide as Hact.
    + exists s. split; [|by exists ps, segs]. unfold Compact. rewrite bind_assoc, bind_get, decide_True by lia. done.
    + destruct (Compact_spec s ps segs _ _ Hse) as (s'&ps'&segs'&E&Hse'&_&_&Ha'&_); [lia|lia|].
      exists s'. rewrite (bind_ok _ _ _ _ _ E). split; [done|]. exists ps', segs'. split_and!; [done|congruence|done].
Qed.

Definition total_recs (os : list store_op) : Z := len (concat (op_recs <$> os)).

Lemma push_length rs t : len (states (push rs t)) = len (states t) + len rs.
Proof. cbn. rewrite len_app. unfold len. by rewrite states_of_length. Qed.

Lemma spec_step_size o t :
  len (states (spec_step o t).2) = len (states t) + len (op_recs o) /\ readers (spec_step o t).2 <= readers t + 1.
Proof.
  destruct o; cbn [spec_step snd op_recs]; rewrite ?push_length; change (len []) with 0; cbn; try case_decide; lia.
Qed.

Lemma store_run_refines os s t :
  simulates s t -> Forall store_op_ok os -> len (states t) + total_recs os < 2 ^ 32 - 1 -> readers t + len os < 2 ^ 64 ->
  exists s', store_run os s = ((spec_run os t).1, s') /\ simulates s' (spec_run os t).2.
Proof.
  intros Hs Hok. revert s t Hs. induction Hok as [|o os Ho _ IH]; intros s t Hs Hb Hr; cbn [store_run spec_run]; [by exists s|].
  unfold total_recs in Hb. cbn [fmap list_fmap concat] in Hb. rewrite len_app in Hb.
  pose proof (len_nonneg (concat (op_recs <$> os))). change (len (o :: os)) with (Z.of_nat (S (length os))) in Hr.
  destruct (store_step_refines o s t Hs Ho) as (s1&E1&Hs1); [lia|lia|]. rewrite E1.
  destruct (spec_step_size o t) as [Hz1 Hz2]. destruct (spec_step o t) as [r t1]. cbn [fst snd] in *.
  destruct (IH s1 t1 Hs1) as (s2&E2&Hs2); [unfold total_recs; lia|unfold len; lia|]. rewrite E2.
  exists s2. by destruct (spec_run os t1).
Qed.

Lemma spec_run_size os t : len (states (spec_run os t).2) = len (states t) + total_recs os /\ readers (spec_run os t).2 <= readers t + len os.
Proof.
  revert t. induction os as [|o os IH]; intros t; cbn [spec_run]; [split; unfold total_recs, len; cbn; lia|].
  destruct (IH (spec_step o t).2) as [H1 H2], (spec_step_size o t) as [Hz1 Hz2]. destruct (spec_step o t) as [r t1]. cbn [snd] in *.
  destruct (spec_run os t1) as [rs t2]. cbn [snd] in *. unfold total_recs in *. cbn [fmap list_fmap concat]. rewrite len_app.
  change (len (o :: os)) with (Z.of_nat (S (length os))). unfold len in *. lia.
Qed.

(** Past states are never rewritten. *)
Lemma spec_run_prefix os t n m : states t !! n = Some m -> states (spec_run os t).2 !! n = Some m.
Proof.
  revert t. induction os as [|o os IH]; intros t Hn; cbn [spec_run]; [done|].
  assert (states (spec_step o t).2 !! n = Some m) as H1.
  { destruct o; cbn [spec_step snd]; unfold push; cbn [states]; first [done|by apply lookup_app_l_Some]. }
  pose proof (IH _ H1) as H2. destruct (spec_step o t) as [r t1]. cbn [snd] in H2. by destruct (spec_run os t1).
Qed.

(** ** A fresh database *)

Definition fresh_files : Files := MkFiles (MkFile [] None false) (MkWal [] None) (MkIdx None None).

Lemma Open_fresh : exists s, Open fresh_files = (Ok s, files_of s) /\ simulates s (MkSpec [[]] 0).
Proof.
  eexists. split; [reflexivity|]. exists [], []. split_and!; [|done|done].
  split; [| |done|intros k v Hin; by apply elem_of_nil in Hin|done|done|done|done|constructor|done].
  - by split; try exact empty_pager_rep.
  - split; try done.
    + intros key v Hv. cbn in Hv. rewrite lookup_empty in Hv. by apply elem_of_nil in Hv.
    + intros [|n] m key Hn; [|done]. injection Hn as <-. unfold GetAt. cbn. by rewrite lookup_empty.
Qed.

(** ** Properties *)


End refinement.

(** Concrete operations satisfy [store_op_ok] by computation. *)
Ltac check_ops :=
  repeat (constructor; [split; [repeat (constructor; [vm_compute; discriminate|]); constructor
                               |first [exact I|vm_compute; discriminate]]|]); constructor.

Definition demo_ops : list store_op :=
  [SPut [Byte.x61] [Byte.x31]; SBegin; SPut [Byte.x61] [Byte.x32]; SDelete [Byte.x62]; SGetAt 1 [Byte.x61];
   SCompact; SRelease 1; SCompact; SBatch 4 [MkOp [Byte.x63] [] false; MkOp [Byte.x61] [] true]; SGet [Byte.x61]].


