(* ===== verification/StoreRecovery.v ===== *)
(** * Closing, reopening and crash recovery

    What [Open] reconstructs from the three files: from the pages when the index
    file is lost, from the index file when it is there, and from the log after a
    crash; and the cases in which it does not reconstruct what was written. *)
From S2P Require Import Prelude OrderedMap Page BufferPool Pager BTree BTreeInv BTreeProofs Wal Record Store StoreInv StoreProofs StoreSpec.

(** ** Validation *)

Lemma forEach_ret rs (s : Store) : forEach (fun _ => mret tt) rs s = (Ok tt, s).
Proof. induction rs as [|r rs IH]; [done|]. cbn [forEach]. by rewrite bind_ret. Qed.

Section recovery.
Context `{Codec : IndexCodec}.

Lemma validatePage_ok s ps (i : nat) q :
  pager_rep (pager s) ps -> healthy (pager s) -> pages_valid ps -> ps !! i = Some q ->
  exists p', validatePage (Z.of_nat i) s = (Ok tt, set_pager p' s) /\ pager_rep p' ps /\ healthy p'.
Proof.
  intros R Hh Hv Hq. unfold validatePage.
  destruct (ReadPage_healthy _ _ (Z.of_nat i) q R Hh) as (p'&E&R'&Hh'); [lia|by rewrite Nat2Z.id|].
  rewrite (bind_ok _ _ _ _ _ (on_pager_ok _ _ _ _ E)), bind_get.
  destruct (Hv i q Hq) as (V1&(rs&V2)&V3). rewrite decide_False by congruence.
  destruct (page_room _ _ V2) as [Hf _]. rewrite decide_False by (unfold HeaderSize; lia).
  rewrite decide_False; [|cbn [pager set_pager]; unfold NumPages; rewrite (rep_num _ _ R'); destruct V3; lia].
  exists p'. split_and!; [|done|done]. unfold catch. by rewrite (scanPage_spec _ _ _ _ V2), forEach_ret.
Qed.

Lemma validateLoop_ok n s ps (i : nat) :
  pager_rep (pager s) ps -> healthy (pager s) -> pages_valid ps -> (i + n = length ps)%nat ->
  exists p', validateLoop n (Z.of_nat i) s = (Ok tt, set_pager p' s) /\ pager_rep p' ps /\ healthy p'.
Proof.
  revert s i. induction n as [|n IH]; intros s i R Hh Hv Hn; cbn [validateLoop].
  { exists (pager s). split_and!; [unfold mret, M_ret; by destruct s|done|done]. }
  destruct (lookup_lt_is_Some_2 ps i) as [q Hq]; [lia|].
  destruct (validatePage_ok s ps i q R Hh Hv Hq) as (p1&E1&R1&H1). rewrite (bind_ok _ _ _ _ _ E1).
  replace (Z.of_nat i + 1) with (Z.of_nat (S i)) by lia.
  destruct (IH (set_pager p1 s) (S i) R1 H1 Hv) as (p2&E2&R2&H2); [lia|]. by exists p2.
Qed.

Lemma validatePages_ok s ps :
  pager_rep (pager s) ps -> healthy (pager s) -> pages_valid ps ->
  exists p', validatePages s = (Ok tt, set_pager p' s) /\ pager_rep p' ps /\ healthy p'.
Proof.
  intros R Hh Hv. unfold validatePages. rewrite bind_get. apply (validateLoop_ok _ s ps 0); try done.
  unfold NumPages. rewrite (rep_num _ _ R). unfold len. lia.
Qed.

(** ** Scanning the chain *)

(** A property of the records visited so far that does not look at the pager. *)
Definition pager_blind (P : list lrec -> Store -> Prop) : Prop := forall rs s p, P rs s -> P rs (set_pager p s).

Definition body_steps (body : record -> M Store unit) (ok : lrec -> Prop) (P : list lrec -> Store -> Prop) : Prop :=
  forall rs r s, P rs s -> ok r -> exists s', body (of_lrec r) s = (Ok tt, s') /\ P (rs ++ [r]) s' /\ pager s' = pager s.

Lemma forEach_steps body ok P rs done s :
  body_steps body ok P -> P done s -> Forall ok rs ->
  exists s', forEach body rs s = (Ok tt, s') /\ P (done ++ rs) s' /\ pager s' = pager s.
Proof.
  intros Hb HP Hok. revert done s HP. induction Hok as [|r rs Hr _ IH]; intros d s HP; cbn [forEach].
  { exists s. by rewrite app_nil_r. }
  destruct (Hb d r s HP Hr) as (s1&E1&P1&G1). rewrite (bind_ok _ _ _ _ _ E1).
  destruct (IH _ _ P1) as (s2&E2&P2&G2). exists s2. rewrite <- app_assoc in P2. split_and!; [done|done|congruence].
Qed.

Lemma rebuild_loop_spec fuel id body ok P segs done s ps :
  pager_blind P -> body_steps body ok P -> P done s -> Forall ok (chain_recs segs) ->
  pager_rep (pager s) ps -> healthy (pager s) -> segs <> [] -> chain_seg ps id segs NoPage -> (length segs <= fuel)%nat ->
  exists s', rebuild_loop fuel id body s = (Ok tt, s') /\ P (done ++ chain_recs segs) s' /\
    pager_rep (pager s') ps /\ healthy (pager s').
Proof.
  intros Hbl Hb. revert fuel id done s. induction segs as [|[i rs] segs IH]; intros fuel id d s HP Hok R Hh Hne Hc Hf; [done|].
  destruct fuel as [|fuel]; [cbn in Hf; lia|]. destruct Hc as (->&Hi&q&Hq&Hrq&Hc). cbn [rebuild_loop].
  change (chain_recs ((id, rs) :: segs)) with (rs ++ chain_recs segs) in *. apply Forall_app in Hok as [Hok1 Hok2].
  destruct (ReadPage_healthy _ _ id q R Hh Hi Hq) as (p1&E1&R1&H1). rewrite (bind_ok _ _ _ _ _ (on_pager_ok _ _ _ _ E1)).
  destruct (forEach_steps body ok P rs d (set_pager p1 s) Hb (Hbl _ _ _ HP) Hok1) as (s2&E2&P2&G2).
  cbn [pager set_pager] in G2. rewrite <- G2 in R1, H1.
  erewrite bind_ok; [|rewrite (scanPage_spec _ _ _ _ Hrq); exact E2]. rewrite app_assoc.
  destruct segs as [|[j rs'] segs].
  - cbn in Hc. rewrite decide_True by done. exists s2. change (chain_recs []) with (@nil lrec). by rewrite app_nil_r.
  - pose proof Hc as (Ej&_&q'&Hq'&_). rewrite decide_False; cycle 1.
    { rewrite <- Ej, NoPage_eq. pose proof (rep_u32 _ _ R). apply lookup_lt_Some in Hq'. unfold len in *. lia. }
    apply (IH fuel _ _ s2); try done. cbn in Hf |- *. lia.
Qed.

(** The states reached by replaying the records from the empty store. *)
Definition replayed (rs : list lrec) : list kvs := [] :: states_of [] rs.

Lemma replayed_last rs : last (replayed rs) = Some (state_after [] rs).
Proof.
  unfold replayed, state_after. rewrite <- (app_nil_l ([] :: _)). generalize (@nil kvs) (@nil (bytes * bytes)). 
  induction rs as [|r rs IH]; intros pre m; cbn [states_of foldl]; [by rewrite last_snoc|].
  change (m :: apply_rec r m :: states_of (apply_rec r m) rs) with ([m] ++ apply_rec r m :: states_of (apply_rec r m) rs).
  rewrite app_assoc. apply IH.
Qed.

Lemma replayed_snoc rs r : replayed (rs ++ [r]) = replayed rs ++ [apply_rec r (state_after [] rs)].
Proof. unfold replayed. by rewrite states_of_app. Qed.

Lemma history_set_pager s H p : history s H -> history (set_pager p s) H.
Proof. intros [h1 h2 h3 h4]. by split. Qed.

(** [rebuildVersions] only touches the version table. *)
Definition versions_rebuilt (s0 : Store) (rs : list lrec) (s : Store) : Prop :=
  (len rs + 1 < 2 ^ 64 -> history s (replayed rs)) /\ index s = index s0 /\ log s = log s0 /\ indexFile s = indexFile s0 /\
  firstPage s = firstPage s0 /\ hasPages s = hasPages s0 /\ activeSnapshots s = activeSnapshots s0.

Lemma replayed_length rs : len (replayed rs) = len rs + 1.
Proof. unfold replayed, len. cbn [length]. rewrite states_of_length. lia. Qed.

Lemma history_room s rs : history s (replayed rs) -> len rs + 1 < 2 ^ 64 -> seq s + 1 < 2 ^ 64.
Proof. intros Hh Hn. pose proof (h_len _ _ Hh) as HL. rewrite replayed_length in HL. lia. Qed.

Lemma history_replayed_step s s' rs r :
  (len rs + 1 < 2 ^ 64 -> history s (replayed rs)) -> version_added r.1.2 r.2 r.1.1 s s' ->
  len (rs ++ [r]) + 1 < 2 ^ 64 -> history s' (replayed (rs ++ [r])).
Proof.
  intros Hh Hv Hn. rewrite len_app in Hn. change (len [r]) with 1 in Hn. rewrite replayed_snoc.
  destruct r as [[f k] v]. eapply history_step; [apply Hh; lia|apply replayed_last|apply state_after_sorted, sorted_keys_nil| |exact Hv].
  eapply history_room; [apply Hh|]; lia.
Qed.

Lemma versions_body s0 : body_steps rebuildVersions_body (fun _ => True) (versions_rebuilt s0).
Proof.
  intros rs [[f k] v] s (Hh&Hrest) _. unfold rebuildVersions_body. cbn [of_lrec rkey rvalue rflag].
  eexists. split; [reflexivity|]. split; [|done]. split; [|done].
  by eapply (history_replayed_step s _ rs (f, k, v)).
Qed.

Lemma versions_blind s0 : pager_blind (versions_rebuilt s0).
Proof. intros rs s p (Hh&?). split; [|done]. intros ?. by apply history_set_pager, Hh. Qed.

(** [rebuildIndex] rebuilds the index and the version table together. *)
Definition index_rebuilt (s0 : Store) (rs : list lrec) (s : Store) : Prop :=
  bt_rep (index s) (state_after [] rs) /\ (len rs + 1 < 2 ^ 64 -> history s (replayed rs)) /\
  log s = log s0 /\ indexFile s = indexFile s0 /\
  firstPage s = firstPage s0 /\ hasPages s = hasPages s0 /\ activeSnapshots s = activeSnapshots s0.

Lemma index_body s0 : body_steps rebuildIndex_body flag_known (index_rebuilt s0).
Proof.
  intros rs [[f k] v] s (Hi&Hh&Hrest) Hf. unfold rebuildIndex_body. cbn [of_lrec rkey rvalue rflag].
  destruct (index_update s _ k v f Hi) as (t&E&Ht).
  assert ((if decide (f = flagTombstone) then _ ← on_index (delete k); mret tt else on_index (put k v)) s = (Ok tt, set_index t s)) as E'.
  { destruct Hf as [Hf|Hf]; cbn in Hf; subst f; exact E. }
  rewrite (bind_ok _ _ _ _ _ E'). eexists. split; [reflexivity|]. split; [|done]. split; [|split; [|done]].
  - rewrite state_after_snoc. exact Ht.
  - apply (history_replayed_step (set_index t s) _ rs (f, k, v)); [|done].
    intros Hn. destruct (Hh Hn) as [h1 h2 h3 h4]. by split.
Qed.

Lemma index_blind s0 : pager_blind (index_rebuilt s0).
Proof. intros rs s p (?&Hh&?). split; [done|split; [|done]]. intros ?. by apply history_set_pager, Hh. Qed.

(** ** What a file holds *)

(** The database file is exactly the pages [ps], all valid. *)
Definition disk_pages (f : File) (ps : list Page) : Prop :=
  (write_fault f = None /\ fclosed f = false) /\ len (Pager.contents f) = len ps * PageSize /\ len ps < 2 ^ 32 - 1 /\ pages_valid ps /\
  forall (i : nat) q, ps !! i = Some q -> file_page f (Z.of_nat i) = Some q.

Lemma disk_open f ps :
  disk_pages f ps -> exists p, Pager.Open f = Ok p /\ pager_rep p ps /\ healthy p /\ file p = f.
Proof.
  intros ([Hw Ho]&Hl&Hn&_&HF). pose proof (len_nonneg ps).
  assert (len (Pager.contents f) / PageSize = len ps) as Hd by (rewrite Hl; by apply Z_div_mult).
  destruct (Open_spec f) as (p&E&Ef&HR); [rewrite Hl; apply Z_mod_mult|lia|]. rewrite at_rest_open in Ef, HR by done.
  exists p. split_and!; [done|apply HR; [by rewrite Hd|done]|unfold healthy; by rewrite Ef|done].
Qed.

Definition opened (p : Pager) (w : wal) (ix : IndexFile) : Store := MkStore p 0 false empty_btree w ix 0 ∅ 0.

Lemma history_empty p w ix t : history (MkStore p 0 false t w ix 0 ∅ 0) (replayed []).
Proof.
  split; try done.
  - intros key v Hv. cbn in Hv. rewrite lookup_empty in Hv. by apply elem_of_nil in Hv.
  - intros [|n] m key Hn; [|done]. injection Hn as <-. unfold GetAt. cbn. by rewrite lookup_empty.
Qed.

Lemma wrap_ok {A} fmt (m : M Store A) s a s' : m s = (Ok a, s') -> wrap fmt m s = (Ok a, s').
Proof. intros E. unfold wrap, catch. by rewrite E. Qed.

Lemma Open_unfold f p :
  Pager.Open (db_file f) = Ok p -> forall s, openSteps (opened p (wal_data f) (idx_file f)) = (Ok tt, s) ->
  Open f = (Ok s, files_of s).
Proof. intros E s Es. unfold Open. rewrite E. fold (opened p (wal_data f) (idx_file f)). by rewrite Es. Qed.

(** With no index file and an empty log, the index is rebuilt from the chain. *)
Lemma Open_pages db ps segs :
  disk_pages db ps -> segs <> [] -> chain_seg ps 0 segs NoPage -> NoDup segs.*1 ->
  Forall flag_known (chain_recs segs) -> len (chain_recs segs) + 1 < 2 ^ 64 ->
  exists s, Open (MkFiles db (MkWal [] None) (MkIdx None None)) = (Ok s, files_of s) /\
    store_ok s ps segs (state_after [] (chain_recs segs)) /\ history s (replayed (chain_recs segs)) /\
    hasPages s = true /\ firstPage s = 0.
Proof.
  intros Hd Hne Hc Hnd Hfl Hlen. destruct (disk_open db ps Hd) as (p&E&R&Hh&_). destruct Hd as (_&_&_&Hv&_).
  set (s0 := opened p (MkWal [] None) (MkIdx None None)).
  destruct (validatePages_ok s0 ps R Hh Hv) as (p1&E1&R1&H1).
  assert (0 < len ps) as Hpos.
  { destruct segs as [|[i rs] segs']; [done|]. assert (0 <= i < len ps) by (eapply chain_seg_ids; [exact Hc|constructor]). lia. }
  set (s1 := set_chain 0 true (set_pager p1 s0)).
  destruct (rebuild_loop_spec (S (Z.to_nat (NumPages p1))) 0 rebuildIndex_body flag_known (index_rebuilt s1) segs [] s1 ps
    (index_blind s1) (index_body s1)) as (s2&E2&(B1&B2&B3&B4&B5&B6&B7)&R2&H2); try done.
  { split_and!; try done. intros _. destruct (history_empty p1 (MkWal [] None) (MkIdx None None) empty_btree) as [h1 h2 h3 h4]. by split. }
  { apply chain_seg_length in Hc; [|done]. unfold NumPages. rewrite (rep_num _ _ R1). unfold len. lia. }
  cbn [app] in B1, B2. specialize (B2 Hlen).
  assert (saveIndex s2 = (Ok tt, set_indexFile (MkIdx (Some (gob_encode (state_after [] (chain_recs segs)))) None) s2)) as E3.
  { apply saveIndex_ok; [done|by rewrite B4]. }
  eexists. split; [|split_and!].
  - eapply Open_unfold; [exact E|]. cbn [wal_data idx_file]. fold s0. unfold openSteps.
    rewrite (bind_ok _ _ _ _ _ (wrap_ok _ _ _ _ _ E1)).
    erewrite bind_ok by (apply wrap_ok; reflexivity). rewrite bind_get.
    erewrite bind_ok by (apply wrap_ok; reflexivity). rewrite bind_get.
    rewrite decide_True by (cbn; unfold NumPages; rewrite (rep_num _ _ R1); split; [lia|done]).
    erewrite bind_ok by (erewrite bind_ok by reflexivity; unfold rebuildIndex; rewrite bind_get; exact E2).
    rewrite bind_get, decide_False by (by intros [_ ?]). rewrite bind_ret. exact E3.
  - apply store_ok_idx. split; try done; [by rewrite B6, B5|by rewrite B4|by rewrite B3].
  - destruct B2 as [h1 h2 h3 h4]. by split.
  - cbn. by rewrite B6.
  - cbn. by rewrite B5.
Qed.

Lemma loadIndex_ok `{!IndexCodecLaws} s m w :
  sorted_keys m -> index s = empty_btree -> indexFile s = MkIdx (Some (gob_encode m)) w ->
  exists t, loadIndex s = (Ok true, set_index t s) /\ bt_rep t m.
Proof.
  intros Hs Hi Hf. unfold loadIndex. rewrite bind_get, Hf. cbn [idx_data].
  erewrite bind_ok by (unfold lift; rewrite gob_roundtrip; reflexivity).
  destruct (putAll_spec empty_btree m [] empty_btree_rep Hs) as (t&E&Ht). rewrite <- Hi in E.
  exists t. split; [|done]. by rewrite (bind_ok _ _ _ _ _ (on_index_ok _ _ _ _ E)).
Qed.

(** With an index file and an empty log, the index is loaded and the versions
    are read off the chain at page 0; the store keeps no chain to append to. *)
Lemma Open_index `{!IndexCodecLaws} db ps segs m :
  disk_pages db ps -> segs <> [] -> chain_seg ps 0 segs NoPage -> NoDup segs.*1 ->
  len (chain_recs segs) + 1 < 2 ^ 64 -> sorted_keys m ->
  exists s, Open (MkFiles db (MkWal [] None) (MkIdx (Some (gob_encode m)) None)) = (Ok s, files_of s) /\
    store_ok s ps [] m /\ history s (replayed (chain_recs segs)) /\ hasPages s = false.
Proof.
  intros Hd Hne Hc Hnd Hlen Hsm. destruct (disk_open db ps Hd) as (p&E&R&Hh&_). destruct Hd as (_&_&_&Hv&_).
  set (s0 := opened p (MkWal [] None) (MkIdx (Some (gob_encode m)) None)).
  destruct (validatePages_ok s0 ps R Hh Hv) as (p1&E1&R1&H1).
  destruct (loadIndex_ok (set_pager p1 s0) m None Hsm eq_refl eq_refl) as (t&E2&Ht). set (s1 := set_index t (set_pager p1 s0)) in *.
  assert (0 < len ps) as Hpos.
  { destruct segs as [|[i rs] segs']; [done|]. assert (0 <= i < len ps) by (eapply chain_seg_ids; [exact Hc|constructor]). lia. }
  destruct (rebuild_loop_spec (S (Z.to_nat (NumPages p1))) 0 rebuildVersions_body (fun _ => True) (versions_rebuilt s1) segs [] s1 ps
    (versions_blind s1) (versions_body s1)) as (s2&E3&(B1&B2&B3&B4&B5&B6&B7)&R2&H2); try done.
  { split_and!; try done. intros _. apply history_empty. }
  { by apply Forall_forall. }
  { apply chain_seg_length in Hc; [|done]. unfold NumPages. rewrite (rep_num _ _ R1). unfold len. lia. }
  exists s2. split; [|split_and!].
  - eapply Open_unfold; [exact E|]. cbn [wal_data idx_file]. fold s0. unfold openSteps.
    rewrite (bind_ok _ _ _ _ _ (wrap_ok _ _ _ _ _ E1)), (bind_ok _ _ _ _ _ (wrap_ok _ _ _ _ _ E2)), bind_get. fold s1.
    erewrite bind_ok by (apply wrap_ok; reflexivity). rewrite bind_get.
    rewrite decide_False by (by intros [_ ?]). rewrite bind_ret, bind_get.
    rewrite decide_True by (cbn; unfold NumPages; rewrite (rep_num _ _ R1); split; [lia|done]).
    erewrite bind_ok by (unfold rebuildVersions; rewrite bind_get; exact E3). done.
  - split; try done; [by rewrite B6|by rewrite B2|by rewrite B4|by rewrite B3].
  - by apply B1.
  - by rewrite B6.
Qed.

(** ** Replaying a log of puts *)

Definition put_recs (L : kvs) : list wrec := (fun kv => (walPut, kv.1, kv.2)) <$> L.
Definition puts (L m : kvs) : kvs := foldl (fun m kv => kv_put kv.1 kv.2 m) m L.

Definition replay_apply (op : byte) (key value : bytes) : M Store unit := append key value (replayFlag op).

Lemma replay_puts L s ps segs m :
  store_ok s ps segs m -> len ps + len L < 2 ^ 32 - 1 -> Forall (fun kv => fits (flagLive, kv.1, kv.2)) L ->
  exists s' ps' segs', apply_all replay_apply (put_recs L) s = (Ok tt, s') /\ store_ok s' ps' segs' (puts L m) /\
    log s' = log s /\ (L <> [] -> hasPages s' = true) /\ idx_data (indexFile s') = (match L with [] => idx_data (indexFile s) | _ => Some (gob_encode (puts L m)) end).
Proof.
  intros Hok Hn Hfit. revert s ps segs m Hok Hn. induction Hfit as [|[k v] L Hf Hfit IH]; intros s ps segs m Hok Hn.
  { exists s, ps, segs. done. }
  change (len ((k, v) :: L)) with (Z.of_nat (S (length L))) in Hn. cbn [put_recs fmap list_fmap apply_all fst snd].
  destruct (append_spec s ps segs m k v flagLive Hok) as (s1&ps1&segs1&m1&E1&A); [lia|done|].
  pose proof (index_after_live _ _ _ _ (ap_index _ _ _ _ _ _ _ _ _ A)) as ->. cbn [apply_rec] in A. rewrite decide_True in A by done.
  assert (replay_apply walPut k v s = (Ok tt, s1)) as E1' by exact E1. rewrite (bind_ok _ _ _ _ _ E1').
  destruct (IH s1 ps1 segs1 (kv_put k v m) (ap_ok _ _ _ _ _ _ _ _ _ A)) as (s2&ps2&segs2&E2&Hok2&L2&P2&I2).
  { pose proof (ap_pages _ _ _ _ _ _ _ _ _ A). unfold len in *. lia. }
  exists s2, ps2, segs2. split_and!; [exact E2|exact Hok2| | |].
  - rewrite L2. apply A.
  - intros _. destruct L as [|kv L]; [|by apply P2]. injection E2 as <-. apply A.
  - rewrite I2. destruct L; [|done]. by rewrite (ap_idx _ _ _ _ _ _ _ _ _ A).
Qed.

(** [rebuildVersions] always leaves the rest of the store alone. *)
Definition core_kept (s0 : Store) (rs : list lrec) (s : Store) : Prop :=
  index s = index s0 /\ log s = log s0 /\ indexFile s = indexFile s0 /\
  firstPage s = firstPage s0 /\ hasPages s = hasPages s0.

Lemma core_body s0 : body_steps rebuildVersions_body (fun _ => True) (core_kept s0).
Proof. intros rs r s Hc _. eexists. split; [reflexivity|]. done. Qed.

(** What the log replays to does not depend on how far the index file had
    already followed it. *)
Lemma puts_get L m k : sorted_keys m ->
  kv_get k (puts L m) = match kv_get k (puts L []) with Some v => Some v | None => kv_get k m end.
Proof.
  intros Hm. induction L as [|[k' v'] L IH] using rev_ind; [done|]. unfold puts in *. rewrite !foldl_app. cbn [foldl fst snd].
  assert (forall m0, sorted_keys m0 -> sorted_keys (foldl (fun m kv => kv_put kv.1 kv.2 m) m0 L)) as Hs.
  { clear. induction L as [|kv L IH] using rev_ind; intros m0 Hm0; [done|]. rewrite foldl_app. cbn. auto with godb. }
  rewrite !kv_get_put by auto with godb. case_decide; [done|]. apply IH.
Qed.

Lemma puts_sorted L m : sorted_keys m -> sorted_keys (puts L m).
Proof. revert m. induction L as [|kv L IH]; intros m Hm; [done|]. cbn. apply IH. auto with godb. Qed.

Lemma puts_prefix L1 L2 m : sorted_keys m -> puts (L1 ++ L2) (puts L1 m) = puts (L1 ++ L2) m.
Proof.
  intros Hm. apply sorted_kv_map_inj; [by apply puts_sorted, puts_sorted|by apply puts_sorted|].
  apply map_eq. intros k. rewrite <- !kv_get_map. rewrite (puts_get (L1 ++ L2) (puts L1 m)), (puts_get (L1 ++ L2) m) by auto using puts_sorted.
  destruct (kv_get k (puts (L1 ++ L2) [])) as [v|] eqn:E; [done|]. rewrite (puts_get L1 m) by done.
  unfold puts in E. rewrite foldl_app in E. fold (puts L1 []) in E. fold (puts L2 (puts L1 [])) in E.
  rewrite puts_get in E by auto using puts_sorted, sorted_keys_nil.
  destruct (kv_get k (puts L2 [])); [done|]. by rewrite E.
Qed.

Lemma put_recs_ok L : Forall (fun kv => fits (flagLive, kv.1, kv.2)) L -> Forall rec_ok (put_recs L).
Proof.
  intros Hf. apply Forall_fmap. eapply Forall_impl; [exact Hf|]. intros [k v] Hkv.
  unfold fits, PageSize, HeaderSize in Hkv. cbn in Hkv |- *. unfold recordHeaderSize in Hkv. split; [lia|by left].
Qed.

Lemma calls_puts L p : (calls p (put_recs L)).1 = put_recs L.
Proof.
  induction L as [|[k v] L IH]; [done|]. cbn [put_recs fmap list_fmap calls fst snd].
  rewrite decide_False by (intros [?|?]; done). rewrite decide_False by done.
  change ((fun kv : bytes * bytes => (walPut, kv.1, kv.2)) <$> L) with (put_recs L). destruct (calls p (put_recs L)). cbn in *. by rewrite IH.
Qed.

Lemma Open_crash `{!IndexCodecLaws} db ps m L torn :
  disk_pages db ps -> sorted_keys m -> L <> [] -> Forall (fun kv => fits (flagLive, kv.1, kv.2)) L ->
  len ps + len L < 2 ^ 32 - 1 -> len torn < walHeader -> len (log_bytes (put_recs L) ++ torn) < 2 ^ 63 ->
  exists s ps' segs', Open (MkFiles db (MkWal (log_bytes (put_recs L) ++ torn) None) (MkIdx (Some (gob_encode m)) None)) =
    (Ok s, files_of s) /\ store_ok s ps' segs' (puts L m).
Proof.
  intros Hd Hsm HL Hfit Hn Ht Hlen. destruct (disk_open db ps Hd) as (p&E&R&Hh&_). destruct Hd as (_&_&_&Hv&_).
  set (s0 := opened p (MkWal (log_bytes (put_recs L) ++ torn) None) (MkIdx (Some (gob_encode m)) None)). destruct (validatePages_ok s0 ps R Hh Hv) as (p1&E1&R1&H1).
  destruct (loadIndex_ok (set_pager p1 s0) m None Hsm eq_refl eq_refl) as (t&E2&Ht2). set (s1 := set_index t (set_pager p1 s0)) in *.
  assert (store_ok s1 ps [] m) as Hok1 by (by split).
  destruct (replay_puts L s1 ps [] m Hok1 Hn Hfit) as (s2&ps2&segs2&E3&Hok2&L2&P2&_). specialize (P2 HL).
  pose proof (so_chain _ _ _ _ Hok2) as Hc. rewrite P2 in Hc. destruct Hc as (Hne&Hc&Hnd).
  destruct (rebuild_loop_spec (S (Z.to_nat (NumPages (pager s2)))) (firstPage s2) rebuildVersions_body (fun _ => True) (core_kept s2)
    segs2 [] s2 ps2) as (s3&E4&(B1&B2&B3&B4&B5)&R3&H3); try done; try apply Hok2.
  { intros rs s' p' Hp'. exact Hp'. } { apply core_body. } { by apply Forall_forall. }
  { apply chain_seg_length in Hc; [|done]. unfold NumPages. rewrite (rep_num _ _ (so_pager _ _ _ _ Hok2)). unfold len. lia. }
  exists s3, ps2, segs2. split.
  - eapply Open_unfold; [exact E|]. cbn [wal_data idx_file]. fold s0. unfold openSteps.
    rewrite (bind_ok _ _ _ _ _ (wrap_ok _ _ _ _ _ E1)), (bind_ok _ _ _ _ _ (wrap_ok _ _ _ _ _ E2)), bind_get. fold s1.
    erewrite bind_ok; [|apply wrap_ok; cbn [log wal_file s1 set_index set_pager s0 opened];
      rewrite (replay_complete replay_apply), calls_puts by auto using put_recs_ok; exact E3].
    rewrite bind_get, decide_False by (by intros [_ ?]). rewrite bind_ret, bind_get.
    rewrite decide_True; cycle 1.
    { split; [|done]. unfold NumPages. rewrite (rep_num _ _ (so_pager _ _ _ _ Hok2)).
      destruct segs2 as [|[i rs] segs']; [done|]. assert (0 <= i < len ps2) by (eapply chain_seg_ids; [exact Hc|constructor]). lia. }
    erewrite bind_ok by (unfold rebuildVersions; rewrite bind_get; exact E4). done.
  - split; try done; [apply Hok2|by rewrite B5, P2, B4|rewrite B1; apply Hok2|rewrite B3; apply Hok2|rewrite B2; apply Hok2].
Qed.

(** ** Closing *)

Lemma Store_Close_ok s ps segs m :
  store_ok s ps segs m -> len ps < 2 ^ 32 - 1 ->
  exists s' db, Close s = (Ok tt, s') /\ disk_pages db ps /\
    files_of s' = MkFiles db (MkWal [] None) (MkIdx (Some (gob_encode m)) None).
Proof.
  intros Hok Hn. destruct (Flush_ok _ _ _ _ Hok) as (p1&E1&R1&H1&_).
  assert (store_ok (set_log (MkWal [] None) (set_indexFile (MkIdx (Some (gob_encode m)) None) (set_pager p1 s))) ps segs m) as Hok1
    by (split; cbn; try apply Hok; done).
  destruct (Close_after_Flush _ _ _ _ _ E1 Hok1) as (p2&E2&R2&H2&F2). eexists _, (file p2). split_and!; [exact E2|..].
  - split_and!; [done|apply R2|by eapply rep_flushed_size|done|apply Hok|done].
  - by rewrite (files_of_shut _ _ ps R2).
Qed.

Lemma Store_Close_spec s ps segs m H :
  session s ps segs m H -> seq s < 2 ^ 32 - 1 ->
  exists s' db, Close s = (Ok tt, s') /\ disk_pages db ps /\
    files_of s' = MkFiles db (MkWal [] None) (MkIdx (Some (gob_encode m)) None).
Proof.
  intros Hse Hb. pose proof (se_pages _ _ _ _ _ Hse). apply (Store_Close_ok s ps segs m); [apply Hse|lia].
Qed.

Definition drop_index (f : Files) : Files := MkFiles (db_file f) (wal_data f) (MkIdx None None).

Lemma store_ok_Get s ps segs m k : store_ok s ps segs m -> Get k s = (Ok (kv_get k m), s).
Proof.
  intros Hok. unfold Get. rewrite (on_index_ok _ _ _ _ (get_spec _ _ k (so_index _ _ _ _ Hok))). by rewrite set_index_same.
Qed.
End recovery.

(** ** Properties *)

(** C13: crash recovery of a log of puts. The log holds the puts since the last
    checkpoint, at least one and each of a record that fits a page, and after them
    possibly the beginning of a header (fewer than 21 bytes); the index file had
    followed the log for any number of them; the pages are those of the checkpoint or
    later. Then opening succeeds and every logged put is there, on top of the
    checkpoint. It does not hold of other logs: a logged delete is not recovered
    ([crash_resurrects_deleted]), and after a put that does not fit, or with a record
    cut inside its body, opening fails ([oversized_put_blocks_open],
    [Wal.wal_torn_body]). *)
Theorem crash_recovers_puts `{Codec : IndexCodec} `{!IndexCodecLaws} (db : File) (ps : list Page) (m0 L1 L2 : kvs) (torn : bytes)
    (Hdb : disk_pages db ps) (Hm0 : sorted_keys m0) (HL : L1 ++ L2 <> [])
    (Hfit : Forall (fun kv => fits (flagLive, kv.1, kv.2)) (L1 ++ L2)) (Hn : len ps + len (L1 ++ L2) < 2 ^ 32 - 1)
    (Ht : len torn < walHeader) (Hlen : len (log_bytes (put_recs (L1 ++ L2)) ++ torn) < 2 ^ 63) :
  exists s, Open (MkFiles db (MkWal (log_bytes (put_recs (L1 ++ L2)) ++ torn) None)
      (MkIdx (Some (gob_encode (puts L1 m0))) None)) = (Ok s, files_of s) /\
    forall k, Get k s = (Ok (kv_get k (puts (L1 ++ L2) m0)), s).
Proof.
  destruct (Open_crash db ps (puts L1 m0) (L1 ++ L2) torn Hdb (puts_sorted _ _ Hm0) HL Hfit Hn Ht Hlen) as (s&ps'&segs'&E&Hok).
  exists s. split; [done|]. rewrite puts_prefix in Hok by done. intros k. by eapply store_ok_Get.
Qed.

Lemma disk_pages_empty : disk_pages (MkFile [] None false) [].
Proof. split_and!; done. Qed.

Lemma crash_recovers_puts_witness :
  exists s, Open (MkFiles (MkFile [] None false)
      (MkWal (log_bytes (put_recs ([([Byte.x61], [Byte.x31])] ++ [([Byte.x61], [Byte.x32]); ([Byte.x62], [])])) ++ [Byte.x4d]) None)
      (MkIdx (Some (gob_encode (puts [([Byte.x61], [Byte.x31])] []))) None)) = (Ok s, files_of s) /\
    forall k, Get k s = (Ok (kv_get k (puts ([([Byte.x61], [Byte.x31])] ++ [([Byte.x61], [Byte.x32]); ([Byte.x62], [])]) [])), s).
Proof.
  apply (crash_recovers_puts (MkFile [] None false) [] [] [([Byte.x61], [Byte.x31])] [([Byte.x61], [Byte.x32]); ([Byte.x62], [])] [Byte.x4d]).
  - exact disk_pages_empty.
  - exact sorted_keys_nil.
  - discriminate.
  - repeat (constructor; [vm_compute; discriminate|]). constructor.
  - vm_compute. reflexivity.
  - vm_compute. reflexivity.
  - vm_compute. reflexivity.
Defined.

(** ** Where recovery falls short *)

(** Open the files, run [m], and keep what is on disk afterwards. *)
Definition session_on {A} (f : Files) (m : M Store A) : outcome A * Files :=
  match Open f with
  | (Ok s, _) => let '(o, s) := m s in (o, files_of s)
  | (Err e, f) => (Err e, f)
  | (Panic, f) => (Panic, f)
  | (NoFuel, f) => (NoFuel, f)
  end.

Definition crash_after {A} (m : M Store A) : Files := (session_on fresh_files m).2.

(** a logged delete is not recovered. After a put, a delete of the same key
    and a crash, the key is back: replay appends the tombstone through [append],
    which leaves the index entry in place. *)
Theorem crash_resurrects_deleted :
  (session_on (crash_after (_ ← Put [Byte.x61] [Byte.x31]; Delete [Byte.x61])) (Get [Byte.x61])).1 = Ok (Some [Byte.x31]).
Proof. vm_compute. reflexivity. Qed.

Definition first_run : Files := crash_after (_ ← Put [Byte.x61] [Byte.x31]; Close).
Definition second_run : Files := (session_on first_run (_ ← Put [Byte.x62] [Byte.x32]; Close)).2.

(** what is written after reopening with an index file is not linked to the
    page chain: once closed and opened again, reads find the key but snapshot
    reads do not, and without the index file the key is lost. *)
Theorem reopened_writes_unlinked :
  (session_on second_run (v ← Get [Byte.x62]; n ← BeginSnapshot; r ← gets (GetAt n [Byte.x62]); mret (v, seen r))).1
    = Ok (Some [Byte.x32], None) /\
  (session_on (drop_index second_run) (v ← Get [Byte.x61]; w ← Get [Byte.x62]; mret (v, w))).1 = Ok (Some [Byte.x31], None).
Proof. vm_compute. split; reflexivity. Qed.

(** a put that is refused because its record is too large for a page has
    already been logged, so after a crash the database does not open. *)
Theorem oversized_put_blocks_open :
  let f := session_on fresh_files (_ ← Put [Byte.x61] [Byte.x31]; Put [Byte.x62] (replicate 4080 Byte.x00)) in
  let too_large := Errorf "record too large for an empty page: %w" [AErr (Errorf "page full" [])] in
  f.1 = Err too_large /\ (session_on f.2 (Get [Byte.x61])).1 = Err (Errorf "WAL recovery: %w" [AErr too_large]).
Proof. vm_compute. split; reflexivity. Qed.
