(* ===== verification/Value.v ===== *)
(** * Dynamic values of rows

    The Go values a [kv.Row] holds ([any] in the source): nil, [int], [string],
    [bool], [float64], [[]byte] and [time.Time], and the SQL layer's
    [parameterValue], a placeholder that has not been bound yet. A float is its 64-bit IEEE
    pattern; a byte slice is [None] when it is nil; a time is the instant in
    nanoseconds since the Unix epoch with the name of its location, whose offset is
    fixed (the sources only build times in UTC). [fmt.Sprint] of floats and times
    is a parameter. *)
From Stdlib Require Import SpecFloat.
From S2P Require Import Prelude.

Inductive value : Type :=
| VNil
| VInt (z : Z)
| VString (s : bytes)
| VBool (b : bool)
| VFloat (bits : Z)
| VBytes (b : option bytes)
| VTime (ns : Z) (loc : bytes)
| VParam (index : Z).

#[global] Instance value_eq_dec : EqDecision value.
Proof. solve_decision. Defined.

Definition value_code (v : value) : nat * Z * bytes :=
  match v with
  | VNil => (0%nat, 0, [])
  | VInt z => (1%nat, z, [])
  | VString s => (2%nat, 0, s)
  | VBool b => (3%nat, if b then 1 else 0, [])
  | VFloat f => (4%nat, f, [])
  | VBytes None => (5%nat, 0, [])
  | VBytes (Some b) => (6%nat, 0, b)
  | VTime t loc => (7%nat, t, loc)
  | VParam i => (8%nat, i, [])
  end.

Definition value_uncode (c : nat * Z * bytes) : value :=
  match c with
  | (1%nat, z, _) => VInt z
  | (2%nat, _, s) => VString s
  | (3%nat, z, _) => VBool (bool_decide (z = 1))
  | (4%nat, f, _) => VFloat f
  | (5%nat, _, _) => VBytes None
  | (6%nat, _, b) => VBytes (Some b)
  | (7%nat, t, loc) => VTime t loc
  | (8%nat, i, _) => VParam i
  | _ => VNil
  end.

#[global] Program Instance value_countable : Countable value :=
  inj_countable' value_code value_uncode _.
Next Obligation. intros [| | |[]| |[]| |]; done. Qed.

(** ** [float64(i)]: round to nearest, ties to even *)

(** The 64-bit pattern of a canonical double. *)
Definition bits_of_spec (f : spec_float) : Z :=
  match f with
  | S754_zero s => if s then 2 ^ 63 else 0
  | S754_infinity s => (if s then 2 ^ 63 else 0) + 0x7FF * 2 ^ 52
  | S754_nan => 0x7FF * 2 ^ 52 + 2 ^ 51
  | S754_finite s m e =>
      (if s then 2 ^ 63 else 0) +
      (if decide (Zpos m < 2 ^ 52) then Zpos m else (e + 1075) * 2 ^ 52 + (Zpos m - 2 ^ 52))
  end.

Definition float64_of_int (i : Z) : Z := bits_of_spec (binary_normalize 53 1024 i 0 false).

(** ** [fmt.Sprint] *)

Definition digit (n : Z) : byte := byte_of_Z (48 + n).

(** Decimal digits, most significant first; a [w]-bit number has at most [w]. *)
Fixpoint decimal_loop (fuel : nat) (n : Z) (acc : bytes) : bytes :=
  match fuel with
  | O => acc
  | S fuel =>
      let acc := digit (n mod 10) :: acc in
      if decide (n < 10) then acc else decimal_loop fuel (n / 10) acc
  end.

Definition decimal (n : Z) : bytes := decimal_loop (S (Z.to_nat (Z.log2 n))) n [].

Definition of_string (s : string) : bytes := String.list_byte_of_string s.

Definition sprint_int (z : Z) : bytes :=
  if decide (z < 0) then of_string "-" ++ decimal (- z) else decimal z.

(** The formatting of floats and times ([%v]). *)
Class Formats := { fmt_float : Z -> bytes; fmt_time : Z -> bytes -> bytes }.

Fixpoint sprint_bytes (b : bytes) : bytes :=
  match b with
  | [] => []
  | [x] => decimal (Z_of_byte x)
  | x :: b => decimal (Z_of_byte x) ++ of_string " " ++ sprint_bytes b
  end.

Definition Sprint `{Formats} (v : value) : bytes :=
  match v with
  | VNil => of_string "<nil>"
  | VInt z => sprint_int z
  | VString s => s
  | VBool b => if b then of_string "true" else of_string "false"
  | VFloat f => fmt_float f
  | VBytes b => of_string "[" ++ sprint_bytes (default [] b) ++ of_string "]"
  | VTime t loc => fmt_time t loc
  | VParam i => of_string "{" ++ sprint_int i ++ of_string "}"
  end.

(** ** The key of a value in a secondary index *)

(** [fmt.Sprintf("%T:%#v", v, v)] separates any two values of the same or of
    different types (the nil slice from the empty one, -0 from 0, an instant in
    one location from the same instant in another), except that every NaN prints
    alike; the string is therefore represented by the value with one chosen NaN. *)
Definition is_nan (f : Z) : bool :=
  bool_decide (f / 2 ^ 52 mod 2 ^ 11 = 0x7FF /\ f mod 2 ^ 52 <> 0).

Definition indexValue (v : value) : value :=
  match v with
  | VFloat f => VFloat (if is_nan f then 0x7FF8000000000001 else f)
  | _ => v
  end.

(** ** Decimal numbers are read back *)

Definition digit_value (b : byte) : Z := Z_of_byte b - 48.
Definition read_decimal (b : bytes) : Z := foldl (fun n d => n * 10 + digit_value d) 0 b.

Lemma digit_value_digit n : 0 <= n < 10 -> digit_value (digit n) = n.
Proof. intros Hn. unfold digit_value, digit. rewrite Z_of_byte_of_Z, Z.mod_small; lia. Qed.

Lemma foldl_digits acc n :
  foldl (fun n d => n * 10 + digit_value d) n acc = n * 10 ^ len acc + read_decimal acc.
Proof.
  unfold read_decimal. revert n. induction acc as [|d acc IH]; intros n; cbn [foldl]; [change (len []) with 0; lia|].
  rewrite IH, (IH (0 * 10 + digit_value d)). change (len (d :: acc)) with (Z.of_nat (S (length acc))).
  rewrite Nat2Z.inj_succ, Z.pow_succ_r by lia. unfold len. lia.
Qed.

Lemma decimal_loop_read fuel n acc :
  0 <= n < 2 ^ Z.of_nat fuel -> (0 < fuel)%nat ->
  read_decimal (decimal_loop fuel n acc) = n * 10 ^ len acc + read_decimal acc.
Proof.
  revert n acc. induction fuel as [|fuel IH]; intros n acc Hn Hf; [lia|]. cbn [decimal_loop].
  assert (read_decimal (digit (n mod 10) :: acc) = (n mod 10) * 10 ^ len acc + read_decimal acc) as Hd.
  { unfold read_decimal at 1. cbn [foldl]. rewrite foldl_digits, digit_value_digit by (apply Z.mod_pos_bound; lia). lia. }
  case_decide as Hlt; [rewrite Hd, Z.mod_small by lia; done|].
  rewrite Nat2Z.inj_succ, Z.pow_succ_r in Hn by lia.
  rewrite IH; [|split; [apply Z.div_pos; lia|apply Z.div_lt_upper_bound; lia]|].
  - rewrite Hd. change (len (digit (n mod 10) :: acc)) with (Z.of_nat (S (length acc))).
    rewrite Nat2Z.inj_succ, Z.pow_succ_r by lia. unfold len. rewrite (Z.div_mod n 10) at 3 by lia. lia.
  - destruct fuel; [cbn in Hn; lia|lia].
Qed.

Lemma decimal_read n : 0 <= n -> read_decimal (decimal n) = n.
Proof.
  intros Hn. unfold decimal. rewrite decimal_loop_read; [change (len []) with 0; unfold read_decimal; cbn; lia| |lia].
  split; [done|]. destruct (decide (n = 0)) as [->|]; [done|].
  rewrite Nat2Z.inj_succ, Z2Nat.id by apply Z.log2_nonneg. apply Z.log2_spec. lia.
Qed.

Lemma decimal_inj n m : 0 <= n -> 0 <= m -> decimal n = decimal m -> n = m.
Proof. intros Hn Hm E. rewrite <- (decimal_read n), <- (decimal_read m) by done. by rewrite E. Qed.

Lemma digits_head fuel n acc : (0 < fuel)%nat -> exists d rest, 0 <= d < 10 /\ decimal_loop fuel n acc = digit d :: rest.
Proof.
  revert n acc. induction fuel as [|fuel IH]; intros n acc Hf; [lia|]. cbn [decimal_loop].
  case_decide; [exists (n mod 10), acc; split; [apply Z.mod_pos_bound; lia|done]|].
  destruct fuel as [|fuel]; [exists (n mod 10), acc; split; [apply Z.mod_pos_bound; lia|done]|].
  apply IH. lia.
Qed.

(** Different integers have different keys. *)
Lemma sprint_int_inj z w : sprint_int z = sprint_int w -> z = w.
Proof.
  unfold sprint_int.
  assert (forall n r, decimal n <> of_string "-" ++ r) as Hne.
  { intros n r E. destruct (digits_head (S (Z.to_nat (Z.log2 n))) n []) as (d&rest&Hd&E'); [lia|].
    unfold decimal in E. rewrite E' in E. injection E as E _. apply (f_equal Z_of_byte) in E.
    unfold digit in E. rewrite Z_of_byte_of_Z, Z.mod_small in E by lia. change (Z_of_byte Byte.x2d) with 45 in E. lia. }
  repeat case_decide; intros E.
  - apply app_inv_head in E. apply decimal_inj in E; lia.
  - symmetry in E. by apply Hne in E.
  - by apply Hne in E.
  - apply decimal_inj in E; lia.
Qed.
