(* ===== verification/Text.v ===== *)
(** * Text: what the SQL layer uses of [strings], [unicode] and [strconv]

    Bytes are classified the way [unicode] classifies the runes 0 to 255, which is
    what the source does when it converts single bytes to runes. Case folding and
    trimming of whole strings follow Unicode outside ASCII: they are the parameter
    [GoText], and [GoTextLaws] is what they do on ASCII text. The same holds of
    [strconv.ParseFloat] and [time.Parse], whose results are taken as they are. *)
From S2P Require Import Prelude Value.

(** ** Bytes as runes *)

Definition is_ascii (b : byte) : bool := bool_decide (Z_of_byte b < 128).
Definition ascii (s : bytes) : Prop := Forall (fun b => Z_of_byte b < 128) s.

Definition between (lo hi : Z) (b : byte) : bool := bool_decide (lo <= Z_of_byte b <= hi).

(** [unicode.IsSpace], [unicode.IsDigit] and [unicode.IsLetter] of [rune(b)]. *)
Definition IsSpace (b : byte) : bool :=
  between 9 13 b || bool_decide (Z_of_byte b = 32 \/ Z_of_byte b = 0x85 \/ Z_of_byte b = 0xA0).
Definition IsDigit (b : byte) : bool := between 48 57 b.
Definition IsLetter (b : byte) : bool :=
  between 65 90 b || between 97 122 b || bool_decide (Z_of_byte b = 0xAA \/ Z_of_byte b = 0xB5 \/ Z_of_byte b = 0xBA) ||
  between 0xC0 0xD6 b || between 0xD8 0xF6 b || between 0xF8 0xFF b.

(** ** ASCII case *)

Definition upper_byte (b : byte) : byte := if between 97 122 b then byte_of_Z (Z_of_byte b - 32) else b.
Definition lower_byte (b : byte) : byte := if between 65 90 b then byte_of_Z (Z_of_byte b + 32) else b.
Definition upper (s : bytes) : bytes := upper_byte <$> s.
Definition lower (s : bytes) : bytes := lower_byte <$> s.

Fixpoint trim_left (s : bytes) : bytes :=
  match s with b :: s' => if IsSpace b then trim_left s' else s | [] => [] end.
Definition trim (s : bytes) : bytes := reverse (trim_left (reverse (trim_left s))).

(** ** The parameter *)

Class GoText := {
  EqualFold : bytes -> bytes -> bool;
  ToUpper : bytes -> bytes;
  ToLower : bytes -> bytes;
  TrimSpace : bytes -> bytes;
  ParseFloat : bytes -> outcome Z;
  ParseTime : bytes -> outcome Z
}.

Class GoTextLaws `{GoText} := {
  EqualFold_ascii s t : ascii s -> ascii t -> EqualFold s t = bool_decide (lower s = lower t);
  ToUpper_ascii s : ascii s -> ToUpper s = upper s;
  ToLower_ascii s : ascii s -> ToLower s = lower s;
  TrimSpace_ascii s : ascii s -> TrimSpace s = trim s;
  ParseFloat_answers s : (exists f, ParseFloat s = Ok f) \/ exists e, ParseFloat s = Err e;
  ParseTime_answers s : (exists t, ParseTime s = Ok t) \/ exists e, ParseTime s = Err e;
  ParseFloat_words w : w ∈ [of_string "TRUE"; of_string "FALSE"; of_string "NULL"] -> is_ok (ParseFloat w) = false
}.

(** ** [strconv.Atoi] *)

Definition all_digits (s : bytes) : bool := bool_decide (s <> []) && forallb IsDigit s.

(** Syntax errors and values outside [int] are both errors. *)
Definition Atoi (s : bytes) : outcome Z :=
  let '(neg, ds) := match s with
                    | Byte.x2d :: ds => (true, ds)
                    | Byte.x2b :: ds => (false, ds)
                    | _ => (false, s)
                    end in
  if all_digits ds then
    let n := if (neg : bool) then - read_decimal ds else read_decimal ds in
    if decide (- 2 ^ 63 <= n < 2 ^ 63) then Ok n
    else Err (Errorf "strconv.Atoi: parsing %q: value out of range" [AStr s])
  else Err (Errorf "strconv.Atoi: parsing %q: invalid syntax" [AStr s]).

(** ** Substrings *)

Fixpoint HasPrefix (s prefix : bytes) : bool :=
  match prefix, s with
  | [], _ => true
  | p :: prefix, b :: s => bool_decide (b = p) && HasPrefix s prefix
  | _, _ => false
  end.

(** [strings.Index(s, sep)] for a one-byte separator. *)
Fixpoint IndexByte (s : bytes) (b : byte) : option nat :=
  match s with
  | [] => None
  | x :: s => if decide (x = b) then Some O else S <$> IndexByte s b
  end.

Definition TrimPrefix (s prefix : bytes) : bytes := if HasPrefix s prefix then drop (length prefix) s else s.

Lemma TrimPrefix_app p s : TrimPrefix (p ++ s) p = s.
Proof.
  unfold TrimPrefix. assert (HasPrefix (p ++ s) p = true) as ->; [|apply drop_app_length].
  induction p as [|b p IH]; [by destruct s|]. cbn. by rewrite bool_decide_eq_true_2, IH.
Qed.

Fixpoint Join (l : list bytes) (sep : bytes) : bytes :=
  match l with
  | [] => []
  | [x] => x
  | x :: l => x ++ sep ++ Join l sep
  end.

(** ** Numbers are read back *)

Lemma IsDigit_digit n : 0 <= n < 10 -> IsDigit (digit n) = true.
Proof.
  intros Hn. unfold IsDigit, between, digit. rewrite Z_of_byte_of_Z, Z.mod_small by lia. apply bool_decide_eq_true_2. lia.
Qed.

Lemma decimal_loop_digits fuel n acc :
  0 <= n -> (0 < fuel)%nat -> forallb IsDigit acc = true -> decimal_loop fuel n acc <> [] /\ forallb IsDigit (decimal_loop fuel n acc) = true.
Proof.
  revert n acc. induction fuel as [|fuel IH]; intros n acc Hn Hf Ha; [lia|]. cbn [decimal_loop].
  assert (forallb IsDigit (digit (n mod 10) :: acc) = true) as Hd.
  { cbn. rewrite IsDigit_digit by (apply Z.mod_pos_bound; lia). done. }
  case_decide; [done|]. destruct fuel as [|fuel]; [done|]. apply IH; [apply Z.div_pos; lia|lia|done].
Qed.

Lemma decimal_all_digits n : 0 <= n -> all_digits (decimal n) = true.
Proof.
  intros Hn. unfold all_digits, decimal. destruct (decimal_loop_digits (S (Z.to_nat (Z.log2 n))) n []) as [H1 H2]; [done|lia|done|].
  by rewrite bool_decide_eq_true_2, H2.
Qed.

Lemma decimal_not_sign n : 0 <= n -> exists d ds, decimal n = d :: ds /\ d <> Byte.x2d /\ d <> Byte.x2b.
Proof.
  intros Hn. destruct (digits_head (S (Z.to_nat (Z.log2 n))) n []) as (d&rest&Hd&E); [lia|].
  exists (digit d), rest. split; [done|]. split; intros Ed; apply (f_equal Z_of_byte) in Ed; unfold digit in Ed;
    rewrite Z_of_byte_of_Z, Z.mod_small in Ed by lia; vm_compute (Z_of_byte _) in Ed; lia.
Qed.

Lemma Atoi_sprint z : - 2 ^ 63 <= z < 2 ^ 63 -> Atoi (sprint_int z) = Ok z.
Proof.
  intros Hz. unfold sprint_int, Atoi. case_decide as Hneg.
  - change (of_string "-" ++ decimal (- z)) with (Byte.x2d :: decimal (- z)). cbv beta iota zeta. rewrite decimal_all_digits by lia.
    rewrite decimal_read by lia. rewrite decide_True by lia. f_equal. lia.
  - destruct (decimal_not_sign z) as (d&ds&E&H1&H2); [lia|]. pose proof (decimal_all_digits z) as Ha. pose proof (decimal_read z) as Hr.
    rewrite E in *. destruct d; try done; cbv beta iota zeta; rewrite Ha, Hr by lia; by rewrite decide_True by lia.
Qed.

Lemma digits_no_dot s : forallb IsDigit s = true -> Byte.x2e ∉ s.
Proof.
  intros Hs Hin. rewrite forallb_forall in Hs. apply list_elem_of_In in Hin. apply Hs in Hin. vm_compute in Hin. discriminate.
Qed.

Lemma sprint_int_no_dot z : Byte.x2e ∉ sprint_int z.
Proof.
  assert (forall n, 0 <= n -> Byte.x2e ∉ decimal n) as H.
  { intros n Hn. apply digits_no_dot. pose proof (decimal_all_digits n Hn) as H. by apply andb_true_iff in H as [_ H]. }
  unfold sprint_int. case_decide; [|apply H; lia]. change (of_string "-" ++ decimal (- z)) with (Byte.x2d :: decimal (- z)).
  rewrite not_elem_of_cons. split; [done|apply H; lia].
Qed.

(** ** An ASCII instance *)

Definition AsciiText : GoText := {|
  EqualFold s t := bool_decide (lower s = lower t);
  ToUpper := upper;
  ToLower := lower;
  TrimSpace := trim;
  ParseFloat s := match Atoi s with Ok z => Ok (float64_of_int z) | _ => Err (Errorf "strconv.ParseFloat: parsing %q: invalid syntax" [AStr s]) end;
  ParseTime s := Err (Errorf "parsing time %q" [AStr s])
|}.

#[global] Instance AsciiTextLaws : GoTextLaws (H := AsciiText).
Proof.
  split; try done; [intros s; cbn; destruct (Atoi s); [left|right..]; by eexists|right; by eexists|].
  intros w Hw. repeat (apply elem_of_cons in Hw as [->|Hw]; [reflexivity|]). by apply elem_of_nil in Hw.
Qed.
