(* ===== verification/RowCodec.v ===== *)
(** * Schemas and the row codec ([Schema.validate], [encode], [decode] of
    [src/kv/table.go])

    A row is a map from column names to values; on disk it is a bitmap with one
    bit per NULL column, followed by the non-NULL columns in schema order. *)
From S2P Require Import Prelude Value.

(** [ColumnType] is a byte in the source. *)
Definition IntType : Z := 1.
Definition StringType : Z := 2.
Definition BoolType : Z := 3.
Definition FloatType : Z := 4.
Definition BytesType : Z := 5.
Definition TimestampType : Z := 6.

Record Column := MkCol { cName : bytes; cType : Z }.
Record Reference := MkRef { refTable : bytes; refColumn : bytes }.
Record ColumnConstraint := MkCon { NotNull : bool; Unique : bool; References : option Reference }.
Record Schema := MkSchema { Columns : list Column; Constraints : gmap bytes ColumnConstraint }.

#[global] Instance Column_eq_dec : EqDecision Column.
Proof. solve_decision. Defined.

Abbreviation Row := (gmap bytes value).

(** The zero value of a missing constraint. *)
Definition constraint_of (s : Schema) (name : bytes) : ColumnConstraint :=
  default (MkCon false false None) (Constraints s !! name).

(** [row[name]]: a missing key reads as nil. *)
Definition field (name : bytes) (r : Row) : value := default VNil (r !! name).

Fixpoint validate_loop (seen : list bytes) (cs : list Column) : outcome unit :=
  match cs with
  | [] => Ok tt
  | c :: cs =>
      if decide (cName c = [] \/ cName c ∈ seen) then
        Err (Errorf "invalid or duplicate column %q" [AStr (cName c)])
      else if decide (cType c < IntType \/ cType c > TimestampType) then
        Err (Errorf "invalid type for column %q" [AStr (cName c)])
      else validate_loop (cName c :: seen) cs
  end.

Definition validate (s : Schema) : outcome unit := validate_loop [] (Columns s).

Fixpoint indexOf_loop (i : Z) (cs : list Column) (want : Column) : option Z :=
  match cs with
  | [] => None
  | c :: cs => if decide (cName c = cName want) then Some i else indexOf_loop (i + 1) cs want
  end.

Definition indexOf (cs : list Column) (want : Column) : Z := default 0 (indexOf_loop 0 cs want).

Definition nullBytes (s : Schema) : Z := (len (Columns s) + 7) / 8.

(** [b[i/8] |= 1 << (i%8)]. *)
Definition set_bit (i : Z) (b : bytes) : bytes :=
  alter (fun x => byte_of_Z (Z.lor (Z_of_byte x) (Z.shiftl 1 (i mod 8)))) (Z.to_nat (i / 8)) b.

Definition test_bit (i : Z) (b : bytes) : outcome bool :=
  x ← of_option (b !! Z.to_nat (i / 8));
  Ok (bool_decide (Z.land (Z_of_byte x) (u8 (Z.shiftl 1 (i mod 8))) <> 0)).

(** ** Encoding *)

(** [UnixNano]: the 64-bit result for an instant outside its range is what wraps. *)
Definition UnixNano (ns : Z) : Z := i64 ns.

(** The body of the [switch] on the column type, for a value that is not nil. *)
Definition encodeValue (c : Column) (v : value) : outcome bytes :=
  if decide (cType c = IntType) then
    match v with
    | VInt i => Ok (put_le 8 i)
    | _ => Err (Errorf "column %q expects int" [AStr (cName c)])
    end
  else if decide (cType c = StringType) then
    match v with
    | VString s => Ok (put_le 4 (len s) ++ s)
    | _ => Err (Errorf "column %q expects string" [AStr (cName c)])
    end
  else if decide (cType c = BoolType) then
    match v with
    | VBool b => Ok [if b then Byte.x01 else Byte.x00]
    | _ => Err (Errorf "column %q expects bool" [AStr (cName c)])
    end
  else if decide (cType c = FloatType) then
    match v with
    | VFloat f => Ok (put_le 8 f)
    | VInt i => Ok (put_le 8 (float64_of_int i))
    | _ => Err (Errorf "column %q expects float" [AStr (cName c)])
    end
  else if decide (cType c = BytesType) then
    match v with
    | VBytes b => Ok (put_le 4 (len (default [] b)) ++ default [] b)
    | _ => Err (Errorf "column %q expects bytes" [AStr (cName c)])
    end
  else if decide (cType c = TimestampType) then
    match v with
    | VTime t _ => Ok (put_le 8 (UnixNano t))
    | _ => Err (Errorf "column %q expects timestamp" [AStr (cName c)])
    end
  else Ok [].

Fixpoint encodeCols (s : Schema) (row : Row) (cs : list Column) (b : bytes) : outcome bytes :=
  match cs with
  | [] => Ok b
  | c :: cs =>
      match row !! cName c with
      | None => Err (Errorf "missing column %q" [AStr (cName c)])
      | Some VNil =>
          if NotNull (constraint_of s (cName c)) then
            Err (Errorf "column %q may not be NULL" [AStr (cName c)])
          else encodeCols s row cs (set_bit (indexOf (Columns s) c) b)
      | Some v =>
          d ← encodeValue c v;
          encodeCols s row cs (b ++ d)
      end
  end.

Definition encode (s : Schema) (row : Row) : outcome bytes :=
  if decide (Z.of_nat (size row) <> len (Columns s)) then Err (Errorf "row has wrong number of columns" [])
  else encodeCols s row (Columns s) (replicate (Z.to_nat (nullBytes s)) Byte.x00).

(** ** Decoding *)

(** [data[lo:hi]], which panics out of range. *)
Definition sub (lo hi : Z) (data : bytes) : outcome bytes :=
  if decide (0 <= lo <= hi /\ hi <= len data) then Ok (slice (Z.to_nat lo) (Z.to_nat hi) data) else Panic.

(** [append([]byte(nil), b...)]: appending nothing to a nil slice leaves it nil. *)
Definition append_nil (b : bytes) : option bytes := match b with [] => None | _ => Some b end.

Definition UTC : bytes := of_string "UTC".

(** The [switch] of [decode] at offset [p]: the value and the next offset. *)
Definition decodeValue (c : Column) (data : bytes) (p : Z) : outcome (option value * Z) :=
  if decide (cType c = IntType) then
    if decide (p + 8 > len data) then
      Err (Errorf "column %q (int): need 8 bytes at offset %d, row has %d bytes" [AStr (cName c); AInt p; AInt (len data)])
    else b ← sub p (p + 8) data; Ok (Some (VInt (i64 (get_le b))), p + 8)
  else if decide (cType c = StringType) then
    if decide (p + 4 > len data) then
      Err (Errorf "column %q (string): missing 4-byte length at offset %d, row has %d bytes" [AStr (cName c); AInt p; AInt (len data)])
    else
      b ← sub p (p + 4) data;
      let n := get_le b in
      let p := p + 4 in
      if decide (n < 0 \/ p + n > len data) then
        Err (Errorf "column %q (string): length %d exceeds row data at offset %d (row has %d bytes)"
          [AStr (cName c); AInt n; AInt p; AInt (len data)])
      else b ← sub p (p + n) data; Ok (Some (VString b), p + n)
  else if decide (cType c = BoolType) then
    match data !! Z.to_nat p with
    | Some x =>
        if decide (Z_of_byte x > 1) then
          Err (Errorf "column %q (bool): expected one byte with value 0 or 1 at offset %d (row has %d bytes)"
            [AStr (cName c); AInt p; AInt (len data)])
        else Ok (Some (VBool (bool_decide (Z_of_byte x = 1))), p + 1)
    | None =>
        Err (Errorf "column %q (bool): expected one byte with value 0 or 1 at offset %d (row has %d bytes)"
          [AStr (cName c); AInt p; AInt (len data)])
    end
  else if decide (cType c = FloatType) then
    if decide (p + 8 > len data) then Err (Errorf "column %q (float): need 8 bytes" [AStr (cName c)])
    else b ← sub p (p + 8) data; Ok (Some (VFloat (get_le b)), p + 8)
  else if decide (cType c = BytesType) then
    if decide (p + 4 > len data) then Err (Errorf "column %q (bytes): missing length" [AStr (cName c)])
    else
      b ← sub p (p + 4) data;
      let n := get_le b in
      let p := p + 4 in
      if decide (p + n > len data) then Err (Errorf "column %q (bytes): invalid length" [AStr (cName c)])
      else b ← sub p (p + n) data; Ok (Some (VBytes (append_nil b)), p + n)
  else if decide (cType c = TimestampType) then
    if decide (p + 8 > len data) then Err (Errorf "column %q (timestamp): need 8 bytes" [AStr (cName c)])
    else b ← sub p (p + 8) data; Ok (Some (VTime (i64 (get_le b)) UTC), p + 8)
  else Ok (None, p).

Fixpoint decodeCols (s : Schema) (nulls data : bytes) (cs : list Column) (r : Row) (p : Z) : outcome (Row * Z) :=
  match cs with
  | [] => Ok (r, p)
  | c :: cs =>
      isnull ← test_bit (indexOf (Columns s) c) nulls;
      if (isnull : bool) then decodeCols s nulls data cs (<[cName c := VNil]> r) p
      else
        '(v, p) ← decodeValue c data p;
        decodeCols s nulls data cs (match v with Some v => <[cName c := v]> r | None => r end) p
  end.

Definition decode (s : Schema) (data : bytes) : outcome Row :=
  let n := nullBytes s in
  if decide (len data < n) then Err (Errorf "row missing NULL bitmap" [])
  else
    '(r, p) ← decodeCols s (take (Z.to_nat n) data) data (Columns s) ∅ n;
    if decide (p <> len data) then
      Err (Errorf "trailing row data: schema consumed %d of %d bytes" [AInt p; AInt (len data)])
    else Ok r.

(** ** The NULL bitmap *)

Definition tbit (i : Z) (b : bytes) : bool :=
  match b !! Z.to_nat (i / 8) with Some x => Z.testbit (Z_of_byte x) (i mod 8) | None => false end.

Lemma shift_bit k n : 0 <= k -> Z.testbit (Z.shiftl 1 k) n = bool_decide (n = k).
Proof.
  intros Hk. rewrite Z.shiftl_1_l. case_bool_decide as E; [subst; by apply Z.pow2_bits_true|].
  apply Z.pow2_bits_false. congruence.
Qed.

Lemma land_bit x k : 0 <= k -> Z.land x (Z.shiftl 1 k) <> 0 <-> Z.testbit x k = true.
Proof.
  intros Hk. split.
  - intros H. destruct (Z.testbit x k) eqn:E; [done|]. exfalso. apply H. apply Z.bits_inj'. intros n Hn.
    rewrite Z.land_spec, shift_bit, Z.bits_0 by done. case_bool_decide; [subst; by rewrite E|apply andb_false_r].
  - intros E H. apply (f_equal (fun z => Z.testbit z k)) in H.
    by rewrite Z.land_spec, shift_bit, E, bool_decide_eq_true_2, Z.bits_0 in H by done.
Qed.

Lemma small_shift k : 0 <= k < 8 -> 0 <= Z.shiftl 1 k < 256.
Proof. intros Hk. rewrite Z.shiftl_1_l. split; [lia|]. change 256 with (2 ^ 8). apply Z.pow_lt_mono_r; lia. Qed.

Lemma lor_byte x k : 0 <= k < 8 -> Z_of_byte (byte_of_Z (Z.lor (Z_of_byte x) (Z.shiftl 1 k))) = Z.lor (Z_of_byte x) (Z.shiftl 1 k).
Proof.
  intros Hk. rewrite Z_of_byte_of_Z. pose proof (Z_of_byte_range x). pose proof (small_shift k Hk).
  apply Z.mod_small. split; [apply Z.lor_nonneg; lia|].
  destruct (decide (Z.lor (Z_of_byte x) (Z.shiftl 1 k) = 0)) as [->|Hne]; [lia|].
  change 256 with (2 ^ 8). assert (0 <= Z.lor (Z_of_byte x) (Z.shiftl 1 k)) by (apply Z.lor_nonneg; lia).
  apply Z.log2_lt_pow2; [lia|]. rewrite Z.log2_lor by lia. rewrite (Z.shiftl_1_l k), Z.log2_pow2 by lia.
  apply Z.max_lub_lt; [|lia]. destruct (decide (Z_of_byte x = 0)) as [->|]; [done|]. apply Z.log2_lt_pow2; lia.
Qed.

Lemma test_bit_tbit i b : 0 <= i -> i / 8 < len b -> test_bit i b = Ok (tbit i b).
Proof.
  intros Hi Hl. unfold test_bit, tbit. pose proof (Z.mod_pos_bound i 8 ltac:(lia)).
  assert (0 <= i / 8) by (apply Z.div_pos; lia).
  destruct (lookup_lt_is_Some_2 b (Z.to_nat (i / 8))) as [x Hx]; [unfold len in Hl; lia|]. rewrite Hx. cbn.
  pose proof (small_shift (i mod 8) ltac:(lia)). unfold mbind, outcome_bind, u8. rewrite Z.mod_small by (change (2 ^ 8) with 256; lia). f_equal.
  destruct (Z.testbit (Z_of_byte x) (i mod 8)) eqn:E.
  - apply bool_decide_eq_true_2, land_bit; [lia|done].
  - apply bool_decide_eq_false_2. intros Hn. apply land_bit in Hn; [|lia]. congruence.
Qed.

Lemma length_set_bit i b : length (set_bit i b) = length b.
Proof. apply length_alter. Qed.

Lemma tbit_set i j b :
  0 <= i -> 0 <= j -> i / 8 < len b -> tbit j (set_bit i b) = bool_decide (j = i) || tbit j b.
Proof.
  intros Hi Hj Hl. unfold tbit, set_bit. pose proof (Z.mod_pos_bound i 8 ltac:(lia)) as Hmi. pose proof (Z.mod_pos_bound j 8 ltac:(lia)) as Hmj.
  assert (0 <= i / 8) by (apply Z.div_pos; lia). assert (0 <= j / 8) by (apply Z.div_pos; lia).
  pose proof (Z.div_mod i 8 ltac:(lia)). pose proof (Z.div_mod j 8 ltac:(lia)).
  destruct (decide (j / 8 = i / 8)) as [Hd|Hd].
  - rewrite Hd, list_lookup_alter_eq. destruct (lookup_lt_is_Some_2 b (Z.to_nat (i / 8))) as [x Hx]; [unfold len in Hl; lia|].
    rewrite Hx. cbn [fmap option_fmap option_map]. rewrite lor_byte, Z.lor_spec, shift_bit by lia.
    rewrite orb_comm. f_equal. apply bool_decide_ext. lia.
  - rewrite list_lookup_alter_ne by lia. rewrite bool_decide_eq_false_2 by (intros ->; done). done.
Qed.

Lemma tbit_zero i n : tbit i (replicate n Byte.x00) = false.
Proof.
  unfold tbit. destruct (_ !! _) as [x|] eqn:E; [|done]. apply lookup_replicate in E as [-> _].
  change (Z_of_byte Byte.x00) with 0. apply Z.bits_0.
Qed.

(** ** Schemas *)

Lemma validate_loop_ok seen cs :
  validate_loop seen cs = Ok tt <->
  NoDup (cName <$> cs) /\ (forall n, n ∈ cName <$> cs -> n ∉ seen) /\
  Forall (fun c => cName c <> [] /\ IntType <= cType c <= TimestampType) cs.
Proof.
  revert seen. induction cs as [|c cs IH]; intros seen; cbn [validate_loop fmap list_fmap].
  { split; [|done]. intros _. split_and!; [constructor|set_solver|constructor]. }
  case_decide as H1; [|case_decide as H2].
  - split; [done|]. intros (_&Hs&Hf). apply Forall_cons in Hf as [[Hne _] _]. exfalso. destruct H1 as [|H1]; [done|].
    eapply Hs; [|exact H1]. constructor.
  - split; [done|]. intros (_&_&Hf). apply Forall_cons in Hf as [[_ Ht] _]. lia.
  - rewrite IH, NoDup_cons, Forall_cons. apply Decidable.not_or in H1 as [Hne Hns]. split.
    + intros (Hd&Hs&Hf). split_and!; [intros Hin; apply (Hs _ Hin); constructor|done| |done|lia|lia|done].
      intros n [->|Hin]%elem_of_cons; [done|]. intros Hin2. apply (Hs _ Hin). by constructor.
    + intros ([Hnin Hd]&Hs&[_ Hf]). split_and!; [done| |done]. intros n Hin [->|Hin2]%elem_of_cons; [done|].
      eapply Hs; [|exact Hin2]. by constructor.
Qed.

Definition schema_ok (s : Schema) : Prop :=
  NoDup (cName <$> Columns s) /\ Forall (fun c => cName c <> [] /\ IntType <= cType c <= TimestampType) (Columns s).

Lemma validate_ok s : validate s = Ok tt <-> schema_ok s.
Proof. unfold validate, schema_ok. rewrite validate_loop_ok. split; [tauto|]. intros [? ?]. split_and!; try done. set_solver. Qed.

Lemma indexOf_loop_spec k cs (i : nat) c :
  NoDup (cName <$> cs) -> cs !! i = Some c -> indexOf_loop k cs c = Some (k + Z.of_nat i).
Proof.
  revert k i. induction cs as [|c0 cs IH]; intros k i Hd Hi; [done|]. cbn [indexOf_loop].
  apply NoDup_cons in Hd as [Hn Hd]. destruct i as [|i]; [injection Hi as ->; rewrite decide_True by done; f_equal; lia|].
  cbn in Hi. rewrite decide_False; [rewrite (IH _ i) by done; f_equal; lia|].
  intros E. apply Hn. fold (cName <$> cs). rewrite E. apply list_elem_of_fmap. exists c. split; [done|]. by eapply list_elem_of_lookup_2.
Qed.

Lemma indexOf_spec s (i : nat) c : schema_ok s -> Columns s !! i = Some c -> indexOf (Columns s) c = Z.of_nat i.
Proof. intros [Hd _] Hi. unfold indexOf. by rewrite (indexOf_loop_spec 0 _ i). Qed.

(** ** Round trip *)

Definition int64_range (z : Z) : Prop := - 2 ^ 63 <= z < 2 ^ 63.

(** A value that a column of this type accepts. *)
Definition typed (c : Column) (v : value) : Prop :=
  match v with
  | VNil => False
  | VInt z => (cType c = IntType /\ int64_range z) \/ cType c = FloatType
  | VString s => cType c = StringType /\ len s < 2 ^ 32
  | VBool _ => cType c = BoolType
  | VFloat f => cType c = FloatType /\ 0 <= f < 2 ^ 64
  | VBytes b => cType c = BytesType /\ len (default [] b) < 2 ^ 32
  | VTime t _ => cType c = TimestampType /\ int64_range t
  | VParam _ => False
  end.

(** What is read back: integers in float columns come back as floats, empty byte
    slices as nil slices, times in UTC. *)
Definition stored (c : Column) (v : value) : value :=
  match v with
  | VInt z => if decide (cType c = FloatType) then VFloat (u64 (float64_of_int z)) else v
  | VBytes b => VBytes (append_nil (default [] b))
  | VTime t _ => VTime t UTC
  | _ => v
  end.

Definition column_ok (s : Schema) (row : Row) (c : Column) : Prop :=
  (row !! cName c = Some VNil /\ NotNull (constraint_of s (cName c)) = false) \/
  exists v, row !! cName c = Some v /\ typed c v.

Record row_ok (s : Schema) (row : Row) : Prop := {
  ro_dom : dom row = list_to_set (cName <$> Columns s);
  ro_cols : Forall (column_ok s row) (Columns s)
}.

Definition stored_row (s : Schema) (row : Row) : Row :=
  list_to_map ((fun c => (cName c, stored c (field (cName c) row))) <$> Columns s).

Lemma i64_put z : int64_range z -> i64 (get_le (put_le 8 z)) = z.
Proof.
  unfold int64_range. intros Hz. rewrite u64_put. unfold i64, u64.
  rewrite Zplus_mod_idemp_l. rewrite Z.mod_small by lia. lia.
Qed.

(** Reading a field of known length at the end of a prefix. *)
Lemma sub_here (pre d post : bytes) (n : Z) :
  n = len d -> sub (len pre) (len pre + n) (pre ++ d ++ post) = Ok d.
Proof.
  intros ->. unfold sub. pose proof (len_nonneg pre). pose proof (len_nonneg d). pose proof (len_nonneg post).
  rewrite decide_True by (rewrite !len_app; lia). f_equal. apply slice_mid; unfold len; lia.
Qed.

Lemma fixed_field (pre post : bytes) z : sub (len pre) (len pre + 8) (pre ++ put_le 8 z ++ post) = Ok (put_le 8 z).
Proof. apply sub_here. unfold len. by rewrite length_put_le. Qed.

Lemma len_fixed n z : len (put_le n z) = Z.of_nat n.
Proof. unfold len. by rewrite length_put_le. Qed.

(** A length-prefixed string. *)
Lemma string_field (pre post d : bytes) :
  len d < 2 ^ 32 ->
  sub (len pre) (len pre + 4) (pre ++ (put_le 4 (len d) ++ d) ++ post) = Ok (put_le 4 (len d)) /\
  get_le (put_le 4 (len d)) = len d /\
  sub (len pre + 4) (len pre + 4 + len d) (pre ++ (put_le 4 (len d) ++ d) ++ post) = Ok d.
Proof.
  intros Hd. pose proof (len_nonneg d). rewrite <- (app_assoc (put_le 4 (len d))). split_and!.
  - apply sub_here. by rewrite len_fixed.
  - apply get_put_le_small. change (256 ^ Z.of_nat 4) with (2 ^ 32). lia.
  - replace (len pre + 4) with (len (pre ++ put_le 4 (len d))) by (rewrite len_app, len_fixed; lia).
    rewrite app_assoc. by apply sub_here.
Qed.

(** The continuation of a call that returned. *)
Ltac ok_step := unfold mbind, outcome_bind.

Ltac other_types := repeat rewrite decide_False by (match goal with H : cType _ = _ |- _ => rewrite H end; discriminate).

Lemma encodeValue_decode c v :
  typed c v -> exists d, encodeValue c v = Ok d /\
  forall pre post, decodeValue c (pre ++ d ++ post) (len pre) = Ok (Some (stored c v), len pre + len d).
Proof.
  destruct v as [|z|d|b|f|d0|t loc|i]; cbn [typed stored]; [done|..|done].
  - intros [[Ht Hz]|Ht]; unfold encodeValue, decodeValue; other_types; rewrite decide_True by done;
      (eexists; split; [reflexivity|]); intros pre post; other_types; rewrite decide_True by done;
      pose proof (len_nonneg post); rewrite decide_False by (rewrite !len_app, len_fixed; lia);
      rewrite fixed_field, len_fixed; ok_step.
    + rewrite i64_put by done. rewrite decide_False by (rewrite Ht; discriminate). done.
    + rewrite u64_put, decide_True by done. done.
  - intros [Ht Hd]. unfold encodeValue, decodeValue. other_types. rewrite decide_True by done.
    eexists; split; [reflexivity|]. intros pre post. other_types. rewrite decide_True by done.
    destruct (string_field pre post d Hd) as (E1&E2&E3). pose proof (len_nonneg post). pose proof (len_nonneg d).
    rewrite decide_False by (rewrite !len_app, len_fixed; lia). rewrite E1. ok_step. rewrite E2.
    rewrite decide_False by (rewrite !len_app, len_fixed; lia). rewrite E3. ok_step. rewrite len_app, len_fixed. do 2 f_equal. lia.
  - intros Ht. unfold encodeValue, decodeValue. other_types. rewrite decide_True by done.
    eexists; split; [reflexivity|]. intros pre post. other_types. rewrite decide_True by done.
    unfold len at 1. rewrite Nat2Z.id, lookup_app_r, Nat.sub_diag by lia. cbn. by destruct b.
  - intros [Ht Hf]. unfold encodeValue, decodeValue. other_types. rewrite decide_True by done.
    eexists; split; [reflexivity|]. intros pre post. other_types. rewrite decide_True by done.
    pose proof (len_nonneg post). rewrite decide_False by (rewrite !len_app, len_fixed; lia). rewrite fixed_field, len_fixed; ok_step.
    rewrite get_put_le_small; [done|]. change (256 ^ Z.of_nat 8) with (2 ^ 64). lia.
  - intros [Ht Hd]. unfold encodeValue, decodeValue. other_types. rewrite decide_True by done.
    generalize dependent (default [] d0). intros d Hd.
    eexists; split; [reflexivity|]. intros pre post. other_types. rewrite decide_True by done.
    destruct (string_field pre post d Hd) as (E1&E2&E3). pose proof (len_nonneg post). pose proof (len_nonneg d).
    rewrite decide_False by (rewrite !len_app, len_fixed; lia). rewrite E1. ok_step. rewrite E2.
    rewrite decide_False by (rewrite !len_app, len_fixed; lia). rewrite E3. ok_step. rewrite len_app, len_fixed. do 2 f_equal. lia.
  - intros [Ht Hz]. unfold encodeValue, decodeValue. other_types. rewrite decide_True by done.
    eexists; split; [reflexivity|]. intros pre post. other_types. rewrite decide_True by done.
    pose proof (len_nonneg post). rewrite decide_False by (rewrite !len_app, len_fixed; lia). rewrite fixed_field, len_fixed; ok_step.
    assert (UnixNano t = t) as -> by (unfold UnixNano, i64, int64_range in *; rewrite Z.mod_small by lia; lia).
    by rewrite i64_put.
Qed.

(** ** Rows *)

(** The bitmap and the payload of a list of columns. *)
Fixpoint null_bits (s : Schema) (row : Row) (cs : list Column) (bm : bytes) : bytes :=
  match cs with
  | [] => bm
  | c :: cs =>
      null_bits s row cs (if decide (field (cName c) row = VNil) then set_bit (indexOf (Columns s) c) bm else bm)
  end.

Lemma length_null_bits s row cs bm : length (null_bits s row cs bm) = length bm.
Proof. revert bm. induction cs as [|c cs IH]; intros bm; [done|]. cbn. rewrite IH. case_decide; [apply length_set_bit|done]. Qed.

Lemma set_bit_app i bm body : 0 <= i -> i / 8 < len bm -> set_bit i (bm ++ body) = set_bit i bm ++ body.
Proof. intros Hi Hl. assert (0 <= i / 8) by (apply Z.div_pos; lia). unfold set_bit, len in *. rewrite alter_app_l by lia. done. Qed.

(** The positions of the columns fit the bitmap. *)
Lemma indexOf_room s c :
  schema_ok s -> c ∈ Columns s -> 0 <= indexOf (Columns s) c /\ indexOf (Columns s) c / 8 < nullBytes s.
Proof.
  intros Hs [i Hi]%list_elem_of_lookup. rewrite (indexOf_spec s i c) by done. split; [lia|].
  apply lookup_lt_Some in Hi. unfold nullBytes, len. apply Z.div_lt_upper_bound; [lia|].
  pose proof (Z.mul_div_le (Z.of_nat (length (Columns s)) + 7) 8 ltac:(lia)).
  pose proof (Z.mod_pos_bound (Z.of_nat (length (Columns s)) + 7) 8 ltac:(lia)).
  pose proof (Z.div_mod (Z.of_nat (length (Columns s)) + 7) 8 ltac:(lia)). lia.
Qed.

Lemma typed_not_nil c v : typed c v -> v <> VNil.
Proof. by intros Ht ->. Qed.

Lemma field_Some name row v : row !! name = Some v -> field name row = v.
Proof. unfold field. by intros ->. Qed.

(** Encoding appends a payload that decoding reads back whatever surrounds it. *)
Lemma encodeCols_spec s row cs bm body :
  schema_ok s -> cs ⊆ Columns s -> Forall (column_ok s row) cs -> len bm = nullBytes s ->
  exists d, encodeCols s row cs (bm ++ body) = Ok (null_bits s row cs bm ++ body ++ d) /\
  forall nulls pre post r, len nulls = nullBytes s ->
    (forall c, c ∈ cs -> tbit (indexOf (Columns s) c) nulls = bool_decide (field (cName c) row = VNil)) ->
    decodeCols s nulls (pre ++ d ++ post) cs r (len pre) =
    Ok (foldl (fun r c => <[cName c := stored c (field (cName c) row)]> r) r cs, len pre + len d).
Proof.
  intros Hs. revert bm body. induction cs as [|c cs IH]; intros bm body Hsub Hok Hbm.
  { exists []. cbn. rewrite app_nil_r. split; [done|]. intros. change (len []) with 0. by rewrite Z.add_0_r. }
  apply Forall_cons in Hok as [Hc Hok]. assert (c ∈ Columns s) as Hin by (apply Hsub; constructor).
  assert (cs ⊆ Columns s) as Hsub' by (intros x Hx; apply Hsub; by constructor).
  destruct (indexOf_room s c Hs Hin) as [Hi0 Hi1]. cbn [encodeCols null_bits decodeCols foldl].
  destruct Hc as [[Hr Hn]|(v&Hr&Ht)]; rewrite Hr, (field_Some _ _ _ Hr).
  - rewrite Hn, decide_True, set_bit_app by (done || lia).
    destruct (IH (set_bit (indexOf (Columns s) c) bm) body Hsub' Hok) as (d&E&Hd); [unfold len; rewrite length_set_bit; done|].
    exists d. split; [done|]. intros nulls pre post r Hl Hb. rewrite test_bit_tbit by lia.
    rewrite Hb by constructor. rewrite (field_Some _ _ _ Hr), bool_decide_eq_true_2 by done. cbn [mbind outcome_bind stored].
    apply Hd; [done|]. intros c' Hc'. apply Hb. by constructor.
  - pose proof (typed_not_nil _ _ Ht) as Hv. rewrite decide_False by done.
    destruct (encodeValue_decode c v Ht) as (dv&Ev&Hdv).
    destruct (IH bm (body ++ dv) Hsub' Hok Hbm) as (d&E&Hd). exists (dv ++ d). split.
    + destruct v; [done|..]; (unfold mbind, outcome_bind; rewrite Ev, <- app_assoc, E, <- !app_assoc; done).
    + intros nulls pre post r Hl Hb. rewrite test_bit_tbit by lia. rewrite Hb by constructor.
      rewrite (field_Some _ _ _ Hr), bool_decide_eq_false_2 by done. rewrite <- app_assoc. cbn [mbind outcome_bind].
      rewrite Hdv. unfold mbind, outcome_bind. replace (len pre + len dv) with (len (pre ++ dv)) by (by rewrite len_app).
      rewrite (app_assoc pre), Hd; [by rewrite !len_app, Z.add_assoc|done|]. intros c' Hc'. apply Hb. by constructor.
Qed.

(** Exactly the bits of the NULL columns are set. *)
Lemma tbit_null_bits s row cs bm j :
  schema_ok s -> cs ⊆ Columns s -> len bm = nullBytes s -> 0 <= j ->
  tbit j (null_bits s row cs bm) =
  tbit j bm || bool_decide (Exists (fun c => indexOf (Columns s) c = j /\ field (cName c) row = VNil) cs).
Proof.
  intros Hs. revert bm. induction cs as [|c cs IH]; intros bm Hsub Hbm Hj; cbn [null_bits].
  { rewrite bool_decide_eq_false_2, orb_false_r by (by intros ?%Exists_nil). done. }
  assert (c ∈ Columns s) as Hin by (apply Hsub; constructor).
  assert (cs ⊆ Columns s) as Hsub' by (intros x Hx; apply Hsub; by constructor).
  destruct (indexOf_room s c Hs Hin) as [Hi0 Hi1]. rewrite (bool_decide_ext _ _ (Exists_cons _ _ _)).
  rewrite IH; [|done|unfold len in *; case_decide; by rewrite ?length_set_bit|done].
  rewrite bool_decide_or, orb_assoc. f_equal. case_decide as Hf.
  - rewrite tbit_set, orb_comm by lia. f_equal. apply bool_decide_ext. naive_solver.
  - rewrite (bool_decide_eq_false_2 (_ /\ _)), orb_false_r by naive_solver. done.
Qed.

(** Inserting the elements of a list under distinct keys. *)
Lemma foldl_insert {A B} (k : A -> bytes) (f : A -> B) (l : list A) (r : gmap bytes B) :
  NoDup (k <$> l) -> foldl (fun r x => <[k x := f x]> r) r l = list_to_map ((fun x => (k x, f x)) <$> l) ∪ r.
Proof.
  revert r. induction l as [|x l IH]; intros r Hd; cbn [foldl fmap list_fmap]; [by rewrite list_to_map_nil, map_empty_union|].
  apply NoDup_cons in Hd as [Hn Hd]. rewrite IH, list_to_map_cons by done.
  rewrite <- insert_union_l. symmetry. apply insert_union_r. apply not_elem_of_list_to_map_1.
  rewrite <- list_fmap_compose. exact Hn.
Qed.

Lemma row_size s row : schema_ok s -> row_ok s row -> Z.of_nat (size row) = len (Columns s).
Proof.
  intros [Hd _] Hr. rewrite <- size_dom, (ro_dom _ _ Hr), size_list_to_set by done. unfold len. by rewrite length_fmap.
Qed.

Lemma nullBytes_nonneg s : 0 <= nullBytes s.
Proof. unfold nullBytes. apply Z.div_pos; pose proof (len_nonneg (Columns s)); lia. Qed.

Lemma encode_decode s row :
  schema_ok s -> row_ok s row -> exists b, encode s row = Ok b /\ decode s b = Ok (stored_row s row).
Proof.
  intros Hs Hr. pose proof (nullBytes_nonneg s) as Hnn. set (zero := replicate (Z.to_nat (nullBytes s)) Byte.x00).
  assert (len zero = nullBytes s) as Hz by (unfold zero, len; rewrite length_replicate; lia).
  destruct (encodeCols_spec s row (Columns s) zero [] Hs) as (d&E&Hd); [done|apply Hr|done|].
  set (bm := null_bits s row (Columns s) zero) in *.
  assert (len bm = nullBytes s) as Hbm by (unfold len, bm; by rewrite length_null_bits).
  exists (bm ++ d). unfold encode, decode. rewrite decide_False by (rewrite (row_size s) by done; lia).
  fold zero. rewrite app_nil_r in E. rewrite E. split; [done|]. pose proof (len_nonneg d).
  rewrite decide_False by (rewrite len_app; lia).
  rewrite take_app_le, take_ge by (unfold len in Hbm; lia).
  rewrite <- (app_nil_r d) at 1. rewrite <- Hbm at 1. unfold mbind, outcome_bind. rewrite Hd; [|done|].
  - rewrite decide_False by (rewrite len_app; lia).
    rewrite foldl_insert by apply Hs. by rewrite map_union_empty.
  - intros c Hc. unfold bm. destruct (indexOf_room s c Hs Hc) as [Hi0 _].
    rewrite tbit_null_bits by done. unfold zero. rewrite tbit_zero. apply bool_decide_ext. rewrite Exists_exists. split.
    + intros (c'&Hc'&Ei&Hf). apply list_elem_of_lookup in Hc' as [i' Hi'], Hc as [i Hi].
      rewrite (indexOf_spec s i' c'), (indexOf_spec s i c) in Ei by done. by simplify_eq.
    + intros Hf. by exists c.
Qed.

(** C14: row codec round trip: for a schema that passes validation, a row that
    has the schema's columns, with NULL only where it is allowed and values of the
    columns' types, is encoded, and decoding the bytes gives the row back (an
    integer in a float column as the float it was converted to, an empty byte
    slice as nil, a time in UTC). *)
Theorem row_roundtrip (s : Schema) (row : Row) (Hs : validate s = Ok tt) (Hr : row_ok s row) :
  exists b, encode s row = Ok b /\ decode s b = Ok (stored_row s row).
Proof. apply validate_ok in Hs. by apply encode_decode. Qed.

Definition demo_schema : Schema :=
  MkSchema [MkCol (of_string "id") IntType; MkCol (of_string "name") StringType; MkCol (of_string "score") FloatType;
            MkCol (of_string "ok") BoolType; MkCol (of_string "blob") BytesType; MkCol (of_string "at") TimestampType]
    {[ of_string "id" := MkCon true true None ]}.

Definition demo_row : Row :=
  list_to_map [(of_string "id", VInt (-7)); (of_string "name", VString (of_string "bob")); (of_string "score", VInt 3);
               (of_string "ok", VNil); (of_string "blob", VBytes (Some [])); (of_string "at", VTime 5 (of_string "Local"))].

Lemma row_roundtrip_witness :
  exists b, encode demo_schema demo_row = Ok b /\ decode demo_schema b = Ok (stored_row demo_schema demo_row).
Proof.
  apply (row_roundtrip demo_schema demo_row); [reflexivity|]. split; [apply (bool_decide_eq_true_1 _); vm_compute; reflexivity|].
  apply Forall_forall. intros c Hc. cbn [demo_schema Columns] in Hc.
  repeat (apply elem_of_cons in Hc as [->|Hc]; [first [left; split; vm_compute; reflexivity|right; eexists; split; [vm_compute; reflexivity|]]|]);
    [..|by apply elem_of_nil in Hc].
  all: vm_compute; repeat split; first [discriminate|left; repeat split; discriminate|right; reflexivity].
Defined.

(** Decoding never reads out of bounds or panics: an arbitrary byte string is
    either decoded or refused with an error. *)
Lemma test_bit_total s c nulls : schema_ok s -> c ∈ Columns s -> len nulls = nullBytes s ->
  exists b, test_bit (indexOf (Columns s) c) nulls = Ok b.
Proof. intros Hs Hc Hl. destruct (indexOf_room s c Hs Hc). rewrite test_bit_tbit by lia. by eexists. Qed.

Lemma sub_in lo hi data : 0 <= lo <= hi -> hi <= len data -> sub lo hi data = Ok (slice (Z.to_nat lo) (Z.to_nat hi) data).
Proof. intros ??. unfold sub. by rewrite decide_True. Qed.

Lemma decodeValue_total c data p :
  0 <= p -> (exists e, decodeValue c data p = Err e) \/ exists v q, decodeValue c data p = Ok (v, q) /\ p <= q.
Proof.
  intros Hp. unfold decodeValue.
  repeat case_decide; try (left; by eexists); try (right; do 2 eexists; split; [reflexivity|lia]).
  all: try (rewrite sub_in by lia; ok_step; try (right; do 2 eexists; split; [reflexivity|lia])).
  all: try match goal with |- context [get_le ?b] => pose proof (get_le_range b) end.
  all: try (case_decide; [left; by eexists|rewrite sub_in by lia; right; do 2 eexists; split; [reflexivity|lia]]).
  destruct (_ !! _); [case_decide|]; try (left; by eexists); right; do 2 eexists; split; [reflexivity|lia].
Qed.

Lemma decodeCols_total s nulls data cs r p :
  schema_ok s -> cs ⊆ Columns s -> len nulls = nullBytes s -> 0 <= p ->
  (exists e, decodeCols s nulls data cs r p = Err e) \/ exists x, decodeCols s nulls data cs r p = Ok x.
Proof.
  intros Hs. revert r p. induction cs as [|c cs IH]; intros r p Hsub Hl Hp; [right; by eexists|]. cbn [decodeCols].
  destruct (test_bit_total s c nulls) as [b Eb]; [done|apply Hsub; constructor|done|]. rewrite Eb.
  assert (cs ⊆ Columns s) by (intros x Hx; apply Hsub; by constructor).
  unfold mbind, outcome_bind. destruct b; [auto|].
  destruct (decodeValue_total c data p Hp) as [[e ->]|(v&q&->&Hq)]; [left; by eexists|]. apply IH; auto; lia.
Qed.

(** decoding arbitrary bytes with a validated schema returns a row or an
    error, never a panic: every read of the data and of the bitmap is in bounds. *)
Theorem decode_total (s : Schema) (data : bytes) (Hs : validate s = Ok tt) :
  (exists e, decode s data = Err e) \/ exists row, decode s data = Ok row.
Proof.
  apply validate_ok in Hs. pose proof (nullBytes_nonneg s). unfold decode. case_decide; [left; by eexists|].
  destruct (decodeCols_total s (take (Z.to_nat (nullBytes s)) data) data (Columns s) ∅ (nullBytes s)) as [[e ->]|[[r p] ->]];
    try done; [unfold len in *; rewrite length_take; lia|left; by eexists|].
  unfold mbind, outcome_bind. case_decide; [left|right]; by eexists.
Qed.

Lemma decode_total_witness :
  (exists e, decode demo_schema [Byte.x00; Byte.x01] = Err e) \/ exists row, decode demo_schema [Byte.x00; Byte.x01] = Ok row.
Proof. apply (decode_total demo_schema). reflexivity. Defined.
