(* ===== verification/Table.v ===== *)
(** * Tables ([src/kv/table.go])

    A table gives rows to a store: the primary key is the store's key, the row the
    encoded value, and [secondary] maps, per column, the index key of a value to
    the primary keys of the rows that have it. The nested Go maps are [gmap]s; a
    write through a nil map panics. Where the source ranges over a map, the model
    either does not depend on the order or takes the entries as a list in the
    order in which they are visited. Errors that come with a result
    ([Update] returns how many rows it changed) are part of the result. *)
From S2P Require Import Prelude OrderedMap Page BufferPool Pager BTree Wal Record Store Value RowCodec.

Abbreviation index_map := (gmap value (gset bytes)).

Record Table := MkTable { tstore : Store; tschema : Schema; secondary : gmap bytes index_map }.

Definition set_tstore (s : Store) (t : Table) : Table := MkTable s (tschema t) (secondary t).
Definition set_secondary (x : gmap bytes index_map) (t : Table) : Table := MkTable (tstore t) (tschema t) x.
Definition set_schema (s : Schema) (t : Table) : Table := MkTable (tstore t) s (secondary t).

Definition on_store {A} : M Store A -> M Table A := zoom tstore set_tstore.

(** [if err := m; err != nil]: go on with the result or with the error. *)
Definition attempt {S A B} (m : M S A) (ok : A -> M S B) (bad : error -> M S B) : M S B := fun s =>
  match m s with
  | (Ok a, s) => ok a s
  | (Err e, s) => bad e s
  | (Panic, s) => (Panic, s)
  | (NoFuel, s) => (NoFuel, s)
  end.

Record TransactionRow := MkTxRow { txRow : Row; txDeleted : bool }.

(** [schema.Columns[0].Name] and [schema.Columns[1:]]. *)
Definition keyColumn (s : Schema) : outcome bytes := of_option (cName <$> head (Columns s)).
Definition tailColumns (s : Schema) : outcome (list Column) :=
  match Columns s with [] => Panic | _ :: cs => Ok cs end.

(** ** The secondary index *)

Definition index_add (v : value) (key : bytes) (m : index_map) : index_map :=
  <[v := {[key]} ∪ default ∅ (m !! v)]> m.

Definition index_remove (v : value) (key : bytes) (m : index_map) : index_map :=
  let ks := default ∅ (m !! v) ∖ {[key]} in
  if decide (ks = ∅) then base.delete v m else <[v := ks]> m.

Definition indexColumn (key : bytes) (row : Row) (c : Column) : M Table unit :=
  t ← get_state;
  match secondary t !! cName c with
  | None => lift Panic
  | Some m => modify (set_secondary (<[cName c := index_add (indexValue (field (cName c) row)) key m]> (secondary t)))
  end.

Definition unindexColumn (key : bytes) (row : Row) (c : Column) : M Table unit :=
  t ← get_state;
  match secondary t !! cName c with
  | None => mret tt
  | Some m => modify (set_secondary (<[cName c := index_remove (indexValue (field (cName c) row)) key m]> (secondary t)))
  end.

Fixpoint forColumns (body : Column -> M Table unit) (cs : list Column) : M Table unit :=
  match cs with [] => mret tt | c :: cs => _ ← body c; forColumns body cs end.

Definition indexRow (key : bytes) (row : Row) : M Table unit :=
  t ← get_state;
  cs ← lift (tailColumns (tschema t));
  forColumns (indexColumn key row) cs.

Definition unindexRow (key : bytes) (row : Row) : M Table unit :=
  t ← get_state;
  cs ← lift (tailColumns (tschema t));
  forColumns (unindexColumn key row) cs.

(** ** Reading *)

(** [for ; leaf != nil; leaf = leaf.next { ... leaf.values ... }]. *)
Fixpoint chainValues (fuel : nat) (n : option nat) : M btree (list bytes) :=
  match n with
  | None => mret []
  | Some n =>
      match fuel with
      | O => lift NoFuel
      | S fuel =>
          x ← deref n;
          rest ← chainValues fuel (next x);
          mret (values x ++ rest)
      end
  end.

Definition leafValues : M btree (list bytes) :=
  t ← get_state;
  match root t with
  | None => mret []
  | Some r =>
      n ← leftmost (fresh t) r;
      chainValues (fresh t) (Some n)
  end.

Fixpoint decodeAll (s : Schema) (vs : list bytes) : outcome (list Row) :=
  match vs with
  | [] => Ok []
  | v :: vs => r ← decode s v; rs ← decodeAll s vs; Ok (r :: rs)
  end.

Definition Scan : M Table (list Row) :=
  vs ← on_store (on_index leafValues);
  t ← get_state;
  lift (decodeAll (tschema t) vs).

Definition Get (key : bytes) : M Table (option Row) :=
  b ← on_store (Store.Get key);
  t ← get_state;
  match b with
  | None => mret None
  | Some b => r ← lift (decode (tschema t) b); mret (Some r)
  end.

Definition Snapshot : M Table Z := on_store BeginSnapshot.
Definition ReleaseSnapshot (snapshot : Z) : M Table unit := on_store (Store.ReleaseSnapshot snapshot).
Definition ChangedSince (snapshot : Z) (key : bytes) (t : Table) : bool := Store.ChangedSince snapshot key (tstore t).

Definition GetAt (snapshot : Z) (key : bytes) (t : Table) : outcome (option Row) :=
  match Store.GetAt snapshot key (tstore t) with
  | (b, true) => r ← decode (tschema t) b; Ok (Some r)
  | (_, false) => Ok None
  end.

Fixpoint scanKeys (snapshot : Z) (t : Table) (ks : list bytes) : outcome (list Row) :=
  match ks with
  | [] => Ok []
  | key :: ks =>
      row ← GetAt snapshot key t;
      rows ← scanKeys snapshot t ks;
      Ok (match row with Some r => r :: rows | None => rows end)
  end.

Definition ScanAt (snapshot : Z) (t : Table) : outcome (list Row) := scanKeys snapshot t (KeysAt snapshot (tstore t)).

Fixpoint getAll (ks : list bytes) : M Table (list Row) :=
  match ks with
  | [] => mret []
  | key :: ks =>
      row ← Get key;
      rows ← getAll ks;
      mret (match row with Some r => r :: rows | None => rows end)
  end.

(** [for key := range keys]: [elements] fixes the order. *)
Definition Find (column : bytes) (v : value) : M Table (list Row) :=
  t ← get_state;
  match secondary t !! column ≫= (fun m => m !! indexValue v) with
  | None => mret []
  | Some keys => getAll (elements keys)
  end.

Definition HasIndex (column : bytes) (t : Table) : bool := bool_decide (is_Some (secondary t !! column)).

(** ** Writing *)

Section with_store.
Context `{Codec : IndexCodec} `{Fmt : Formats}.

(** [fmt.Sprint(row[schema.Columns[0].Name])]. *)
Definition primaryKey (s : Schema) (row : Row) : outcome bytes :=
  kc ← keyColumn s; Ok (Sprint (field kc row)).

Fixpoint conflict (s : Schema) (key : bytes) (row : Row) (c : Column) (rows : list Row) : outcome bool :=
  match rows with
  | [] => Ok false
  | old :: rows =>
      k ← primaryKey s old;
      if decide (k <> key /\ indexValue (field (cName c) old) = indexValue (field (cName c) row)) then Ok true
      else conflict s key row c rows
  end.

Fixpoint checkUnique (s : Schema) (key : bytes) (row : Row) (rows : list Row) (cs : list Column) : outcome unit :=
  match cs with
  | [] => Ok tt
  | c :: cs =>
      if decide (Unique (constraint_of s (cName c)) = false \/ field (cName c) row = VNil) then checkUnique s key row rows cs
      else
        bad ← conflict s key row c rows;
        match bad with
        | true => Err (Errorf "unique constraint failed: %s" [AStr (cName c)])
        | false => checkUnique s key row rows cs
        end
  end.

Definition validateConstraints (key : bytes) (row : Row) : M Table unit :=
  rows ← Scan;
  t ← get_state;
  lift (checkUnique (tschema t) key row rows (Columns (tschema t))).

Definition Insert (key : bytes) (row : Row) : M Table unit :=
  t ← get_state;
  b ← lift (encode (tschema t) row);
  _ ← validateConstraints key row;
  old ← Get key;
  _ ← on_store (Put key b);
  _ ← (match old with Some old => unindexRow key old | None => mret tt end);
  indexRow key row.

Definition Delete (key : bytes) : M Table unit :=
  old ← Get key;
  match old with
  | None => mret tt
  | Some old =>
      _ ← on_store (Store.Delete key);
      unindexRow key old
  end.

Definition matches (where_ : option (Row -> bool)) (r : Row) : bool :=
  match where_ with Some f => f r | None => true end.

(** [for k, v := range set { r[k] = v }]. *)
Definition assign (set_ r : Row) : Row := set_ ∪ r.

Fixpoint updateLoop (where_ : option (Row -> bool)) (set_ : Row) (rows : list Row) (n : Z) : M Table (Z * option error) :=
  match rows with
  | [] => mret (n, None)
  | r :: rows =>
      if matches where_ r then
        let r := assign set_ r in
        t ← get_state;
        key ← lift (primaryKey (tschema t) r);
        attempt (Insert key r) (fun _ => updateLoop where_ set_ rows (n + 1)) (fun e => mret (n, Some e))
      else updateLoop where_ set_ rows n
  end.

Definition updateRows (scan : M Table (list Row)) (where_ : option (Row -> bool)) (set_ : Row) : M Table (Z * option error) :=
  attempt scan (fun rows => updateLoop where_ set_ rows 0) (fun e => mret (0, Some e)).

Definition Update (where_ : option (Row -> bool)) (set_ : Row) : M Table (Z * option error) := updateRows Scan where_ set_.
Definition UpdateAt (snapshot : Z) (where_ : option (Row -> bool)) (set_ : Row) : M Table (Z * option error) :=
  updateRows (fun t => (ScanAt snapshot t, t)) where_ set_.

Fixpoint deleteLoop (where_ : option (Row -> bool)) (rows : list Row) (n : Z) : M Table (Z * option error) :=
  match rows with
  | [] => mret (n, None)
  | r :: rows =>
      if matches where_ r then
        t ← get_state;
        key ← lift (primaryKey (tschema t) r);
        attempt (Delete key) (fun _ => deleteLoop where_ rows (n + 1)) (fun e => mret (n, Some e))
      else deleteLoop where_ rows n
  end.

Definition deleteRows (scan : M Table (list Row)) (where_ : option (Row -> bool)) : M Table (Z * option error) :=
  attempt scan (fun rows => deleteLoop where_ rows 0) (fun e => mret (0, Some e)).

Definition DeleteWhere (where_ : option (Row -> bool)) : M Table (Z * option error) := deleteRows Scan where_.
Definition DeleteWhereAt (snapshot : Z) (where_ : option (Row -> bool)) : M Table (Z * option error) :=
  deleteRows (fun t => (ScanAt snapshot t, t)) where_.

(** ** Batches *)

Definition ApplyBatch (id : Z) (ops : list BatchOp) : M Table unit := on_store (Store.ApplyBatch id ops).

Fixpoint batchOps (s : Schema) (writes : list (bytes * TransactionRow)) : outcome (list BatchOp) :=
  match writes with
  | [] => Ok []
  | (key, w) :: writes =>
      op ← (if txDeleted w then Ok (MkOp key [] true)
            else v ← encode s (txRow w); Ok (MkOp key v false));
      ops ← batchOps s writes;
      Ok (op :: ops)
  end.

(** [writes] lists the entries of the map in the order they are visited. *)
Definition ApplyRowsBatch (id : Z) (writes : list (bytes * TransactionRow)) : M Table unit :=
  t ← get_state;
  ops ← lift (batchOps (tschema t) writes);
  on_store (Store.ApplyBatch id ops).

(** ** Opening and closing *)

Fixpoint indexRows (rows : list Row) : M Table unit :=
  match rows with
  | [] => mret tt
  | row :: rows =>
      t ← get_state;
      key ← lift (primaryKey (tschema t) row);
      _ ← indexRow key row;
      indexRows rows
  end.

Definition empty_index (cs : list Column) : gmap bytes index_map := list_to_map ((fun c => (cName c, ∅)) <$> cs).

Definition NewTable (store : option Store) (schema : Schema) : outcome Table :=
  match store with
  | None => Err (Errorf "nil store" [])
  | Some store =>
      _ ← validate schema;
      match Columns schema with
      | [] => Err (Errorf "schema has no columns" [])
      | _ :: cs =>
          match (rows ← Scan; indexRows rows) (MkTable store schema (empty_index cs)) with
          | (Ok _, t) => Ok t
          | (Err e, _) => Err e
          | (Panic, _) => Panic
          | (NoFuel, _) => NoFuel
          end
      end
  end.

Definition Close : M Table unit := on_store Store.Close.

Definition OpenTable (schema : Schema) : M Files Table := fun f =>
  match Open f with
  | (Ok s, f) =>
      match NewTable (Some s) schema with
      | Ok t => (Ok t, f)
      | Err e => (Err e, files_of (Store.Close s).2)
      | Panic => (Panic, f)
      | NoFuel => (NoFuel, f)
      end
  | (Err e, f) => (Err e, f)
  | (Panic, f) => (Panic, f)
  | (NoFuel, f) => (NoFuel, f)
  end.

(** ** Schema changes *)

(** [time.Time{}]: January 1, year 1, 00:00:00 UTC. *)
Definition zero_time : Z := - 62135596800 * 10 ^ 9.

Definition zeroValue (t : Z) : option value :=
  if decide (t = IntType) then Some (VInt 0)
  else if decide (t = StringType) then Some (VString [])
  else if decide (t = BoolType) then Some (VBool false)
  else if decide (t = FloatType) then Some (VFloat 0)
  else if decide (t = BytesType) then Some (VBytes (Some []))
  else if decide (t = TimestampType) then Some (VTime zero_time UTC)
  else None.

Definition alteredValue (old new : Schema) (r : Row) (i : nat) (c : Column) : option value :=
  match r !! cName c with
  | Some v => Some v
  | None =>
      match Columns old !! i with
      | Some oc =>
          if decide (length (Columns new) = length (Columns old) /\ cType oc = cType c) then Some (field (cName oc) r)
          else zeroValue (cType c)
      | None => zeroValue (cType c)
      end
  end.

Fixpoint convertCols (old new : Schema) (r : Row) (i : nat) (cs : list Column) (nr : Row) : Row :=
  match cs with
  | [] => nr
  | c :: cs =>
      convertCols old new r (S i) cs
        (match alteredValue old new r i c with Some v => <[cName c := v]> nr | None => nr end)
  end.

Definition convertRow (old new : Schema) (r : Row) : Row := convertCols old new r 0 (Columns new) ∅.

Fixpoint rewriteRows (rows : list Row) : M Table unit :=
  match rows with
  | [] => mret tt
  | row :: rows =>
      t ← get_state;
      key ← lift (primaryKey (tschema t) row);
      encoded ← lift (encode (tschema t) row);
      _ ← on_store (Put key encoded);
      _ ← indexRow key row;
      rewriteRows rows
  end.

Definition Alter (schema : Schema) : M Table unit :=
  _ ← lift (validate schema);
  t ← get_state;
  let old := tschema t in
  rows ← Scan;
  let converted := convertRow old schema <$> rows in
  _ ← modify (set_schema schema);
  _ ← modify (set_secondary ∅);
  cs ← lift (tailColumns schema);
  _ ← modify (set_secondary (empty_index cs));
  rewriteRows converted.

End with_store.
