(* ===== verification/StoreContract.v ===== *)
(** * What the store promises to its clients

    Tables read and write a store through a handful of methods. [StoreReads] and
    [StoreWrites] state what they rely on: a store that can be read stands for a
    sorted key/value list, a store that can be written also for the history of its
    states. Table proofs use only these laws; the instances are the store's
    theorems. *)
From S2P Require Import Prelude OrderedMap Page BufferPool Pager BTree BTreeInv BTreeProofs Wal Record Store StoreInv StoreProofs StoreSpec Table.

(** A write adds one state to the history. *)
Definition extends (t t' : spec_state) (m : kvs) : Prop :=
  current t' = m /\ len (states t') = len (states t) + 1 /\ readers t' = readers t /\ states t `prefix_of` states t'.

Class StoreReads (reads : Store -> kvs -> Prop) := {
  sr_sorted s m : reads s m -> sorted_keys m;
  sr_get s m key : reads s m -> Store.Get key s = (Ok (kv_get key m), s);
  sr_values s m : reads s m -> on_index leafValues s = (Ok m.*2, s)
}.

Class StoreWrites `{Codec : IndexCodec} (reads : Store -> kvs -> Prop) (sim : Store -> spec_state -> Prop) := {
  sw_reads s t : sim s t -> reads s (current t);
  sw_fits s t key value : sim s t -> kv_get key (current t) = Some value -> fits (flagLive, key, value);
  sw_put s t key value :
    sim s t -> len (states t) + 1 < 2 ^ 32 - 1 -> fits (flagLive, key, value) ->
    exists s' t', Put key value s = (Ok tt, s') /\ sim s' t' /\ extends t t' (kv_put key value (current t));
  sw_delete s t key :
    sim s t -> len (states t) + 1 < 2 ^ 32 - 1 -> fits (flagTombstone, key, []) ->
    exists s' t', Store.Delete key s = (Ok tt, s') /\ sim s' t' /\ extends t t' (kv_del key (current t))
}.

(** ** The store keeps its promises *)

Lemma chainValues_spec fuel bt (ls : list (nat * kvs)) :
  (length ls <= fuel)%nat -> chain (heap bt) ls.*1 None ->
  (forall l es, (l, es) ∈ ls -> exists nx, heap bt !! l = Some (MkNode true es.*1 es.*2 [] nx)) ->
  chainValues fuel (head_or ls.*1 None) bt = (Ok (concat ls.*2).*2, bt).
Proof.
  revert fuel. induction ls as [|[l es] ls IH]; intros fuel Hf Hc Hn; [by destruct fuel|].
  destruct fuel as [|fuel]; [simpl in Hf; lia|]. cbn [fmap list_fmap fst head_or chainValues].
  destruct (Hn l es ltac:(set_solver)) as [nx Hl].
  rewrite (bind_ok _ _ _ _ _ (deref_ok _ _ _ Hl)). cbn [BTree.next BTree.keys values].
  destruct Hc as [Hnx Hc]. cbn [fst] in Hnx. rewrite Hl in Hnx. cbn in Hnx. injection Hnx as ->.
  rewrite (bind_ok _ _ _ _ _ (IH fuel ltac:(simpl in Hf; lia) Hc ltac:(set_solver))).
  unfold mret, M_ret. cbn [fmap list_fmap snd concat]. by rewrite fmap_app.
Qed.

Lemma leafValues_spec bt l : bt_rep bt l -> leafValues bt = (Ok l.*2, bt).
Proof.
  unfold bt_rep, leafValues. rewrite bind_get. destruct (root bt) as [r|]; [|by intros ->].
  intros (d&t&<-&Hsh&Ho&Hwf&Hch&<-).
  destruct (leftmost_spec d (fresh bt) bt None None t) as (n&E&Hn); try done; [by eapply owned_depth|].
  rewrite (bind_ok _ _ _ _ _ E). rewrite <- (Hn None). apply chainValues_spec; [|done|].
  - apply length_leaves_locs in Hwf. apply owned_locs in Ho. lia.
  - intros n' es Hin. by eapply shape_leaves.
Qed.

Definition store_reads (s : Store) (m : kvs) : Prop := exists ps segs, store_ok s ps segs m.

#[global] Instance store_reads_contract : StoreReads store_reads.
Proof.
  split; intros s m; [|intros key|]; intros (ps&segs&Hok); pose proof (so_index _ _ _ _ Hok) as Hi.
  - by eapply bt_rep_sorted.
  - unfold Store.Get. by rewrite (on_index_ok _ _ _ _ (get_spec _ _ key Hi)), set_index_same.
  - by rewrite (on_index_ok _ _ _ _ (leafValues_spec _ _ Hi)), set_index_same.
Qed.

Lemma extends_push t r : last (states t) = Some (current t) -> extends t (push [r] t) (apply_rec r (current t)).
Proof.
  intros Hl. split_and!; [|by rewrite push_length|done|by eexists].
  unfold current at 1. cbn [push states]. by rewrite (state_after_last _ _ _ Hl).
Qed.

#[global] Instance store_writes_contract `{Codec : IndexCodec} : StoreWrites store_reads simulates.
Proof.
  split.
  - intros s t (ps&segs&Hse&_). exists ps, segs. apply Hse.
  - intros s t key value (ps&segs&Hse&_) Hg. apply (se_fit _ _ _ _ _ Hse).
    rewrite kv_get_map in Hg. by apply elem_of_list_to_map_2.
  - intros s t key value (ps&segs&Hse&Ha&Hr) Hb Hfit. pose proof (se_last _ _ _ _ _ Hse) as Hl.
    pose proof (h_len _ _ (se_hist _ _ _ _ _ Hse)) as HL.
    destruct (Store_Put_spec s ps segs _ _ key value Hse) as (s'&ps'&segs'&E&W); [lia|done|].
    exists s', (push [(flagLive, key, value)] t). split_and!; [done|by eapply written_simulates|].
    by apply (extends_push t (flagLive, key, value)).
  - intros s t key (ps&segs&Hse&Ha&Hr) Hb Hfit. pose proof (se_last _ _ _ _ _ Hse) as Hl.
    pose proof (h_len _ _ (se_hist _ _ _ _ _ Hse)) as HL.
    destruct (Store_Delete_spec s ps segs _ _ key Hse) as (s'&ps'&segs'&E&W); [lia|done|].
    exists s', (push [(flagTombstone, key, [])] t). split_and!; [done|by eapply written_simulates|].
    by apply (extends_push t (flagTombstone, key, [])).
Qed.
