(* ===== verification/StoreReopen.v ===== *)
(** * A store across sessions

    What a store keeps when it is closed and opened again, any number of times. A
    store that was opened with an index file keeps no chain to append to, so its
    version history and its page chain no longer agree with its contents
    ([StoreRecovery.reopened_writes_unlinked]); what does agree is the index.
    [durable] states that much, is preserved by every operation and by reopening,
    and is enough for a client that does not read at snapshots: it satisfies
    [StoreContract]'s interface. *)
From S2P Require Import Prelude OrderedMap Page BufferPool Pager BTree BTreeInv BTreeProofs Wal Record Store StoreInv StoreProofs StoreSpec StoreRecovery StoreContract.

(** ** Every page leads to the end of a chain *)

(** Next pointers lead forward, so following them ends. *)
Lemma chain_from ps (i : nat) :
  pages_valid ps -> (i < length ps)%nat ->
  exists segs, segs <> [] /\ chain_seg ps (Z.of_nat i) segs NoPage /\ NoDup segs.*1 /\ Forall (fun j => Z.of_nat i <= j) segs.*1.
Proof.
  intros Hv. assert (forall fuel i, (length ps - i <= fuel)%nat -> (i < length ps)%nat ->
    exists segs, segs <> [] /\ chain_seg ps (Z.of_nat i) segs NoPage /\ NoDup segs.*1 /\ Forall (fun j => Z.of_nat i <= j) segs.*1) as H.
  { induction fuel as [|fuel IH]; intros j Hf Hj; [lia|]. destruct (lookup_lt_is_Some_2 ps j Hj) as [p Hp].
    destruct (Hv j p Hp) as (_&(rs&Hrs)&[Hn|Hn]).
    - exists [(Z.of_nat j, rs)]. split_and!; [done| |apply NoDup_singleton|by constructor].
      cbn. rewrite Nat2Z.id. split_and!; [done|lia|]. by exists p.
    - destruct (IH (Z.to_nat (NextPageID p))) as (segs&Hne&Hc&Hd&Hge); [lia|unfold len in Hn; lia|]. rewrite Z2Nat.id in Hc, Hge by lia.
      exists ((Z.of_nat j, rs) :: segs). cbn [fmap list_fmap fst]. split_and!; [done| | |].
      + cbn. rewrite Nat2Z.id. split_and!; [done|lia|]. by exists p.
      + apply NoDup_cons. split; [|done]. intros Hin. rewrite Forall_forall in Hge. specialize (Hge _ Hin). lia.
      + constructor; [done|]. eapply Forall_impl; [exact Hge|]. cbn. lia. }
  intros Hi. by apply (H (length ps)); [lia|].
Qed.

Section reopening.
Context `{Codec : IndexCodec}.

(** The entries [m]; at most [n] pages and entries. *)
Record keeps (s : Store) (ps : list Page) (segs : list (Z * list lrec)) (m : kvs) (n : Z) : Prop := {
  ke_ok : store_ok s ps segs m;
  ke_fit k v : (k, v) ∈ m -> fits (flagLive, k, v);
  ke_pages : len ps <= n;
  ke_entries : len m <= n
}.

(** ** Appending *)

Lemma append_full_keeps s ps segs m n r :
  keeps s ps segs m n -> n + 1 < 2 ^ 32 - 1 -> fits r ->
  exists s' ps' segs', append_full r s = (Ok tt, s') /\ keeps s' ps' segs' (apply_rec r m) (n + 1) /\
    log s' = log s /\ activeSnapshots s' = activeSnapshots s.
Proof.
  intros [Hok Hfit Hp He] Hb Hr. destruct r as [[flag key] value]. unfold append_full.
  destruct (append_spec s ps segs m key value flag Hok) as (s1&ps1&segs1&m1&E1&A); [lia|done|].
  rewrite (bind_ok _ _ _ _ _ E1). pose proof (ap_pages _ _ _ _ _ _ _ _ _ A). pose proof (apply_rec_length (flag, key, value) m) as Hl.
  assert (forall s2, store_ok s2 ps1 segs1 (apply_rec (flag, key, value) m) -> keeps s2 ps1 segs1 (apply_rec (flag, key, value) m) (n + 1)) as Hk.
  { intros s2 Hok2. split; [done|by apply apply_rec_fit|lia|unfold len in *; lia]. }
  case_decide as Hf.
  - subst flag. pose proof (index_after_live _ _ _ _ (ap_index _ _ _ _ _ _ _ _ _ A)) as ->.
    exists s1, ps1, segs1. split_and!; [done|by apply Hk, A|apply A..].
  - destruct (delete_spec _ _ key (so_index _ _ _ _ (ap_ok _ _ _ _ _ _ _ _ _ A))) as (t&Ed&Hd).
    rewrite (index_after_del _ _ _ _ _ Hf (ap_index _ _ _ _ _ _ _ _ _ A)) in Hd.
    exists (set_index t s1), ps1, segs1. rewrite (bind_ok _ _ _ _ _ (on_index_ok _ _ _ _ Ed)).
    split_and!; [done|eapply Hk, store_ok_index; [apply A|done]|apply A..].
Qed.

Lemma append_all_keeps rs s ps segs m n :
  keeps s ps segs m n -> n + len rs < 2 ^ 32 - 1 -> Forall fits rs ->
  exists s' ps' segs', append_all rs s = (Ok tt, s') /\ keeps s' ps' segs' (state_after m rs) (n + len rs) /\
    log s' = log s /\ activeSnapshots s' = activeSnapshots s.
Proof.
  intros Hk Hb Hfit. revert s ps segs m n Hk Hb. induction Hfit as [|r rs Hr _ IH]; intros s ps segs m n Hk Hb.
  { exists s, ps, segs. change (len []) with 0. rewrite Z.add_0_r. done. }
  change (len (r :: rs)) with (Z.of_nat (S (length rs))) in *.
  destruct (append_full_keeps s ps segs m n r Hk) as (s1&ps1&segs1&E1&Hk1&L1&A1); [lia|done|].
  destruct (IH s1 ps1 segs1 _ _ Hk1) as (s2&ps2&segs2&E2&Hk2&L2&A2); [unfold len in *; lia|].
  exists s2, ps2, segs2. cbn [append_all]. rewrite (bind_ok _ _ _ _ _ E1). split_and!; [done| |congruence|congruence].
  replace (n + Z.of_nat (S (length rs))) with (n + 1 + len rs) by (unfold len; lia). done.
Qed.

Lemma keeps_log s ps segs m n w : keeps s ps segs m n -> wal_fault w = None -> keeps (set_log w s) ps segs m n.
Proof. intros [Hok ? ? ?] Hw. split; try done. split; try apply Hok; done. Qed.
Lemma keeps_idx s ps segs m n d : keeps s ps segs m n -> keeps (set_indexFile (MkIdx d None) s) ps segs m n.
Proof. intros [Hok ? ? ?]. split; try done. by apply store_ok_idx. Qed.

(** Logging, appending and saving the index. *)
Lemma write_keeps (lg : M wal unit) (ap : M Store unit) rs ws s ps segs m n :
  keeps s ps segs m n -> n + len rs < 2 ^ 32 - 1 -> Forall fits rs ->
  (forall w, lg (MkWal w None) = (Ok tt, MkWal (w ++ log_bytes ws) None)) -> (forall s, ap s = append_all rs s) ->
  exists s' ps' segs', (_ ← on_log lg; _ ← ap; saveIndex) s = (Ok tt, s') /\ keeps s' ps' segs' (state_after m rs) (n + len rs) /\
    activeSnapshots s' = activeSnapshots s.
Proof.
  intros Hk Hb Hfit Hlg Hap. pose proof (so_wal _ _ _ _ (ke_ok _ _ _ _ _ Hk)) as Hw.
  assert (lg (log s) = (Ok tt, MkWal (wal_file (log s) ++ log_bytes ws) None)) as El.
  { destruct (log s) as [wf wfl]. cbn in Hw. subst wfl. apply Hlg. }
  rewrite (bind_ok _ _ _ _ _ (on_log_ok _ _ _ _ El)). set (s0 := set_log _ s).
  destruct (append_all_keeps rs s0 ps segs m n) as (s1&ps1&segs1&E1&Hk1&L1&A1); [by apply keeps_log|done|done|].
  rewrite <- Hap in E1. rewrite (bind_ok _ _ _ _ _ E1). pose proof (ke_ok _ _ _ _ _ Hk1) as Hok1.
  rewrite (saveIndex_ok s1 (state_after m rs)) by apply Hok1. do 3 eexists. split; [reflexivity|]. split; [by apply keeps_idx|done].
Qed.

(** ** The interface *)

(** The store stands for the last state of [t], which has had at least as many
    states as the file has pages. *)
Definition durable (s : Store) (t : spec_state) : Prop :=
  states t <> [] /\ (exists ps segs, keeps s ps segs (current t) (len (states t) - 1)) /\ activeSnapshots s = readers t /\ 0 <= readers t.

Lemma states_last t : states t <> [] -> last (states t) = Some (current t).
Proof. intros Hne. unfold current. destruct (last (states t)) eqn:E; [done|]. by apply last_None in E. Qed.

Lemma push_durable s s' t rs ps segs :
  states t <> [] -> keeps s' ps segs (state_after (current t) rs) (len (states t) - 1 + len rs) -> activeSnapshots s' = activeSnapshots s ->
  activeSnapshots s = readers t -> 0 <= readers t -> durable s' (push rs t).
Proof.
  intros Hne Hk Ha Hr H0. split_and!; [cbn; by destruct (states t)| |cbn; congruence|done].
  exists ps, segs. rewrite push_length. unfold current at 1. cbn [push states].
  rewrite (state_after_last (current t)) by (by apply states_last).
  by replace (len (states t) + len rs - 1) with (len (states t) - 1 + len rs) by lia.
Qed.

Lemma small_record f k v : fits (f, k, v) -> len k + len v < 2 ^ 32.
Proof. unfold fits, PageSize, HeaderSize, rec_size, recordHeaderSize. lia. Qed.

Lemma Put_durable s t key value :
  durable s t -> len (states t) + 1 < 2 ^ 32 - 1 -> fits (flagLive, key, value) ->
  exists s', Put key value s = (Ok tt, s') /\ durable s' (push [(flagLive, key, value)] t).
Proof.
  intros (Hne&(ps&segs&Hk)&Ha&Hr) Hb Hfit. unfold Put.
  assert (Wal.append walPut key value (log s) = (Ok tt, MkWal (wal_file (log s) ++ log_bytes [(walPut, key, value)]) None)) as El.
  { pose proof (so_wal _ _ _ _ (ke_ok _ _ _ _ _ Hk)) as Hw. destruct (log s) as [wf wfl]. cbn in Hw. subst wfl. by eapply append_ok, small_record. }
  rewrite (bind_ok _ _ _ _ _ (on_log_ok _ _ _ _ El)). set (s0 := set_log _ s).
  assert (keeps s0 ps segs (current t) (len (states t) - 1)) as Hk0 by (by apply keeps_log).
  destruct (append_full_keeps s0 ps segs _ _ (flagLive, key, value) Hk0) as (s1&ps1&segs1&E1&Hk1&L1&A1); [lia|done|].
  exists s1. split; [|by eapply (push_durable s s1 t [(flagLive, key, value)])].
  cbn [append_full] in E1. rewrite decide_True in E1 by done. cbv [mbind M_bind mret M_ret] in E1.
  by destruct (append key value flagLive s0) as [[[]| | |] s2].
Qed.

Lemma Delete_durable s t key :
  durable s t -> len (states t) + 1 < 2 ^ 32 - 1 -> fits (flagTombstone, key, []) ->
  exists s', Store.Delete key s = (Ok tt, s') /\ durable s' (push [(flagTombstone, key, [])] t).
Proof.
  intros (Hne&(ps&segs&Hk)&Ha&Hr) Hb Hfit.
  destruct (write_keeps (Wal.append walDelete key []) (append_full (flagTombstone, key, [])) [(flagTombstone, key, [])] [(walDelete, key, [])] s ps segs _ _ Hk)
    as (s'&ps'&segs'&E&Hk'&A').
  - change (len [_]) with 1. lia.
  - by constructor.
  - intros w. by eapply append_ok, small_record.
  - intros s0. cbn [append_all]. cbv [mbind M_bind mret M_ret]. by destruct (append_full _ s0) as [[[]| | |] s1].
  - exists s'. split; [|by eapply (push_durable s s' t)]. rewrite <- E. unfold Store.Delete. apply bind_ext. intros _ s0.
    unfold append_full. rewrite bind_assoc. apply bind_ext. intros _ s1. rewrite decide_False by done. rewrite bind_assoc. by apply bind_ext.
Qed.

Lemma ApplyBatch_durable s t id ops :
  durable s t -> len (states t) + len ops < 2 ^ 32 - 1 -> Forall fits (op_rec <$> ops) ->
  exists s', ApplyBatch id ops s = (Ok tt, s') /\ durable s' (push (op_rec <$> ops) t).
Proof.
  intros (Hne&(ps&segs&Hk)&Ha&Hr) Hb Hfit.
  destruct (write_keeps (appendTransaction id ops) (applyOps ops) (op_rec <$> ops) (cmd_recs (CTx id ops)) s ps segs _ _ Hk)
    as (s'&ps'&segs'&E&Hk'&A').
  - unfold len in *. rewrite length_fmap. lia.
  - done.
  - intros w. apply (run_cmd_ok (CTx id ops)). cbn. rewrite Forall_fmap in Hfit. eapply Forall_impl; [exact Hfit|].
    intros op Ho. unfold fits, op_rec, op_fits, PageSize, HeaderSize in *. cbn in Ho. unfold recordHeaderSize in Ho. lia.
  - apply applyOps_all.
  - exists s'. split; [done|by eapply (push_durable s s' t)].
Qed.

Lemma durable_reads s t : durable s t -> store_reads s (current t).
Proof. intros (_&(ps&segs&Hk)&_). exists ps, segs. apply Hk. Qed.

#[global] Instance durable_contract : StoreWrites store_reads durable.
Proof.
  split.
  - apply durable_reads.
  - intros s t key value (_&(ps&segs&Hk)&_) Hg. apply (ke_fit _ _ _ _ _ Hk). rewrite kv_get_map in Hg. by apply elem_of_list_to_map_2.
  - intros s t key value Hd Hb Hfit. destruct (Put_durable s t key value Hd Hb Hfit) as (s'&E&Hd').
    exists s', (push [(flagLive, key, value)] t). split_and!; [done|done|]. apply (extends_push t (flagLive, key, value)), states_last, Hd.
  - intros s t key Hd Hb Hfit. destruct (Delete_durable s t key Hd Hb Hfit) as (s'&E&Hd').
    exists s', (push [(flagTombstone, key, [])] t). split_and!; [done|done|]. apply (extends_push t (flagTombstone, key, [])), states_last, Hd.
Qed.

Lemma begin_durable s t :
  durable s t -> exists s', BeginSnapshot s = (Ok (seq s), s') /\ durable s' (MkSpec (states t) (u64 (readers t + 1))).
Proof.
  intros (Hne&(ps&segs&Hk)&Ha&Hr). eexists. split; [reflexivity|]. split_and!; [done| |cbn; by rewrite Ha|cbn; apply Z.mod_pos_bound; lia].
  exists ps, segs. destruct Hk as [Hok ? ? ?]. split; try done. split; try apply Hok; done.
Qed.

Lemma release_durable s t n :
  durable s t -> exists s', ReleaseSnapshot n s = (Ok tt, s') /\ durable s' (MkSpec (states t) (if decide (readers t > 0) then readers t - 1 else readers t)).
Proof.
  intros (Hne&(ps&segs&Hk)&Ha&Hr). eexists. split; [reflexivity|]. rewrite Ha. case_decide; [|by split_and!; [|exists ps, segs|..]].
  split_and!; [done| |done|cbn; lia]. exists ps, segs. destruct Hk as [Hok ? ? ?]. split; try done. split; try apply Hok; done.
Qed.

(** A store with its whole history is durable. *)
Lemma simulates_durable s t : simulates s t -> durable s t.
Proof.
  intros (ps&segs&Hse&Ha&Hr). pose proof (h_len _ _ (se_hist _ _ _ _ _ Hse)) as HL. pose proof (h_seq _ _ (se_hist _ _ _ _ _ Hse)).
  split_and!; [intros E; rewrite E in HL; change (len []) with 0 in HL; lia| |done|done].
  exists ps, segs. split; [apply Hse|apply Hse|pose proof (se_pages _ _ _ _ _ Hse); lia|pose proof (se_entries _ _ _ _ _ Hse); lia].
Qed.

(** ** Flushing, closing and opening *)

Lemma Flush_keeps s ps segs m n :
  keeps s ps segs m n ->
  exists s', Flush s = (Ok tt, s') /\ keeps s' ps segs m n /\ activeSnapshots s' = activeSnapshots s /\
    log s' = MkWal [] None /\ indexFile s' = MkIdx (Some (gob_encode m)) None.
Proof.
  intros [Hok ? ? ?]. destruct (Flush_ok _ _ _ _ Hok) as (p1&E1&R1&H1&_).
  eexists. split; [exact E1|]. split; [|done]. split; try done. split; cbn; try apply Hok; try done.
Qed.

Lemma Close_keeps s ps segs m n :
  keeps s ps segs m n -> n < 2 ^ 32 - 1 ->
  exists s' db, Store.Close s = (Ok tt, s') /\ disk_pages db ps /\ files_of s' = MkFiles db (MkWal [] None) (MkIdx (Some (gob_encode m)) None).
Proof.
  intros [Hok _ Hp _] Hn. apply (Store_Close_ok s ps segs m); [done|lia].
Qed.

(** Opening with an index file, whatever is on the chain at page 0. *)
Lemma Open_keeps `{!IndexCodecLaws} db ps m :
  disk_pages db ps -> sorted_keys m ->
  exists s, Open (MkFiles db (MkWal [] None) (MkIdx (Some (gob_encode m)) None)) = (Ok s, files_of s) /\
    store_ok s ps [] m /\ activeSnapshots s = 0.
Proof.
  intros Hd Hsm. destruct (disk_open db ps Hd) as (p&E&R&Hh&_). destruct Hd as (_&_&_&Hv&_).
  set (s0 := opened p (MkWal [] None) (MkIdx (Some (gob_encode m)) None)).
  destruct (validatePages_ok s0 ps R Hh Hv) as (p1&E1&R1&H1).
  destruct (loadIndex_ok (set_pager p1 s0) m None Hsm eq_refl eq_refl) as (t&E2&Ht). set (s1 := set_index t (set_pager p1 s0)) in *.
  assert (exists s2, (if decide (NumPages p1 > 0 /\ true = true) then rebuildVersions else mret tt) s1 = (Ok tt, s2) /\
    store_ok s2 ps [] m /\ activeSnapshots s2 = 0) as (s2&E3&Hok2&Ha2).
  { assert (store_ok s1 ps [] m) as Hok1 by (by split). case_decide as Hnum; [|by exists s1].
    destruct (chain_from ps 0 Hv) as (segs&Hne&Hc&Hnd&_); [unfold NumPages in Hnum; rewrite (rep_num _ _ R1) in Hnum; unfold len in Hnum; lia|].
    unfold rebuildVersions. rewrite bind_get.
    destruct (rebuild_loop_spec (S (Z.to_nat (NumPages (pager s1)))) (firstPage s1) rebuildVersions_body (fun _ => True) (versions_rebuilt s1) segs [] s1 ps
      (versions_blind s1) (versions_body s1)) as (s2&E3&(B1&B2&B3&B4&B5&B6&B7)&R2&H2); try done.
    { split_and!; try done. intros _. apply history_empty. }
    { by apply Forall_forall. }
    { apply chain_seg_length in Hc; [|done]. unfold NumPages. cbn. rewrite (rep_num _ _ R1). unfold len. lia. }
    exists s2. split_and!; [done| |by rewrite B7]. split; try done; [by rewrite B6|by rewrite B2|by rewrite B4|by rewrite B3]. }
  exists s2. split; [|done]. eapply Open_unfold; [exact E|]. cbn [wal_data idx_file]. fold s0. unfold openSteps.
  rewrite (bind_ok _ _ _ _ _ (wrap_ok _ _ _ _ _ E1)), (bind_ok _ _ _ _ _ (wrap_ok _ _ _ _ _ E2)), bind_get. fold s1.
  erewrite bind_ok by (apply wrap_ok; reflexivity). rewrite bind_get.
  rewrite decide_False by (by intros [_ ?]). rewrite bind_ret, bind_get. by rewrite (bind_ok _ _ _ _ _ E3).
Qed.

(** Closing and opening again keeps the state and forgets the readers. *)
Lemma reopen_durable `{!IndexCodecLaws} s t :
  durable s t -> len (states t) < 2 ^ 32 - 1 ->
  exists s' s1, Store.Close s = (Ok tt, s') /\ Open (files_of s') = (Ok s1, files_of s1) /\ durable s1 (MkSpec (states t) 0).
Proof.
  intros (Hne&(ps&segs&Hk)&_) Hb. destruct (Close_keeps s ps segs _ _ Hk) as (s'&db&Ec&Hd&Ef); [lia|].
  destruct (Open_keeps db ps (current t) Hd) as (s1&Eo&Hok1&Ha1); [by eapply bt_rep_sorted, so_index, Hk|].
  exists s', s1. rewrite Ef. split_and!; [done|done|]. split_and!; [done| |done|done]. exists ps, []. destruct Hk as [_ H1 H2 H3]. by split.
Qed.

Lemma Compact_durable s t :
  durable s t -> readers t = 0 -> len (states t) < 2 ^ 32 - 1 -> exists s', Compact s = (Ok tt, s') /\ durable s' t.
Proof.
  intros (Hne&(ps&segs&Hk)&Ha&Hr) H0 Hb. pose proof (ke_entries _ _ _ _ _ Hk).
  destruct (Compact_ok s ps segs _ (ke_ok _ _ _ _ _ Hk) (ke_fit _ _ _ _ _ Hk)) as (s'&ps'&segs'&E&Hok'&_&L&_&A&_); [lia|lia|].
  exists s'. split; [done|]. split_and!; [done| |congruence|done]. exists ps', segs'. destruct Hk as [_ H1 H2 H3]. split; try done. lia.
Qed.
End reopening.

(** ** The life of a store *)

(** A call, or closing the store and opening its files again. *)
Inductive life_op := Call (o : store_op) | Reopen.

(** Snapshots do not outlive a session. *)
Definition snapshot_free (o : store_op) : bool := match o with StoreSpec.SBegin | SGetAt _ _ | SRelease _ => false | _ => true end.

Definition life_ok (o : life_op) : Prop := match o with Call o => store_op_ok o /\ snapshot_free o = true | Reopen => True end.
Definition life_recs (o : life_op) : Z := match o with Call o => len (op_recs o) | Reopen => 0 end.
Definition total_life (os : list life_op) : Z := foldr (fun o n => life_recs o + n) 0 os.

Section life.
Context `{Codec : IndexCodec}.

Definition life_step (o : life_op) : M Store store_res :=
  match o with
  | Call o => store_step o
  | Reopen => fun s =>
      match Store.Close s with
      | (Ok _, s') =>
          match Open (files_of s') with
          | (Ok s1, _) => (Ok RDone, s1)
          | (Err err, _) => (Err err, s')
          | (Panic, _) => (Panic, s')
          | (NoFuel, _) => (NoFuel, s')
          end
      | (Err err, s') => (Err err, s')
      | (Panic, s') => (Panic, s')
      | (NoFuel, s') => (NoFuel, s')
      end
  end.
Fixpoint life_run (os : list life_op) (s : Store) : list (outcome store_res) * Store :=
  match os with
  | [] => ([], s)
  | o :: os => let '(r, s) := life_step o s in let '(rs, s) := life_run os s in (r :: rs, s)
  end.

Definition spec_life_step (o : life_op) (t : spec_state) : outcome store_res * spec_state :=
  match o with Call o => spec_step o t | Reopen => (Ok RDone, t) end.
Fixpoint spec_life (os : list life_op) (t : spec_state) : list (outcome store_res) * spec_state :=
  match os with
  | [] => ([], t)
  | o :: os => let '(r, t) := spec_life_step o t in let '(rs, t) := spec_life os t in (r :: rs, t)
  end.

Lemma life_step_refines `{!IndexCodecLaws} o s t :
  durable s t -> readers t = 0 -> life_ok o -> len (states t) + life_recs o < 2 ^ 32 - 1 ->
  exists s', life_step o s = ((spec_life_step o t).1, s') /\ durable s' (spec_life_step o t).2 /\ readers (spec_life_step o t).2 = 0 /\
    len (states (spec_life_step o t).2) = len (states t) + life_recs o.
Proof.
  intros Hd H0 Ho Hb. destruct o as [o|]; cbn [life_step spec_life_step life_recs] in *.
  - destruct Ho as [[Hfit _] Hfree]. pose proof (proj1 (spec_step_size o t)) as Hsz. pose proof Hd as (Hne&(ps&segs&Hk)&Ha&_).
    destruct o as [key value|key|id ops|key| |n key|n| |]; try done; cbn [store_step spec_step fst snd op_recs] in *; cbv [fmap M_fmap].
    + destruct (Put_durable s t key value Hd) as (s'&E&Hd'); [done|by inversion Hfit|]. exists s'. rewrite (bind_ok _ _ _ _ _ E). by split_and!.
    + destruct (Delete_durable s t key Hd) as (s'&E&Hd'); [done|by inversion Hfit|]. exists s'. rewrite (bind_ok _ _ _ _ _ E). by split_and!.
    + destruct (ApplyBatch_durable s t id ops Hd) as (s'&E&Hd'); [unfold len in *; by rewrite length_fmap in Hb|done|].
      exists s'. rewrite (bind_ok _ _ _ _ _ E). by split_and!.
    + exists s. rewrite (bind_ok _ _ _ _ _ (store_ok_Get _ _ _ _ key (ke_ok _ _ _ _ _ Hk))). by split_and!.
    + destruct (Flush_keeps s ps segs _ _ Hk) as (s'&E&Hk'&A'&_). exists s'. rewrite (bind_ok _ _ _ _ _ E). split_and!; try done.
      split_and!; [done|by exists ps, segs|congruence|lia].
    + rewrite decide_False by lia. destruct (Compact_durable s t Hd H0) as (s'&E&Hd'); [change (len []) with 0 in Hb; lia|].
      exists s'. rewrite (bind_ok _ _ _ _ _ E). by split_and!.
  - destruct (reopen_durable s t Hd) as (s'&s1&Ec&Eo&Hd'); [lia|]. exists s1. rewrite Ec, Eo. cbn [fst snd]. split_and!; [done| |done|lia].
    destruct t as [l r]. cbn in *. by subst r.
Qed.

Lemma total_life_nonneg os : 0 <= total_life os.
Proof.
  induction os as [|o os IH]; [done|]. change (total_life (o :: os)) with (life_recs o + total_life os).
  assert (0 <= life_recs o) by (destruct o; cbn; [apply len_nonneg|done]). lia.
Qed.

Lemma spec_life_size os t : len (states (spec_life os t).2) = len (states t) + total_life os.
Proof.
  revert t. induction os as [|o os IH]; intros t; cbn [spec_life]; [cbn; lia|].
  change (total_life (o :: os)) with (life_recs o + total_life os). specialize (IH (spec_life_step o t).2).
  assert (len (states (spec_life_step o t).2) = len (states t) + life_recs o) as H1.
  { destruct o as [o|]; cbn [spec_life_step life_recs snd]; [apply spec_step_size|lia]. }
  destruct (spec_life_step o t) as [r t1]. cbn [snd] in *. destruct (spec_life os t1) as [rs t2]. cbn [snd] in *. lia.
Qed.

Lemma life_run_refines `{!IndexCodecLaws} os s t :
  durable s t -> readers t = 0 -> Forall life_ok os -> len (states t) + total_life os < 2 ^ 32 - 1 ->
  exists s', life_run os s = ((spec_life os t).1, s') /\ durable s' (spec_life os t).2.
Proof.
  intros Hd H0 Hok. revert s t Hd H0. induction Hok as [|o os Ho _ IH]; intros s t Hd H0 Hb; cbn [life_run spec_life]; [by exists s|].
  cbn [total_life foldr] in Hb. fold (total_life os) in Hb. pose proof (total_life_nonneg os).
  destruct (life_step_refines o s t Hd H0 Ho) as (s1&E1&Hd1&Hr1&L1); [lia|]. rewrite E1. destruct (spec_life_step o t) as [r t1]. cbn [fst snd] in *.
  destruct (IH s1 t1 Hd1 Hr1) as (s2&E2&Hd2); [lia|]. rewrite E2. exists s2. by destruct (spec_life os t1).
Qed.

(** The life of a database from its creation on. *)
Lemma life_from_fresh `{!IndexCodecLaws} os s0 :
  Forall life_ok os -> total_life os + 1 < 2 ^ 32 - 1 -> Open fresh_files = (Ok s0, files_of s0) ->
  exists s, life_run os s0 = ((spec_life os (MkSpec [[]] 0)).1, s) /\ durable s (spec_life os (MkSpec [[]] 0)).2 /\
    len (states (spec_life os (MkSpec [[]] 0)).2) = total_life os + 1.
Proof.
  intros Hok Hb E0. destruct Open_fresh as (s0'&E0'&Hs0). assert (s0' = s0) as -> by congruence.
  destruct (life_run_refines os s0 (MkSpec [[]] 0)) as (s&E&Hd); [by apply simulates_durable|done|done|change (len (states (MkSpec [[]] 0))) with 1; lia|].
  exists s. split_and!; [done|done|]. rewrite spec_life_size. change (len (states (MkSpec [[]] 0))) with 1. lia.
Qed.
End life.

(** C10: a store keeps its contents over its whole life: from a fresh database, every
    sequence of puts, deletes, batches, reads, flushes and compactions, interrupted
    by closing and opening the files any number of times, is answered as if the
    store had never been closed. *)
Theorem store_survives_reopening `{Codec : IndexCodec} `{!IndexCodecLaws} (os : list life_op)
    (Hok : Forall life_ok os) (Hrecs : total_life os + 1 < 2 ^ 32 - 1) :
  exists s0 s', Open fresh_files = (Ok s0, files_of s0) /\ life_run os s0 = ((spec_life os (MkSpec [[]] 0)).1, s') /\
    forall key, Store.Get key s' = (Ok (kv_get key (current (spec_life os (MkSpec [[]] 0)).2)), s').
Proof.
  destruct Open_fresh as (s0&E0&Hs0). exists s0. destruct (life_run_refines os s0 (MkSpec [[]] 0)) as (s'&E&Hd).
  - by apply simulates_durable.
  - done.
  - done.
  - change (len (states (MkSpec [[]] 0))) with 1. lia.
  - exists s'. split_and!; [done|done|]. intros key. apply durable_reads in Hd as (ps&segs&Hk). by eapply store_ok_Get.
Qed.

Definition demo_life : list life_op :=
  [Call (SPut [Byte.x61] [Byte.x31]); Call (SPut [Byte.x62] [Byte.x32]); Reopen; Call (StoreSpec.SDelete [Byte.x61]); Call (SPut [Byte.x63] []); Reopen;
   Call SCompact; Call (SPut [Byte.x64] [Byte.x34]); Reopen; Reopen; Call (SBatch 1 [MkOp [Byte.x65] [Byte.x35] false; MkOp [Byte.x62] [] true]); Call SFlush;
   Call (SGet [Byte.x61]); Call (SGet [Byte.x63])].

Lemma demo_life_ok : Forall life_ok demo_life.
Proof. repeat (constructor; [first [exact I|split; [split; [repeat (constructor; [vm_compute; discriminate|]); constructor|exact I]|reflexivity]]|]); constructor. Qed.

Lemma store_survives_reopening_witness :
  exists s0 s', Open fresh_files = (Ok s0, files_of s0) /\ life_run demo_life s0 = ((spec_life demo_life (MkSpec [[]] 0)).1, s') /\
    forall key, Store.Get key s' = (Ok (kv_get key (current (spec_life demo_life (MkSpec [[]] 0)).2)), s').
Proof.
  apply (store_survives_reopening demo_life); [exact demo_life_ok|vm_compute; reflexivity].
Defined.

(** ** Opening without the index file *)

Section pages.
Context `{Codec : IndexCodec}.

Lemma disk_pages_nil db : disk_pages db [] -> db = MkFile [] None false.
Proof.
  intros ([Hw Ho]&Hl&_). destruct db as [c w o]. cbn in *. subst. f_equal. apply nil_length_inv. unfold len in Hl. cbn in Hl. lia.
Qed.

(** The pages of a first session hold the whole contents. *)
Lemma session_pages s t :
  simulates s t -> seq s < 2 ^ 32 - 1 ->
  exists s' db ps s2, Close s = (Ok tt, s') /\ files_of s' = MkFiles db (MkWal [] None) (MkIdx (Some (gob_encode (current t))) None) /\
    disk_pages db ps /\ Open (drop_index (files_of s')) = (Ok s2, files_of s2) /\ store_reads s2 (current t) /\
    forall k, seen (GetAt (seq s2) k s2) = kv_get k (current t).
Proof.
  intros (ps&segs&Hse&_&_) Hb. pose proof (se_ok _ _ _ _ _ Hse) as Hok. pose proof (se_recs _ _ _ _ _ Hse) as Hrecs.
  destruct (Store_Close_spec s ps segs _ _ Hse Hb) as (s'&db&Ec&Hd&Ef). exists s', db, ps. rewrite Ef. unfold drop_index. cbn [db_file wal_data].
  pose proof (so_chain _ _ _ _ Hok) as Hc. pose proof (se_root _ _ _ _ _ Hse) as Hr. pose proof (se_log _ _ _ _ _ Hse) as Hlog. destruct (hasPages s).
  - rewrite Hr in Hc. destruct Hc as (Hne&Hc&Hnd).
    destruct (Open_pages db ps segs Hd Hne Hc Hnd (se_flags _ _ _ _ _ Hse)) as (s2&E2&Hok2&Hh2&_); [lia|]. rewrite Hlog in Hok2.
    exists s2. split_and!; try done; [apply Hd..|by exists ps, segs|]. intros k.
    pose proof (replayed_last (chain_recs segs)) as Hl. rewrite Hlog, last_lookup in Hl.
    apply (h_at _ _ Hh2) with (key := k) in Hl. rewrite <- Hl. do 2 f_equal.
    pose proof (h_len _ _ Hh2) as HL. pose proof (h_seq _ _ Hh2). unfold len in HL. lia.
  - subst ps segs. apply disk_pages_nil in Hd as Hdb. subst db. destruct Open_fresh as (s2&E2&(ps2&segs2&Hse2&_)). exists s2.
    assert (current t = []) as -> by done. split_and!; try done; [apply Hd..|exists ps2, segs2; apply Hse2|]. intros k.
    pose proof (se_hist _ _ _ _ _ Hse2) as Hh. pose proof (h_len _ _ Hh) as HL. change (len (states (MkSpec [[]] 0))) with 1 in HL.
    replace (seq s2) with (Z.of_nat 0) by lia. by rewrite (h_at _ _ Hh 0 [] k eq_refl).
Qed.
End pages.

(** C12: in the first session of a database a clean close loses nothing: after any
    calls from its creation on (whose records fit a page), [Close] succeeds and opening
    the files gives every key its value, both with the index file and, when that
    file is gone, from the pages alone; in the second case reads at the last sequence
    number see the same state too. With the index file this holds after any number of
    sessions ([store_survives_reopening]); from the pages alone it does not, since a
    store that was opened with its index file starts a chain of its own
    ([StoreRecovery.reopened_writes_unlinked]). *)
Theorem store_close_reopen `{Codec : IndexCodec} `{!IndexCodecLaws} (os : list store_op) (s0 : Store)
    (Hnew : Open fresh_files = (Ok s0, files_of s0)) (Hok : Forall store_op_ok os)
    (Hrecs : total_recs os + 1 < 2 ^ 32 - 1) (Hops : len os < 2 ^ 64) :
  let m := current (spec_run os (MkSpec [[]] 0)).2 in
  exists s s' s1 s2, store_run os s0 = ((spec_run os (MkSpec [[]] 0)).1, s) /\ Store.Close s = (Ok tt, s') /\
    Open (files_of s') = (Ok s1, files_of s1) /\ Open (drop_index (files_of s')) = (Ok s2, files_of s2) /\
    (forall k, Store.Get k s1 = (Ok (kv_get k m), s1)) /\ (forall k, Store.Get k s2 = (Ok (kv_get k m), s2)) /\
    (forall k, seen (GetAt (seq s2) k s2) = kv_get k m).
Proof.
  intros m. destruct Open_fresh as (s0'&E0&Hs0). assert (s0' = s0) as -> by congruence. assert (len (states (MkSpec [[]] 0)) = 1) as H1 by done.
  destruct (store_run_refines os s0 _ Hs0 Hok) as (s&E&Hs); [lia|cbn [readers]; lia|]. destruct (spec_run_size os (MkSpec [[]] 0)) as [Hz _].
  assert (seq s < 2 ^ 32 - 1) as Hb.
  { destruct Hs as (ps&segs&Hse&_). pose proof (h_len _ _ (se_hist _ _ _ _ _ Hse)). lia. }
  destruct (session_pages s _ Hs Hb) as (s'&db&ps&s2&Ec&Ef&Hd&E2&Hr2&Hat).
  destruct (Open_keeps db ps m Hd) as (s1&E1&Hok1&_).
  { destruct Hs as (ps0&segs&Hse&_). eapply bt_rep_sorted, so_index, Hse. }
  exists s, s', s1, s2. unfold m in E1. rewrite <- Ef in E1. split_and!; try done; intros k; [by eapply store_ok_Get|by apply (sr_get (reads := store_reads))].
Qed.

Definition two_puts : list store_op := [SPut [Byte.x61] [Byte.x31]; SPut [Byte.x62] [Byte.x32]; SDelete [Byte.x61]].


Lemma store_close_reopen_witness :
  exists s0, Open fresh_files = (Ok s0, files_of s0) /\
    exists s s' s1 s2, store_run two_puts s0 = ((spec_run two_puts (MkSpec [[]] 0)).1, s) /\ Store.Close s = (Ok tt, s') /\
      Open (files_of s') = (Ok s1, files_of s1) /\ Open (drop_index (files_of s')) = (Ok s2, files_of s2) /\
      (forall k, Store.Get k s1 = (Ok (kv_get k (current (spec_run two_puts (MkSpec [[]] 0)).2)), s1)) /\
      (forall k, Store.Get k s2 = (Ok (kv_get k (current (spec_run two_puts (MkSpec [[]] 0)).2)), s2)) /\
      (forall k, seen (GetAt (seq s2) k s2) = kv_get k (current (spec_run two_puts (MkSpec [[]] 0)).2)).
Proof.
  destruct Open_fresh as (s0&E&_). exists s0. split; [exact E|]. apply (store_close_reopen two_puts s0 E); [check_ops|vm_compute; reflexivity|vm_compute; reflexivity].
Defined.
