(* ===== verification/TableInv.v ===== *)
(** * The secondary index and the rows of a table

    The abstract state of a table is a map from primary keys to rows. This file
    relates the nested index maps and the encoded values of the store to it. *)
From S2P Require Import Prelude OrderedMap Page BufferPool Pager BTree Wal Record Store Value RowCodec Table.

Abbreviation rowmap := (gmap bytes Row).

(** ** One column's index *)

(** The keys of the rows with value [v] in column [n]. *)
Definition match_keys (n : bytes) (v : value) (T : rowmap) : gset bytes :=
  dom (filter (fun kr : bytes * Row => indexValue (field n kr.2) = v) T).

Lemma elem_match_keys k n v T : k ∈ match_keys n v T <-> exists r, T !! k = Some r /\ indexValue (field n r) = v.
Proof.
  unfold match_keys. rewrite elem_of_dom. unfold is_Some. setoid_rewrite map_lookup_filter_Some. done.
Qed.

(** No empty set is kept. *)
Definition nonempty (ks : gset bytes) : option (gset bytes) := if decide (ks = ∅) then None else Some ks.

Lemma default_nonempty ks : default ∅ (nonempty ks) = ks.
Proof. unfold nonempty. by case_decide. Qed.

Definition column_index (n : bytes) (T : rowmap) (m : index_map) : Prop :=
  forall v, m !! v = nonempty (match_keys n v T).

Lemma match_keys_insert n v T key row :
  T !! key = None ->
  match_keys n v (<[key := row]> T) = if decide (indexValue (field n row) = v) then {[key]} ∪ match_keys n v T else match_keys n v T.
Proof.
  intros Hn. apply set_eq. intros k. rewrite elem_match_keys. setoid_rewrite lookup_insert_Some.
  case_decide as Hv; rewrite ?elem_of_union, ?elem_of_singleton, elem_match_keys; split.
  - intros (r&[[-> ->]|[_ Hr]]&Hi); eauto.
  - intros [->|(r&Hr&Hi)]; [exists row; auto|]. exists r. split; [right|done]. split; [congruence|done].
  - intros (r&[[-> ->]|[_ Hr]]&Hi); [done|eauto].
  - intros (r&Hr&Hi). exists r. split; [right|done]. split; [congruence|done].
Qed.

Lemma match_keys_delete n v T key : match_keys n v (base.delete key T) = match_keys n v T ∖ {[key]}.
Proof.
  apply set_eq. intros k. rewrite elem_of_difference, elem_of_singleton, !elem_match_keys.
  setoid_rewrite lookup_delete_Some. naive_solver.
Qed.

Lemma index_add_ok n T m key row :
  T !! key = None -> column_index n T m ->
  column_index n (<[key := row]> T) (index_add (indexValue (field n row)) key m).
Proof.
  intros Hn Hm v. unfold index_add. rewrite lookup_insert, match_keys_insert by done. case_decide as Hv; [|by rewrite Hm].
  subst v. rewrite Hm, default_nonempty. unfold nonempty. rewrite decide_False; [done|]. set_solver.
Qed.

Lemma index_remove_ok n T m key row :
  T !! key = Some row -> column_index n T m ->
  column_index n (base.delete key T) (index_remove (indexValue (field n row)) key m).
Proof.
  intros Hr Hm v. unfold index_remove. rewrite Hm, default_nonempty, <- match_keys_delete.
  destruct (decide (indexValue (field n row) = v)) as [<-|Hv].
  - unfold nonempty. case_decide as He; [by rewrite lookup_delete_eq|by rewrite lookup_insert_eq].
  - assert (match_keys n v (base.delete key T) = match_keys n v T) as ->.
    { apply set_eq. intros k. rewrite match_keys_delete, elem_of_difference, elem_of_singleton, elem_match_keys. naive_solver. }
    rewrite <- Hm. case_decide; [by rewrite lookup_delete_ne|by rewrite lookup_insert_ne].
Qed.

(** ** All columns *)

Definition index_ok (cs : list Column) (sec : gmap bytes index_map) (T : rowmap) : Prop :=
  forall n, match sec !! n with
            | Some m => n ∈ cName <$> cs /\ column_index n T m
            | None => n ∉ cName <$> cs
            end.

(** A loop over the columns whose body updates the index of its column. *)
Lemma forColumns_spec (f : bytes -> index_map -> index_map) (body : Column -> M Table unit) (cs : list Column) t :
  (forall c t m, secondary t !! cName c = Some m ->
     body c t = (Ok tt, set_secondary (<[cName c := f (cName c) m]> (secondary t)) t)) ->
  NoDup (cName <$> cs) -> (forall n, n ∈ cName <$> cs -> is_Some (secondary t !! n)) ->
  exists sec, forColumns body cs t = (Ok tt, set_secondary sec t) /\
    forall n, sec !! n = if decide (n ∈ cName <$> cs) then f n <$> secondary t !! n else secondary t !! n.
Proof.
  intros Hb. revert t. induction cs as [|c cs IH]; intros t Hd Hs.
  { exists (secondary t). split; [by destruct t|]. intros n. rewrite decide_False; [done|apply not_elem_of_nil]. }
  cbn [fmap list_fmap] in *. fold (cName <$> cs) in *. apply NoDup_cons in Hd as [Hn Hd].
  destruct (Hs (cName c)) as [m Hm]; [constructor|]. cbn [forColumns]. rewrite (bind_ok _ _ _ _ _ (Hb _ _ _ Hm)).
  set (t1 := set_secondary _ t). destruct (IH t1 Hd) as (sec&E&Hsec).
  { intros n Hin. cbn [t1 set_secondary secondary]. rewrite lookup_insert. case_decide; [by eexists|]. apply Hs. by constructor. }
  exists sec. split; [done|]. intros n. rewrite Hsec. cbn [t1 set_secondary secondary].
  destruct (decide (n = cName c)) as [->|Hne].
  - rewrite decide_False by done. rewrite lookup_insert_eq, decide_True by constructor. by rewrite Hm.
  - rewrite lookup_insert_ne by done. rewrite (decide_ext (n ∈ cName c :: _) (n ∈ cName <$> cs)); [done|].
    rewrite elem_of_cons. naive_solver.
Qed.

Section rows.
Context (t : Table) (T : rowmap) (c0 : Column) (cs : list Column).
Hypothesis Hcols : Columns (tschema t) = c0 :: cs.
Hypothesis Hdup : NoDup (cName <$> cs).
Hypothesis Hidx : index_ok cs (secondary t) T.

Lemma index_ok_domain n : n ∈ cName <$> cs -> is_Some (secondary t !! n).
Proof using Hidx. clear Hcols Hdup. intros Hin. specialize (Hidx n). destruct (secondary t !! n); [by eexists|done]. Qed.

Lemma indexRow_ok key row :
  T !! key = None ->
  exists sec, indexRow key row t = (Ok tt, set_secondary sec t) /\ index_ok cs sec (<[key := row]> T).
Proof using All.
  intros Hn. unfold indexRow. rewrite bind_get. unfold tailColumns. rewrite Hcols. erewrite bind_ok by reflexivity.
  destruct (forColumns_spec (fun n m => index_add (indexValue (field n row)) key m) (indexColumn key row) cs t) as (sec&E&Hsec);
    [|done|apply index_ok_domain|].
  - intros c t' m Hm. unfold indexColumn. by rewrite bind_get, Hm.
  - exists sec. split; [done|]. intros n. rewrite Hsec. specialize (Hidx n).
    destruct (secondary t !! n) as [m|]; [|by case_decide]. destruct Hidx as [Hin Hc].
    rewrite decide_True by done. cbn. split; [done|]. by apply index_add_ok.
Qed.

Lemma unindexRow_ok key row :
  T !! key = Some row ->
  exists sec, unindexRow key row t = (Ok tt, set_secondary sec t) /\ index_ok cs sec (base.delete key T).
Proof using All.
  intros Hn. unfold unindexRow. rewrite bind_get. unfold tailColumns. rewrite Hcols. erewrite bind_ok by reflexivity.
  destruct (forColumns_spec (fun n m => index_remove (indexValue (field n row)) key m) (unindexColumn key row) cs t) as (sec&E&Hsec);
    [|done|apply index_ok_domain|].
  - intros c t' m Hm. unfold unindexColumn. by rewrite bind_get, Hm.
  - exists sec. split; [done|]. intros n. rewrite Hsec. specialize (Hidx n).
    destruct (secondary t !! n) as [m|]; [|by case_decide]. destruct Hidx as [Hin Hc].
    rewrite decide_True by done. cbn. split; [done|]. by apply index_remove_ok.
Qed.
End rows.

Lemma empty_index_ok (cs : list Column) : index_ok cs (empty_index cs) ∅.
Proof.
  intros n. unfold empty_index. destruct (list_to_map _ !! n) as [m|] eqn:E.
  - apply elem_of_list_to_map_2, list_elem_of_fmap in E as (c&[= -> ->]&Hin). split; [apply list_elem_of_fmap; by eexists|].
    intros v. rewrite lookup_empty. unfold nonempty. rewrite decide_True; [done|]. apply set_eq. intros k.
    rewrite elem_match_keys. split; [intros (r&Hr&_); by rewrite lookup_empty in Hr|set_solver].
  - apply not_elem_of_list_to_map in E. by rewrite <- list_fmap_compose in E.
Qed.

(** ** Keys in order *)

Definition sorted_dom {A} (T : gmap bytes A) : list bytes := (foldr (fun k => kv_put k []) [] (elements (dom T))).*1.

Lemma sorted_dom_spec {A} (T : gmap bytes A) (m : kvs) :
  sorted_keys m -> (forall k, k ∈ m.*1 <-> k ∈ dom T) -> m.*1 = sorted_dom T.
Proof.
  intros Hs Hd. unfold sorted_dom.
  assert (forall l : list bytes, sorted_keys (foldr (fun k => kv_put k []) [] l) /\
    forall k, k ∈ (foldr (fun k => kv_put k []) [] l).*1 <-> k ∈ l) as Hf.
  { induction l as [|k0 l [IH1 IH2]]; cbn [foldr]; [split; [constructor|done]|]. split; [by apply kv_put_sorted|].
    intros k. by rewrite kv_put_keys, IH2, elem_of_cons. }
  destruct (Hf (elements (dom T))) as [H1 H2].
  enough (forall m1 m2 : kvs, sorted_keys m1 -> sorted_keys m2 -> (forall k, k ∈ m1.*1 <-> k ∈ m2.*1) -> m1.*1 = m2.*1) as H.
  { apply H; [done|done|]. intros k. by rewrite Hd, H2, elem_of_elements. }
  clear. intros m1 m2 H1 H2 He. set (f := fun kv : bytes * bytes => (kv.1, [] : bytes)).
  assert (forall m : kvs, (f <$> m).*1 = m.*1) as Hf by (intros m; by rewrite <- list_fmap_compose).
  rewrite <- (Hf m1), <- (Hf m2). f_equal. apply sorted_kv_map_inj; [unfold sorted_keys; by rewrite Hf..|].
  apply map_eq. intros k. rewrite <- !kv_get_map.
  assert (forall m : kvs, kv_get k (f <$> m) = if decide (k ∈ m.*1) then Some [] else None) as Hg.
  { induction m as [|[k' v] m IH]; [done|]. cbn [fmap list_fmap f fst kv_get]. fold f. rewrite IH.
    rewrite (decide_ext (k ∈ k' :: m.*1) (k = k' \/ k ∈ m.*1)) by apply elem_of_cons. repeat case_decide; naive_solver. }
  rewrite !Hg. by rewrite (decide_ext (k ∈ m1.*1) (k ∈ m2.*1)) by apply He.
Qed.

Definition scan_rows (T : rowmap) : list Row := omap (fun k => T !! k) (sorted_dom T).

Lemma elem_sorted_dom {A} (k : bytes) (T : gmap bytes A) : k ∈ sorted_dom T <-> is_Some (T !! k).
Proof.
  unfold sorted_dom. rewrite <- elem_of_dom. rewrite <- (elem_of_elements (dom T)). induction (elements (dom T)) as [|k0 l IH]; [done|].
  cbn [foldr]. by rewrite kv_put_keys, IH, elem_of_cons.
Qed.

Lemma elem_scan_rows r T : r ∈ scan_rows T <-> exists k, T !! k = Some r.
Proof.
  unfold scan_rows. rewrite list_elem_of_omap. split; [naive_solver|]. intros [k Hk]. exists k. split; [|done].
  apply elem_sorted_dom. by eexists.
Qed.
