(* ===== verification/TableProofs.v ===== *)
(** * Tables against a map of rows

    [table_rep t m T]: the table [t] over a store with contents [m] stands for the
    rows [T]. Every method is shown to act on [T] as its specification does;
    the store is only used through [StoreReads] and [StoreWrites]. *)
From S2P Require Import Prelude OrderedMap Page BufferPool Pager BTree Wal Record Store StoreProofs StoreSpec Value RowCodec Table StoreContract TableInv.

Lemma on_store_ok {A} (f : M Store A) t a s : f (tstore t) = (Ok a, s) -> on_store f t = (Ok a, set_tstore s t).
Proof. intros E. unfold on_store, zoom. by rewrite E. Qed.
Lemma set_tstore_same t : set_tstore (tstore t) t = t.
Proof. by destruct t. Qed.

Section table.
Context `{Codec : IndexCodec} `{Fmt : Formats}.
Context (reads : Store -> kvs -> Prop) (sim : Store -> spec_state -> Prop).

Definition key_of (s : Schema) (row : Row) : bytes :=
  match Columns s with c :: _ => Sprint (field (cName c) row) | [] => [] end.

Lemma primaryKey_ok s row : Columns s <> [] -> primaryKey s row = Ok (key_of s row).
Proof. unfold primaryKey, keyColumn, key_of. by destruct (Columns s). Qed.

Definition rows_rep (s : Schema) (m : kvs) (T : rowmap) : Prop :=
  forall k, option_Forall2 (fun b r => decode s b = Ok r /\ key_of s r = k) (kv_get k m) (T !! k).

Record table_rep (t : Table) (m : kvs) (T : rowmap) : Prop := {
  tr_reads : reads (tstore t) m;
  tr_schema : schema_ok (tschema t);
  tr_cols : Columns (tschema t) <> [];
  tr_rows : rows_rep (tschema t) m T;
  tr_index : index_ok (tail (Columns (tschema t))) (secondary t) T
}.

(** ** Rows and encoded values *)

Lemma rows_rep_Some s m T k r : rows_rep s m T -> T !! k = Some r -> key_of s r = k /\ exists b, kv_get k m = Some b /\ decode s b = Ok r.
Proof. intros Hr Hk. specialize (Hr k). rewrite Hk in Hr. inversion Hr as [b r' [Hd Ho]|]; subst. eauto. Qed.

Lemma rows_rep_dom s m T k : rows_rep s m T -> k ∈ m.*1 <-> k ∈ dom T.
Proof.
  intros Hr. specialize (Hr k). rewrite elem_of_dom. split.
  - intros Hin. destruct (kv_get k m) eqn:E; [|by apply kv_get_None in E]. inversion Hr. by eexists.
  - intros [r Hk]. destruct (decide (k ∈ m.*1)) as [|Hn]; [done|]. apply kv_get_None in Hn. rewrite Hk, Hn in Hr. inversion Hr.
Qed.

Lemma rows_rep_put s m T key b row :
  sorted_keys m -> rows_rep s m T -> decode s b = Ok row -> key_of s row = key ->
  rows_rep s (kv_put key b m) (<[key := row]> T).
Proof.
  intros Hs Hr Hd Hk k. rewrite kv_get_put, lookup_insert by done.
  destruct (decide (k = key)) as [->|Hne]; [rewrite decide_True by done; by constructor|]. by rewrite decide_False.
Qed.

Lemma rows_rep_del s m T key : rows_rep s m T -> rows_rep s (kv_del key m) (base.delete key T).
Proof.
  intros Hr k. rewrite kv_get_map, kv_del_map, !lookup_delete, <- kv_get_map. case_decide; [constructor|apply Hr].
Qed.

Lemma kv_get_elem k b m : sorted_keys m -> (k, b) ∈ m -> kv_get k m = Some b.
Proof. intros Hs Hin. rewrite kv_get_map. apply elem_of_list_to_map_1; [by apply sorted_keys_NoDup|done]. Qed.

Lemma decodeAll_spec s m T :
  sorted_keys m -> rows_rep s m T -> decodeAll s m.*2 = Ok (scan_rows T).
Proof.
  intros Hs Hr. unfold scan_rows. rewrite <- (sorted_dom_spec T m) by (done || by intros k; eapply rows_rep_dom).
  assert (forall k b, (k, b) ∈ m -> exists r, decode s b = Ok r /\ T !! k = Some r) as Hall.
  { intros k b Hin. apply kv_get_elem in Hin; [|done]. specialize (Hr k). rewrite Hin in Hr. inversion Hr as [b' r [Hd _]|]; subst. eauto. }
  clear Hs Hr. induction m as [|[k b] m IH]; [done|]. cbn [fmap list_fmap fst snd decodeAll omap list_omap].
  destruct (Hall k b) as (r&Hd&Hk); [constructor|]. rewrite Hd, Hk. unfold mbind, outcome_bind.
  fold (m.*1). change (decodeAll s _) with (decodeAll s m.*2). rewrite IH; [done|]. intros k' b' Hin. apply Hall. by constructor.
Qed.

(** ** Reading *)

Section reading.
Context `{HR : !StoreReads reads}.

Lemma Scan_spec t m T : table_rep t m T -> Scan t = (Ok (scan_rows T), t).
Proof using HR.
  intros Ht. unfold Scan. rewrite (bind_ok _ _ _ _ _ (on_store_ok _ _ _ _ (sr_values _ _ (tr_reads _ _ _ Ht)))), set_tstore_same, bind_get.
  unfold lift. by rewrite (decodeAll_spec _ _ T (sr_sorted _ _ (tr_reads _ _ _ Ht)) (tr_rows _ _ _ Ht)).
Qed.

Lemma Table_Get_spec t m T key : table_rep t m T -> Get key t = (Ok (T !! key), t).
Proof using HR.
  intros Ht. unfold Get. rewrite (bind_ok _ _ _ _ _ (on_store_ok _ _ _ _ (sr_get _ _ key (tr_reads _ _ _ Ht)))), set_tstore_same, bind_get.
  pose proof (tr_rows _ _ _ Ht key) as Hr. inversion Hr as [b r [Hd _]|]; [|done]. erewrite bind_ok by (unfold lift; by rewrite Hd). done.
Qed.

Lemma getAll_spec t m T ks : table_rep t m T -> getAll ks t = (Ok (omap (fun k => T !! k) ks), t).
Proof using HR.
  intros Ht. induction ks as [|k ks IH]; [done|]. cbn [getAll omap list_omap].
  rewrite (bind_ok _ _ _ _ _ (Table_Get_spec _ _ _ k Ht)), (bind_ok _ _ _ _ _ IH). unfold mret, M_ret. by destruct (T !! k).
Qed.

(** The rows an equality lookup returns. *)
Definition find_rows (s : Schema) (column : bytes) (v : value) (T : rowmap) : list Row :=
  if decide (column ∈ cName <$> tail (Columns s)) then omap (fun k => T !! k) (elements (match_keys column (indexValue v) T)) else [].

Lemma Find_spec t m T column v : table_rep t m T -> Find column v t = (Ok (find_rows (tschema t) column v T), t).
Proof using HR.
  intros Ht. unfold Find. rewrite bind_get. pose proof (tr_index _ _ _ Ht column) as Hi. unfold find_rows.
  destruct (secondary t !! column) as [ix|]; [|by rewrite decide_False]. destruct Hi as [Hin Hc].
  rewrite decide_True by done. cbn [mbind option_bind]. rewrite Hc. unfold nonempty. case_decide as He.
  - rewrite He, elements_empty. done.
  - by apply (getAll_spec t m).
Qed.

(** A unique column of the new row clashes with another row. *)
Definition violated (s : Schema) (key : bytes) (row : Row) (T : rowmap) (c : Column) : Prop :=
  Unique (constraint_of s (cName c)) = true /\ field (cName c) row <> VNil /\
  map_Exists (fun k old => k <> key /\ indexValue (field (cName c) old) = indexValue (field (cName c) row)) T.

#[local] Instance violated_dec s key row T c : Decision (violated s key row T c).
Proof. unfold violated. apply _. Defined.

Definition check (s : Schema) (key : bytes) (row : Row) (T : rowmap) : outcome unit :=
  match list_find (violated s key row T) (Columns s) with
  | Some (_, c) => Err (Errorf "unique constraint failed: %s" [AStr (cName c)])
  | None => Ok tt
  end.

Lemma conflict_spec s key row c rows :
  Columns s <> [] ->
  conflict s key row c rows =
  Ok (bool_decide (Exists (fun old => key_of s old <> key /\ indexValue (field (cName c) old) = indexValue (field (cName c) row)) rows)).
Proof.
  intros Hc. induction rows as [|old rows IH]; cbn [conflict]; [by rewrite bool_decide_eq_false_2 by (by intros ?%Exists_nil)|].
  rewrite primaryKey_ok by done. unfold mbind, outcome_bind. rewrite IH, (bool_decide_ext _ _ (Exists_cons _ _ _)), bool_decide_or.
  case_decide as Hx; [by rewrite bool_decide_eq_true_2|by rewrite (bool_decide_eq_false_2 (_ /\ _))].
Qed.

Lemma checkUnique_spec s key row T cs :
  Columns s <> [] -> (forall k r, T !! k = Some r -> key_of s r = k) ->
  checkUnique s key row (scan_rows T) cs =
  match list_find (violated s key row T) cs with
  | Some (_, c) => Err (Errorf "unique constraint failed: %s" [AStr (cName c)])
  | None => Ok tt
  end.
Proof.
  intros Hc Hk. induction cs as [|c cs IH]; [done|]. cbn [checkUnique list_find].
  rewrite conflict_spec by done. unfold mbind at 1, outcome_bind at 1.
  assert (Exists (fun old => key_of s old <> key /\ indexValue (field (cName c) old) = indexValue (field (cName c) row)) (scan_rows T) <->
    map_Exists (fun k old => k <> key /\ indexValue (field (cName c) old) = indexValue (field (cName c) row)) T) as Hx.
  { rewrite Exists_exists. unfold map_Exists. setoid_rewrite elem_scan_rows. split.
    - intros (old&[k Ho]&Hne&Hi). rewrite (Hk _ _ Ho) in Hne. eauto.
    - intros (k&old&Ho&Hne&Hi). exists old. rewrite (Hk _ _ Ho). eauto. }
  rewrite (bool_decide_ext _ _ Hx). case_decide as Hu.
  - rewrite (decide_False (P := violated s key row T c)); [|unfold violated; destruct Hu; naive_solver congruence].
    rewrite IH. by destruct (list_find _ cs) as [[]|].
  - apply Decidable.not_or in Hu as [Hu Hn]. apply not_false_is_true in Hu. case_bool_decide as Hm.
    + by rewrite (decide_True (P := violated s key row T c)).
    + rewrite (decide_False (P := violated s key row T c)) by (unfold violated; naive_solver).
      rewrite IH. by destruct (list_find _ cs) as [[]|].
Qed.

Lemma validateConstraints_spec t m T key row :
  table_rep t m T -> validateConstraints key row t = (check (tschema t) key row T, t).
Proof using HR.
  intros Ht. unfold validateConstraints. rewrite (bind_ok _ _ _ _ _ (Scan_spec _ _ _ Ht)), bind_get. unfold lift.
  rewrite checkUnique_spec; [done|apply Ht|]. intros k r Hr. by eapply rows_rep_Some, Hr; apply Ht.
Qed.
End reading.

(** ** Writing *)

(** The table can be written: its store follows the specification [st]. *)
Definition table_sim (t : Table) (st : spec_state) (T : rowmap) : Prop :=
  sim (tstore t) st /\ table_rep t (current st) T.

(** A row that can be stored under [key]: if its types are right, its key is the
    one its first column prints as, it reads back as written and its record fits
    a page. *)
Definition writable (s : Schema) (key : bytes) (row : Row) : Prop :=
  forall b, encode s row = Ok b -> key_of s row = key /\ decode s b = Ok row /\ fits (flagLive, key, b).

Definition spec_insert (s : Schema) (key : bytes) (row : Row) (T : rowmap) : outcome unit * rowmap :=
  match (_ ← encode s row; check s key row T) with
  | Ok _ => (Ok tt, <[key := row]> T)
  | o => (o, T)
  end.

(** One more state at most, same snapshots. *)
Definition grown (st st' : spec_state) (n : Z) : Prop :=
  len (states st) <= len (states st') <= len (states st) + n /\ readers st' = readers st.

Section writing.
Context `{HR : !StoreReads reads} `{HW : !StoreWrites reads sim}.

Lemma table_cols t m T : table_rep t m T -> exists c0, Columns (tschema t) = c0 :: tail (Columns (tschema t)).
Proof. intros Ht. pose proof (tr_cols _ _ _ Ht). destruct (Columns (tschema t)) as [|c0 cs]; [done|]. by exists c0. Qed.

Lemma schema_tail_NoDup s : schema_ok s -> NoDup (cName <$> tail (Columns s)).
Proof. intros [Hd _]. destruct (Columns s); [constructor|]. by apply NoDup_cons in Hd as [_ ?]. Qed.

(** Replacing the row of a key in the index. *)
Lemma reindex t T key row :
  Columns (tschema t) <> [] -> schema_ok (tschema t) -> index_ok (tail (Columns (tschema t))) (secondary t) T ->
  exists sec, (_ ← (match T !! key with Some old => unindexRow key old | None => mret tt end); indexRow key row) t
      = (Ok tt, set_secondary sec t) /\ index_ok (tail (Columns (tschema t))) sec (<[key := row]> T).
Proof.
  intros Hc Hs Hi. destruct (Columns (tschema t)) as [|c0 cs] eqn:Ec; [done|]. cbn [tail] in *.
  assert (NoDup (cName <$> cs)) as Hd by (apply schema_tail_NoDup in Hs; by rewrite Ec in Hs).
  rewrite <- (insert_delete_eq T key row). destruct (T !! key) as [old|] eqn:Eo.
  - destruct (unindexRow_ok t T c0 cs Ec Hd Hi key old Eo) as (sec1&E1&H1). rewrite (bind_ok _ _ _ _ _ E1).
    destruct (indexRow_ok (set_secondary sec1 t) (base.delete key T) c0 cs Ec Hd H1 key row) as (sec2&E2&H2); [by rewrite lookup_delete_eq|].
    exists sec2. by rewrite E2.
  - rewrite bind_ret, (delete_id T key) by done. destruct (indexRow_ok t T c0 cs Ec Hd Hi key row Eo) as (sec2&E2&H2).
    exists sec2. by rewrite E2.
Qed.

Lemma grown_refl st n : 0 <= n -> grown st st n.
Proof. unfold grown. lia. Qed.
Lemma extends_grown st st' m : extends st st' m -> grown st st' 1.
Proof. intros (_&Hl&Hr&_). unfold grown. lia. Qed.

Lemma Insert_spec t st T key row :
  table_sim t st T -> writable (tschema t) key row -> len (states st) + 1 < 2 ^ 32 - 1 ->
  exists t' st', Insert key row t = ((spec_insert (tschema t) key row T).1, t') /\
    table_sim t' st' (spec_insert (tschema t) key row T).2 /\ tschema t' = tschema t /\ grown st st' 1.
Proof using HR HW.
  intros [Hsim Ht] Hw Hb. unfold Insert, spec_insert. rewrite bind_get. unfold lift at 1.
  destruct (encode (tschema t) row) as [b|e| |] eqn:Ee;
    try (exists t, st; split_and!; [done|by split|done|by apply grown_refl]).
  destruct (Hw b Ee) as (Hkey&Hdec&Hfit). erewrite bind_ok by reflexivity. change (Ok b ≫= ?f) with (f b). cbn beta.
  pose proof (validateConstraints_spec _ _ _ key row Ht) as Ev.
  destruct (check (tschema t) key row T) as [[]|e| |] eqn:Ec;
    try (exists t, st; cbv [mbind M_bind]; rewrite Ev; split_and!; [done|by split|done|by apply grown_refl]).
  rewrite (bind_ok _ _ _ _ _ Ev), (bind_ok _ _ _ _ _ (Table_Get_spec _ _ _ key Ht)).
  destruct (sw_put _ _ key b Hsim Hb Hfit) as (s'&st'&Ep&Hsim'&Hx). rewrite (bind_ok _ _ _ _ _ (on_store_ok _ _ _ _ Ep)).
  destruct (reindex (set_tstore s' t) T key row) as (sec&Ei&Hi); [apply Ht..|]. rewrite Ei.
  exists (set_secondary sec (set_tstore s' t)), st'. split_and!; [done| |done|by eapply extends_grown].
  split; [done|]. destruct Hx as (Hcur&_). pose proof (sw_reads _ _ Hsim') as Hr'. split; cbn; try apply Ht; [done| |done].
  rewrite Hcur. apply rows_rep_put; [by eapply sr_sorted, Ht|apply Ht|done|done].
Qed.

Lemma fits_tombstone key b : fits (flagLive, key, b) -> fits (flagTombstone, key, []).
Proof. unfold fits. cbn. pose proof (len_nonneg b). change (len []) with 0. lia. Qed.

Lemma Delete_spec t st T key :
  table_sim t st T -> len (states st) + 1 < 2 ^ 32 - 1 ->
  exists t' st', Delete key t = (Ok tt, t') /\ table_sim t' st' (base.delete key T) /\ tschema t' = tschema t /\ grown st st' 1.
Proof using HR HW.
  intros [Hsim Ht] Hb. unfold Delete. rewrite (bind_ok _ _ _ _ _ (Table_Get_spec _ _ _ key Ht)).
  destruct (T !! key) as [old|] eqn:Eo; [|exists t, st; rewrite delete_id by done; split_and!; [done|by split|done|by apply grown_refl]].
  destruct (rows_rep_Some _ _ _ _ _ (tr_rows _ _ _ Ht) Eo) as (_&b&Hg&_).
  assert (fits (flagTombstone, key, [])) as Hfit by (eapply fits_tombstone, sw_fits; [exact Hsim|exact Hg]).
  destruct (sw_delete _ _ key Hsim Hb Hfit) as (s'&st'&Ed&Hsim'&Hx). rewrite (bind_ok _ _ _ _ _ (on_store_ok _ _ _ _ Ed)).
  destruct (table_cols _ _ _ Ht) as [c0 Hc0].
  destruct (unindexRow_ok (set_tstore s' t) T c0 _ Hc0 (schema_tail_NoDup _ (tr_schema _ _ _ Ht)) (tr_index _ _ _ Ht) key old Eo) as (sec&Ei&Hi).
  rewrite Ei. exists (set_secondary sec (set_tstore s' t)), st'. split_and!; [done| |done|by eapply extends_grown].
  split; [done|]. destruct Hx as (Hcur&_). pose proof (sw_reads _ _ Hsim') as Hr'. split; cbn; try apply Ht; [done| |done].
  rewrite Hcur. apply rows_rep_del, Ht.
Qed.

(** ** Conditional updates and deletes *)

Definition ok_or_err {A} (o : outcome A) : Prop := match o with Ok _ | Err _ => True | _ => False end.

Lemma encodeValue_ok_or_err c v : ok_or_err (encodeValue c v).
Proof. unfold encodeValue. repeat case_decide; by destruct v. Qed.

Lemma encode_ok_or_err s row : ok_or_err (encode s row).
Proof.
  unfold encode. case_decide; [done|]. generalize (replicate (Z.to_nat (nullBytes s)) Byte.x00). generalize (Columns s) at 1.
  intros cs. induction cs as [|c cs IH]; intros b; [done|]. cbn [encodeCols].
  assert (forall v, ok_or_err (d ← encodeValue c v; encodeCols s row cs (b ++ d))) as Hv.
  { intros v. pose proof (encodeValue_ok_or_err c v). unfold mbind, outcome_bind. by destruct (encodeValue c v). }
  destruct (row !! cName c) as [[]|]; try apply Hv; [|done]. by destruct (NotNull _).
Qed.

Lemma spec_insert_ok_or_err s key row T : ok_or_err (spec_insert s key row T).1.
Proof.
  unfold spec_insert. pose proof (encode_ok_or_err s row). destruct (encode s row); try done. unfold mbind, outcome_bind, check.
  by destruct (list_find _ _) as [[]|].
Qed.

Fixpoint spec_update (s : Schema) (where_ : option (Row -> bool)) (set_ : Row) (rows : list Row) (n : Z) (T : rowmap)
    : (Z * option error) * rowmap :=
  match rows with
  | [] => ((n, None), T)
  | r :: rows =>
      if matches where_ r then
        let r := assign set_ r in
        match spec_insert s (key_of s r) r T with
        | (Err e, T) => ((n, Some e), T)
        | (_, T) => spec_update s where_ set_ rows (n + 1) T
        end
      else spec_update s where_ set_ rows n T
  end.

(** Every row an update may write can be stored. *)
Definition update_ok (s : Schema) (where_ : option (Row -> bool)) (set_ : Row) (r : Row) : Prop :=
  matches where_ r = true -> writable s (key_of s (assign set_ r)) (assign set_ r).

Lemma grown_trans st1 st2 st3 n m : grown st1 st2 n -> grown st2 st3 m -> grown st1 st3 (n + m).
Proof. unfold grown. intros [? ?] [? ?]. split; [lia|congruence]. Qed.

Lemma grown_weaken st1 st2 n m : n <= m -> grown st1 st2 n -> grown st1 st2 m.
Proof. unfold grown. lia. Qed.

Lemma len_cons {A} (x : A) l : len (x :: l) = 1 + len l.
Proof. unfold len. cbn. lia. Qed.

Lemma updateLoop_spec where_ set_ rows n t st T :
  table_sim t st T -> Forall (update_ok (tschema t) where_ set_) rows -> len (states st) + len rows < 2 ^ 32 - 1 ->
  exists t' st', updateLoop where_ set_ rows n t = (Ok (spec_update (tschema t) where_ set_ rows n T).1, t') /\
    table_sim t' st' (spec_update (tschema t) where_ set_ rows n T).2 /\ tschema t' = tschema t /\ grown st st' (len rows).
Proof using HR HW.
  intros Hts Hok. revert n t st T Hts Hok. induction rows as [|r rows IH]; intros n t st T Hts Hok Hb; cbn [updateLoop spec_update].
  { exists t, st. split_and!; [done|done|done|by apply grown_refl]. }
  apply Forall_cons in Hok as [Hr Hok]. rewrite len_cons in *. pose proof (len_nonneg rows). unfold update_ok in Hr.
  destruct (matches where_ r).
  - rewrite bind_get, primaryKey_ok by apply Hts. erewrite bind_ok by reflexivity.
    destruct (Insert_spec t st T _ _ Hts (Hr eq_refl)) as (t1&st1&E1&Hts1&Hs1&Hg1); [lia|].
    pose proof (spec_insert_ok_or_err (tschema t) (key_of (tschema t) (assign set_ r)) (assign set_ r) T) as Hoe.
    unfold attempt. rewrite E1. destruct (spec_insert _ _ _ T) as [[[]|e| |] T1]; try done; cbn [fst snd] in *.
    + destruct (IH (n + 1) t1 st1 T1 Hts1) as (t2&st2&E2&Hts2&Hs2&Hg2); [by rewrite Hs1|unfold grown in Hg1; lia|].
      exists t2, st2. rewrite Hs1 in E2, Hts2. split_and!; [done|done|congruence|]. by eapply grown_trans.
    + exists t1, st1. split_and!; [done|done|done|]. eapply grown_weaken; [|exact Hg1]. lia.
  - destruct (IH n t st T Hts Hok) as (t2&st2&E2&Hts2&Hs2&Hg2); [lia|].
    exists t2, st2. split_and!; [done|done|done|]. eapply grown_weaken; [|exact Hg2]. lia.
Qed.

Lemma scan_rows_length T : len (scan_rows T) <= Z.of_nat (base.size T).
Proof.
  unfold scan_rows, len. apply inj_le. trans (length (sorted_dom T)).
  { generalize (sorted_dom T). intros l. induction l as [|k l IH]; [done|]. cbn. destruct (T !! k); cbn; lia. }
  unfold sorted_dom. rewrite length_fmap.
  rewrite <- size_dom. unfold base.size, set_size. cbn. induction (elements (dom T)) as [|k l IH]; [done|].
  cbn [foldr length]. etrans; [apply kv_put_length|]. lia.
Qed.

Lemma Update_spec t st T where_ set_ :
  table_sim t st T -> map_Forall (fun _ r => update_ok (tschema t) where_ set_ r) T ->
  len (states st) + Z.of_nat (base.size T) < 2 ^ 32 - 1 ->
  exists t' st', Update where_ set_ t = (Ok (spec_update (tschema t) where_ set_ (scan_rows T) 0 T).1, t') /\
    table_sim t' st' (spec_update (tschema t) where_ set_ (scan_rows T) 0 T).2 /\ tschema t' = tschema t /\ grown st st' (Z.of_nat (base.size T)).
Proof using HR HW.
  intros Hts Hok Hb. unfold Update, updateRows, attempt. rewrite (Scan_spec _ _ _ (proj2 Hts)). pose proof (scan_rows_length T).
  destruct (updateLoop_spec where_ set_ (scan_rows T) 0 t st T Hts) as (t'&st'&E&Hts'&Hs'&Hg).
  - apply Forall_forall. intros r [k Hr]%elem_scan_rows. by eapply Hok.
  - lia.
  - exists t', st'. split_and!; [done|done|done|]. by eapply grown_weaken.
Qed.

Definition spec_delete (s : Schema) (where_ : option (Row -> bool)) (rows : list Row) (T : rowmap) : rowmap :=
  foldl (fun T r => if matches where_ r then base.delete (key_of s r) T else T) T rows.

Definition count (where_ : option (Row -> bool)) (rows : list Row) : Z := len (filter (fun r => matches where_ r = true) rows).

Lemma deleteLoop_spec where_ rows n t st T :
  table_sim t st T -> len (states st) + len rows < 2 ^ 32 - 1 ->
  exists t' st', deleteLoop where_ rows n t = (Ok (n + count where_ rows, None), t') /\
    table_sim t' st' (spec_delete (tschema t) where_ rows T) /\ tschema t' = tschema t /\ grown st st' (len rows).
Proof using HR HW.
  unfold count. revert n t st T. induction rows as [|r rows IH]; intros n t st T Hts Hb; cbn [deleteLoop].
  { exists t, st. change (len (filter _ [])) with 0. rewrite Z.add_0_r. split_and!; [done|done|done|by apply grown_refl]. }
  rewrite len_cons in *. pose proof (len_nonneg rows). rewrite filter_cons. unfold spec_delete. cbn [foldl]. destruct (matches where_ r) eqn:Em.
  - rewrite bind_get, primaryKey_ok by apply Hts. erewrite bind_ok by reflexivity.
    destruct (Delete_spec t st T (key_of (tschema t) r) Hts) as (t1&st1&E1&Hts1&Hs1&Hg1); [lia|].
    unfold attempt. rewrite E1. destruct (IH (n + 1) t1 st1 _ Hts1) as (t2&st2&E2&Hts2&Hs2&Hg2); [unfold grown in Hg1; lia|].
    exists t2, st2. rewrite decide_True, len_cons, Z.add_assoc by done. rewrite Hs1 in Hts2.
    split_and!; [done|done|congruence|]. by eapply grown_trans.
  - rewrite decide_False by done. destruct (IH n t st T Hts) as (t2&st2&E2&Hts2&Hs2&Hg2); [lia|].
    exists t2, st2. split_and!; [done|done|done|]. eapply grown_weaken; [|exact Hg2]. lia.
Qed.

(** Deleting by key the rows that match is keeping those that do not. *)
Lemma spec_delete_filter s m where_ T :
  rows_rep s m T ->
  spec_delete s where_ (scan_rows T) T = filter (fun kr : bytes * Row => matches where_ kr.2 = false) T.
Proof.
  intros Hr. unfold spec_delete.
  assert (forall rows (T0 : rowmap), foldl (fun T r => if matches where_ r then base.delete (key_of s r) T else T) T0 rows =
    filter (fun kr : bytes * Row => ~ Exists (fun r => matches where_ r = true /\ key_of s r = kr.1) rows) T0) as Hf.
  { induction rows as [|r rows IH]; intros T0; cbn [foldl].
    - symmetry. apply map_filter_id. intros k r _ Hx. by apply Exists_nil in Hx.
    - rewrite IH. apply map_eq. intros k. apply option_eq. intros x. rewrite !map_lookup_filter_Some. cbn [fst snd].
      rewrite Exists_cons. destruct (matches where_ r); [rewrite lookup_delete_Some|]; naive_solver. }
  rewrite Hf. apply map_filter_ext. intros k r Hk. cbn [fst snd]. rewrite Exists_exists. split.
  - intros Hx. apply not_true_is_false. intros Hm. apply Hx. exists r. split_and!; [apply elem_scan_rows; eauto|done|].
    by eapply rows_rep_Some.
  - intros Hm (r'&[k' Hr']%elem_scan_rows&Hm'&Hk'). destruct (rows_rep_Some _ _ _ _ _ Hr Hr') as [E _]. subst. congruence.
Qed.

Lemma DeleteWhere_spec t st T where_ :
  table_sim t st T -> len (states st) + Z.of_nat (base.size T) < 2 ^ 32 - 1 ->
  exists t' st', DeleteWhere where_ t = (Ok (count where_ (scan_rows T), None), t') /\
    table_sim t' st' (filter (fun kr : bytes * Row => matches where_ kr.2 = false) T) /\ tschema t' = tschema t /\
    grown st st' (Z.of_nat (base.size T)).
Proof using HR HW.
  intros Hts Hb. unfold DeleteWhere, deleteRows, attempt. rewrite (Scan_spec _ _ _ (proj2 Hts)). pose proof (scan_rows_length T).
  destruct (deleteLoop_spec where_ (scan_rows T) 0 t st T Hts) as (t'&st'&E&Hts'&Hs'&Hg); [lia|].
  exists t', st'. rewrite (spec_delete_filter _ _ _ _ (tr_rows _ _ _ (proj2 Hts))) in Hts'.
  split_and!; [done|done|done|]. by eapply grown_weaken.
Qed.
End writing.
End table.
