(* ===== verification/TableSpec.v ===== *)
(** * The table as a map of rows

    The specification of a table is a map from primary keys to rows. Every
    sequence of calls on a freshly opened table is answered as the specification
    says, lookups through the secondary index included, and unique columns stay
    unique. *)
From S2P Require Import Prelude OrderedMap Page BufferPool Pager BTree Wal Record Store StoreProofs StoreSpec Value RowCodec Table StoreContract TableInv TableProofs.

Inductive table_op :=
| TInsert (key : bytes) (row : Row)
| TDelete (key : bytes)
| TGet (key : bytes)
| TFind (column : bytes) (v : value)
| TScan
| TUpdate (where_ : option (Row -> bool)) (set_ : Row)
| TDeleteWhere (where_ : option (Row -> bool)).

Inductive table_res := TDone | TRow (r : option Row) | TRows (rs : list Row) | TCount (n : Z) (err : option error).

Section spec.
Context `{Fmt : Formats}.

Definition spec_table_step (s : Schema) (o : table_op) (T : rowmap) : outcome table_res * rowmap :=
  match o with
  | TInsert key row =>
      match spec_insert s key row T with
      | (Ok _, T) => (Ok TDone, T)
      | (Err e, T) => (Err e, T)
      | (Panic, T) => (Panic, T)
      | (NoFuel, T) => (NoFuel, T)
      end
  | TDelete key => (Ok TDone, base.delete key T)
  | TGet key => (Ok (TRow (T !! key)), T)
  | TFind column v => (Ok (TRows (find_rows s column v T)), T)
  | TScan => (Ok (TRows (scan_rows T)), T)
  | TUpdate where_ set_ =>
      let '((n, e), T) := spec_update s where_ set_ (scan_rows T) 0 T in (Ok (TCount n e), T)
  | TDeleteWhere where_ =>
      (Ok (TCount (count where_ (scan_rows T)) None), filter (fun kr : bytes * Row => matches where_ kr.2 = false) T)
  end.

Fixpoint spec_table (s : Schema) (os : list table_op) (T : rowmap) : list (outcome table_res) * rowmap :=
  match os with
  | [] => ([], T)
  | o :: os => let '(r, T) := spec_table_step s o T in let '(rs, T) := spec_table s os T in (r :: rs, T)
  end.

Definition table_op_ok (s : Schema) (o : table_op) (T : rowmap) : Prop :=
  match o with
  | TInsert key row => writable s key row
  | TUpdate where_ set_ => map_Forall (fun _ r => update_ok s where_ set_ r) T
  | _ => True
  end.

(** The records an operation may append. *)
Definition table_cost (o : table_op) (T : rowmap) : Z :=
  match o with
  | TInsert _ _ | TDelete _ => 1
  | TUpdate _ _ | TDeleteWhere _ => Z.of_nat (base.size T)
  | _ => 0
  end.

(** The operations are well formed and their records are at most [n]. *)
Fixpoint table_ops_ok (s : Schema) (os : list table_op) (n : Z) (T : rowmap) : Prop :=
  match os with
  | [] => 0 <= n
  | o :: os => table_op_ok s o T /\ table_ops_ok s os (n - table_cost o T) (spec_table_step s o T).2
  end.

Lemma table_ops_room s os n T : table_ops_ok s os n T -> 0 <= n.
Proof.
  revert n T. induction os as [|o os IH]; intros n T; cbn [table_ops_ok]; [done|]. intros [_ H]. apply IH in H.
  assert (0 <= table_cost o T) by (destruct o; cbn; lia). lia.
Qed.

(** The same conditions by computation. *)
Definition writable_b (s : Schema) (key : bytes) (row : Row) : bool :=
  match encode s row with
  | Ok b =>
      bool_decide (key_of s row = key) && bool_decide (fits (flagLive, key, b)) &&
      match decode s b with Ok r => bool_decide (r = row) | _ => false end
  | _ => true
  end.

Definition table_op_check (s : Schema) (o : table_op) (T : rowmap) : bool :=
  match o with
  | TInsert key row => writable_b s key row
  | TUpdate where_ set_ =>
      forallb (fun kr : bytes * Row => negb (matches where_ kr.2) || writable_b s (key_of s (assign set_ kr.2)) (assign set_ kr.2))
        (map_to_list T)
  | _ => true
  end.

Fixpoint table_ops_check (s : Schema) (os : list table_op) (n : Z) (T : rowmap) : bool :=
  match os with
  | [] => bool_decide (0 <= n)
  | o :: os => table_op_check s o T && table_ops_check s os (n - table_cost o T) (spec_table_step s o T).2
  end.

Lemma writable_b_ok s key row : writable_b s key row = true -> writable s key row.
Proof.
  unfold writable_b. intros H b Eb. rewrite Eb in H. apply andb_true_iff in H as [[H1 H2]%andb_true_iff H3].
  destruct (decode s b); try done. apply bool_decide_eq_true_1 in H1, H2, H3. by subst.
Qed.

Lemma table_ops_check_ok s os n T : table_ops_check s os n T = true -> table_ops_ok s os n T.
Proof.
  revert n T. induction os as [|o os IH]; intros n T; cbn [table_ops_check table_ops_ok]; [apply bool_decide_eq_true_1|].
  intros [Ho Hos]%andb_true_iff. split; [|by apply IH]. destruct o as [key row| | | | |where_ set_|]; cbn in *; try done.
  - by apply writable_b_ok.
  - intros k r Hk Hm. rewrite forallb_forall in Ho. apply writable_b_ok. specialize (Ho (k, r)). cbn [snd] in Ho. rewrite Hm in Ho.
    apply Ho, list_elem_of_In, elem_of_map_to_list, Hk.
Qed.

(** ** Unique columns *)

Definition unique_ok (s : Schema) (T : rowmap) : Prop :=
  forall c k1 k2 r1 r2, c ∈ Columns s -> Unique (constraint_of s (cName c)) = true ->
    T !! k1 = Some r1 -> T !! k2 = Some r2 -> k1 <> k2 -> field (cName c) r1 <> VNil ->
    indexValue (field (cName c) r1) <> indexValue (field (cName c) r2).

Lemma indexValue_nil v : indexValue v = VNil -> v = VNil.
Proof. by destruct v. Qed.

Lemma unique_insert s key row T :
  unique_ok s T -> check s key row T = Ok tt -> unique_ok s (<[key := row]> T).
Proof.
  intros Hu Hc c k1 k2 r1 r2 Hin Hq H1 H2 Hne Hv Hi. unfold check in Hc.
  destruct (list_find _ _) as [[]|] eqn:El; [done|]. apply list_find_None in El. rewrite Forall_forall in El.
  specialize (El c Hin). unfold violated, map_Exists in El.
  apply lookup_insert_Some in H1 as [[-> ->]|[Hk1 H1]], H2 as [[-> ->]|[Hk2 H2]]; [done|..].
  - apply El. split_and!; [done|done|]. exists k2, r2. by split_and!.
  - apply El. split_and!; [done| |]; [|exists k1, r1; by split_and!].
    intros Hn. apply Hv, indexValue_nil. by rewrite Hi, Hn.
  - by apply (Hu c k1 k2 r1 r2).
Qed.

Lemma unique_subset s T T' : unique_ok s T -> T' ⊆ T -> unique_ok s T'.
Proof. intros Hu Hs c k1 k2 r1 r2 Hin Hq H1 H2. eapply Hu; [done|done|..]; by eapply lookup_weaken. Qed.

Lemma unique_spec_insert s key row T : unique_ok s T -> unique_ok s (spec_insert s key row T).2.
Proof.
  intros Hu. unfold spec_insert. destruct (encode s row); try done. unfold mbind, outcome_bind.
  destruct (check s key row T) as [[]| | |] eqn:Ec; try done. by apply unique_insert.
Qed.

Lemma unique_spec_update s where_ set_ rows n T : unique_ok s T -> unique_ok s (spec_update s where_ set_ rows n T).2.
Proof.
  revert n T. induction rows as [|r rows IH]; intros n T Hu; cbn [spec_update]; [done|]. destruct (matches where_ r); [|auto].
  pose proof (unique_spec_insert s (key_of s (assign set_ r)) (assign set_ r) T Hu) as Hi.
  destruct (spec_insert _ _ _ T) as [[[]| | |] T1]; cbn [snd] in *; auto.
Qed.

Lemma unique_step s o T : unique_ok s T -> unique_ok s (spec_table_step s o T).2.
Proof.
  intros Hu. destruct o as [key row|key|key|column v| |where_ set_|where_]; cbn [spec_table_step snd]; try done.
  - pose proof (unique_spec_insert s key row T Hu). by destruct (spec_insert s key row T) as [[] ?].
  - eapply unique_subset; [done|apply delete_subseteq].
  - pose proof (unique_spec_update s where_ set_ (scan_rows T) 0 T Hu). by destruct (spec_update _ _ _ _ _ _) as [[] ?].
  - eapply unique_subset; [done|apply map_filter_subseteq].
Qed.

Lemma unique_run s os T : unique_ok s T -> unique_ok s (spec_table s os T).2.
Proof.
  revert T. induction os as [|o os IH]; intros T Hu; cbn [spec_table]; [done|].
  pose proof (unique_step s o T Hu) as H1. destruct (spec_table_step s o T) as [r T1]. specialize (IH T1 H1).
  by destruct (spec_table s os T1).
Qed.
End spec.

(** ** The table answers as its specification *)

Section run.
Context `{Codec : IndexCodec} `{Fmt : Formats}.

Definition table_step (o : table_op) : M Table table_res :=
  match o with
  | TInsert key row => _ ← Insert key row; mret TDone
  | TDelete key => _ ← Delete key; mret TDone
  | TGet key => TRow <$> Get key
  | TFind column v => TRows <$> Find column v
  | TScan => TRows <$> Scan
  | TUpdate where_ set_ => '(n, e) ← Update where_ set_; mret (TCount n e)
  | TDeleteWhere where_ => '(n, e) ← DeleteWhere where_; mret (TCount n e)
  end.

Fixpoint table_run (os : list table_op) (t : Table) : list (outcome table_res) * Table :=
  match os with
  | [] => ([], t)
  | o :: os => let '(r, t) := table_step o t in let '(rs, t) := table_run os t in (r :: rs, t)
  end.

Section contract.
Context (reads : Store -> kvs -> Prop) (sim : Store -> spec_state -> Prop).
Context `{HR : !StoreReads reads} `{HW : !StoreWrites reads sim}.

Lemma table_step_refines o t st T :
  table_sim reads sim t st T -> table_op_ok (tschema t) o T -> len (states st) + table_cost o T < 2 ^ 32 - 1 ->
  exists t' st', table_step o t = ((spec_table_step (tschema t) o T).1, t') /\
    table_sim reads sim t' st' (spec_table_step (tschema t) o T).2 /\ tschema t' = tschema t /\ grown st st' (table_cost o T).
Proof using HR HW.
  intros Hts Hok Hb. pose proof (proj2 Hts) as Ht.
  destruct o as [key row|key|key|column v| |where_ set_|where_]; cbn [table_step spec_table_step table_op_ok table_cost] in *;
    cbv [fmap M_fmap].
  - destruct (Insert_spec reads sim t st T key row Hts Hok Hb) as (t'&st'&E&Hts'&Hs&Hg). exists t', st'.
    cbv [mbind M_bind]. rewrite E. by destruct (spec_insert _ _ _ T) as [[[]| | |] T'].
  - destruct (Delete_spec reads sim t st T key Hts Hb) as (t'&st'&E&Hts'&Hs&Hg). exists t', st'. by rewrite (bind_ok _ _ _ _ _ E).
  - exists t, st. rewrite (bind_ok _ _ _ _ _ (Table_Get_spec reads _ _ _ key Ht)). split_and!; [done|done|done|by apply grown_refl].
  - exists t, st. rewrite (bind_ok _ _ _ _ _ (Find_spec reads _ _ _ column v Ht)). split_and!; [done|done|done|by apply grown_refl].
  - exists t, st. rewrite (bind_ok _ _ _ _ _ (Scan_spec reads _ _ _ Ht)). split_and!; [done|done|done|by apply grown_refl].
  - destruct (Update_spec reads sim t st T where_ set_ Hts Hok Hb) as (t'&st'&E&Hts'&Hs&Hg). exists t', st'.
    rewrite (bind_ok _ _ _ _ _ E). by destruct (spec_update _ _ _ _ _ _) as [[n e] T'].
  - destruct (DeleteWhere_spec reads sim t st T where_ Hts Hb) as (t'&st'&E&Hts'&Hs&Hg). exists t', st'.
    by rewrite (bind_ok _ _ _ _ _ E).
Qed.

Lemma table_run_refines os n t st T :
  table_sim reads sim t st T -> table_ops_ok (tschema t) os n T -> len (states st) + n < 2 ^ 32 - 1 ->
  exists t' st', table_run os t = ((spec_table (tschema t) os T).1, t') /\
    table_sim reads sim t' st' (spec_table (tschema t) os T).2 /\ tschema t' = tschema t.
Proof using HR HW.
  revert n t st T. induction os as [|o os IH]; intros n t st T Hts Hok Hb; cbn [table_run spec_table]; [by exists t, st|].
  destruct Hok as [Ho Hos]. pose proof (table_ops_room _ _ _ _ Hos).
  destruct (table_step_refines o t st T Hts Ho) as (t1&st1&E1&Hts1&Hs1&Hg1); [lia|]. rewrite E1.
  destruct (spec_table_step (tschema t) o T) as [r1 T1]. cbn [fst snd] in *. rewrite <- Hs1 in Hos.
  destruct (IH _ t1 st1 T1 Hts1 Hos) as (t2&st2&E2&Hts2&Hs2); [unfold grown in Hg1; lia|].
  exists t2, st2. rewrite E2, Hs1 in *. destruct (spec_table (tschema t) os T1). split_and!; [done|done|congruence].
Qed.
End contract.
End run.
