(* ===== verification/TableOpen.v ===== *)
(** * Opening, altering and batch-writing tables

    A table built over any readable store with decodable rows indexes exactly
    those rows; properties of tables on real stores follow, and the cases where the
    index does not follow the rows. *)
From S2P Require Import Prelude OrderedMap Page BufferPool Pager BTree BTreeProofs Wal Record Store StoreInv StoreProofs StoreSpec StoreRecovery Value RowCodec Table StoreContract TableInv TableProofs TableSpec.

(** ** Building the index *)

Section building.
Context `{Codec : IndexCodec} `{Fmt : Formats}.

Lemma indexRows_spec rows t T c0 cs :
  Columns (tschema t) = c0 :: cs -> NoDup (cName <$> cs) -> index_ok cs (secondary t) T ->
  NoDup (key_of (tschema t) <$> rows) -> (forall r, r ∈ rows -> T !! key_of (tschema t) r = None) ->
  exists sec, indexRows rows t = (Ok tt, set_secondary sec t) /\
    index_ok cs sec (foldl (fun T r => <[key_of (tschema t) r := r]> T) T rows).
Proof.
  intros Hc Hd. revert t T Hc. induction rows as [|r rows IH]; intros t T Hc Hi Hn Hf; cbn [indexRows foldl].
  { exists (secondary t). split; [by destruct t|done]. }
  cbn [fmap list_fmap] in Hn. apply NoDup_cons in Hn as [Hr Hn]. fold (key_of (tschema t) <$> rows) in Hr.
  rewrite bind_get, primaryKey_ok by (by rewrite Hc). erewrite bind_ok by reflexivity.
  destruct (indexRow_ok t T c0 cs Hc Hd Hi (key_of (tschema t) r) r) as (sec1&E1&H1); [apply Hf; constructor|].
  rewrite (bind_ok _ _ _ _ _ E1). destruct (IH (set_secondary sec1 t) _ Hc H1 Hn) as (sec2&E2&H2).
  { intros r' Hin. cbn [tschema set_secondary]. rewrite lookup_insert_ne; [apply Hf; by constructor|].
    intros E. apply Hr. rewrite E. apply list_elem_of_fmap. by exists r'. }
  exists sec2. by rewrite E2.
Qed.

(** The rows of a scan, by key, are the table. *)
Lemma scan_keys s m T : rows_rep s m T -> key_of s <$> scan_rows T = sorted_dom T.
Proof.
  intros Hr. unfold scan_rows. assert (forall k, k ∈ sorted_dom T -> is_Some (T !! k)) as Hd by (intros k; apply elem_sorted_dom).
  induction (sorted_dom T) as [|k ks IH]; [done|]. destruct (Hd k) as [r Hk]; [constructor|]. cbn [omap list_omap]. rewrite Hk.
  cbn [fmap list_fmap]. destruct (rows_rep_Some _ _ _ _ _ Hr Hk) as [-> _]. f_equal. apply IH. intros k' Hin. apply Hd. by constructor.
Qed.

Lemma sorted_dom_NoDup s m T : sorted_keys m -> rows_rep s m T -> NoDup (sorted_dom T).
Proof. intros Hs Hr. rewrite <- (sorted_dom_spec T m Hs) by (intros k; by eapply rows_rep_dom). by apply sorted_keys_NoDup. Qed.

Lemma scan_rebuild s m T :
  sorted_keys m -> rows_rep s m T -> foldl (fun T r => <[key_of s r := r]> T) ∅ (scan_rows T) = T.
Proof.
  intros Hs Hr. assert (NoDup (key_of s <$> scan_rows T)) as Hn by (rewrite (scan_keys s m) by done; by eapply sorted_dom_NoDup).
  rewrite (foldl_insert (key_of s) id), map_union_empty by done. apply map_eq. intros k. apply option_eq. intros r.
  rewrite <- elem_of_list_to_map by (by rewrite <- list_fmap_compose). rewrite list_elem_of_fmap. unfold id. split.
  - intros (r'&[= -> ->]&[k' Hk]%elem_scan_rows). by destruct (rows_rep_Some _ _ _ _ _ Hr Hk) as [-> _].
  - intros Hk. exists r. destruct (rows_rep_Some _ _ _ _ _ Hr Hk) as [-> _]. split; [done|]. apply elem_scan_rows. by exists k.
Qed.

Section contract.
Context (reads : Store -> kvs -> Prop) `{HR : !StoreReads reads}.

Lemma NewTable_spec s schema m T :
  reads s m -> schema_ok schema -> Columns schema <> [] -> rows_rep schema m T ->
  exists t, NewTable (Some s) schema = Ok t /\ table_rep reads t m T /\ tstore t = s /\ tschema t = schema.
Proof using HR.
  intros Hrd Hs Hc Hr. unfold NewTable. pose proof (sr_sorted _ _ Hrd) as Hsort.
  rewrite (proj2 (validate_ok schema) Hs). unfold mbind at 1, outcome_bind at 1.
  destruct (Columns schema) as [|c0 cs] eqn:Ec; [done|]. set (t0 := MkTable s schema (empty_index cs)).
  assert (Scan t0 = (Ok (scan_rows T), t0)) as Es.
  { unfold Scan. rewrite (bind_ok _ _ _ _ _ (on_store_ok _ t0 _ _ (sr_values _ _ Hrd))), bind_get. unfold lift.
    cbn [t0 tschema set_tstore]. by rewrite (decodeAll_spec _ _ T Hsort Hr). }
  rewrite (bind_ok _ _ _ _ _ Es).
  assert (NoDup (cName <$> cs)) as Hd by (apply schema_tail_NoDup in Hs; by rewrite Ec in Hs).
  destruct (indexRows_spec (scan_rows T) t0 ∅ c0 cs Ec Hd (empty_index_ok cs)) as (sec&Ei&Hi).
  - cbn [t0 tschema]. rewrite (scan_keys schema m) by done. by eapply sorted_dom_NoDup.
  - intros r _. apply lookup_empty.
  - rewrite Ei. exists (set_secondary sec t0). cbn [t0 tschema] in Hi. rewrite (scan_rebuild schema m) in Hi by done.
    split_and!; [done| |done|done]. split; cbn; [done|done|by rewrite Ec|done|by rewrite Ec].
Qed.
End contract.

(** ** A fresh table *)

Lemma OpenTable_fresh schema :
  schema_ok schema -> Columns schema <> [] ->
  exists t, OpenTable schema fresh_files = (Ok t, files_of (tstore t)) /\ tschema t = schema /\
    table_sim store_reads simulates t (MkSpec [[]] 0) ∅.
Proof.
  intros Hs Hc. destruct Open_fresh as (s0&E0&Hs0).
  destruct (NewTable_spec store_reads s0 schema [] ∅) as (t&E&Ht&Hst&Hsc); [by apply (sw_reads s0 (MkSpec [[]] 0))|done|done| |].
  { intros k. rewrite lookup_empty. constructor. }
  exists t. unfold OpenTable. rewrite E0, E, Hst. split_and!; [done|done|]. split; [by rewrite Hst|done].
Qed.
End building.

(** ** Properties *)

(** C8: a table is a map of rows. Every sequence of [Insert], [Delete], [Get], [Find]
    through the secondary index, [Scan], [Update] and [DeleteWhere] on a freshly
    opened table is answered as the map says: type, NULL and unique errors leave the
    table unchanged, [Find] returns exactly the rows with that value, scans go in key
    order. [Alter] (C16), [ApplyRowsBatch] (C19) and snapshots are not among these
    calls. Condition ([writable]): a row that is stored is given under its own key,
    fits a page and reads back as it was given. An int in a [FLOAT] column or an empty
    [BYTES] value does not, and there [Find] is wrong
    ([TableChange.converted_value_stays_indexed]). *)
Theorem table_refines_rows `{Codec : IndexCodec} `{Fmt : Formats} (schema : Schema) (os : list table_op) (n : Z)
    (Hs : validate schema = Ok tt) (Hc : Columns schema <> []) (Hok : table_ops_ok schema os n ∅) (Hn : n + 1 < 2 ^ 32 - 1) :
  exists t0 t' st, OpenTable schema fresh_files = (Ok t0, files_of (tstore t0)) /\
    table_run os t0 = ((spec_table schema os ∅).1, t') /\ table_sim store_reads simulates t' st (spec_table schema os ∅).2.
Proof.
  apply validate_ok in Hs. destruct (OpenTable_fresh schema Hs Hc) as (t0&E0&Hsc&Hts). exists t0.
  destruct (table_run_refines store_reads simulates os n t0 _ ∅ Hts) as (t'&st'&E&Hts'&_); [by rewrite Hsc|change (len _) with 1; lia|].
  rewrite Hsc in *. by exists t', st'.
Qed.

(** C15: unique columns stay unique under the calls of C8: after any sequence of
    [Insert], [Delete], [Get], [Find], [Scan], [Update] and [DeleteWhere] on a freshly
    opened table, with rows that are [writable], no two rows of a scan have the same
    non-NULL value in a column declared UNIQUE. [ApplyRowsBatch], the commit of a
    transaction, and [Alter] are not among the calls: they do not check
    ([SqlRuns.transaction_skips_checks]). *)
Theorem table_unique `{Codec : IndexCodec} `{Fmt : Formats} (schema : Schema) (os : list table_op) (n : Z)
    (Hs : validate schema = Ok tt) (Hc : Columns schema <> []) (Hok : table_ops_ok schema os n ∅) (Hn : n + 1 < 2 ^ 32 - 1) :
  exists t0 rs t' rows, OpenTable schema fresh_files = (Ok t0, files_of (tstore t0)) /\
    table_run os t0 = (rs, t') /\ Scan t' = (Ok rows, t') /\
    forall c i j r1 r2, c ∈ Columns schema -> Unique (constraint_of schema (cName c)) = true ->
      rows !! i = Some r1 -> rows !! j = Some r2 -> i <> j -> field (cName c) r1 <> VNil ->
      indexValue (field (cName c) r1) <> indexValue (field (cName c) r2).
Proof.
  apply validate_ok in Hs. destruct (OpenTable_fresh schema Hs Hc) as (t0&E0&Hsc&Hts). exists t0.
  destruct (table_run_refines store_reads simulates os n t0 _ ∅ Hts) as (t'&st'&E&Hts'&Hsc'); [by rewrite Hsc|change (len _) with 1; lia|].
  rewrite Hsc in *. set (T := (spec_table schema os ∅).2) in *. pose proof (proj2 Hts') as Ht.
  exists (spec_table schema os ∅).1, t', (scan_rows T). split_and!; [done|done|by eapply (Scan_spec store_reads)|].
  assert (unique_ok schema T) as Hu by (apply unique_run; intros c k1 k2 r1 r2 _ _ H; by rewrite lookup_empty in H).
  intros c i j r1 r2 Hin Hq H1 H2 Hne. pose proof (tr_rows _ _ _ _ Ht) as Hr. rewrite Hsc' in Hr.
  assert (forall i r, scan_rows T !! i = Some r -> T !! key_of schema r = Some r) as Hk.
  { intros i' r Hi. apply list_elem_of_lookup_2, elem_scan_rows in Hi as [k Hk]. by destruct (rows_rep_Some _ _ _ _ _ Hr Hk) as [-> _]. }
  apply (Hu c (key_of schema r1) (key_of schema r2)); [done|done|by eapply Hk|by eapply Hk|].
  intros E2. apply Hne. apply (NoDup_lookup (key_of schema <$> scan_rows T) i j (key_of schema r1)).
  - rewrite (scan_keys schema (current st')) by done. eapply sorted_dom_NoDup; [|exact Hr]. by eapply sr_sorted, Ht.
  - by rewrite list_lookup_fmap, H1.
  - by rewrite list_lookup_fmap, H2, E2.
Qed.

(** ** An example table *)

(** A stand-in for [fmt]'s printing of floats and times. *)
Definition PlainFormats : Formats := {| fmt_float := decimal; fmt_time t loc := sprint_int t ++ loc |}.

Definition people : Schema :=
  MkSchema [MkCol (of_string "id") IntType; MkCol (of_string "email") StringType; MkCol (of_string "age") IntType]
    {[ of_string "email" := MkCon true true None ]}.

Definition person (id : Z) (email : string) (age : value) : Row :=
  list_to_map [(of_string "id", VInt id); (of_string "email", VString (of_string email)); (of_string "age", age)].

Definition people_ops : list table_op :=
  [TInsert (of_string "1") (person 1 "ann@x" (VInt 30)); TInsert (of_string "2") (person 2 "bob@x" VNil);
   TInsert (of_string "3") (person 3 "ann@x" (VInt 31)); TInsert (of_string "4") (person 4 "eve@x" (VBool true));
   TFind (of_string "email") (VString (of_string "ann@x"));
   TUpdate (Some (fun r => bool_decide (field (of_string "age") r = VNil))) {[ of_string "age" := VInt 7 ]};
   TGet (of_string "2"); TScan; TDeleteWhere (Some (fun r => bool_decide (field (of_string "age") r = VInt 30)));
   TDelete (of_string "9"); TFind (of_string "age") (VInt 7)].

Lemma table_refines_rows_witness :
  exists t0 t' st, OpenTable (Fmt := PlainFormats) people fresh_files = (Ok t0, files_of (tstore t0)) /\
    table_run (Fmt := PlainFormats) people_ops t0 = ((spec_table (Fmt := PlainFormats) people people_ops ∅).1, t') /\
    table_sim (Fmt := PlainFormats) store_reads simulates t' st (spec_table (Fmt := PlainFormats) people people_ops ∅).2.
Proof.
  apply (table_refines_rows (Fmt := PlainFormats) people people_ops 10).
  - reflexivity.
  - discriminate.
  - apply (table_ops_check_ok (Fmt := PlainFormats)). vm_compute. reflexivity.
  - reflexivity.
Defined.

Lemma table_unique_witness :
  exists t0 rs t' rows, OpenTable (Fmt := PlainFormats) people fresh_files = (Ok t0, files_of (tstore t0)) /\
    table_run (Fmt := PlainFormats) people_ops t0 = (rs, t') /\ Scan t' = (Ok rows, t') /\
    forall c i j r1 r2, c ∈ Columns people -> Unique (constraint_of people (cName c)) = true ->
      rows !! i = Some r1 -> rows !! j = Some r2 -> i <> j -> field (cName c) r1 <> VNil ->
      indexValue (field (cName c) r1) <> indexValue (field (cName c) r2).
Proof.
  apply (table_unique (Fmt := PlainFormats) people people_ops 10).
  - reflexivity.
  - discriminate.
  - apply (table_ops_check_ok (Fmt := PlainFormats)). vm_compute. reflexivity.
  - reflexivity.
Defined.
