(* ===== verification/TableChange.v ===== *)
(** * Updating and altering tables

    What a conditional update changes, what a schema change
    does to the rows, and the calls after which the secondary index no longer
    follows the rows. *)
From S2P Require Import Prelude OrderedMap Page BufferPool Pager BTree BTreeProofs Wal Record Store StoreInv StoreProofs StoreSpec StoreRecovery Value RowCodec Table StoreContract StoreReopen TableInv TableProofs TableSpec TableOpen.

(** ** Updates *)

Section updates.
Context `{Fmt : Formats}.

Definition updated (where_ : option (Row -> bool)) (set_ r : Row) : Row := if matches where_ r then assign set_ r else r.

Lemma key_of_assign (s : Schema) (c : Column) (cs : list Column) (set_ r : Row) : Columns s = c :: cs -> set_ !! cName c = None -> key_of s (assign set_ r) = key_of s r.
Proof. intros Hc Hn. unfold key_of, assign, field. rewrite Hc. by rewrite lookup_union_r. Qed.

Lemma spec_insert_inv s key row T T' : spec_insert s key row T = (Ok tt, T') -> T' = <[key := row]> T.
Proof. unfold spec_insert. destruct (_ ≫= _) as [[]| | |]; by intros [= <-]. Qed.

Lemma spec_update_effect (s : Schema) (c : Column) (cs : list Column) (where_ : option (Row -> bool)) (set_ : Row) (ks : list bytes) (n : Z) (T T0 : rowmap) (n1 : Z) (T1 : rowmap) :
  Columns s = c :: cs -> set_ !! cName c = None -> (forall k r, T !! k = Some r -> key_of s r = k) ->
  NoDup ks -> (forall k, k ∈ ks -> is_Some (T !! k)) ->
  spec_update s where_ set_ (omap (fun k => T !! k) ks) n T0 = ((n1, None), T1) ->
  n1 = n + count where_ (omap (fun k => T !! k) ks) /\
  forall k, (k ∈ ks -> T0 !! k = T !! k) -> T1 !! k = if decide (k ∈ ks) then updated where_ set_ <$> T !! k else T0 !! k.
Proof.
  intros Hc Hset Hkey. revert n T0. induction ks as [|k0 ks IH]; intros n T0 Hnd Hin E.
  { injection E as <- <-. split; [change (count _ _) with 0; lia|]. intros k _. rewrite decide_False; [done|apply not_elem_of_nil]. }
  apply NoDup_cons in Hnd as [Hk0 Hnd]. destruct (Hin k0) as [r Hr]; [constructor|]. cbn [omap list_omap] in *. rewrite Hr in *.
  assert (forall k, k ∈ ks -> is_Some (T !! k)) as Hin' by (intros k Hk; apply Hin; by constructor).
  cbn [spec_update] in E. unfold count in *. rewrite filter_cons. destruct (matches where_ r) eqn:Em.
  - rewrite (key_of_assign s c cs), (Hkey _ _ Hr) in E by done.
    pose proof (spec_insert_ok_or_err s k0 (assign set_ r) T0) as Hoe. destruct (spec_insert s k0 (assign set_ r) T0) as [[[]|e| |] T2] eqn:Es; try done.
    apply spec_insert_inv in Es as ->. destruct (IH _ _ Hnd Hin' E) as [-> HT]. rewrite decide_True, len_cons by done. split; [lia|].
    intros k Hk. destruct (decide (k = k0)) as [->|Hne].
    + rewrite HT by done. rewrite decide_False by done. rewrite lookup_insert_eq, decide_True by constructor. rewrite Hr.
      cbn. unfold updated. by rewrite Em.
    + rewrite HT by (intros; rewrite lookup_insert_ne by done; apply Hk; by constructor). rewrite lookup_insert_ne by done.
      by rewrite (decide_ext (k ∈ k0 :: ks) (k ∈ ks)) by (rewrite elem_of_cons; naive_solver).
  - destruct (IH _ _ Hnd Hin' E) as [-> HT]. rewrite decide_False by done. split; [done|]. intros k Hk.
    destruct (decide (k = k0)) as [->|Hne].
    + rewrite HT by done. rewrite decide_False by done. rewrite decide_True by constructor. rewrite Hk by constructor.
      rewrite Hr. cbn. unfold updated. by rewrite Em.
    + rewrite HT by (intros; apply Hk; by constructor).
      by rewrite (decide_ext (k ∈ k0 :: ks) (k ∈ ks)) by (rewrite elem_of_cons; naive_solver).
Qed.
End updates.

(** an update that does not assign the key column and reports no error has
    changed exactly the rows its condition matches, each by the assigned columns
    only, and returns their number. *)
Theorem table_update `{Codec : IndexCodec} `{Fmt : Formats} (t t' : Table) (st : spec_state) (T : rowmap)
    (where_ : option (Row -> bool)) (set_ : Row) (c : Column) (cs : list Column) (n : Z)
    (Ht : table_sim store_reads simulates t st T) (Hc : Columns (tschema t) = c :: cs) (Hset : set_ !! cName c = None)
    (Hok : map_Forall (fun _ r => update_ok (tschema t) where_ set_ r) T)
    (Hb : len (states st) + Z.of_nat (base.size T) < 2 ^ 32 - 1)
    (E : Update where_ set_ t = (Ok (n, None), t')) :
  n = count where_ (scan_rows T) /\
  (forall key, Get key t' = (Ok (updated where_ set_ <$> T !! key), t')) /\
  (forall column v, Find column v t' = (Ok (find_rows (tschema t) column v (updated where_ set_ <$> T)), t')).
Proof.
  destruct (Update_spec store_reads simulates t st T where_ set_ Ht Hok Hb) as (t1&st1&E1&[_ Ht1]&Hs1&_).
  rewrite E in E1. injection E1 as E1 <-. pose proof (tr_rows _ _ _ _ (proj2 Ht)) as Hr.
  destruct (spec_update _ _ _ _ _ _) as [r1 T1] eqn:Eu. cbn [fst snd] in *. subst r1.
  unfold scan_rows in Eu. apply (spec_update_effect _ c cs) in Eu as [-> HT]; [|done|done|..].
  - assert (T1 = updated where_ set_ <$> T) as ->.
    { apply map_eq. intros k. rewrite lookup_fmap, HT by done. case_decide as Hk; [done|].
      rewrite elem_sorted_dom in Hk. by rewrite (eq_None_not_Some (T !! k)) || (apply eq_None_not_Some in Hk; by rewrite Hk). }
    split_and!; [done| |].
    + intros key. rewrite <- lookup_fmap. by eapply Table_Get_spec; [apply _|].
    + intros column v. rewrite <- Hs1. by eapply Find_spec; [apply _|].
  - intros k r Hk. by eapply rows_rep_Some.
  - eapply sorted_dom_NoDup; [|exact Hr]. eapply sr_sorted, Ht.
  - intros k. apply elem_sorted_dom.
Qed.

Definition two_people : list table_op :=
  [TInsert (of_string "1") (person 1 "ann@x" (VInt 30)); TInsert (of_string "2") (person 2 "bob@x" VNil)].

(** A table with two rows, for the examples. *)
Lemma two_people_table :
  exists t st, table_sim (Fmt := PlainFormats) store_reads simulates t st (spec_table (Fmt := PlainFormats) people two_people ∅).2 /\
    tschema t = people /\ len (states st) <= 3 /\ readers st = 0.
Proof.
  destruct (OpenTable_fresh (Fmt := PlainFormats) people) as (t0&E0&Hsc&Hts); [by apply validate_ok|discriminate|].
  destruct (Insert_spec (Fmt := PlainFormats) store_reads simulates t0 _ ∅ (of_string "1") (person 1 "ann@x" (VInt 30)) Hts)
    as (t1&st1&_&Hts1&Hsc1&[[_ Hg1] Hr1]); [rewrite Hsc; apply writable_b_ok; vm_compute; reflexivity|vm_compute; reflexivity|].
  rewrite Hsc in Hts1. change (len (states (MkSpec [[]] 0))) with 1 in Hg1.
  destruct (Insert_spec (Fmt := PlainFormats) store_reads simulates t1 _ _ (of_string "2") (person 2 "bob@x" VNil) Hts1)
    as (t2&st2&_&Hts2&Hsc2&[[_ Hg2] Hr2]); [rewrite Hsc1, Hsc; apply writable_b_ok; vm_compute; reflexivity|lia|].
  rewrite Hsc1, Hsc in Hts2. exists t2, st2. split_and!; [|congruence|lia|by rewrite Hr2, Hr1]. revert Hts2. vm_compute (spec_insert _ _ _ _). exact id.
Qed.

Definition no_age (r : Row) : bool := bool_decide (field (of_string "age") r = VNil).
Definition set_age : Row := {[ of_string "age" := VInt 7 ]}.

Lemma table_update_witness :
  exists t t' T, (exists st, table_sim (Fmt := PlainFormats) store_reads simulates t st T) /\
    Update (Fmt := PlainFormats) (Some no_age) set_age t = (Ok (1, None), t') /\
    1 = count (Some no_age) (scan_rows T) /\
    (forall key, Get key t' = (Ok (updated (Some no_age) set_age <$> T !! key), t')) /\
    (forall column v, Find column v t' = (Ok (find_rows (tschema t) column v (updated (Some no_age) set_age <$> T)), t')).
Proof.
  destruct two_people_table as (t&st&Hts&Hsc&Hn&_). set (T := (spec_table (Fmt := PlainFormats) people two_people ∅).2) in *.
  assert (map_Forall (fun _ r => update_ok (Fmt := PlainFormats) (tschema t) (Some no_age) set_age r) T) as Hok.
  { rewrite Hsc. apply (table_ops_check_ok (Fmt := PlainFormats) people [TUpdate (Some no_age) set_age] 2 T). vm_compute. reflexivity. }
  assert (Z.of_nat (base.size T) = 2) as Hsz by (vm_compute; reflexivity).
  destruct (Update_spec (Fmt := PlainFormats) store_reads simulates t st T (Some no_age) set_age Hts Hok) as (t'&st'&E&_); [lia|].
  rewrite Hsc in E. change ((spec_update _ _ _ _ _ _).1) with ((1, None) : Z * option error) in E.
  exists t, t', T. split; [by exists st|]. split; [exact E|].
  apply (table_update (Fmt := PlainFormats) t t' st T (Some no_age) set_age (MkCol (of_string "id") IntType) (tail (Columns people)) 1 Hts);
    [by rewrite Hsc|vm_compute; reflexivity|exact Hok|lia|exact E].
Defined.

(** ** Schema changes *)

(** The value of a new column that no old column gives one. *)
Definition zero_of (t : Z) : value :=
  nth (Z.to_nat t) [VNil; VInt 0; VString []; VBool false; VFloat 0; VBytes (Some []); VTime zero_time UTC] VNil.

(** The column that [c] was before it got its name: the one in its place, when the
    number of columns and its type are the same. *)
Definition renamed_from (old new : Schema) (i : nat) (c : Column) : option bytes :=
  oc ← Columns old !! i; if decide (length (Columns new) = length (Columns old) /\ cType oc = cType c) then Some (cName oc) else None.

(** The row under the new schema, column by column: a column that the row has keeps
    its value, a renamed one has the value of the old name, any other is zero. *)
Definition value_after (old new : Schema) (r : Row) (i : nat) (c : Column) : value :=
  match r !! cName c, renamed_from old new i c with
  | Some v, _ => v
  | None, Some n => default VNil (r !! n)
  | None, None => zero_of (cType c)
  end.
Definition row_after (old new : Schema) (r : Row) : Row :=
  list_to_map (imap (fun i c => (cName c, value_after old new r i c)) (Columns new)).

Lemma zeroValue_spec t : IntType <= t <= TimestampType -> zeroValue t = Some (zero_of t).
Proof.
  unfold IntType, TimestampType. intros Ht. assert (t = 1 \/ t = 2 \/ t = 3 \/ t = 4 \/ t = 5 \/ t = 6) as Hc by lia.
  destruct Hc as [->|[->|[->|[->|[->| ->]]]]]; reflexivity.
Qed.

Lemma alteredValue_after old new r i c :
  IntType <= cType c <= TimestampType -> alteredValue old new r i c = Some (value_after old new r i c).
Proof.
  intros Ht. unfold alteredValue, value_after, renamed_from. destruct (r !! cName c) as [v|]; [done|].
  destruct (Columns old !! i) as [oc|]; cbn; [|by apply zeroValue_spec]. case_decide; [|by apply zeroValue_spec].
  unfold field. by destruct (r !! cName oc).
Qed.

Lemma convertCols_after old new r i cs nr :
  NoDup (cName <$> cs) -> Forall (fun c => cName c <> [] /\ IntType <= cType c <= TimestampType) cs ->
  convertCols old new r i cs nr = list_to_map (imap (fun j c => (cName c, value_after old new r (i + j) c)) cs) ∪ nr.
Proof.
  revert i nr. induction cs as [|c cs IH]; intros i nr Hd Hok; [symmetry; apply (left_id_L ∅ (∪))|].
  apply NoDup_cons in Hd as [Hn Hd]. apply Forall_cons in Hok as [[_ Ht] Hok]. cbn [convertCols imap list_to_map]. fold (cName <$> cs) in *.
  rewrite alteredValue_after, IH by done. rewrite Nat.add_0_r. cbn [fst snd].
  assert (imap (fun j c' => (cName c', value_after old new r (S i + j) c')) cs = imap ((fun j c' => (cName c', value_after old new r (i + j) c')) ∘ S) cs) as <-
    by (apply imap_ext; intros j c' _; cbn; do 2 f_equal; lia).
  rewrite list_to_map_cons, <- insert_union_l. symmetry. apply insert_union_r. apply not_elem_of_list_to_map_1. intros Hin. apply Hn.
  rewrite fmap_imap in Hin. change (fun n => _) with (fun n : nat => cName) in Hin. by rewrite (imap_const cName) in Hin.
Qed.

Lemma convertRow_after old new r : schema_ok new -> convertRow old new r = row_after old new r.
Proof. intros [Hd Hok]. unfold convertRow, row_after. rewrite convertCols_after by done. apply (right_id_L ∅ (∪)). Qed.

Section altering.
Context `{Codec : IndexCodec} `{Fmt : Formats}.
Context (reads : Store -> kvs -> Prop) (sim : Store -> spec_state -> Prop).
Context `{HR : !StoreReads reads} `{HW : !StoreWrites reads sim}.

(** The converted row is stored under the key it had. *)
Definition alterable (old new : Schema) (k : bytes) (r : Row) : Prop :=
  let r' := row_after old new r in
  exists b, encode new r' = Ok b /\ decode new b = Ok r' /\ key_of new r' = k /\ fits (flagLive, k, b).

(** [D] has been rewritten so far, the rest is as in [m0]. *)
Definition rewriting (s : Schema) (m0 m : kvs) (D : rowmap) : Prop :=
  forall k, match D !! k with
            | Some r => exists b, kv_get k m = Some b /\ decode s b = Ok r /\ key_of s r = k
            | None => kv_get k m = kv_get k m0
            end.

Lemma rewriteRows_spec rows t st D m0 c0 cs :
  Columns (tschema t) = c0 :: cs -> NoDup (cName <$> cs) ->
  sim (tstore t) st -> index_ok cs (secondary t) D -> rewriting (tschema t) m0 (current st) D ->
  Forall (fun r => exists b, encode (tschema t) r = Ok b /\ decode (tschema t) b = Ok r /\ fits (flagLive, key_of (tschema t) r, b)) rows ->
  NoDup (key_of (tschema t) <$> rows) -> (forall r, r ∈ rows -> D !! key_of (tschema t) r = None) ->
  len (states st) + len rows < 2 ^ 32 - 1 ->
  exists t' st', rewriteRows rows t = (Ok tt, t') /\ tschema t' = tschema t /\ sim (tstore t') st' /\ grown st st' (len rows) /\
    let D' := foldl (fun T r => <[key_of (tschema t) r := r]> T) D rows in
    index_ok cs (secondary t') D' /\ rewriting (tschema t) m0 (current st') D'.
Proof using HR HW.
  intros Hc Hd. revert t st D Hc. induction rows as [|r rows IH]; intros t st D Hc Hsim Hi Hm Hok Hn Hf Hb; cbn [rewriteRows foldl].
  { exists t, st. split_and!; [done|done|done|by apply grown_refl|done|done]. }
  cbn [fmap list_fmap] in Hn. apply NoDup_cons in Hn as [Hr Hn]. fold (key_of (tschema t) <$> rows) in Hr.
  apply Forall_cons in Hok as [(b&Ee&Hdec&Hfit) Hok]. rewrite len_cons in *. pose proof (len_nonneg rows). set (key := key_of (tschema t) r) in *.
  rewrite bind_get, primaryKey_ok by (by rewrite Hc). erewrite bind_ok by reflexivity. fold key.
  erewrite bind_ok by (unfold lift; rewrite Ee; reflexivity).
  destruct (sw_put _ _ key b Hsim) as (s1&st1&Ep&Hsim1&Hx); [lia|done|]. rewrite (bind_ok _ _ _ _ _ (on_store_ok _ _ _ _ Ep)).
  assert (D !! key = None) as HDk by (apply Hf; constructor).
  destruct (indexRow_ok (set_tstore s1 t) D c0 cs Hc Hd Hi key r HDk) as (sec1&E1&H1). rewrite (bind_ok _ _ _ _ _ E1).
  pose proof (extends_grown _ _ _ Hx) as Hg1. destruct Hx as (Hcur&_).
  destruct (IH (set_secondary sec1 (set_tstore s1 t)) st1 (<[key := r]> D) Hc Hsim1 H1) as (t2&st2&E2&Hs2&Hsim2&Hg2&H2); cbn [tschema set_secondary set_tstore]; try done.
  - intros k. rewrite lookup_insert, Hcur, kv_get_put by (eapply sr_sorted, sw_reads, Hsim).
    destruct (decide (k = key)) as [->|Hne]; [rewrite decide_True by done; by exists b|]. rewrite decide_False by done. apply Hm.
  - intros r' Hin. rewrite lookup_insert_ne; [by apply Hf, list_elem_of_further|]. intros E. apply Hr. fold key. rewrite E.
    apply list_elem_of_fmap. by exists r'.
  - unfold grown in Hg1. lia.
  - exists t2, st2. split_and!; [done|done|done|by eapply grown_trans|apply H2|apply H2].
Qed.

Lemma rewritten_rows old new m T :
  sorted_keys m -> rows_rep old m T -> map_Forall (alterable old new) T ->
  let rows := row_after old new <$> scan_rows T in
  key_of new <$> rows = sorted_dom T /\ foldl (fun T r => <[key_of new r := r]> T) ∅ rows = row_after old new <$> T.
Proof.
  intros Hs Hr Ha rows.
  assert (key_of new <$> rows = sorted_dom T) as Hk.
  { rewrite <- (scan_keys old m T Hr). unfold rows. rewrite <- list_fmap_compose. apply list_fmap_ext. intros i r Hi.
    apply list_elem_of_lookup_2, elem_scan_rows in Hi as [k Hk]. destruct (Ha _ _ Hk) as (b&_&_&E&_). cbn. rewrite E.
    by destruct (rows_rep_Some _ _ _ _ _ Hr Hk) as [-> _]. }
  split; [done|]. assert (NoDup (key_of new <$> rows)) as Hn by (rewrite Hk; by eapply sorted_dom_NoDup).
  rewrite (foldl_insert (key_of new) id), map_union_empty by done. apply map_eq. intros k. apply option_eq. intros r'.
  rewrite <- elem_of_list_to_map by (by rewrite <- list_fmap_compose). rewrite list_elem_of_fmap, lookup_fmap, fmap_Some.
  unfold id, rows. setoid_rewrite list_elem_of_fmap. setoid_rewrite elem_scan_rows. split.
  - intros (r1&[= -> ->]&r&->&k0&Hkr). exists r. split; [|done]. by destruct (Ha _ _ Hkr) as (b&_&_&->&_).
  - intros (r&Hkr&->). exists (row_after old new r). split; [|by eauto]. by destruct (Ha _ _ Hkr) as (b&_&_&->&_).
Qed.

Lemma Alter_spec t st T new :
  table_sim reads sim t st T -> schema_ok new -> Columns new <> [] -> map_Forall (alterable (tschema t) new) T ->
  len (states st) + Z.of_nat (base.size T) < 2 ^ 32 - 1 ->
  exists t' st', Alter new t = (Ok tt, t') /\ table_sim reads sim t' st' (row_after (tschema t) new <$> T) /\ tschema t' = new /\
    grown st st' (Z.of_nat (base.size T)).
Proof using HR HW.
  intros [Hsim Ht] Hs Hne Ha Hb. pose proof (tr_rows _ _ _ _ Ht) as Hr. pose proof (sr_sorted _ _ (tr_reads _ _ _ _ Ht)) as Hsort.
  unfold Alter. rewrite (proj2 (validate_ok new) Hs). erewrite bind_ok by reflexivity.
  rewrite bind_get, (bind_ok _ _ _ _ _ (Scan_spec reads _ _ _ Ht)).
  rewrite (list_fmap_ext (convertRow (tschema t) new) (row_after (tschema t) new)) by (intros; by apply convertRow_after).
  destruct (Columns new) as [|c0 cs] eqn:Ec; [done|]. do 2 erewrite bind_ok by reflexivity.
  erewrite bind_ok by (unfold tailColumns; rewrite Ec; reflexivity). erewrite bind_ok by reflexivity. set (t1 := set_secondary _ _).
  assert (NoDup (cName <$> cs)) as Hd by (pose proof (schema_tail_NoDup _ Hs) as Hd; by rewrite Ec in Hd).
  destruct (rewritten_rows (tschema t) new (current st) T Hsort Hr Ha) as [Hkeys Hfold]. pose proof (scan_rows_length T).
  destruct (rewriteRows_spec (row_after (tschema t) new <$> scan_rows T) t1 st ∅ (current st) c0 cs Ec Hd Hsim (empty_index_ok cs))
    as (t'&st'&E&Hs'&Hsim'&Hg'&Hi'&Hm').
  - intros k. by rewrite lookup_empty.
  - apply Forall_fmap, Forall_forall. intros r [k Hk]%elem_scan_rows. destruct (Ha _ _ Hk) as (b&?&?&Ek&?). exists b. cbn. by rewrite Ek.
  - cbn [t1 tschema set_secondary set_schema]. rewrite Hkeys. by eapply sorted_dom_NoDup.
  - intros r _. apply lookup_empty.
  - unfold len in *. rewrite length_fmap. lia.
  - cbn [t1 tschema set_secondary set_schema] in *. rewrite Hfold in Hi', Hm'. exists t', st'. split_and!; [done| |done|eapply grown_weaken; [|exact Hg']; unfold len in *; rewrite length_fmap; lia]. split; [done|].
    split; rewrite ?Hs'; [by apply sw_reads|done|by rewrite Ec| |by rewrite Ec].
    intros k. specialize (Hm' k). rewrite lookup_fmap in *. destruct (T !! k) as [r|] eqn:Ek; cbn in *.
    + destruct Hm' as (b&->&?&?). by constructor.
    + rewrite Hm'. specialize (Hr k). rewrite Ek in Hr. inversion Hr. constructor.
Qed.
End altering.

(** C16: on a table with the rows [T], after any number of sessions, [Alter] to a
    valid schema with columns rewrites every row to [row_after], column by column (a
    column of the same name keeps its value, a column renamed in place has the old
    one's, any other column has the zero value of its type), under the same key, and
    lookups through the new index see it. Condition ([alterable]): every converted row
    fits a page, keeps its key and is read back by the codec as it was written. That
    excludes a change of the key column, and on a table with rows an added TIMESTAMP
    column ([alter_zero_time]) or BYTES column. *)
Theorem table_alter `{Codec : IndexCodec} `{Fmt : Formats} (t : Table) (st : spec_state) (T : rowmap) (new : Schema)
    (Ht : table_sim store_reads durable t st T) (Hs : validate new = Ok tt) (Hc : Columns new <> [])
    (Ha : map_Forall (alterable (tschema t) new) T) (Hb : len (states st) + Z.of_nat (base.size T) < 2 ^ 32 - 1) :
  exists t', Alter new t = (Ok tt, t') /\
    (forall key, Get key t' = (Ok (row_after (tschema t) new <$> T !! key), t')) /\
    (forall column v, Find column v t' = (Ok (find_rows new column v (row_after (tschema t) new <$> T)), t')).
Proof.
  apply validate_ok in Hs. destruct (Alter_spec store_reads durable t st T new Ht Hs Hc Ha Hb) as (t'&st'&E&[_ Ht']&Hsc&_).
  exists t'. split_and!; [done| |].
  - intros key. rewrite <- lookup_fmap. by eapply Table_Get_spec; [apply _|].
  - intros column v. rewrite <- Hsc at 1. rewrite <- Hsc in Ht'. rewrite <- Hsc. by eapply Find_spec; [apply _|].
Qed.

Definition people_active : Schema :=
  MkSchema (Columns people ++ [MkCol (of_string "active") BoolType]) (Constraints people).

Definition alterable_b `{Formats} (old new : Schema) (kr : bytes * Row) : bool :=
  let r' := row_after old new kr.2 in
  match encode new r' with
  | Ok b =>
      bool_decide (key_of new r' = kr.1) && bool_decide (fits (flagLive, kr.1, b)) &&
      match decode new b with Ok r => bool_decide (r = r') | _ => false end
  | _ => false
  end.

Lemma alterable_b_ok `{Formats} (old new : Schema) (T : rowmap) :
  forallb (alterable_b old new) (map_to_list T) = true -> map_Forall (alterable old new) T.
Proof.
  rewrite forallb_forall. intros Hall k r Hk. specialize (Hall (k, r)). unfold alterable_b in Hall. cbn [fst snd] in Hall.
  assert (In (k, r) (map_to_list T)) as Hin by (by apply list_elem_of_In, elem_of_map_to_list). specialize (Hall Hin).
  destruct (encode new (row_after old new r)) as [b| | |] eqn:Ee; try done. apply andb_true_iff in Hall as [[H1 H2]%andb_true_iff H3].
  destruct (decode new b) eqn:Ed; try done. apply bool_decide_eq_true_1 in H1, H2, H3. subst. exists b. by split_and!.
Qed.

Lemma table_alter_witness :
  exists t T, (exists st, table_sim (Fmt := PlainFormats) store_reads durable t st T) /\
    exists t', Alter (Fmt := PlainFormats) people_active t = (Ok tt, t') /\
      (forall key, Get key t' = (Ok (row_after (tschema t) people_active <$> T !! key), t')) /\
      (forall column v, Find column v t' = (Ok (find_rows people_active column v (row_after (tschema t) people_active <$> T)), t')).
Proof.
  destruct two_people_table as (t&st&Hts&Hsc&Hn&_). set (T := (spec_table (Fmt := PlainFormats) people two_people ∅).2) in *.
  assert (Z.of_nat (base.size T) = 2) as Hsz by (vm_compute; reflexivity).
  destruct Hts as [Hsim Ht]. assert (table_sim (Fmt := PlainFormats) store_reads durable t st T) as Hts by (split; [by apply simulates_durable|done]).
  exists t, T. split; [by exists st|]. apply (table_alter (Fmt := PlainFormats) t st T people_active Hts).
  - reflexivity.
  - discriminate.
  - rewrite Hsc. apply (alterable_b_ok (H := PlainFormats)). vm_compute. reflexivity.
  - lia.
Defined.

(** ** Where rows and index part *)

(** Run [m] on a freshly opened table. *)
Definition on_fresh_table {A} (schema : Schema) (m : M Table A) : outcome A :=
  match OpenTable (Fmt := PlainFormats) schema fresh_files with
  | (Ok t, _) => (m t).1
  | (Err e, _) => Err e
  | (Panic, _) => Panic
  | (NoFuel, _) => NoFuel
  end.

(** A result, compared by decision so that computing it stays cheap. *)
Definition is_result {A} `{EqDecision A} (a : A) (o : outcome A) : bool :=
  match o with Ok x => bool_decide (x = a) | _ => false end.

Lemma is_result_eq {A} `{EqDecision A} (a : A) o : is_result a o = true -> o = Ok a.
Proof. destruct o; try done. cbn. by intros ->%bool_decide_eq_true_1. Qed.

#[local] Existing Instance PlainFormats.

(** rows committed through [ApplyRowsBatch] do not reach the secondary
    index: after a batch changes a row's e-mail, looking the old address up still
    returns the row, and looking the new one up returns nothing. *)
Theorem batch_leaves_index_stale :
  on_fresh_table people
    (_ ← Insert (of_string "1") (person 1 "ann@x" (VInt 30));
     _ ← ApplyRowsBatch 1 [(of_string "1", MkTxRow (person 1 "new@x" (VInt 30)) false)];
     old ← Find (of_string "email") (VString (of_string "ann@x"));
     new ← Find (of_string "email") (VString (of_string "new@x"));
     mret (old, new)) = Ok ([person 1 "new@x" (VInt 30)], []).
Proof. apply is_result_eq. vm_compute. reflexivity. Qed.

(** an update that assigns the key column inserts the row under its new key
    and leaves the old row in place, so one row becomes two. *)
Theorem update_key_duplicates :
  on_fresh_table people
    (_ ← Insert (of_string "1") (person 1 "ann@x" VNil);
     r ← Update None {[ of_string "id" := VInt 2; of_string "email" := VString (of_string "bob@x") ]};
     rows ← Scan;
     mret (r.1, match r.2 with None => true | Some _ => false end, rows)) = Ok (1, true, [person 1 "ann@x" VNil; person 2 "bob@x" VNil]).
Proof. apply is_result_eq. vm_compute. reflexivity. Qed.

Definition scores : Schema :=
  MkSchema [MkCol (of_string "id") IntType; MkCol (of_string "score") FloatType; MkCol (of_string "blob") BytesType] ∅.
Definition score (id : Z) (v b : value) : Row :=
  list_to_map [(of_string "id", VInt id); (of_string "score", v); (of_string "blob", b)].

(** a value that reads back differently (an integer in a float column, an
    empty byte slice) is indexed as given but removed as stored: the entry stays,
    and a lookup of the old value returns the row with its new value. *)
Theorem converted_value_stays_indexed :
  on_fresh_table scores
    (_ ← Insert (of_string "1") (score 1 (VInt 1) (VBytes (Some [])));
     _ ← Insert (of_string "1") (score 1 (VFloat 0) (VBytes (Some [Byte.x07])));
     a ← Find (of_string "score") (VInt 1);
     b ← Find (of_string "blob") (VBytes (Some []));
     mret (a, b)) = Ok ([score 1 (VFloat 0) (VBytes (Some [Byte.x07]))], [score 1 (VFloat 0) (VBytes (Some [Byte.x07]))]).
Proof. apply is_result_eq. vm_compute. reflexivity. Qed.

Definition people_seen : Schema :=
  MkSchema (Columns people ++ [MkCol (of_string "seen") TimestampType]) (Constraints people).

(** adding a timestamp column fills it with the zero time, whose nanoseconds
    overflow 64 bits: what is read back is an instant in the year 1754; and a
    schema without columns, which passes validation, makes [Alter] panic. *)
Theorem alter_zero_time :
  on_fresh_table people
    (_ ← Insert (of_string "1") (person 1 "ann@x" VNil);
     _ ← Alter people_seen;
     r ← Get (of_string "1");
     mret (field (of_string "seen") <$> r)) = Ok (Some (VTime (-6795364578871345152) UTC)) /\
  on_fresh_table people (Alter (MkSchema [] ∅)) = Panic.
Proof. split; [apply is_result_eq|]; vm_compute; reflexivity. Qed.
