(* ===== verification/Catalog.v ===== *)
(** * The table catalog ([src/kv/catalog.go])

    The catalog maps table names to their file and schema and keeps a JSON copy
    beside the database. JSON is not modelled: [JsonCodec] marshals and unmarshals
    lists of entries, and [JsonCodecLaws] is the round trip that [encoding/json]
    documents for text (invalid UTF-8 is replaced, so it is stated for ASCII).
    The file is replaced by writing a temporary one and renaming it; a fault may
    hit any of these steps. *)
From stdpp Require Import sorting.
From S2P Require Import Prelude OrderedMap Value Text RowCodec.

Record CatalogEntry := MkEntry { eName : bytes; ePath : bytes; eSchema : Schema }.

(** The steps of [save] that can fail. *)
Inductive save_step := CreateTemp | WriteTemp | SyncTemp | CloseTemp | RenameTemp.

(** The catalog file: absent or its bytes. *)
Record CatalogFile := MkCatFile { cat_data : option bytes; cat_fault : option (save_step * error) }.

Record Catalog := MkCatalog { cat_file : CatalogFile; cat_entries : gmap bytes CatalogEntry }.

Class JsonCodec := {
  json_marshal : list CatalogEntry -> bytes;
  json_unmarshal : bytes -> outcome (list CatalogEntry)
}.

(** All strings of an entry are ASCII. *)
Definition ascii_entry (e : CatalogEntry) : Prop :=
  ascii (eName e) /\ ascii (ePath e) /\ Forall (fun c => ascii (cName c)) (Columns (eSchema e)) /\
  map_Forall (fun n k => ascii n /\ match References k with Some r => ascii (refTable r) /\ ascii (refColumn r) | None => True end)
    (Constraints (eSchema e)).

Class JsonCodecLaws `{JsonCodec} := json_roundtrip l : Forall ascii_entry l -> json_unmarshal (json_marshal l) = Ok l.

(** ** Listing *)

(** [entries[i].Name < entries[j].Name] as a total preorder. *)
Definition name_le (a b : CatalogEntry) : Prop := ~ bytes_lt (eName b) (eName a).

#[global] Instance name_le_dec : RelDecision name_le.
Proof. intros a b. unfold name_le. apply _. Defined.
#[global] Instance name_le_total : Total name_le.
Proof.
  intros a b. unfold name_le. destruct (decide (bytes_lt (eName b) (eName a))) as [H|H]; [right|by left].
  intros H2. eapply bytes_lt_irrefl, bytes_lt_trans; eauto.
Qed.

#[global] Instance name_le_trans : Transitive name_le.
Proof.
  intros x y z Hxy Hyz Hzx. unfold name_le in *.
  apply bytes_nlt_le in Hxy as [Hxy|Hxy], Hyz as [Hyz|Hyz].
  - rewrite Hyz, Hxy in Hzx. by eapply bytes_lt_irrefl.
  - rewrite <- Hxy in Hzx. eapply bytes_lt_irrefl, bytes_lt_trans; eauto.
  - rewrite Hyz in Hzx. eapply bytes_lt_irrefl, bytes_lt_trans; eauto.
  - eapply bytes_lt_irrefl, bytes_lt_trans; [exact Hxy|]. eapply bytes_lt_trans; eauto.
Qed.

Definition Entries (c : Catalog) : list CatalogEntry := merge_sort name_le (map_to_list (cat_entries c)).*2.

Section with_json.
Context `{Json : JsonCodec}.

(** ** Opening *)

Fixpoint loadEntries (l : list CatalogEntry) (m : gmap bytes CatalogEntry) : outcome (gmap bytes CatalogEntry) :=
  match l with
  | [] => Ok m
  | e :: l =>
      if decide (eName e = [] \/ ePath e = []) then Err (Errorf "invalid catalog entry" [])
      else if decide (is_Some (m !! eName e)) then Err (Errorf "duplicate catalog table %q" [AStr (eName e)])
      else
        match validate (eSchema e) with
        | Err err => Err (Errorf "catalog table %q: %w" [AStr (eName e); AErr err])
        | Ok _ => loadEntries l (<[eName e := e]> m)
        | Panic => Panic
        | NoFuel => NoFuel
        end
  end.

Definition OpenCatalog (f : CatalogFile) : outcome Catalog :=
  match cat_data f with
  | None => Ok (MkCatalog f ∅)
  | Some b =>
      match json_unmarshal b with
      | Err err => Err (Errorf "decode catalog: %w" [AErr err])
      | Ok entries => m ← loadEntries entries ∅; Ok (MkCatalog f m)
      | Panic => Panic
      | NoFuel => NoFuel
      end
  end.

(** ** Changing *)

Definition save : M Catalog unit :=
  c ← get_state;
  let b := json_marshal (Entries c) in
  match cat_fault (cat_file c) with
  | Some (CreateTemp, err) => fail (Errorf "create catalog temp file: %w" [AErr err])
  | Some (WriteTemp, err) => fail (Errorf "write catalog: %w" [AErr err])
  | Some (SyncTemp, err) => fail (Errorf "sync catalog: %w" [AErr err])
  | Some (CloseTemp, err) => fail err
  | Some (RenameTemp, err) => fail (Errorf "replace catalog: %w" [AErr err])
  | None => modify (fun c => MkCatalog (MkCatFile (Some b) None) (cat_entries c))
  end.

Definition Set_ (entry : CatalogEntry) : M Catalog unit :=
  if decide (eName entry = [] \/ ePath entry = []) then fail (Errorf "catalog table name and path are required" [])
  else
    _ ← lift (validate (eSchema entry));
    _ ← modify (fun c => MkCatalog (cat_file c) (<[eName entry := entry]> (cat_entries c)));
    save.

Definition Delete (name : bytes) : M Catalog unit :=
  _ ← modify (fun c => MkCatalog (cat_file c) (delete name (cat_entries c)));
  save.

(** ** What a catalog holds *)

Definition entry_ok (e : CatalogEntry) : Prop :=
  eName e <> [] /\ ePath e <> [] /\ schema_ok (eSchema e) /\ ascii_entry e.

Definition entries_ok (m : gmap bytes CatalogEntry) : Prop :=
  map_Forall (fun n e => eName e = n /\ entry_ok e) m.

(** The file holds the entries. *)
Definition saved (f : CatalogFile) (m : gmap bytes CatalogEntry) : Prop :=
  match cat_data f with
  | Some b => b = json_marshal (Entries (MkCatalog f m))
  | None => m = ∅
  end.

Lemma Entries_perm c : Entries c ≡ₚ (map_to_list (cat_entries c)).*2.
Proof. apply merge_sort_Permutation. Qed.

Lemma elem_Entries c e : entries_ok (cat_entries c) -> e ∈ Entries c <-> cat_entries c !! eName e = Some e.
Proof.
  intros Hok. rewrite Entries_perm, list_elem_of_fmap. split.
  - intros ([n e']&->&Hin%elem_of_map_to_list). cbn. by destruct (Hok _ _ Hin) as [-> _].
  - intros H. exists (eName e, e). split; [done|]. by apply elem_of_map_to_list.
Qed.

Lemma Entries_names c : entries_ok (cat_entries c) -> NoDup (eName <$> Entries c).
Proof.
  intros Hok. rewrite Entries_perm, <- list_fmap_compose. pose proof (NoDup_fst_map_to_list (cat_entries c)) as Hn.
  replace ((eName ∘ snd) <$> map_to_list (cat_entries c)) with (map_to_list (cat_entries c)).*1; [done|].
  apply list_fmap_ext. intros i [n e] Hi. apply list_elem_of_lookup_2, elem_of_map_to_list in Hi. cbn. symmetry. apply (Hok _ _ Hi).
Qed.

Lemma loadEntries_ok l m :
  NoDup (eName <$> l) -> Forall entry_ok l -> (forall e, e ∈ l -> m !! eName e = None) ->
  loadEntries l m = Ok (foldl (fun m e => <[eName e := e]> m) m l).
Proof.
  revert m. induction l as [|e l IH]; intros m Hn Hok Hf; [done|]. cbn [loadEntries foldl fmap list_fmap] in *.
  apply NoDup_cons in Hn as [Hne Hn]. apply Forall_cons in Hok as [(H1&H2&H3&_) Hok]. rewrite decide_False by naive_solver.
  rewrite decide_False by (rewrite Hf by constructor; apply is_Some_None). rewrite (proj2 (validate_ok _) H3). apply IH; [done|done|].
  intros e' Hin. rewrite lookup_insert_ne; [apply Hf; by constructor|]. intros E. apply Hne. rewrite E. by apply list_elem_of_fmap_2.
Qed.

Lemma Entries_rebuild c : entries_ok (cat_entries c) -> foldl (fun m e => <[eName e := e]> m) ∅ (Entries c) = cat_entries c.
Proof.
  intros Hok. pose proof (Entries_names c Hok) as Hn. rewrite (foldl_insert eName id), map_union_empty by done.
  apply map_eq. intros n. apply option_eq. intros e.
  rewrite <- elem_of_list_to_map by (by rewrite <- list_fmap_compose). rewrite list_elem_of_fmap. unfold id. split.
  - intros (e'&[= -> ->]&Hin). by apply elem_Entries.
  - intros He. exists e. destruct (Hok _ _ He) as [<- _]. split; [done|]. by apply elem_Entries.
Qed.

Lemma OpenCatalog_saved `{Laws : !JsonCodecLaws} f m :
  entries_ok m -> saved f m -> OpenCatalog f = Ok (MkCatalog f m).
Proof.
  intros Hok Hs. unfold OpenCatalog, saved in *. destruct (cat_data f) as [b|]; [|by subst m]. subst b.
  set (c := MkCatalog f m). assert (forall e, e ∈ Entries c -> entry_ok e) as He.
  { intros e Hin. apply elem_Entries in Hin; [|done]. apply (Hok _ _ Hin). }
  rewrite json_roundtrip by (apply Forall_forall; intros e Hin; by apply He).
  rewrite loadEntries_ok; [|by apply Entries_names|by apply Forall_forall|intros; apply lookup_empty].
  unfold mbind, outcome_bind. by rewrite (Entries_rebuild c).
Qed.
End with_json.

(** ** Sequences of changes *)

Inductive catalog_op := CSet (entry : CatalogEntry) | CDelete (name : bytes).

Definition catalog_op_ok (o : catalog_op) : Prop := match o with CSet e => ascii_entry e | CDelete _ => True end.

(** An entry without name or path, or with a schema that does not validate, is
    refused and changes nothing. *)
Definition spec_catalog_step (o : catalog_op) (m : gmap bytes CatalogEntry) : outcome unit * gmap bytes CatalogEntry :=
  match o with
  | CSet e =>
      if decide (eName e = [] \/ ePath e = []) then (Err (Errorf "catalog table name and path are required" []), m)
      else match validate (eSchema e) with
           | Ok _ => (Ok tt, <[eName e := e]> m)
           | err => (err, m)
           end
  | CDelete name => (Ok tt, delete name m)
  end.

Fixpoint spec_catalog (os : list catalog_op) (m : gmap bytes CatalogEntry) : list (outcome unit) * gmap bytes CatalogEntry :=
  match os with
  | [] => ([], m)
  | o :: os => let '(r, m) := spec_catalog_step o m in let '(rs, m) := spec_catalog os m in (r :: rs, m)
  end.

Section run.
Context `{Json : JsonCodec}.

Definition catalog_step (o : catalog_op) : M Catalog unit :=
  match o with CSet e => Set_ e | CDelete name => Delete name end.

Fixpoint catalog_run (os : list catalog_op) (c : Catalog) : list (outcome unit) * Catalog :=
  match os with
  | [] => ([], c)
  | o :: os => let '(r, c) := catalog_step o c in let '(rs, c) := catalog_run os c in (r :: rs, c)
  end.

Definition catalog_rep (c : Catalog) (m : gmap bytes CatalogEntry) : Prop :=
  cat_entries c = m /\ entries_ok m /\ saved (cat_file c) m /\ cat_fault (cat_file c) = None.

Lemma save_ok c : cat_fault (cat_file c) = None ->
  save c = (Ok tt, MkCatalog (MkCatFile (Some (json_marshal (Entries c))) None) (cat_entries c)).
Proof. intros Hf. unfold save. rewrite bind_get, Hf. done. Qed.

Lemma save_rep c : entries_ok (cat_entries c) -> cat_fault (cat_file c) = None ->
  exists c', save c = (Ok tt, c') /\ catalog_rep c' (cat_entries c).
Proof. intros Hok Hf. rewrite save_ok by done. eexists. split; [reflexivity|]. by split_and!. Qed.

Lemma catalog_step_refines o c m :
  catalog_rep c m -> catalog_op_ok o ->
  exists c', catalog_step o c = ((spec_catalog_step o m).1, c') /\ catalog_rep c' (spec_catalog_step o m).2.
Proof.
  intros (<-&Hok&Hs&Hf) Ho. destruct o as [e|name]; cbn [catalog_step spec_catalog_step catalog_op_ok] in *.
  - unfold Set_. case_decide as Hd; [exists c; by split_and!|]. apply Decidable.not_or in Hd as [Hn Hp].
    destruct (validate (eSchema e)) as [[]| | |] eqn:Ev; try (exists c; by split_and!).
    erewrite bind_ok by reflexivity. erewrite bind_ok by reflexivity. apply save_rep; [|done]. cbn.
    apply map_Forall_insert_2; [|done]. split; [done|]. split_and!; [done|done|by apply validate_ok|apply Ho..].
  - unfold Delete. erewrite bind_ok by reflexivity. apply save_rep; [|done]. cbn. by apply map_Forall_delete.
Qed.

Lemma catalog_run_refines os c m :
  catalog_rep c m -> Forall catalog_op_ok os ->
  exists c', catalog_run os c = ((spec_catalog os m).1, c') /\ catalog_rep c' (spec_catalog os m).2.
Proof.
  intros Hc Hok. revert c m Hc. induction Hok as [|o os Ho _ IH]; intros c m Hc; cbn [catalog_run spec_catalog]; [by exists c|].
  destruct (catalog_step_refines o c m Hc Ho) as (c1&E1&Hc1). rewrite E1. destruct (spec_catalog_step o m) as [r m1]. cbn [fst snd] in *.
  destruct (IH c1 m1 Hc1) as (c2&E2&Hc2). exists c2. rewrite E2. by destruct (spec_catalog os m1).
Qed.
End run.

(** C22: the catalog file follows the catalog. After any registrations and
    removals on a new catalog, invalid ones included, opening the file gives the
    registered tables, and the listing is sorted by name. *)
Theorem catalog_reopen `{Json : JsonCodec} `{!JsonCodecLaws} (os : list catalog_op) (Hok : Forall catalog_op_ok os) :
  exists c0 c, OpenCatalog (MkCatFile None None) = Ok c0 /\ catalog_run os c0 = ((spec_catalog os ∅).1, c) /\
    cat_entries c = (spec_catalog os ∅).2 /\ OpenCatalog (cat_file c) = Ok c /\
    (forall e, e ∈ Entries c <-> (spec_catalog os ∅).2 !! eName e = Some e) /\
    StronglySorted (fun a b => bytes_lt (eName a) (eName b)) (Entries c).
Proof.
  exists (MkCatalog (MkCatFile None None) ∅).
  destruct (catalog_run_refines os (MkCatalog (MkCatFile None None) ∅) ∅) as (c&E&(Em&Hent&Hs&Hf)); [split_and!; try done; apply map_Forall_empty|done|].
  exists c. rewrite <- Em in Hent, Hs |- *. split_and!; [done|done|done| |by intros e; apply elem_Entries|].
  - rewrite (OpenCatalog_saved (cat_file c) (cat_entries c)) by done. by destruct c.
  - assert (StronglySorted name_le (Entries c)) as Hsort by apply (StronglySorted_merge_sort name_le _).
    pose proof (Entries_names c Hent) as Hn. induction Hsort as [|e l Hl IH Hf']; [constructor|]. cbn in Hn. apply NoDup_cons in Hn as [Hne Hn].
    constructor; [auto|]. rewrite Forall_forall in Hf' |- *. intros e' Hin. specialize (Hf' e' Hin). unfold name_le in Hf'.
    apply bytes_nlt_le in Hf' as [E'|Hlt]; [|done]. exfalso. apply Hne. rewrite <- E'. by apply list_elem_of_fmap_2.
Qed.

(** C39: a failed save leaves the file alone: whatever step fails, opening the
    file still gives the last saved catalog. *)
Theorem catalog_fault_safe `{Json : JsonCodec} `{!JsonCodecLaws} (c : Catalog) (m : gmap bytes CatalogEntry) (o : catalog_op)
    (step : save_step) (err : error) (Hf : cat_fault (cat_file c) = Some (step, err))
    (Hs : saved (cat_file c) m) (Hm : entries_ok m) :
  (catalog_step o c).1 <> Ok tt /\ OpenCatalog (cat_file (catalog_step o c).2) = Ok (MkCatalog (cat_file c) m).
Proof.
  assert (forall c', cat_file c' = cat_file c -> (save c').1 <> Ok tt /\ cat_file (save c').2 = cat_file c) as Hsave.
  { intros c' E. unfold save. rewrite bind_get, E, Hf. destruct step; by cbn. }
  assert ((catalog_step o c).1 <> Ok tt /\ cat_file (catalog_step o c).2 = cat_file c) as [H1 ->].
  { destruct o as [e|name]; cbn [catalog_step].
    - unfold Set_. case_decide; [done|]. destruct (validate (eSchema e)) as [[]| | |]; try done.
      do 2 erewrite bind_ok by reflexivity. by apply Hsave.
    - unfold Delete. erewrite bind_ok by reflexivity. by apply Hsave. }
  split; [done|]. by apply OpenCatalog_saved.
Qed.

(** ** A concrete codec *)

#[global] Instance Reference_eq_dec : EqDecision Reference.
Proof. solve_decision. Defined.
#[global] Instance ColumnConstraint_eq_dec : EqDecision ColumnConstraint.
Proof. solve_decision. Defined.
#[global] Instance Schema_eq_dec : EqDecision Schema.
Proof. solve_decision. Defined.
#[global] Instance CatalogEntry_eq_dec : EqDecision CatalogEntry.
Proof. solve_decision. Defined.

#[global] Program Instance Column_countable : Countable Column :=
  inj_countable' (fun c => (cName c, cType c)) (fun x => MkCol x.1 x.2) _.
Next Obligation. by intros []. Qed.
#[global] Program Instance Reference_countable : Countable Reference :=
  inj_countable' (fun r => (refTable r, refColumn r)) (fun x => MkRef x.1 x.2) _.
Next Obligation. by intros []. Qed.
#[global] Program Instance ColumnConstraint_countable : Countable ColumnConstraint :=
  inj_countable' (fun k => (NotNull k, Unique k, References k)) (fun x => MkCon x.1.1 x.1.2 x.2) _.
Next Obligation. by intros []. Qed.
#[global] Program Instance Schema_countable : Countable Schema :=
  inj_countable' (fun s => (Columns s, Constraints s)) (fun x => MkSchema x.1 x.2) _.
Next Obligation. by intros []. Qed.
#[global] Program Instance CatalogEntry_countable : Countable CatalogEntry :=
  inj_countable' (fun e => (eName e, ePath e, eSchema e)) (fun x => MkEntry x.1.1 x.1.2 x.2) _.
Next Obligation. by intros []. Qed.

Fixpoint bits_of (p : positive) : bytes :=
  match p with xH => [] | xO p => Byte.x30 :: bits_of p | xI p => Byte.x31 :: bits_of p end.

Fixpoint of_bits (b : bytes) : positive :=
  match b with [] => xH | Byte.x30 :: b => xO (of_bits b) | _ :: b => xI (of_bits b) end.

Lemma of_bits_of p : of_bits (bits_of p) = p.
Proof. induction p as [p IH|p IH|]; cbn; by rewrite ?IH. Qed.

#[global] Instance BitsCodec : JsonCodec := {
  json_marshal l := bits_of (countable.encode l);
  json_unmarshal b := match countable.decode (of_bits b) with Some l => Ok l | None => Err EOF end
}.

#[global] Instance BitsCodecLaws : JsonCodecLaws.
Proof. intros l _. cbn. by rewrite of_bits_of, countable.decode_encode. Qed.

Definition catalog_ops : list catalog_op :=
  [CSet (MkEntry (of_string "t2") (of_string "b.db") demo_schema); CSet (MkEntry (of_string "t1") (of_string "a.db") demo_schema);
   CSet (MkEntry [] (of_string "c.db") demo_schema); CDelete (of_string "t2")].

(** ASCII strings are recognised by computation. *)
Ltac check_ascii := repeat (constructor; [vm_compute; reflexivity|]); constructor.

Lemma demo_entry_ascii n p : ascii n -> ascii p -> ascii_entry (MkEntry n p demo_schema).
Proof.
  intros Hn Hp. split_and!; [done|done| |].
  - repeat (constructor; [check_ascii|]). constructor.
  - intros k v Hk. cbn in Hk. apply lookup_singleton_Some in Hk as [<- <-]. split; [check_ascii|done].
Qed.

Lemma catalog_ops_ok : Forall catalog_op_ok catalog_ops.
Proof.
  repeat (apply Forall_cons; split); try apply Forall_nil; cbn [catalog_op_ok]; try exact I; apply demo_entry_ascii; check_ascii.
Qed.

Lemma catalog_reopen_witness :
  exists c0 c, OpenCatalog (MkCatFile None None) = Ok c0 /\ catalog_run catalog_ops c0 = ((spec_catalog catalog_ops ∅).1, c) /\
    cat_entries c = (spec_catalog catalog_ops ∅).2 /\ OpenCatalog (cat_file c) = Ok c /\
    (forall e, e ∈ Entries c <-> (spec_catalog catalog_ops ∅).2 !! eName e = Some e) /\
    StronglySorted (fun a b => bytes_lt (eName a) (eName b)) (Entries c).
Proof. apply (catalog_reopen catalog_ops). exact catalog_ops_ok. Defined.

Definition faulty : Catalog := MkCatalog (MkCatFile None (Some (RenameTemp, EOF))) ∅.

Lemma catalog_fault_safe_witness :
  (catalog_step (CDelete (of_string "t")) faulty).1 <> Ok tt /\
  OpenCatalog (cat_file (catalog_step (CDelete (of_string "t")) faulty).2) = Ok (MkCatalog (cat_file faulty) ∅).
Proof. apply (catalog_fault_safe faulty ∅ (CDelete (of_string "t")) RenameTemp EOF); [reflexivity|reflexivity|apply map_Forall_empty]. Defined.
