(* ===== verification/Backup.v ===== *)
(** * Backup and restore ([src/kv/backup.go])

    A backup validates a closed database by opening and closing it, stages a copy
    of each of its files and renames the copies into place. [Disk] is the file
    system: contents by path, and the faults that staging or renaming a target can
    meet. Temporary files are removed before the call returns and are not part of
    it. *)
From S2P Require Import Prelude OrderedMap Page BufferPool Pager BTree BTreeProofs Wal Record Store StoreInv StoreProofs StoreSpec StoreRecovery StoreContract StoreReopen Value RowCodec Catalog.

Inductive stage_step := StageCreate | StageCopy | StageClose.

Record Disk := MkDisk {
  fs : gmap bytes bytes;
  stage_fault : gmap bytes (stage_step * error);
  rename_fault : gmap bytes error
}.

Definition set_fs (m : gmap bytes bytes) (d : Disk) : Disk := MkDisk m (stage_fault d) (rename_fault d).

Definition walSuffix : bytes := of_string ".wal".
Definition idxSuffix : bytes := of_string ".idx".
Definition catalogSuffix : bytes := of_string ".catalog".
Definition backupSuffixes : list bytes := [[]; walSuffix; idxSuffix; catalogSuffix].

(** What [os.Stat] reports for a missing file. *)
Definition NotExist (path : bytes) : error := Errorf "stat %s: no such file or directory" [AStr path].

(** ** A store on the disk *)

(** The database and the log are created if they are missing. *)
Definition open_files (path : bytes) (d : Disk) : Files :=
  MkFiles (MkFile (default [] (fs d !! path)) None false) (MkWal (default [] (fs d !! (path ++ walSuffix))) None)
    (MkIdx (fs d !! (path ++ idxSuffix)) None).

Definition put_files (path : bytes) (f : Files) (d : Disk) : Disk :=
  let m := <[path := Pager.contents (db_file f)]> (<[path ++ walSuffix := wal_file (wal_data f)]> (fs d)) in
  set_fs (match idx_data (idx_file f) with Some b => <[path ++ idxSuffix := b]> m | None => m end) d.

Section with_codecs.
Context `{Codec : IndexCodec} `{Json : JsonCodec}.

(** [s, err := Open(path)] and [s.Close()]. *)
Definition openClose (path : bytes) : M Disk unit := fun d =>
  match Open (open_files path d) with
  | (Ok s, _) => let '(o, s) := Close s in (o, put_files path (files_of s) d)
  | (Err e, f) => (Err e, put_files path f d)
  | (Panic, f) => (Panic, put_files path f d)
  | (NoFuel, f) => (NoFuel, put_files path f d)
  end.

Definition validateBackup (path : bytes) : M Disk unit :=
  d ← get_state;
  match fs d !! path with
  | None => fail (NotExist path)
  | Some db =>
      if decide (len db mod PageSize <> 0) then
        fail (Errorf "database size %d is not a multiple of page size %d" [AInt (len db); AInt PageSize])
      else
        _ ← openClose path;
        d ← get_state;
        match fs d !! (path ++ idxSuffix) with
        | None => fail (Errorf "index sidecar: %w" [AErr (NotExist (path ++ idxSuffix))])
        | Some _ =>
            match fs d !! (path ++ catalogSuffix) with
            | None => mret tt
            | Some b => _ ← lift (OpenCatalog (MkCatFile (Some b) None)); mret tt
            end
        end
  end.

(** The staged copies with their targets. *)
Fixpoint stage (source destination : bytes) (operation : bytes) (d : Disk) (suffixes : list bytes) : outcome (list (bytes * bytes)) :=
  match suffixes with
  | [] => Ok []
  | suffix :: suffixes =>
      match fs d !! (source ++ suffix) with
      | None =>
          if decide (suffix = catalogSuffix) then stage source destination operation d suffixes
          else Err (Errorf "%s %s: %w" [AStr operation; AStr suffix; AErr (NotExist (source ++ suffix))])
      | Some b =>
          match stage_fault d !! (destination ++ suffix) with
          | Some (StageClose, err) => Err err
          | Some (_, err) => Err (Errorf "stage %s: %w" [AStr suffix; AErr err])
          | None =>
              staged ← stage source destination operation d suffixes;
              Ok ((b, destination ++ suffix) :: staged)
          end
      end
  end.

Fixpoint replaceAll (staged : list (bytes * bytes)) : M Disk unit :=
  match staged with
  | [] => mret tt
  | (b, target) :: staged =>
      d ← get_state;
      match rename_fault d !! target with
      | Some err => fail (Errorf "replace %s: %w" [AStr target; AErr err])
      | None => _ ← modify (fun d => set_fs (<[target := b]> (fs d)) d); replaceAll staged
      end
  end.

Definition copyBundle (source destination operation : bytes) : M Disk unit :=
  d ← get_state;
  staged ← lift (stage source destination operation d backupSuffixes);
  replaceAll staged.

Definition wrapDisk (fmt : string) (m : M Disk unit) : M Disk unit := catch m (fun err => fail (Errorf fmt [AErr err])).

Definition Backup (source destination : bytes) : M Disk unit :=
  if decide (source = destination) then fail (Errorf "backup destination must differ from source" [])
  else
    _ ← wrapDisk "validate backup source: %w" (validateBackup source);
    copyBundle source destination (of_string "backup").

Definition Restore (source destination : bytes) : M Disk unit :=
  if decide (source = destination) then fail (Errorf "restore destination must differ from source" [])
  else
    _ ← wrapDisk "validate backup: %w" (validateBackup source);
    copyBundle source destination (of_string "restore").

(** ** Copying *)

Lemma suffix_inj (p a b : bytes) : p ++ a = p ++ b -> a = b.
Proof. apply app_inv_head. Qed.

Lemma lookup_targets (p : bytes) (l : list (bytes * bytes)) (m : gmap bytes bytes) :
  foldl (fun m e => <[e.2 := e.1]> m) m l !! p =
  match find (fun e => bool_decide (e.2 = p)) (reverse l) with Some e => Some e.1 | None => m !! p end.
Proof.
  revert m. induction l as [|e l IH] using rev_ind; intros m; [done|]. rewrite foldl_snoc, reverse_snoc. cbn [find].
  rewrite lookup_insert. case_bool_decide as E; [by rewrite decide_True|]. rewrite decide_False by done. apply IH.
Qed.

Lemma replaceAll_ok l d :
  rename_fault d = ∅ -> replaceAll l d = (Ok tt, set_fs (foldl (fun m e => <[e.2 := e.1]> m) (fs d) l) d).
Proof.
  revert d. induction l as [|[b target] l IH]; intros d Hf; cbn [replaceAll foldl]; [by destruct d|].
  rewrite bind_get, Hf, lookup_empty. erewrite bind_ok by reflexivity. by rewrite IH.
Qed.

(** What staging copies: the files present in the source. *)
Definition staged_files (source destination : bytes) (m : gmap bytes bytes) (suffixes : list bytes) : list (bytes * bytes) :=
  omap (fun suffix => (fun b => (b, destination ++ suffix)) <$> m !! (source ++ suffix)) suffixes.

Lemma stage_ok (source destination operation : bytes) (d : Disk) (suffixes : list bytes) :
  stage_fault d = ∅ -> (forall s, s ∈ suffixes -> s <> catalogSuffix -> is_Some (fs d !! (source ++ s))) ->
  stage source destination operation d suffixes = Ok (staged_files source destination (fs d) suffixes).
Proof.
  intros Hf. induction suffixes as [|s l IH]; intros Hin; [done|]. cbn [stage staged_files omap list_omap].
  assert (stage source destination operation d l = Ok (staged_files source destination (fs d) l)) as El by (apply IH; intros; apply Hin; [by constructor|done]).
  destruct (fs d !! (source ++ s)) as [b|] eqn:E.
  - rewrite Hf, lookup_empty. unfold mbind, outcome_bind. by rewrite El.
  - rewrite decide_True; [done|]. destruct (decide (s = catalogSuffix)) as [|Hne]; [done|]. destruct (Hin s) as [b Hb]; [constructor|done|]. congruence.
Qed.

(** The copy of a file is at its target; other paths keep their contents. *)
Lemma copied_lookup (source destination : bytes) (m : gmap bytes bytes) (p : bytes) :
  foldl (fun m e => <[e.2 := e.1]> m) m (staged_files source destination m backupSuffixes) !! p =
  match find (fun s => bool_decide (destination ++ s = p)) backupSuffixes with
  | Some s => match m !! (source ++ s) with Some b => Some b | None => m !! p end
  | None => m !! p
  end.
Proof.
  rewrite lookup_targets. set (pick := fun s => bool_decide (destination ++ s = p)).
  destruct (decide (Exists (fun s => destination ++ s = p) backupSuffixes)) as [He|He].
  - apply Exists_exists in He as (s&Hin&<-).
    assert (forall l, s ∈ l -> find pick l = Some s) as Hfind.
    { induction l as [|s' l IH]; intros Hl; [by apply elem_of_nil in Hl|]. cbn. unfold pick at 1. case_bool_decide as E.
      - apply suffix_inj in E. by subst.
      - apply IH. apply elem_of_cons in Hl as [->|]; done. }
    rewrite (Hfind _ Hin). clear Hfind pick.
    assert (forall l : list (bytes * bytes), (forall e, e ∈ l -> e.2 = destination ++ s -> Some e.1 = m !! (source ++ s)) ->
      (is_Some (m !! (source ++ s)) -> exists e, e ∈ l /\ e.2 = destination ++ s) ->
      match find (fun e => bool_decide (e.2 = destination ++ s)) l with Some e => Some e.1 | None => m !! (destination ++ s) end =
      match m !! (source ++ s) with Some b => Some b | None => m !! (destination ++ s) end) as Hl.
    { intros l Hall Hex. destruct (find _ l) as [e|] eqn:Ef.
      - apply find_some in Ef as [Hin' E%bool_decide_eq_true_1]. rewrite <- (Hall e); [done|by apply list_elem_of_In|done].
      - destruct (m !! (source ++ s)) as [b|]; [|done]. destruct Hex as (e&Hin'&E); [by eexists|].
        apply list_elem_of_In in Hin'. pose proof (find_none _ _ Ef e Hin') as Hn. cbn in Hn. by rewrite bool_decide_eq_true_2 in Hn. }
    apply Hl.
    + intros [b t] Hin' E. rewrite elem_of_reverse in Hin'. unfold staged_files in Hin'. apply list_elem_of_omap in Hin' as (s'&_&Hb).
      apply fmap_Some in Hb as (b'&Hb'&[= -> ->]). cbn in E. apply suffix_inj in E. by subst.
    + intros [b Hb]. exists (b, destination ++ s). split; [|done]. rewrite elem_of_reverse. unfold staged_files. apply list_elem_of_omap.
      exists s. split; [done|]. by rewrite Hb.
  - assert (forall l, (forall s, s ∈ l -> destination ++ s <> p) -> find pick l = None) as Hnone.
    { induction l as [|s l IH]; intros Hl; [done|]. cbn. unfold pick at 1. rewrite bool_decide_eq_false_2 by (apply Hl; constructor).
      apply IH. intros s' Hs'. apply Hl. by constructor. }
    rewrite Hnone by (intros s Hs E; apply He; apply Exists_exists; eauto).
    destruct (find _ (reverse _)) as [e|] eqn:Ef; [|done]. exfalso. apply find_some in Ef as [Hin E%bool_decide_eq_true_1].
    apply list_elem_of_In in Hin. rewrite elem_of_reverse in Hin. apply list_elem_of_omap in Hin as (s&Hs&Hb).
    apply fmap_Some in Hb as (b&_&->). apply He, Exists_exists. exists s. done.
Qed.

Lemma copyBundle_ok (source destination operation : bytes) (d : Disk) :
  stage_fault d = ∅ -> rename_fault d = ∅ -> (forall s, s ∈ [[]; walSuffix; idxSuffix] -> is_Some (fs d !! (source ++ s))) ->
  copyBundle source destination operation d =
  (Ok tt, set_fs (foldl (fun m e => <[e.2 := e.1]> m) (fs d) (staged_files source destination (fs d) backupSuffixes)) d).
Proof.
  intros Hs Hr Hin. unfold copyBundle. rewrite bind_get. erewrite bind_ok; [by apply replaceAll_ok|]. unfold lift.
  rewrite stage_ok; [done|done|]. intros s Hl Hne. apply Hin. unfold backupSuffixes in Hl. set_solver.
Qed.

(** ** A closed database *)

(** The files of a closed database with contents [m]. *)
Definition closed_db (f : Files) (m : kvs) : Prop :=
  exists db ps, f = MkFiles db (MkWal [] None) (MkIdx (Some (gob_encode m)) None) /\ disk_pages db ps /\ sorted_keys m.

Lemma durable_closed s t :
  durable s t -> len (states t) < 2 ^ 32 - 1 ->
  exists s', Close s = (Ok tt, s') /\ closed_db (files_of s') (current t).
Proof.
  intros (_&(ps&segs&Hk)&_) Hb. destruct (Close_keeps s ps segs _ _ Hk) as (s'&db&Ec&Hd&Ef); [lia|].
  exists s'. split; [done|]. exists db, ps. split_and!; [done|apply Hd..|by eapply bt_rep_sorted, so_index, Hk].
Qed.

Context `{Laws : !IndexCodecLaws}.

Lemma closed_db_open f m :
  closed_db f m -> exists s s', Open f = (Ok s, files_of s) /\ store_reads s m /\ Close s = (Ok tt, s') /\ closed_db (files_of s') m.
Proof using Laws.
  intros (db&ps&->&Hd&Hs). destruct (Open_keeps db ps m Hd Hs) as (s&E&Hok&_).
  destruct (Store_Close_ok s ps [] m Hok) as (s'&db'&Ec&Hd'&Ef); [apply Hd|].
  exists s, s'. split_and!; [done|by exists ps, []|done|]. by exists db', ps.
Qed.

Lemma path_neq (p a b : bytes) : a <> b -> p ++ a <> p ++ b.
Proof. intros Hne E. by apply suffix_inj in E. Qed.

Lemma path_self (p s : bytes) : s <> [] -> p <> p ++ s.
Proof. intros Hs. rewrite <- (app_nil_r p) at 1. apply path_neq. congruence. Qed.

Lemma put_files_lookup path f d m :
  closed_db f m ->
  fs (put_files path f d) !! path = Some (Pager.contents (db_file f)) /\
  fs (put_files path f d) !! (path ++ walSuffix) = Some [] /\
  fs (put_files path f d) !! (path ++ idxSuffix) = Some (gob_encode m).
Proof.
  intros (db&ps&->&_). unfold put_files. cbn [set_fs fs idx_data idx_file db_file wal_data wal_file].
  pose proof (path_self path walSuffix) as Hw. pose proof (path_self path idxSuffix) as Hi.
  assert (path ++ walSuffix <> path ++ idxSuffix) as Hwi by (by apply path_neq). split_and!.
  - rewrite lookup_insert_ne by (apply not_eq_sym; by apply Hi). by rewrite lookup_insert_eq.
  - rewrite lookup_insert_ne by (by apply not_eq_sym). rewrite lookup_insert_ne by (by apply Hw). by rewrite lookup_insert_eq.
  - by rewrite lookup_insert_eq.
Qed.

Lemma open_files_at path d db ix :
  fs d !! path = Some db -> fs d !! (path ++ walSuffix) = Some [] -> fs d !! (path ++ idxSuffix) = Some ix ->
  open_files path d = MkFiles (MkFile db None false) (MkWal [] None) (MkIdx (Some ix) None).
Proof. intros E1 E2 E3. unfold open_files. by rewrite E1, E2, E3. Qed.

Lemma closed_db_eq f m : closed_db f m ->
  f = MkFiles (MkFile (Pager.contents (db_file f)) None false) (MkWal [] None) (MkIdx (Some (gob_encode m)) None).
Proof. intros (db&ps&->&([Hw Ho]&_)&_). cbn. destruct db as [c w o]. cbn in *. by subst. Qed.

(** The catalog of the source is absent or opens. *)
Definition catalog_valid (path : bytes) (d : Disk) : Prop :=
  match fs d !! (path ++ catalogSuffix) with
  | Some b => exists c, OpenCatalog (MkCatFile (Some b) None) = Ok c
  | None => True
  end.

Lemma put_files_frame path f d p :
  p <> path -> p <> path ++ walSuffix -> p <> path ++ idxSuffix -> fs (put_files path f d) !! p = fs d !! p.
Proof. intros H1 H2 H3. unfold put_files. destruct (idx_data _); cbn; by rewrite !lookup_insert_ne. Qed.

Lemma validateBackup_ok path d m :
  closed_db (open_files path d) m -> is_Some (fs d !! path) -> catalog_valid path d ->
  exists f, validateBackup path d = (Ok tt, put_files path f d) /\ closed_db f m.
Proof using Laws.
  intros Hc [db Hdb] Hcat. destruct (closed_db_open _ _ Hc) as (s&s'&Eo&_&Ec&Hc'). exists (files_of s'). split; [|done].
  unfold validateBackup. rewrite bind_get, Hdb.
  assert (len db mod PageSize = 0) as Hm.
  { destruct Hc as (f&ps&Ef&(_&Hl&_)&_). unfold open_files in Ef. rewrite Hdb in Ef. injection Ef as <- _ _. cbn in Hl. rewrite Hl. apply Z_mod_mult. }
  rewrite decide_False by (by intros ?).
  assert (openClose path d = (Ok tt, put_files path (files_of s') d)) as E by (unfold openClose; by rewrite Eo, Ec).
  rewrite (bind_ok _ _ _ _ _ E), bind_get. destruct (put_files_lookup path _ d m Hc') as (_&_&->).
  rewrite put_files_frame; [|by apply not_eq_sym, path_self|by apply path_neq..].
  unfold catalog_valid in Hcat. destruct (fs d !! (path ++ catalogSuffix)) as [b|]; [|done]. destruct Hcat as [c Hcat].
  erewrite bind_ok by (unfold lift; rewrite Hcat; reflexivity). done.
Qed.

(** The paths of two databases do not overlap. *)
Definition disjoint_paths (p q : bytes) : Prop :=
  forall a b, a ∈ backupSuffixes -> b ∈ backupSuffixes -> p ++ a <> q ++ b.

Lemma find_suffix p s : s ∈ backupSuffixes -> find (fun s' => bool_decide (p ++ s' = p ++ s)) backupSuffixes = Some s.
Proof.
  assert (forall l, s ∈ l -> find (fun s' => bool_decide (p ++ s' = p ++ s)) l = Some s) as H; [|apply H].
  induction l as [|s' l IH]; intros Hl; [by apply elem_of_nil in Hl|]. cbn. case_bool_decide as E.
  - apply suffix_inj in E. by subst.
  - apply IH. apply elem_of_cons in Hl as [->|]; done.
Qed.

Lemma copy_opens source destination operation d d1 f m :
  d1 = put_files source f d -> closed_db f m -> stage_fault d = ∅ -> rename_fault d = ∅ ->
  exists d' s1 f1, copyBundle source destination operation d1 = (Ok tt, d') /\
    Open (open_files destination d') = (Ok s1, f1) /\ store_reads s1 m /\
    fs d' !! (destination ++ catalogSuffix) =
      match fs d1 !! (source ++ catalogSuffix) with Some b => Some b | None => fs d1 !! (destination ++ catalogSuffix) end.
Proof using Laws.
  intros -> Hc Hs Hr. destruct (put_files_lookup source f d m Hc) as (L1&L2&L3).
  destruct (closed_db_open _ _ Hc) as (s1&s'&Eo&Hreads&_&_).
  eexists. exists s1, (files_of s1). split; [apply copyBundle_ok; [done|done|]|split_and!; [|done|]].
  - intros s [->|[->|[->|Hn]%elem_of_cons]%elem_of_cons]%elem_of_cons; rewrite ?app_nil_r; [by eexists..|by apply elem_of_nil in Hn].
  - rewrite <- Eo. f_equal. transitivity (MkFiles (MkFile (Pager.contents (db_file f)) None false) (MkWal [] None) (MkIdx (Some (gob_encode m)) None));
      [|symmetry; by apply closed_db_eq].
    apply open_files_at; cbn [fs set_fs]; rewrite copied_lookup.
    + pose proof (find_suffix destination [] ltac:(by left)) as F. rewrite app_nil_r in F. rewrite F, app_nil_r. by rewrite L1.
    + rewrite find_suffix by (by right; left). by rewrite L2.
    + rewrite find_suffix by (by right; right; left). by rewrite L3.
  - cbn [fs set_fs]. rewrite copied_lookup, find_suffix by (by right; right; right; left). done.
Qed.
End with_codecs.

(** ** Failures *)

Section frames.
Context `{Codec : IndexCodec} `{Json : JsonCodec}.

(** Validation touches only the files of the database it opens. *)
Lemma validateBackup_frame path d :
  let d' := (validateBackup path d).2 in
  stage_fault d' = stage_fault d /\ rename_fault d' = rename_fault d /\
  forall p, p <> path -> p <> path ++ walSuffix -> p <> path ++ idxSuffix -> fs d' !! p = fs d !! p.
Proof.
  assert (exists f, (openClose path d).2 = put_files path f d) as [f Ef].
  { unfold openClose. destruct (Open _) as [[s| | |] f]; [|by eexists..]. destruct (Close s) as [o s']. by eexists. }
  unfold validateBackup. rewrite bind_get. destruct (fs d !! path); [|done]. case_decide; [done|]. cbv [mbind M_bind].
  destruct (openClose path d) as [[[]| | |] d1]; cbn in Ef; subst d1; cbn [snd];
    try (split_and!; [done|done|intros; by apply put_files_frame]).
  unfold get_state. destruct (fs (put_files path f d) !! _); [|split_and!; [done|done|intros; by apply put_files_frame]].
  destruct (fs (put_files path f d) !! _); [|split_and!; [done|done|intros; by apply put_files_frame]].
  unfold lift. destruct (OpenCatalog _); (split_and!; [done|done|intros; by apply put_files_frame]).
Qed.

Lemma copyBundle_fails source destination operation d e d' :
  rename_fault d = ∅ -> copyBundle source destination operation d = (Err e, d') -> d' = d.
Proof.
  intros Hr. unfold copyBundle. rewrite bind_get. unfold lift, mbind at 1, M_bind at 1.
  destruct (stage _ _ _ _ _) as [staged| | |]; [rewrite replaceAll_ok by done; done|congruence|done|done].
Qed.
End frames.

(** ** Properties *)

(** What a backup of the files of a closed database makes of its destination. *)
Lemma backup_closed `{Codec : IndexCodec} `{!IndexCodecLaws} `{Json : JsonCodec} (m : kvs) (source destination : bytes) (d : Disk) :
  closed_db (open_files source d) m -> disjoint_paths source destination -> stage_fault d = ∅ -> rename_fault d = ∅ ->
  is_Some (fs d !! source) -> catalog_valid source d ->
  exists d' s1 f1, Backup source destination d = (Ok tt, d') /\ Open (open_files destination d') = (Ok s1, f1) /\
    (forall k, Get k s1 = (Ok (kv_get k m), s1)) /\
    fs d' !! (destination ++ catalogSuffix) =
      match fs d !! (source ++ catalogSuffix) with Some b => Some b | None => fs d !! (destination ++ catalogSuffix) end.
Proof.
  intros Hc Hp Hsf Hrf Hdb Hcat. destruct (validateBackup_ok source d m Hc Hdb Hcat) as (f&Ev&Hc').
  destruct (copy_opens source destination (of_string "backup") d _ f m eq_refl Hc' Hsf Hrf) as (d'&s1&f1&E&Eo&Hr&Hl).
  exists d', s1, f1. unfold Backup.
  rewrite decide_False by (intros ->; apply (Hp [] []); [by left|by left|done]).
  assert (wrapDisk "validate backup source: %w" (validateBackup source) d = (Ok tt, put_files source f d)) as Ew
    by (unfold wrapDisk, catch; by rewrite Ev).
  rewrite (bind_ok _ _ _ _ _ Ew). split_and!; [done|done|intros k; by apply (sr_get (reads := store_reads))|].
  assert (forall p a, a ∈ backupSuffixes -> (p = source \/ p = destination) -> a = catalogSuffix -> fs (put_files source f d) !! (p ++ a) = fs d !! (p ++ a)) as Hframe.
  { intros p a Ha [-> | ->] ->.
    - apply put_files_frame; [by apply not_eq_sym, path_self|by apply path_neq..].
    - apply put_files_frame; apply not_eq_sym; [rewrite <- (app_nil_r source)|..]; apply Hp; unfold backupSuffixes; set_solver. }
  rewrite Hl, !Hframe; [done|by right; right; right; left|auto|done|by right; right; right; left|auto|done].
Qed.

(** C23: a backup can be opened. Let a database be used from its creation on in any
    number of sessions (puts, deletes, batches, reads, flushes, compactions of records
    that fit a page) and closed, and let its files be at [source], with a catalog
    that opens or none. If staging and renaming meet no fault, the paths do not
    overlap, and the source has a catalog or the destination has none, then [Backup]
    succeeds, the database at [destination] opens with exactly the contents of the
    source, and the catalog there is the source's. *)
Theorem backup_restores `{Codec : IndexCodec} `{!IndexCodecLaws} `{Json : JsonCodec} (os : list life_op) (s0 : Store)
    (source destination : bytes) (d : Disk)
    (Hos : Forall life_ok os) (Hrecs : total_life os + 1 < 2 ^ 32 - 1) (H0 : Open fresh_files = (Ok s0, files_of s0))
    (Hat : open_files source d = files_of (Close (life_run os s0).2).2) (Hdb : is_Some (fs d !! source))
    (Hp : disjoint_paths source destination) (Hsf : stage_fault d = ∅) (Hrf : rename_fault d = ∅) (Hcat : catalog_valid source d)
    (Hdst : is_Some (fs d !! (source ++ catalogSuffix)) \/ fs d !! (destination ++ catalogSuffix) = None) :
  exists d' s1 f1, Backup source destination d = (Ok tt, d') /\ Open (open_files destination d') = (Ok s1, f1) /\
    (forall k, Get k s1 = (Ok (kv_get k (current (spec_life os (MkSpec [[]] 0)).2)), s1)) /\
    fs d' !! (destination ++ catalogSuffix) = fs d !! (source ++ catalogSuffix).
Proof.
  destruct (life_from_fresh os s0 Hos Hrecs H0) as (s&E&Hd&Hn). rewrite E in Hat. cbn [snd] in Hat.
  destruct (durable_closed s _ Hd) as (s'&Ec&Hc); [lia|]. rewrite Ec in Hat. cbn [snd] in Hat. rewrite <- Hat in Hc.
  destruct (backup_closed _ source destination d Hc Hp Hsf Hrf Hdb Hcat) as (d'&s1&f1&Eb&Eo&Hr&Hl).
  exists d', s1, f1. split_and!; [done..|]. rewrite Hl. destruct Hdst as [[b E2]|E2]; rewrite E2; [done|]. by destruct (fs d !! (source ++ catalogSuffix)).
Qed.

(** a restore that fails before its last phase leaves the destination as it
    was: if validation or staging fails (and no rename does), none of the
    destination's files has changed. *)
Theorem restore_fault_safe `{Codec : IndexCodec} `{Json : JsonCodec} (source destination : bytes) (d d' : Disk) (e : error)
    (Hp : disjoint_paths source destination) (Hrf : rename_fault d = ∅)
    (E : Restore source destination d = (Err e, d')) (suffix : bytes) (Hs : suffix ∈ backupSuffixes) :
  fs d' !! (destination ++ suffix) = fs d !! (destination ++ suffix).
Proof.
  destruct (validateBackup_frame source d) as (_&Hr&Hf).
  assert (fs (validateBackup source d).2 !! (destination ++ suffix) = fs d !! (destination ++ suffix)) as Hd.
  { apply Hf; apply not_eq_sym; [rewrite <- (app_nil_r source)|..]; apply Hp; unfold backupSuffixes; set_solver. }
  unfold Restore in E. case_decide; [by injection E as _ <-|]. unfold wrapDisk, catch in E. cbv [mbind M_bind] in E.
  destruct (validateBackup source d) as [[[]| | |] d1]; cbn [snd] in *; try done; [|by injection E as _ <-].
  apply copyBundle_fails in E as ->; [done|]. by rewrite Hr.
Qed.

(** ** Examples *)

Definition src : bytes := of_string "db".
Definition dst : bytes := of_string "bak".

Lemma src_dst_disjoint : disjoint_paths src dst.
Proof.
  intros a b Ha Hb E. apply (f_equal head) in E. revert E. unfold src, dst. cbn. congruence.
Qed.

(** A disk with the files of a closed store under [src]. *)
Definition disk_of (f : Files) : Disk := put_files src f (MkDisk ∅ ∅ ∅).

(** Two sessions, then a backup. *)
Lemma backup_restores_witness :
  exists s0 d' s1 f1, Open fresh_files = (Ok s0, files_of s0) /\
    Backup src dst (disk_of (files_of (Close (life_run demo_life s0).2).2)) = (Ok tt, d') /\ Open (open_files dst d') = (Ok s1, f1) /\
    (forall k, Get k s1 = (Ok (kv_get k (current (spec_life demo_life (MkSpec [[]] 0)).2)), s1)).
Proof.
  destruct Open_fresh as (s0&E0&_). exists s0.
  assert (Forall life_ok demo_life) as Hok by exact demo_life_ok.
  assert (total_life demo_life + 1 < 2 ^ 32 - 1) as Hn by (vm_compute; reflexivity).
  destruct (life_from_fresh demo_life s0 Hok Hn E0) as (s&E&Hd&Hb). destruct (durable_closed s _ Hd) as (s'&Ec&Hc); [lia|].
  destruct (put_files_lookup src (files_of s') (MkDisk ∅ ∅ ∅) _ Hc) as (L1&L2&L3).
  assert (fs (put_files src (files_of s') (MkDisk ∅ ∅ ∅)) !! (src ++ catalogSuffix) = None) as Ls.
  { rewrite put_files_frame by (vm_compute; discriminate). reflexivity. }
  assert (fs (put_files src (files_of s') (MkDisk ∅ ∅ ∅)) !! (dst ++ catalogSuffix) = None) as Ld.
  { rewrite put_files_frame by (vm_compute; discriminate). reflexivity. }
  destruct (backup_restores demo_life s0 src dst (disk_of (files_of (Close (life_run demo_life s0).2).2)) Hok Hn E0) as (d'&s1&f1&Eb&Eo&Hg&_).
  - rewrite E. cbn [snd]. rewrite Ec. cbn [snd]. rewrite (closed_db_eq _ _ Hc) at 2. by apply open_files_at.
  - rewrite E. cbn [snd]. rewrite Ec. unfold disk_of. cbn [snd]. rewrite L1. by eexists.
  - exact src_dst_disjoint.
  - reflexivity.
  - reflexivity.
  - unfold catalog_valid. rewrite E. cbn [snd]. rewrite Ec. unfold disk_of. cbn [snd]. rewrite Ls. exact I.
  - right. rewrite E. cbn [snd]. rewrite Ec. exact Ld.
  - exists d', s1, f1. by split_and!.
Defined.

Lemma restore_fault_safe_witness :
  fs (Restore src dst (MkDisk {[ dst := [Byte.x61] ]} ∅ ∅)).2 !! (dst ++ []) = fs (MkDisk {[ dst := [Byte.x61] ]} ∅ ∅) !! (dst ++ []).
Proof.
  apply (restore_fault_safe src dst (MkDisk {[ dst := [Byte.x61] ]} ∅ ∅) _
    (Errorf "validate backup: %w" [AErr (NotExist src)]) src_dst_disjoint); [reflexivity|vm_compute; reflexivity|by left].
Defined.
