(* ===== verification/SqlLex.v ===== *)
(** * The SQL lexer ([Lex] of [src/sql/sql.go])

    The index into the input is the rest of the input; each turn of the loop
    consumes at least one byte, so its length is enough fuel. *)
From S2P Require Import Prelude Value Text.

Inductive TokenType :=
| EOFToken | Keyword | Identifier | Number | String_ | Boolean | Null_ | ParameterToken | Comma | LParen | RParen
| Equal | NotEqual | Less | Greater | LessEqual | GreaterEqual | Semicolon.

#[global] Instance TokenType_eq_dec : EqDecision TokenType.
Proof. solve_decision. Defined.

Record Token := MkToken { Type_ : TokenType; Lexeme : bytes }.

#[global] Instance Token_eq_dec : EqDecision Token.
Proof. solve_decision. Defined.

Definition countParameters (tokens : list Token) : Z := len (filter (fun t => Type_ t = ParameterToken) tokens).

(** The longest prefix of bytes that satisfy [f], and the rest. *)
Fixpoint span (f : byte -> bool) (s : bytes) : bytes * bytes :=
  match s with
  | b :: s' => if f b then let '(w, rest) := span f s' in (b :: w, rest) else ([], s)
  | [] => ([], [])
  end.

Definition number_byte (b : byte) : bool := IsDigit b || bool_decide (b = Byte.x2e).
Definition word_byte (b : byte) : bool := IsLetter b || IsDigit b || bool_decide (b = Byte.x5f \/ b = Byte.x2e).

(** The body of a quoted string up to its closing quote; [None] if it has none. *)
Fixpoint quoted (quote : byte) (s : bytes) : option (bytes * bytes) :=
  match s with
  | [] => None
  | b :: s' =>
      if decide (b = quote) then Some ([], s')
      else if decide (b = Byte.x5c) then
        match s' with
        | [] => None
        | x :: s'' => '(w, rest) ← quoted quote s''; Some (x :: w, rest)
        end
      else '(w, rest) ← quoted quote s'; Some (b :: w, rest)
  end.

Definition keywords : list bytes :=
  of_string <$> ["SELECT"; "FROM"; "WHERE"; "INSERT"; "INTO"; "VALUES"; "SHOW"; "TABLES"; "LIST"; "CREATE"; "TABLE"; "ALTER";
    "ADD"; "COLUMN"; "DROP"; "RENAME"; "TO"; "UPDATE"; "SET"; "DELETE"; "AND"; "OR"; "EXPLAIN"; "ORDER"; "BY"; "ASC"; "DESC";
    "LIMIT"; "OFFSET"; "GROUP"; "COUNT"; "SUM"; "AVG"; "MIN"; "MAX"; "BEGIN"; "COMMIT"; "ROLLBACK"]%string.

Section lexer.
Context `{Text : GoText}.

(** The type of a word: later tests override earlier ones. *)
Definition wordType (word : bytes) : TokenType :=
  let up := ToUpper word in
  let typ := if decide (up ∈ keywords) then Keyword else Identifier in
  let typ := if decide (up = of_string "TRUE" \/ up = of_string "FALSE") then Boolean else typ in
  let typ := if decide (up = of_string "NULL") then Null_ else typ in
  let typ := if is_ok (Atoi word) then Number else typ in
  if is_ok (ParseFloat word) then Number else typ.

(** [!], [<] and [>], possibly followed by [=]. *)
Definition lexOperator (c : byte) (rest : bytes) : outcome (Token * bytes) :=
  match rest with
  | Byte.x3d :: rest =>
      Ok (MkToken (if decide (c = Byte.x21) then NotEqual else if decide (c = Byte.x3c) then LessEqual else GreaterEqual)
            [c; Byte.x3d], rest)
  | _ =>
      if decide (c = Byte.x21) then Err (Errorf "unexpected character %q" [AStr [c]])
      else Ok (MkToken (if decide (c = Byte.x3c) then Less else Greater) [c], rest)
  end.

(** One token that starts with [c]; [out] are the tokens before it. *)
Definition lexToken (out : list Token) (c : byte) (rest : bytes) : outcome (Token * bytes) :=
  if bool_decide (c = Byte.x2d) && match rest with d :: _ => number_byte d | [] => false end then
    let '(w, rest) := span number_byte rest in Ok (MkToken Number (c :: w), rest)
  else if decide (c = Byte.x3f) then
    Ok (MkToken ParameterToken (of_string "$" ++ sprint_int (countParameters out)), rest)
  else if decide (c = Byte.x2c) then Ok (MkToken Comma [c], rest)
  else if decide (c = Byte.x28) then Ok (MkToken LParen [c], rest)
  else if decide (c = Byte.x29) then Ok (MkToken RParen [c], rest)
  else if decide (c = Byte.x3d) then Ok (MkToken Equal [c], rest)
  else if decide (c = Byte.x21 \/ c = Byte.x3c \/ c = Byte.x3e) then lexOperator c rest
  else if decide (c = Byte.x3b) then Ok (MkToken Semicolon [c], rest)
  else if decide (c = Byte.x2a) then Ok (MkToken Identifier [c], rest)
  else if decide (c = Byte.x27 \/ c = Byte.x22) then
    match quoted c rest with
    | Some (w, rest) => Ok (MkToken String_ w, rest)
    | None => Err (Errorf "unterminated string" [])
    end
  else
    let '(w, rest) := span word_byte (c :: rest) in
    match w with
    | [] => Err (Errorf "unexpected character %q" [AStr [c]])
    | _ => Ok (MkToken (wordType w) w, rest)
    end.

Fixpoint lexLoop (fuel : nat) (input : bytes) (out : list Token) : outcome (list Token) :=
  match input with
  | [] => Ok (out ++ [MkToken EOFToken []])
  | c :: rest =>
      match fuel with
      | O => NoFuel
      | S fuel =>
          if IsSpace c then lexLoop fuel rest out
          else '(t, rest) ← lexToken out c rest; lexLoop fuel rest (out ++ [t])
      end
  end.

Definition Lex (input : bytes) : outcome (list Token) := lexLoop (length input) input [].

(** ** Termination *)

Lemma span_length f s : (length (span f s).2 <= length s)%nat.
Proof.
  induction s as [|b s IH]; [done|]. cbn. destruct (f b); [|done]. destruct (span f s). cbn in *. lia.
Qed.

Lemma quoted_length q s w rest : quoted q s = Some (w, rest) -> (length rest < length s)%nat.
Proof.
  remember (length s) as n eqn:En. revert s w En. induction (lt_wf n) as [n _ IH]. intros [|b s] w En; [done|]. cbn [quoted].
  case_decide; [intros [= <- <-]; cbn in En; lia|]. case_decide.
  - destruct s as [|x s]; [done|]. destruct (quoted q s) as [[w' r']|] eqn:E; [|done]. intros [= <- <-].
    cbn in En. specialize (IH (length s) ltac:(lia) s w' eq_refl E). lia.
  - destruct (quoted q s) as [[w' r']|] eqn:E; [|done]. intros [= <- <-].
    cbn in En. specialize (IH (length s) ltac:(lia) s w' eq_refl E). lia.
Qed.

(** A token is produced from a shorter rest, or an error is reported. *)
Lemma lexToken_total out c rest :
  (exists e, lexToken out c rest = Err e) \/
  exists t rest', lexToken out c rest = Ok (t, rest') /\ (length rest' <= length rest)%nat /\ Type_ t <> EOFToken.
Proof.
  unfold lexToken. destruct (bool_decide _ && _).
  { pose proof (span_length number_byte rest). destruct (span number_byte rest) as [w r]. right. by exists (MkToken Number (c :: w)), r. }
  repeat (case_decide; [try (right; do 2 eexists; split_and!; [reflexivity|lia|done])|]).
  - unfold lexOperator. destruct rest as [|b r]; [case_decide; [left; by eexists|right; do 2 eexists; split_and!; [reflexivity|lia|by case_decide]]|].
    destruct (decide (b = Byte.x3d)) as [->|Hb].
    + right. do 2 eexists. split_and!; [reflexivity|cbn; lia|by repeat case_decide].
    + destruct b; try done; (case_decide; [left; by eexists|right; do 2 eexists; split_and!; [reflexivity|done|by case_decide]]).
  - destruct (quoted c rest) as [[w r]|] eqn:E; [|left; by eexists]. apply quoted_length in E. right. do 2 eexists. split_and!; [reflexivity|lia|done].
  - cbn [span]. destruct (word_byte c); [|left; by eexists]. pose proof (span_length word_byte rest). destruct (span word_byte rest) as [w r].
    right. do 2 eexists. split_and!; [reflexivity|done|]. cbn. unfold wordType. repeat case_match; done.
Qed.

Lemma lexLoop_total fuel input out :
  (length input <= fuel)%nat -> (exists e, lexLoop fuel input out = Err e) \/
  exists ts, lexLoop fuel input out = Ok (out ++ ts ++ [MkToken EOFToken []]) /\ Forall (fun t => Type_ t <> EOFToken) ts.
Proof.
  revert input out. induction fuel as [|fuel IH]; intros [|c rest] out Hf; cbn in Hf; try lia; cbn [lexLoop];
    try (right; exists []; by split).
  destruct (IsSpace c); [apply IH; lia|].
  destruct (lexToken_total out c rest) as [[e ->]|(t&r&->&Hl&Ht)]; [left; by eexists|]. unfold mbind, outcome_bind.
  destruct (IH r (out ++ [t])) as [[e ->]|(ts&->&Hts)]; [lia|left; by eexists|]. right. exists (t :: ts).
  rewrite <- app_assoc. split; [done|]. by constructor.
Qed.
End lexer.

(** the lexer terminates on every input, with an error or with tokens that
    end in exactly one end-of-input token. *)
Theorem lex_total `{Text : GoText} (input : bytes) :
  (exists e, Lex input = Err e) \/
  exists ts, Lex input = Ok (ts ++ [MkToken EOFToken []]) /\ Forall (fun t => Type_ t <> EOFToken) ts.
Proof. unfold Lex. destruct (lexLoop_total (length input) input []) as [H|(ts&E&H)]; [done|by left|right]. by exists ts. Qed.

(** ** Printing tokens *)

(** A string literal: quotes and backslashes are escaped. *)
Definition escape (s : bytes) : bytes :=
  concat ((fun b => if decide (b = Byte.x27 \/ b = Byte.x5c) then [Byte.x5c; b] else [b]) <$> s).

Definition tokenText (t : Token) : bytes :=
  match Type_ t with
  | String_ => [Byte.x27] ++ escape (Lexeme t) ++ [Byte.x27]
  | ParameterToken => of_string "?"
  | _ => Lexeme t
  end.

(** Every token is followed by a space. *)
Definition render (ts : list Token) : bytes := concat ((fun t => tokenText t ++ of_string " ") <$> ts).

Section printing.
Context `{Text : GoText}.

Definition is_word (w : bytes) : Prop := w <> [] /\ forallb word_byte w = true.

(** The token can be written after the tokens [out]. *)
Definition printable (out : list Token) (t : Token) : Prop :=
  match Type_ t with
  | EOFToken => False
  | String_ => True
  | ParameterToken => Lexeme t = of_string "$" ++ sprint_int (countParameters out)
  | Comma => Lexeme t = of_string ","
  | LParen => Lexeme t = of_string "("
  | RParen => Lexeme t = of_string ")"
  | Equal => Lexeme t = of_string "="
  | NotEqual => Lexeme t = of_string "!="
  | Less => Lexeme t = of_string "<"
  | Greater => Lexeme t = of_string ">"
  | LessEqual => Lexeme t = of_string "<="
  | GreaterEqual => Lexeme t = of_string ">="
  | Semicolon => Lexeme t = of_string ";"
  | Identifier => Lexeme t = of_string "*" \/ (is_word (Lexeme t) /\ wordType (Lexeme t) = Identifier)
  | Number =>
      (exists d w, Lexeme t = Byte.x2d :: d :: w /\ forallb number_byte (d :: w) = true) \/
      (is_word (Lexeme t) /\ wordType (Lexeme t) = Number)
  | Keyword | Boolean | Null_ => is_word (Lexeme t) /\ wordType (Lexeme t) = Type_ t
  end.

Fixpoint all_printable (out ts : list Token) : Prop :=
  match ts with [] => True | t :: ts => printable out t /\ all_printable (out ++ [t]) ts end.

Lemma span_app f w b s : forallb f w = true -> f b = false -> span f (w ++ b :: s) = (w, b :: s).
Proof.
  intros Hw Hb. induction w as [|x w IH]; cbn [app span]; [by rewrite Hb|]. cbn in Hw. apply andb_true_iff in Hw as [Hx Hw].
  by rewrite Hx, IH.
Qed.

Lemma quoted_escape s rest : quoted Byte.x27 (escape s ++ Byte.x27 :: rest) = Some (s, rest).
Proof.
  induction s as [|b s IH]; [done|]. unfold escape in *. cbn [fmap list_fmap concat].
  destruct (decide (b = Byte.x27 \/ b = Byte.x5c)) as [Hb|Hb]; rewrite <- app_assoc; cbn [app quoted].
  - rewrite decide_False, decide_True by done. by rewrite IH.
  - rewrite !decide_False by tauto. by rewrite IH.
Qed.

(** A word starts with none of the characters that are tested first. *)
Lemma lexToken_word out c rest :
  word_byte c = true ->
  lexToken out c rest = (let '(w, rest) := span word_byte (c :: rest) in Ok (MkToken (wordType w) w, rest)) /\ IsSpace c = false.
Proof.
  intros Hc. assert (word_byte c = true) as Hc' by done.
  assert (IsSpace c = false /\ forall x, x ∈ [Byte.x2d; Byte.x3f; Byte.x2c; Byte.x28; Byte.x29; Byte.x3d; Byte.x21; Byte.x3c; Byte.x3e;
    Byte.x3b; Byte.x2a; Byte.x27; Byte.x22] -> c <> x) as [Hs Hx].
  { split; [destruct c; try reflexivity; vm_compute in Hc; discriminate|]. intros x Hin ->.
    repeat (apply elem_of_cons in Hin as [->|Hin]; [vm_compute in Hc; discriminate|]). by apply elem_of_nil in Hin. }
  split; [|done]. unfold lexToken. rewrite bool_decide_eq_false_2 by (apply Hx; set_solver). cbn [andb].
  do 5 rewrite decide_False by (apply Hx; set_solver). rewrite decide_False by (intros [?|[?|?]]; eapply Hx; [|done| |done| |done]; set_solver).
  do 2 rewrite decide_False by (apply Hx; set_solver). rewrite decide_False by (intros [?|?]; eapply Hx; [|done| |done]; set_solver).
  cbn [span]. rewrite Hc'. by destruct (span word_byte rest).
Qed.

Lemma lex_word out w s : is_word w -> exists c r, w ++ Byte.x20 :: s = c :: r /\ IsSpace c = false /\
  lexToken out c r = Ok (MkToken (wordType w) w, Byte.x20 :: s).
Proof.
  intros [Hne Hw]. destruct w as [|c w]; [done|]. exists c, (w ++ Byte.x20 :: s). split; [done|].
  assert (word_byte c = true) as Hc by (cbn in Hw; by apply andb_true_iff in Hw as [? _]).
  destruct (lexToken_word out c (w ++ Byte.x20 :: s) Hc) as [E Hs]. split; [done|]. rewrite E.
  change (c :: w ++ Byte.x20 :: s) with ((c :: w) ++ Byte.x20 :: s). by rewrite span_app.
Qed.

Lemma lex_one out t s : printable out t -> exists c r, tokenText t ++ Byte.x20 :: s = c :: r /\ IsSpace c = false /\
  lexToken out c r = Ok (t, Byte.x20 :: s).
Proof.
  destruct t as [ty lx]. unfold printable, tokenText. cbn [Type_ Lexeme].
  destruct ty; intros H; try done; try (subst lx; do 2 eexists; split_and!; reflexivity);
    try (destruct H as [Hw <-]; by apply lex_word).
  - destruct H as [->|[Hw <-]]; [do 2 eexists; split_and!; reflexivity|by apply lex_word].
  - destruct H as [(d&w&->&Hd)|[Hw <-]]; [|by apply lex_word].
    exists Byte.x2d, ((d :: w) ++ Byte.x20 :: s). split_and!; [done|done|]. unfold lexToken.
    assert (number_byte d = true) as Hn by (cbn in Hd; by apply andb_true_iff in Hd as [? _]).
    cbn [app]. rewrite bool_decide_eq_true_2, Hn by done. cbn [andb].
    change (d :: w ++ Byte.x20 :: s) with ((d :: w) ++ Byte.x20 :: s). by rewrite span_app.
  - exists Byte.x27, (escape lx ++ Byte.x27 :: Byte.x20 :: s). split_and!; [by rewrite <- !app_assoc|done|].
    change (lexToken out Byte.x27 (escape lx ++ Byte.x27 :: Byte.x20 :: s)) with
      (match quoted Byte.x27 (escape lx ++ Byte.x27 :: Byte.x20 :: s) with
       | Some (w, rest) => Ok (MkToken String_ w, rest) | None => Err (Errorf "unterminated string" []) end).
    by rewrite quoted_escape.
Qed.

Lemma lex_one_length out t c r s : lexToken out c r = Ok (t, Byte.x20 :: s) -> (S (length s) <= length r)%nat.
Proof.
  intros El. destruct (lexToken_total out c r) as [[e Hbad]|(t'&r'&E&Hl&_)]; [congruence|].
  rewrite E in El. injection El as -> ->. exact Hl.
Qed.

Lemma render_cons t ts : render (t :: ts) = tokenText t ++ Byte.x20 :: render ts.
Proof. unfold render. cbn [fmap list_fmap concat]. by rewrite <- app_assoc. Qed.

Lemma lexLoop_render ts out fuel :
  all_printable out ts -> (length (render ts) <= fuel)%nat -> lexLoop fuel (render ts) out = Ok (out ++ ts ++ [MkToken EOFToken []]).
Proof.
  revert out fuel. induction ts as [|t ts IH]; intros out fuel Hp Hf; [by destruct fuel|]. destruct Hp as [Ht Hp].
  rewrite render_cons in *. destruct (lex_one out t (render ts) Ht) as (c&r&E&Hs&El). pose proof (lex_one_length _ _ _ _ _ El) as Hr.
  rewrite E in *. rewrite length_cons in Hf. destruct fuel as [|[|fuel]]; [lia..|].
  cbn [lexLoop]. rewrite Hs, El. unfold mbind, outcome_bind. cbn [lexLoop]. change (IsSpace Byte.x20) with true. cbv iota.
  rewrite IH; [by rewrite <- app_assoc|done|lia].
Qed.

Lemma Lex_render ts : all_printable [] ts -> Lex (render ts) = Ok (ts ++ [MkToken EOFToken []]).
Proof. intros Hp. unfold Lex. by rewrite lexLoop_render. Qed.
End printing.

(** printing tokens and lexing the text gives the tokens back, whatever the
    string literals contain. *)
Theorem lex_render `{Text : GoText} (ts : list Token) (Hp : all_printable [] ts) :
  Lex (render ts) = Ok (ts ++ [MkToken EOFToken []]).
Proof. by apply Lex_render. Qed.

Definition demo_tokens : list Token :=
  [MkToken Keyword (of_string "SELECT"); MkToken Identifier (of_string "*"); MkToken Keyword (of_string "from");
   MkToken Identifier (of_string "t1"); MkToken Keyword (of_string "WHERE"); MkToken Identifier (of_string "t1.name");
   MkToken LessEqual (of_string "<="); MkToken String_ (of_string "it's \ here"); MkToken Keyword (of_string "or");
   MkToken Identifier (of_string "n"); MkToken Equal (of_string "="); MkToken Number (of_string "-12.5");
   MkToken Comma (of_string ","); MkToken ParameterToken (of_string "$0"); MkToken ParameterToken (of_string "$1");
   MkToken Number (of_string "42"); MkToken Semicolon (of_string ";")].

Lemma lex_render_witness : Lex (Text := AsciiText) (render demo_tokens) = Ok (demo_tokens ++ [MkToken EOFToken []]).
Proof.
  apply (lex_render (Text := AsciiText) demo_tokens). unfold demo_tokens, is_word.
  cbn [all_printable printable Type_ Lexeme app is_word].
  repeat split; try exact I; try (vm_compute; reflexivity); try discriminate;
    try (left; vm_compute; reflexivity); try (right; repeat split; [discriminate|vm_compute; reflexivity..]).
  left. do 2 eexists. split; [reflexivity|]. vm_compute. reflexivity.
Defined.
