(* ===== verification/SqlParse.v ===== *)
(** * The SQL parser ([Parse] of [src/sql/sql.go])

    A statement is one of the source's structs; a [Condition] keeps the struct's
    optional children. The parser is a method on the rest [t[p:]] of the tokens:
    [cur] is its head and [take] drops it unless it is the last one. Loops are
    bounded by the number of tokens left when they start, the recursion of
    [parsePrimary] by the number of tokens of the condition. *)
From S2P Require Import Prelude Value Text RowCodec SqlLex.

(** ** Statements *)

Inductive Condition :=
  MkCond (condColumn condOperator : bytes) (condValue : value) (condLeft condRight : option Condition) (condLogic : bytes).

Definition comparison (col op : bytes) (v : value) : Condition := MkCond col op v None None [].
Definition combine_ (left right : Condition) (logic : bytes) : Condition := MkCond [] [] VNil (Some left) (Some right) logic.

Record Select := MkSelect {
  selColumns : list bytes; selTable : bytes; selWhere : option Condition; OrderBy : bytes; Desc : bool; Limit : Z; Offset : Z;
  GroupBy : list bytes; JoinTable : bytes; JoinLeft : bytes; JoinRight : bytes }.
Record Insert := MkInsert { insTable : bytes; insColumns : list bytes; insValues : list value }.
Record CreateTable := MkCreate { ctTable : bytes; ctColumns : list Column; ctConstraints : gmap bytes ColumnConstraint }.
Record AlterTable := MkAlter { atTable : bytes; atAction : bytes; atName : bytes; atNewName : bytes; atColumn : Column }.
Record Update := MkUpdate { updTable : bytes; updSet : gmap bytes value; updWhere : option Condition }.
Record Delete := MkDelete { delTable : bytes; delWhere : option Condition }.

Inductive Statement :=
| SSelect (q : Select)
| SInsert (q : Insert)
| SListTables
| SCreateTable (q : CreateTable)
| SDropTable (table : bytes)
| SAlterTable (q : AlterTable)
| SUpdate (q : Update)
| SDelete (q : Delete)
| SBegin
| SCommit
| SRollback
| SExplain (s : Statement)
| SExplainTable (table : bytes).

(** ** The parser's state *)

Abbreviation parser := (M (list Token)).

(** [p.t[p.p+1]] is out of range on the last token. *)
Definition cur : parser Token := fun t => (of_option (head t), t).
Definition next : parser Token := fun t => (of_option (t !! 1%nat), t).
Definition take_ : parser unit := fun t => (Ok tt, match t with _ :: (_ :: _) as t' => t' | _ => t end).

Definition isType (ty : TokenType) (t : Token) : bool := bool_decide (Type_ t = ty).

Section parser.
Context `{Text : GoText}.

Definition isWord (w : string) (t : Token) : bool := EqualFold (Lexeme t) (of_string w).

Definition want (s : string) : parser unit :=
  c ← cur;
  if isWord s c then take_ else fail (Errorf "expected %s, got %s" [AStr (of_string s); AStr (Lexeme c)]).

(** A lexeme that is taken whatever it is. *)
Definition lexeme : parser bytes := c ← cur; _ ← take_; mret (Lexeme c).

Definition value_ (t : Token) : outcome value :=
  match Type_ t with
  | ParameterToken =>
      match Atoi (TrimPrefix (Lexeme t) (of_string "$")) with
      | Ok i => Ok (VParam i)
      | _ => Err (Errorf "invalid parameter" [])
      end
  | Number =>
      if decide (Byte.x2e ∈ Lexeme t) then f ← ParseFloat (Lexeme t); Ok (VFloat f)
      else i ← Atoi (Lexeme t); Ok (VInt i)
  | String_ => Ok (VString (Lexeme t))
  | Boolean => Ok (VBool (EqualFold (Lexeme t) (of_string "true")))
  | Null_ => Ok VNil
  | _ => Err (Errorf "expected value" [])
  end.

(** The token is read as a value before it is taken. *)
Definition literal : parser value := c ← cur; v ← lift (value_ c); _ ← take_; mret v.

(** [for { x, err := item(); ...; if p.cur().Type != Comma { break }; p.take() }] *)
Fixpoint commaLoop {A} (n : nat) (item : parser A) (acc : list A) : parser (list A) :=
  match n with
  | O => lift NoFuel
  | S n =>
      x ← item; c ← cur;
      if isType Comma c then _ ← take_; commaLoop n item (acc ++ [x]) else mret (acc ++ [x])
  end.

Definition commaList {A} (item : parser A) : parser (list A) := t ← get_state; commaLoop (length t) item [].

(** ** Conditions *)

(** The loops of [parseOr] and [parseAnd]. *)
Fixpoint condLoop (word : string) (sub : parser Condition) (n : nat) (left : Condition) : parser Condition :=
  c ← cur;
  if isWord word c then
    match n with
    | O => lift NoFuel
    | S n => _ ← take_; right ← sub; condLoop word sub n (combine_ left right (of_string word))
    end
  else mret left.

Definition parseAnd (parsePrimary : parser Condition) : parser Condition :=
  t ← get_state; left ← parsePrimary; condLoop "AND" parsePrimary (length t) left.

Definition parseOr (parsePrimary : parser Condition) : parser Condition :=
  t ← get_state; left ← parseAnd parsePrimary; condLoop "OR" (parseAnd parsePrimary) (length t) left.

Definition is_operator (t : Token) : bool :=
  bool_decide (Type_ t ∈ [Equal; NotEqual; Less; Greater; LessEqual; GreaterEqual]).

Definition parseNull (col : bytes) : parser Condition :=
  _ ← take_; c ← cur;
  negated ← (if isWord "NOT" c then _ ← take_; mret true else mret false);
  c ← cur;
  if isWord "NULL" c then
    _ ← take_; mret (comparison col (of_string (if negated : bool then "IS NOT NULL" else "IS NULL")) VNil)
  else fail (Errorf "expected NULL after IS" []).

Definition parseComparison : parser Condition :=
  col ← lexeme; c ← cur;
  if isWord "IS" c then parseNull col
  else if is_operator c then _ ← take_; v ← literal; mret (comparison col (Lexeme c) v)
  else fail (Errorf "expected comparison operator" []).

Fixpoint parsePrimary (fuel : nat) : parser Condition :=
  match fuel with
  | O => lift NoFuel
  | S fuel =>
      c ← cur;
      if isType LParen c then _ ← take_; r ← parseOr (parsePrimary fuel); _ ← want ")"; mret r
      else parseComparison
  end.

Definition condition : parser (option Condition) :=
  c ← cur;
  if isWord "WHERE" c then _ ← take_; t ← get_state; r ← parseOr (parsePrimary (length t)); mret (Some r)
  else mret None.

(** ** Statements *)

Definition columnType (typ : bytes) : option Z :=
  let up := ToUpper typ in
  if decide (up = of_string "INT") then Some IntType
  else if decide (up ∈ [of_string "STRING"; of_string "TEXT"]) then Some StringType
  else if decide (up ∈ [of_string "BOOL"; of_string "BOOLEAN"]) then Some BoolType
  else if decide (up ∈ [of_string "FLOAT"; of_string "REAL"; of_string "DOUBLE"]) then Some FloatType
  else if decide (up ∈ [of_string "BYTES"; of_string "BLOB"]) then Some BytesType
  else if decide (up = of_string "TIMESTAMP") then Some TimestampType
  else None.

Definition column : parser Column :=
  n ← lexeme; typ ← lexeme;
  match columnType typ with
  | Some ct => mret (MkCol n ct)
  | None => fail (Errorf "unknown type %q" [AStr typ])
  end.

(** One turn of the constraint loop, after its first word was taken. *)
Definition constraintStep (word : bytes) (k : ColumnConstraint) : parser ColumnConstraint :=
  if decide (word = of_string "NOT") then _ ← want "NULL"; mret (MkCon true (Unique k) (References k))
  else if decide (word = of_string "UNIQUE") then mret (MkCon (NotNull k) true (References k))
  else if decide (word = of_string "REFERENCES") then
    rt ← lexeme; _ ← want "("; rc ← lexeme; _ ← want ")"; mret (MkCon (NotNull k) (Unique k) (Some (MkRef rt rc)))
  else mret k.

Fixpoint constraintLoop (n : nat) (k : ColumnConstraint) : parser ColumnConstraint :=
  c ← cur;
  if isWord "NOT" c || isWord "UNIQUE" c || isWord "REFERENCES" c then
    match n with
    | O => lift NoFuel
    | S n => _ ← take_; k ← constraintStep (ToUpper (Lexeme c)) k; constraintLoop n k
    end
  else mret k.

Definition columnDef : parser (Column * ColumnConstraint) :=
  c ← column; t ← get_state; k ← constraintLoop (length t) (MkCon false false None); mret (c, k).

(** [m[k] = v] for each pair in turn. *)
Definition assignAll {A} (l : list (bytes * A)) : gmap bytes A := foldl (fun m kv => <[kv.1:=kv.2]> m) ∅ l.

Definition createStmt : parser Statement :=
  _ ← take_; _ ← want "TABLE"; name ← lexeme; _ ← want "(";
  l ← commaList columnDef; _ ← want ")";
  mret (SCreateTable (MkCreate name l.*1 (assignAll ((fun ck => (cName ck.1, ck.2)) <$> l)))).

Definition dropStmt : parser Statement :=
  _ ← take_; c ← cur;
  if isWord "TABLE" c then _ ← take_; n ← lexeme; mret (SDropTable n)
  else fail (Errorf "expected TABLE" []).

Definition alterStmt : parser Statement :=
  _ ← take_; _ ← want "TABLE"; t ← lexeme; action ← lexeme;
  let action := ToUpper action in
  if decide (action = of_string "ADD") then
    _ ← want "COLUMN"; c ← column; mret (SAlterTable (MkAlter t (of_string "add") [] [] c))
  else if decide (action = of_string "DROP") then
    _ ← want "COLUMN"; n ← lexeme; mret (SAlterTable (MkAlter t (of_string "drop") n [] (MkCol [] 0)))
  else if decide (action = of_string "RENAME") then
    _ ← want "COLUMN"; n ← lexeme; _ ← want "TO"; nn ← lexeme;
    mret (SAlterTable (MkAlter t (of_string "rename") n nn (MkCol [] 0)))
  else fail (Errorf "unsupported ALTER action" []).

Definition assignment : parser (bytes * value) := n ← lexeme; _ ← want "="; v ← literal; mret (n, v).

Definition updateStmt : parser Statement :=
  _ ← take_; t ← lexeme; _ ← want "SET"; set_ ← commaList assignment; w ← condition;
  mret (SUpdate (MkUpdate t (assignAll set_) w)).

Definition deleteStmt : parser Statement :=
  _ ← take_; _ ← want "FROM"; t ← lexeme; w ← condition; mret (SDelete (MkDelete t w)).

Definition isAggregateName (s : bytes) : bool :=
  bool_decide (ToUpper s ∈ [of_string "COUNT"; of_string "SUM"; of_string "AVG"; of_string "MIN"; of_string "MAX"]).

(** [&&] evaluates [p.t[p.p+1]] only after an aggregate name. *)
Definition selectColumn : parser bytes :=
  c ← cur;
  call ← (if isAggregateName (Lexeme c) then n ← next; mret (isType LParen n) else mret false);
  if call : bool then
    _ ← take_; _ ← take_; arg ← lexeme; _ ← want ")";
    mret (ToUpper (Lexeme c) ++ of_string "(" ++ arg ++ of_string ")")
  else lexeme.

Definition joinBody (c : Token) : parser (bytes * bytes * bytes) :=
  _ ← (if isWord "INNER" c then take_ else mret tt);
  _ ← take_; jt ← lexeme; _ ← want "ON"; l ← lexeme; _ ← want "="; r ← lexeme; mret (jt, l, r).

Definition joinClause : parser (bytes * bytes * bytes) :=
  c ← cur;
  join ← (if isWord "JOIN" c then mret true else if isWord "INNER" c then n ← next; mret (isWord "JOIN" n) else mret false);
  if join : bool then joinBody c else mret ([], [], []).

Definition groupClause : parser (list bytes) :=
  c ← cur; if isWord "GROUP" c then _ ← take_; _ ← want "BY"; commaList lexeme else mret [].

Definition orderClause : parser (bytes * bool) :=
  c ← cur;
  if isWord "ORDER" c then
    _ ← take_; _ ← want "BY"; o ← lexeme; c ← cur;
    if isWord "ASC" c || isWord "DESC" c then _ ← take_; mret (o, isWord "DESC" c) else mret (o, false)
  else mret ([], false).

(** [n.(int)] panics on any other value. *)
Definition intClause (word : string) (zero : Z) : parser Z :=
  c ← cur;
  if isWord word c then
    _ ← take_; c ← cur; v ← lift (value_ c);
    n ← lift (match v with VInt n => Ok n | _ => Panic end); _ ← take_; mret n
  else mret zero.

Definition selectStmt : parser Statement :=
  _ ← take_; cols ← commaList selectColumn; _ ← want "FROM"; table ← lexeme; j ← joinClause; w ← condition;
  g ← groupClause; o ← orderClause; limit ← intClause "LIMIT" (-1); offset ← intClause "OFFSET" 0;
  mret (SSelect (MkSelect cols table w o.1 o.2 limit offset g j.1.1 j.1.2 j.2)).

Definition insertStmt : parser Statement :=
  _ ← take_; _ ← want "INTO"; table ← lexeme; _ ← want "("; cols ← commaList lexeme; _ ← want ")";
  _ ← want "VALUES"; _ ← want "("; vals ← commaList literal; _ ← want ")";
  if decide (length cols = length vals) then mret (SInsert (MkInsert table cols vals))
  else fail (Errorf "column/value count mismatch" []).

Definition showStmt (word : string) : parser Statement := _ ← want word; _ ← want "TABLES"; mret SListTables.

Definition at_end (t : Token) : bool := isType EOFToken t || isType Semicolon t.

Definition explainStmt : parser Statement :=
  _ ← take_; c ← cur;
  if at_end c then fail (Errorf "expected statement after EXPLAIN" [])
  else if isWord "TABLE" c then
    _ ← take_; c ← cur;
    if at_end c then fail (Errorf "expected table name after EXPLAIN TABLE" [])
    else _ ← take_; mret (SExplainTable (Lexeme c))
  else
    inner ← (if isWord "SELECT" c then selectStmt
             else if isWord "INSERT" c then insertStmt
             else if isWord "UPDATE" c then updateStmt
             else if isWord "DELETE" c then deleteStmt
             else fail (Errorf "EXPLAIN supports SELECT, INSERT, UPDATE, or DELETE" []));
    mret (SExplain inner).

Definition statement : parser Statement :=
  c ← cur;
  if isWord "BEGIN" c then _ ← take_; mret SBegin
  else if isWord "COMMIT" c then _ ← take_; mret SCommit
  else if isWord "ROLLBACK" c then _ ← take_; mret SRollback
  else if isWord "EXPLAIN" c then explainStmt
  else if isWord "SELECT" c then selectStmt
  else if isWord "INSERT" c then insertStmt
  else if isWord "CREATE" c then createStmt
  else if isWord "DROP" c then dropStmt
  else if isWord "ALTER" c then alterStmt
  else if isWord "UPDATE" c then updateStmt
  else if isWord "DELETE" c then deleteStmt
  else if isWord "SHOW" c then showStmt "SHOW"
  else if isWord "LIST" c then showStmt "LIST"
  else fail (Errorf "expected SELECT, INSERT, CREATE, ALTER, DROP, UPDATE, DELETE, SHOW TABLES, or LIST TABLES" []).

Definition parseTokens : parser Statement :=
  s ← statement; c ← cur;
  _ ← (if isType Semicolon c then take_ else mret tt);
  c ← cur;
  if isType EOFToken c then mret s else fail (Errorf "unexpected token after ;: %s" [AStr (Lexeme c)]).

Definition Parse (input : bytes) : outcome Statement := t ← Lex input; (parseTokens t).1.
End parser.
