(* ===== verification/SqlParseTotal.v ===== *)
(** * The parser terminates and is panic-free but for [n.(int)]

    [runs N m]: started on at most [N] tokens of the input, [m] answers, with no
    more tokens left than before; it panics only if [LIMIT] or [OFFSET] is followed
    by a literal that is not an integer. *)
From S2P Require Import Prelude Value Text RowCodec SqlLex SqlParse.

(** [n.(int)] fails on this input. *)
Definition bad_limit `{GoText} (ts : list Token) : Prop :=
  exists pre w a b post v, ts = pre ++ a :: b :: post /\ w ∈ ["LIMIT"; "OFFSET"]%string /\ isWord w a = true /\
    value_ b = Ok v /\ (forall n, v <> VInt n).

Section total.
Context `{Text : GoText}.
Context {Laws : GoTextLaws}.
Context (ts : list Token).
Context (Hts : Forall (fun t => Type_ t <> EOFToken) ts).

(** The input with its end-of-input token, and a position in it. *)
Let input : list Token := ts ++ [MkToken EOFToken []].
Definition live (t : list Token) : Prop := t <> [] /\ t `suffix_of` input.

Definition answers {A} (m : parser A) (t : list Token) (Q : A -> list Token -> Prop) : Prop :=
  match m t with
  | (Ok a, t') => Q a t'
  | (Err _, _) => True
  | (Panic, _) => bad_limit input
  | (NoFuel, _) => False
  end.

Definition runs {A} (N : nat) (m : parser A) : Prop :=
  forall t, live t -> (length t <= N)%nat -> answers m t (fun _ t' => live t' /\ (length t' <= length t)%nat).

Lemma answers_bind {A B} (m : parser A) (f : A -> parser B) t Q :
  answers m t (fun a t' => answers (f a) t' Q) -> answers (m ≫= f) t Q.
Proof. unfold answers. cbv [mbind M_bind]. by destruct (m t) as [[] ?]. Qed.

Lemma answers_mono {A} (m : parser A) t (Q Q' : A -> list Token -> Prop) :
  answers m t Q -> (forall a t', Q a t' -> Q' a t') -> answers m t Q'.
Proof. unfold answers. destruct (m t) as [[] ?]; auto. Qed.

Lemma runs_weaken {A} N N' (m : parser A) : (N' <= N)%nat -> runs N m -> runs N' m.
Proof. intros Hle Hm t Ht Hl. apply Hm; [done|lia]. Qed.

Lemma runs_bind {A B} N (m : parser A) (f : A -> parser B) : runs N m -> (forall a, runs N (f a)) -> runs N (m ≫= f).
Proof.
  intros Hm Hf t Ht Hl. apply answers_bind. eapply answers_mono; [by apply Hm|]. cbn. intros a t' [Ht' Hl'].
  eapply answers_mono; [apply Hf; [done|lia]|]. cbn. intros ? ? [? ?]. split; [done|lia].
Qed.

(** The start of a loop: its fuel is the number of tokens left. *)
Lemma runs_get {A} N (f : list Token -> parser A) :
  (forall t, (length t <= N)%nat -> runs (length t) (f t)) -> runs N (t ← get_state; f t).
Proof. intros Hf t Ht Hl. exact (Hf t Hl t Ht (le_n _)). Qed.

Lemma runs_ret {A} N (a : A) : runs N (mret a).
Proof. intros t Ht Hl. by split. Qed.
Lemma runs_fail {A} N e : runs N (fail e : parser A).
Proof. done. Qed.
Lemma runs_if {A} N (b : bool) (m1 m2 : parser A) : runs N m1 -> runs N m2 -> runs N (if b then m1 else m2).
Proof. by destruct b. Qed.
Lemma runs_decide {A} N (P : Prop) (D : Decision P) (m1 m2 : parser A) : runs N m1 -> runs N m2 -> runs N (if decide P then m1 else m2).
Proof. by case_decide. Qed.

Lemma live_cons t : live t -> exists c r, t = c :: r /\ (r = [] -> c = MkToken EOFToken []) /\ (Type_ c <> EOFToken \/ r = []) /\
  (r <> [] -> live r).
Proof using Hts.
  intros [Hne Hs]. destruct t as [|c r]; [done|]. exists c, r. destruct Hs as [pre E]. split_and!; [done| | |].
  - intros ->. unfold input in E. by apply app_inj_tail in E as [_ <-].
  - destruct r as [|c' r] using rev_ind; [by right|left]. unfold input in E.
    change (c :: r ++ [c']) with ((c :: r) ++ [c']) in E. rewrite app_assoc in E.
    apply app_inj_tail in E as [-> _]. apply Forall_app in Hts as [_ Hc]. by inversion Hc.
  - intros Hr. split; [done|]. exists (pre ++ [c]). by rewrite <- app_assoc.
Qed.

Lemma eof_not_word w : ascii (of_string w) -> of_string w <> [] -> isWord w (MkToken EOFToken []) = false.
Proof using Laws.
  intros Ha Hne. unfold isWord. cbn. rewrite EqualFold_ascii by (done || constructor). apply bool_decide_eq_false_2.
  intros E. destruct (of_string w); [done|]. discriminate E.
Qed.

Lemma take_live t : live t -> live (take_ t).2 /\ (length (take_ t).2 <= length t)%nat.
Proof using Hts.
  intros Ht. destruct (live_cons t Ht) as (c&r&->&_&_&Hr). cbn. destruct r as [|c' r]; [done|]. split; [by apply Hr|cbn; lia].
Qed.

(** A token that is not the last one is really taken. *)
Lemma take_strict t c : live t -> head t = Some c -> Type_ c <> EOFToken -> live (take_ t).2 /\ (length (take_ t).2 < length t)%nat.
Proof using Hts.
  intros Ht Hc Hne. destruct (live_cons t Ht) as (c'&r&->&H1&_&Hr). injection Hc as ->.
  destruct r as [|c'' r]; [by rewrite H1 in Hne|]. cbn. split; [by apply Hr|lia].
Qed.

Lemma word_not_eof w c : ascii (of_string w) -> of_string w <> [] -> isWord w c = true -> c <> MkToken EOFToken [].
Proof using Laws. intros Ha Hne Hw ->. by rewrite eof_not_word in Hw. Qed.

Lemma live_eof c t : live t -> head t = Some c -> c <> MkToken EOFToken [] -> Type_ c <> EOFToken.
Proof using Hts.
  intros Ht Hc Hne. destruct (live_cons t Ht) as (c'&r&->&H1&H2&_). injection Hc as ->.
  destruct H2 as [H2| ->]; [done|]. by rewrite H1 in Hne.
Qed.

Lemma runs_cur N : runs N cur.
Proof using Hts. intros t Ht Hl. destruct (live_cons t Ht) as (c&r&->&_). by split. Qed.
Lemma runs_take N : runs N take_.
Proof using Hts. intros t Ht Hl. by apply take_live. Qed.

(** Branching on the current token. *)
Lemma runs_at {A} N (f : Token -> parser A) :
  (forall t c, live t -> (length t <= N)%nat -> head t = Some c -> answers (f c) t (fun _ t' => live t' /\ (length t' <= length t)%nat)) ->
  runs N (c ← cur; f c).
Proof using Hts. intros Hf t Ht Hl. destruct (live_cons t Ht) as (c&r&->&_). by apply (Hf (c :: r) c). Qed.

(** Taking a token that is not the last one leaves strictly fewer. *)
Lemma answers_take {A} (m : parser A) N t c :
  live t -> (length t <= S N)%nat -> head t = Some c -> Type_ c <> EOFToken -> runs N m ->
  answers (_ ← take_; m) t (fun _ t' => live t' /\ (length t' <= length t)%nat).
Proof using Hts.
  intros Ht Hl Hc Hne Hm. apply answers_bind. unfold answers at 1. destruct (take_strict t c Ht Hc Hne) as [Ht' Hl'].
  cbn in *. eapply answers_mono; [apply Hm; [done|lia]|]. cbn. intros ? ? [? ?]. split; [done|lia].
Qed.

Lemma runs_lexeme N : runs N lexeme.
Proof using Hts. apply runs_bind; [apply runs_cur|intros c]. apply runs_bind; [apply runs_take|intros _]. apply runs_ret. Qed.
Lemma runs_want N w : runs N (want w).
Proof using Hts. apply runs_bind; [apply runs_cur|intros c]. apply runs_if; [apply runs_take|apply runs_fail]. Qed.

Lemma value_answers c : (exists v, value_ c = Ok v) \/ (exists e, value_ c = Err e).
Proof using Laws.
  assert (forall s, (exists z, Atoi s = Ok z) \/ exists e, Atoi s = Err e) as Ha.
  { intros s. unfold Atoi. repeat case_match; eauto. }
  unfold value_. destruct (Type_ c); eauto.
  - case_decide.
    + destruct (ParseFloat_answers (Lexeme c)) as [[f ->]|[e ->]]; cbn; eauto.
    + destruct (Ha (Lexeme c)) as [[f ->]|[e ->]]; cbn; eauto.
  - destruct (Ha (TrimPrefix (Lexeme c) (of_string "$"))) as [[f ->]|[e ->]]; eauto.
Qed.

Lemma runs_value N c : runs N (lift (value_ c)).
Proof using Laws. intros t Ht Hl. destruct (value_answers c) as [[v E]|[e E]]; unfold answers, lift; by rewrite E. Qed.

Lemma runs_literal N : runs N literal.
Proof using Hts Laws.
  apply runs_bind; [apply runs_cur|intros c]. apply runs_bind; [apply runs_value|intros v].
  apply runs_bind; [apply runs_take|intros _]. apply runs_ret.
Qed.
#[local] Hint Resolve runs_bind runs_ret runs_fail runs_if runs_decide runs_cur runs_take runs_lexeme runs_want runs_literal : parse.

(** ** Loops *)

Lemma live_empty {A} (m : parser A) : runs 0 m.
Proof. intros [|c t] [Hne _] Hl; [done|cbn in Hl; lia]. Qed.

Lemma runs_commaLoop {A} (item : parser A) n acc : (forall N, runs N item) -> runs n (commaLoop n item acc).
Proof using Hts.
  intros Hi. revert acc. induction n as [|n IH]; intros acc; [apply live_empty|]. cbn [commaLoop].
  apply runs_bind; auto; intros x; apply runs_at; intros t c Ht Hl Hc. unfold isType. case_bool_decide as Ec; [|by split].
  eapply answers_take; eauto. by rewrite Ec.
Qed.

Lemma runs_commaList {A} (item : parser A) N : (forall N, runs N item) -> runs N (commaList item).
Proof using Hts. intros Hi. apply runs_get. intros t _. by apply runs_commaLoop. Qed.

(** A word of the grammar is not the end of the input. *)
Definition keyword (w : string) : Prop := ascii (of_string w) /\ of_string w <> [].

Lemma answers_word {A} (m : parser A) N t c w :
  keyword w -> live t -> (length t <= S N)%nat -> head t = Some c -> isWord w c = true -> runs N m ->
  answers (_ ← take_; m) t (fun _ t' => live t' /\ (length t' <= length t)%nat).
Proof using Hts Laws.
  intros [Ha Hk] Ht Hl Hc Hw Hm. eapply answers_take; eauto. eapply live_eof; eauto. by eapply word_not_eof.
Qed.

Lemma runs_condLoop w sub n left : keyword w -> runs n sub -> runs n (condLoop w sub n left).
Proof using Hts Laws.
  intros Hw. revert left. induction n as [|n IH]; intros left Hs; [apply live_empty|]. cbn [condLoop].
  apply runs_at. intros t c Ht Hl Hc. destruct (isWord w c) eqn:Ew; [|by split]. eapply answers_word; eauto.
  apply runs_bind; [eapply runs_weaken; [|done]; lia|intros r]. apply IH. eapply runs_weaken; [|done]; lia.
Qed.

Ltac keyword := split; [repeat constructor; vm_compute; reflexivity|discriminate].

Lemma runs_parseAnd N prim : runs N prim -> runs N (parseAnd prim).
Proof using Hts Laws.
  intros Hp. apply runs_get. intros t Hl. assert (runs (length t) prim) as Hp' by (by eapply runs_weaken).
  apply runs_bind; [done|intros c]. apply runs_condLoop; [keyword|done].
Qed.
Lemma runs_parseOr N prim : runs N prim -> runs N (parseOr prim).
Proof using Hts Laws.
  intros Hp. apply runs_get. intros t Hl. assert (runs (length t) (parseAnd prim)) as Hp' by (apply runs_parseAnd; by eapply runs_weaken).
  apply runs_bind; [done|intros c]. apply runs_condLoop; [keyword|done].
Qed.

Lemma runs_parseComparison N : runs N parseComparison.
Proof using Hts Laws. unfold parseComparison, parseNull. auto 20 with parse. Qed.

Lemma runs_parsePrimary n : runs n (parsePrimary n).
Proof using Hts Laws.
  induction n as [|n IH]; [apply live_empty|]. cbn [parsePrimary]. apply runs_at. intros t c Ht Hl Hc. unfold isType.
  case_bool_decide as Ec; [|by apply (runs_parseComparison (S n))]. eapply answers_take; eauto; [by rewrite Ec|].
  apply runs_bind; [by apply runs_parseOr|auto with parse].
Qed.

Lemma runs_condition N : runs N condition.
Proof using Hts Laws.
  unfold condition. apply runs_bind; auto with parse. intros c. apply runs_if; auto with parse.
  apply runs_bind; auto with parse. intros _. apply runs_get. intros t _.
  apply runs_bind; auto with parse. apply runs_parseOr, runs_parsePrimary.
Qed.

Lemma runs_constraintStep N w k : runs N (constraintStep w k).
Proof using Hts Laws. unfold constraintStep. auto 20 with parse. Qed.
#[local] Hint Resolve runs_constraintStep runs_condition runs_commaList : parse.

Lemma runs_constraintLoop n k : runs n (constraintLoop n k).
Proof using Hts Laws.
  revert k. induction n as [|n IH]; intros k; [apply live_empty|]. cbn [constraintLoop].
  apply runs_at. intros t c Ht Hl Hc. destruct (_ || _) eqn:Ew; [|by split].
  assert (exists w, keyword w /\ isWord w c = true) as (w&Hw&Hwc).
  { rewrite !orb_true_iff in Ew. destruct Ew as [[Ew|Ew]|Ew]; (eexists; split; [|exact Ew]; keyword). }
  eapply answers_word; eauto with parse.
Qed.

Lemma runs_column N : runs N column.
Proof using Hts Laws. unfold column. do 2 (apply runs_bind; auto with parse; intros ?). destruct (columnType _); auto with parse. Qed.
#[local] Hint Resolve runs_column : parse.

Lemma runs_columnDef N : runs N columnDef.
Proof using Hts Laws.
  unfold columnDef. apply runs_bind; auto with parse. intros c. apply runs_get. intros t _.
  apply runs_bind; auto with parse. apply runs_constraintLoop.
Qed.
#[local] Hint Resolve runs_columnDef : parse.

(** ** Looking one token ahead *)

Lemma next_live t c : live t -> head t = Some c -> Type_ c <> EOFToken -> exists c', next t = (Ok c', t).
Proof using Hts.
  intros Ht Hc Hne. destruct (live_cons t Ht) as (c0&r&->&H1&_). injection Hc as ->. destruct r as [|c' r]; [by rewrite H1 in Hne|].
  by exists c'.
Qed.

Lemma aggregate_not_eof c : isAggregateName (Lexeme c) = true -> c <> MkToken EOFToken [].
Proof using Laws.
  intros H ->. cbn in H. unfold isAggregateName in H. apply bool_decide_eq_true_1 in H. rewrite ToUpper_ascii in H by constructor.
  repeat (apply elem_of_cons in H as [H|H]; [discriminate H|]). by apply elem_of_nil in H.
Qed.

(** A test that may look ahead, then a parser that runs. *)
Lemma answers_ahead {A} (b : bool) (f : Token -> bool) (k : bool -> parser A) N t c :
  live t -> (length t <= N)%nat -> head t = Some c -> (b = true -> Type_ c <> EOFToken) -> (forall x, runs N (k x)) ->
  answers (x ← (if b then n ← next; mret (f n) else mret false); k x) t (fun _ t' => live t' /\ (length t' <= length t)%nat).
Proof using Hts.
  intros Ht Hl Hc Hb Hk. apply answers_bind. destruct b; [|by apply (Hk false)].
  destruct (next_live t c Ht Hc (Hb eq_refl)) as [c' E]. apply answers_bind. unfold answers at 1. rewrite E. by apply Hk.
Qed.

Lemma runs_selectColumn N : runs N selectColumn.
Proof using Hts Laws.
  unfold selectColumn. apply runs_at. intros t c Ht Hl Hc. eapply (answers_ahead _ (isType LParen)); eauto 20 with parse.
  intros Ha. eapply live_eof; eauto. by apply aggregate_not_eof.
Qed.

Lemma runs_joinBody N c : runs N (joinBody c).
Proof using Hts Laws. unfold joinBody. auto 20 with parse. Qed.
Lemma runs_joinClause N : runs N joinClause.
Proof using Hts Laws.
  unfold joinClause. apply runs_at. intros t c Ht Hl Hc. destruct (isWord "JOIN" c) eqn:Ej.
  - by apply (runs_joinBody N c).
  - eapply (answers_ahead _ (isWord "JOIN")); eauto using runs_joinBody, runs_ret, runs_if.
    intros Ha. eapply live_eof; eauto. eapply word_not_eof; [| |done]; [repeat constructor; vm_compute; reflexivity|done].
Qed.

Lemma runs_groupClause N : runs N groupClause.
Proof using Hts Laws. unfold groupClause. auto 20 with parse. Qed.
Lemma runs_orderClause N : runs N orderClause.
Proof using Hts Laws. unfold orderClause. auto 20 with parse. Qed.

(** The only panic. *)
Lemma runs_intClause N w z : w ∈ ["LIMIT"; "OFFSET"]%string -> runs N (intClause w z).
Proof using Hts Laws.
  intros Hw t Ht Hl. unfold intClause. destruct (live_cons t Ht) as (a&r&->&Hlast&_&Hr). apply answers_bind.
  unfold answers at 1. cbn [cur head of_option]. destruct (isWord w a) eqn:Ea; [|by split].
  destruct r as [|b r].
  { exfalso. rewrite (Hlast eq_refl) in Ea. repeat (apply elem_of_cons in Hw as [->|Hw];
      [rewrite eof_not_word in Ea; [done|repeat constructor; vm_compute; reflexivity|done]|]). by apply elem_of_nil in Hw. }
  apply answers_bind. unfold answers at 1. cbn [take_]. apply answers_bind. unfold answers at 1. cbn [cur head of_option].
  apply answers_bind. unfold answers at 1, lift at 1. destruct (value_answers b) as [[v Ev]|[e Ev]]; rewrite Ev; [|done].
  assert (live (b :: r)) as Hlive by by apply Hr.
  assert ((forall n, v <> VInt n) -> bad_limit input) as Hbad.
  { intros Hn. destruct Ht as [_ [pre E]]. by exists pre, w, a, b, r, v. }
  pose proof (take_live (b :: r) Hlive) as [? ?]. destruct v; try (by apply Hbad).
  split; [done|]. cbn in *. lia.
Qed.
#[local] Hint Resolve runs_selectColumn runs_joinClause runs_groupClause runs_orderClause runs_intClause : parse.

Lemma runs_selectStmt N : runs N selectStmt.
Proof using Hts Laws.
  unfold selectStmt. repeat (apply runs_bind; [auto with parse; apply runs_intClause; set_solver|intros ?]). apply runs_ret.
Qed.
Lemma runs_insertStmt N : runs N insertStmt.
Proof using Hts Laws. unfold insertStmt. auto 30 with parse. Qed.
Lemma runs_updateStmt N : runs N updateStmt.
Proof using Hts Laws. unfold updateStmt, assignment. auto 30 with parse. Qed.
Lemma runs_deleteStmt N : runs N deleteStmt.
Proof using Hts Laws. unfold deleteStmt. auto 30 with parse. Qed.
Lemma runs_createStmt N : runs N createStmt.
Proof using Hts Laws. unfold createStmt. auto 30 with parse. Qed.
Lemma runs_alterStmt N : runs N alterStmt.
Proof using Hts Laws. unfold alterStmt. auto 30 with parse. Qed.
#[local] Hint Resolve runs_selectStmt runs_insertStmt runs_updateStmt runs_deleteStmt runs_createStmt runs_alterStmt : parse.

Lemma runs_statement N : runs N statement.
Proof using Hts Laws. unfold statement, explainStmt, dropStmt, showStmt. auto 50 with parse. Qed.

Lemma parseTokens_answers : answers parseTokens input (fun _ _ => True).
Proof using Hts Laws.
  assert (runs (length input) parseTokens) as H.
  { unfold parseTokens. apply runs_bind; [apply runs_statement|auto 30 with parse]. }
  eapply answers_mono; [apply H; [|done]|done]. split; [|done]. intros E. by apply app_nil in E as [_ E].
Qed.
End total.

(** C25: parsing terminates on every input: it returns a statement, reports an
    error, or panics, and it panics only where [LIMIT] or [OFFSET] is followed by a
    literal other than an integer. *)
Theorem parse_total `{Text : GoText} {Laws : GoTextLaws} (input : bytes) :
  (exists s, Parse input = Ok s) \/ (exists e, Parse input = Err e) \/
  (Parse input = Panic /\ exists ts, Lex input = Ok ts /\ bad_limit ts).
Proof.
  unfold Parse, Lex. destruct (lexLoop_total (length input) input []) as [[e ->]|(ts&->&Hts)]; [done|right; left; by eexists|].
  cbn [app]. unfold mbind at 1 2 3, outcome_bind. pose proof (parseTokens_answers ts Hts) as H. unfold answers in H.
  destruct (parseTokens _) as [[s|e| |] t']; cbn in *; [left; by eexists|right; left; by eexists| |done].
  right; right. split; [done|]. by eexists.
Qed.

Lemma parse_total_witness :
  Parse (Text := AsciiText) (of_string "DELETE FROM t WHERE a = 1 OR (b = 2") = Err (Errorf "expected %s, got %s" [AStr (of_string ")"); AStr []]) /\
  ((exists s, Parse (Text := AsciiText) (of_string "DELETE FROM t WHERE a = 1 OR (b = 2") = Ok s) \/
   (exists e, Parse (Text := AsciiText) (of_string "DELETE FROM t WHERE a = 1 OR (b = 2") = Err e) \/
   (Parse (Text := AsciiText) (of_string "DELETE FROM t WHERE a = 1 OR (b = 2") = Panic /\
    exists ts, Lex (Text := AsciiText) (of_string "DELETE FROM t WHERE a = 1 OR (b = 2") = Ok ts /\ bad_limit (H := AsciiText) ts)).
Proof.
  split; [vm_compute; reflexivity|]. exact (parse_total (Laws := AsciiTextLaws) (of_string "DELETE FROM t WHERE a = 1 OR (b = 2")).
Defined.

(** [LIMIT] with a placeholder or a quoted number is accepted by the grammar
    and crashes the program: the type assertion [n.(int)] panics. *)
Theorem limit_panics :
  Parse (Text := AsciiText) (of_string "SELECT * FROM t LIMIT ?") = Panic /\
  Parse (Text := AsciiText) (of_string "SELECT * FROM t LIMIT 5 OFFSET '10'") = Panic /\
  is_ok (Parse (Text := AsciiText) (of_string "SELECT * FROM t LIMIT 5 OFFSET 10")) = true.
Proof. split_and!; vm_compute; reflexivity. Qed.
