(* ===== verification/SqlPrint.v ===== *)
(** * Printing statements, and parsing them back

    A printer for the statements of the grammar, with as few parentheses as the
    parser's precedence and left associativity allow. Names may be any words, also
    the keywords of the grammar: the parser takes them by their position. *)
From S2P Require Import Prelude Value Text RowCodec SqlLex SqlParse.

(** ** The printer *)

Section printer.
Context `{Text : GoText}.

Definition word (w : bytes) : Token := MkToken (wordType w) w.
Definition kw (w : string) : Token := word (of_string w).
Definition name (w : bytes) : Token := if decide (w = of_string "*") then MkToken Identifier w else word w.
Definition eof : Token := MkToken EOFToken [].
Definition comma : Token := MkToken Comma (of_string ",").
Definition lparen : Token := MkToken LParen (of_string "(").
Definition rparen : Token := MkToken RParen (of_string ")").
Definition equal : Token := MkToken Equal (of_string "=").

(** Floats, byte strings and times have no literal here. *)
Definition printValue (v : value) : Token :=
  match v with
  | VNil => MkToken Null_ (of_string "NULL")
  | VInt z => MkToken Number (sprint_int z)
  | VString s => MkToken String_ s
  | VBool b => MkToken Boolean (of_string (if b then "TRUE" else "FALSE"))
  | VParam i => MkToken ParameterToken (of_string "$" ++ sprint_int i)
  | VFloat _ | VBytes _ | VTime _ _ => MkToken Null_ (of_string "NULL")
  end.

Fixpoint separated {A} (f : A -> list Token) (l : list A) : list Token :=
  match l with
  | [] => []
  | [x] => f x
  | x :: l => f x ++ comma :: separated f l
  end.

Definition operators : list (bytes * TokenType) :=
  [(of_string "=", Equal); (of_string "!=", NotEqual); (of_string "<", Less); (of_string ">", Greater);
   (of_string "<=", LessEqual); (of_string ">=", GreaterEqual)].

Definition printOperator (op : bytes) : Token :=
  MkToken (default Equal (snd <$> find (fun o => bool_decide (o.1 = op)) operators)) op.

Definition printLeaf (col op : bytes) (v : value) : list Token :=
  if decide (op = of_string "IS NULL") then [name col; kw "IS"; kw "NULL"]
  else if decide (op = of_string "IS NOT NULL") then [name col; kw "IS"; kw "NOT"; kw "NULL"]
  else [name col; printOperator op; printValue v].

(** The level of the position: 0 for operands of nothing, 1 for operands of [OR]
    on the right, 2 for operands of [AND] on the right. *)
Fixpoint printCond (level : nat) (c : Condition) : list Token :=
  match c with
  | MkCond _ _ _ (Some l) (Some r) logic =>
      let k := if decide (logic = of_string "OR") then 0%nat else 1%nat in
      let body := printCond k l ++ kw (if decide (logic = of_string "OR") then "OR" else "AND") :: printCond (S k) r in
      if decide (level <= k)%nat then body else lparen :: body ++ [rparen]
  | MkCond col op v _ _ _ => printLeaf col op v
  end.

Definition printWhere (w : option Condition) : list Token :=
  match w with Some c => kw "WHERE" :: printCond 0 c | None => [] end.

Definition printColumnRef (c : bytes) : list Token :=
  match IndexByte c Byte.x28 with
  | Some i => [word (take i c); lparen; name (slice (S i) (length c - 1) c); rparen]
  | None => [name c]
  end.

Definition typeName (t : Z) : string :=
  if decide (t = IntType) then "INT" else if decide (t = StringType) then "STRING" else if decide (t = BoolType) then "BOOL"
  else if decide (t = FloatType) then "FLOAT" else if decide (t = BytesType) then "BYTES" else "TIMESTAMP".

Definition printColumn (c : Column) : list Token := [name (cName c); kw (typeName (cType c))].

Definition printConstraint (k : ColumnConstraint) : list Token :=
  (if NotNull k then [kw "NOT"; kw "NULL"] else []) ++ (if Unique k then [kw "UNIQUE"] else []) ++
  match References k with Some r => [kw "REFERENCES"; name (refTable r); lparen; name (refColumn r); rparen] | None => [] end.

Definition printColumnDef (ck : Column * ColumnConstraint) : list Token := printColumn ck.1 ++ printConstraint ck.2.

Definition columnDefs (q : CreateTable) : list (Column * ColumnConstraint) :=
  (fun c => (c, constraint_of (MkSchema (ctColumns q) (ctConstraints q)) (cName c))) <$> ctColumns q.

Definition printAssignment (nv : bytes * value) : list Token := [name nv.1; equal; printValue nv.2].

Definition printInt (w : string) (absent n : Z) : list Token := if decide (n = absent) then [] else [kw w; printValue (VInt n)].

Definition printJoin (q : Select) : list Token :=
  if decide (JoinTable q = []) then []
  else [kw "JOIN"; name (JoinTable q); kw "ON"; name (JoinLeft q); equal; name (JoinRight q)].
Definition printGroup (q : Select) : list Token :=
  if decide (GroupBy q = []) then [] else kw "GROUP" :: kw "BY" :: separated (fun c => [name c]) (GroupBy q).
Definition printOrder (q : Select) : list Token :=
  if decide (OrderBy q = []) then [] else kw "ORDER" :: kw "BY" :: name (OrderBy q) :: if Desc q then [kw "DESC"] else [].

Definition printSelect (q : Select) : list Token :=
  kw "SELECT" :: separated printColumnRef (selColumns q) ++ kw "FROM" :: name (selTable q) :: printJoin q ++ printWhere (selWhere q) ++
  printGroup q ++ printOrder q ++ printInt "LIMIT" (-1) (Limit q) ++ printInt "OFFSET" 0 (Offset q).

Definition printInsert (q : Insert) : list Token :=
  kw "INSERT" :: kw "INTO" :: name (insTable q) :: lparen :: separated (fun c => [name c]) (insColumns q) ++ rparen ::
  kw "VALUES" :: lparen :: separated (fun v => [printValue v]) (insValues q) ++ [rparen].

Definition printAlter (q : AlterTable) : list Token :=
  kw "ALTER" :: kw "TABLE" :: name (atTable q) ::
  if decide (atAction q = of_string "add") then kw "ADD" :: kw "COLUMN" :: printColumn (atColumn q)
  else if decide (atAction q = of_string "drop") then [kw "DROP"; kw "COLUMN"; name (atName q)]
  else [kw "RENAME"; kw "COLUMN"; name (atName q); kw "TO"; name (atNewName q)].

Fixpoint printStatement (s : Statement) : list Token :=
  match s with
  | SSelect q => printSelect q
  | SInsert q => printInsert q
  | SListTables => [kw "SHOW"; kw "TABLES"]
  | SCreateTable q =>
      kw "CREATE" :: kw "TABLE" :: name (ctTable q) :: lparen :: separated printColumnDef (columnDefs q) ++ [rparen]
  | SDropTable t => [kw "DROP"; kw "TABLE"; name t]
  | SAlterTable q => printAlter q
  | SUpdate q =>
      kw "UPDATE" :: name (updTable q) :: kw "SET" :: separated printAssignment (map_to_list (updSet q)) ++ printWhere (updWhere q)
  | SDelete q => kw "DELETE" :: kw "FROM" :: name (delTable q) :: printWhere (delWhere q)
  | SBegin => [kw "BEGIN"]
  | SCommit => [kw "COMMIT"]
  | SRollback => [kw "ROLLBACK"]
  | SExplain s => kw "EXPLAIN" :: printStatement s
  | SExplainTable t => [kw "EXPLAIN"; kw "TABLE"; name t]
  end.

(** ** What can be printed *)

Definition name_ok (w : bytes) : Prop := w = of_string "*" \/ is_word w.

Definition value_ok (v : value) : Prop :=
  match v with
  | VNil | VString _ | VBool _ => True
  | VInt z => - 2 ^ 63 <= z < 2 ^ 63
  | VParam i => 0 <= i < 2 ^ 63
  | VFloat _ | VBytes _ | VTime _ _ => False
  end.

Fixpoint cond_ok (c : Condition) : Prop :=
  match c with
  | MkCond col op v None None logic =>
      name_ok col /\ logic = [] /\
      ((op ∈ [of_string "IS NULL"; of_string "IS NOT NULL"] /\ v = VNil) \/ (op ∈ operators.*1 /\ value_ok v))
  | MkCond col op v (Some l) (Some r) logic =>
      col = [] /\ op = [] /\ v = VNil /\ logic ∈ [of_string "OR"; of_string "AND"] /\ cond_ok l /\ cond_ok r
  | _ => False
  end.

Definition where_ok (w : option Condition) : Prop := match w with Some c => cond_ok c | None => True end.

Definition aggregates : list bytes := of_string <$> ["COUNT"; "SUM"; "AVG"; "MIN"; "MAX"]%string.

Definition column_ref_ok (c : bytes) : Prop :=
  name_ok c \/ exists fn arg, c = fn ++ of_string "(" ++ arg ++ of_string ")" /\ fn ∈ aggregates /\ name_ok arg.

Definition column_ok (c : Column) : Prop := name_ok (cName c) /\ IntType <= cType c <= TimestampType.
Definition constraint_ok (k : ColumnConstraint) : Prop :=
  match References k with Some r => name_ok (refTable r) /\ name_ok (refColumn r) | None => True end.

Definition select_ok (q : Select) : Prop :=
  selColumns q <> [] /\ Forall column_ref_ok (selColumns q) /\ name_ok (selTable q) /\ where_ok (selWhere q) /\
  ((JoinTable q = [] /\ JoinLeft q = [] /\ JoinRight q = []) \/ (name_ok (JoinTable q) /\ name_ok (JoinLeft q) /\ name_ok (JoinRight q))) /\
  Forall name_ok (GroupBy q) /\ ((OrderBy q = [] /\ Desc q = false) \/ name_ok (OrderBy q)) /\
  - 2 ^ 63 <= Limit q < 2 ^ 63 /\ - 2 ^ 63 <= Offset q < 2 ^ 63.

Definition insert_ok (q : Insert) : Prop :=
  name_ok (insTable q) /\ insColumns q <> [] /\ Forall name_ok (insColumns q) /\ Forall value_ok (insValues q) /\
  length (insColumns q) = length (insValues q).

Definition create_ok (q : CreateTable) : Prop :=
  name_ok (ctTable q) /\ ctColumns q <> [] /\ Forall column_ok (ctColumns q) /\ NoDup (cName <$> ctColumns q) /\
  dom (ctConstraints q) = list_to_set (cName <$> ctColumns q) /\ map_Forall (fun _ k => constraint_ok k) (ctConstraints q).

Definition alter_ok (q : AlterTable) : Prop :=
  name_ok (atTable q) /\
  ((exists c, q = MkAlter (atTable q) (of_string "add") [] [] c /\ column_ok c) \/
   (exists n, q = MkAlter (atTable q) (of_string "drop") n [] (MkCol [] 0) /\ name_ok n) \/
   (exists n nn, q = MkAlter (atTable q) (of_string "rename") n nn (MkCol [] 0) /\ name_ok n /\ name_ok nn)).

Definition update_ok (q : Update) : Prop :=
  name_ok (updTable q) /\ updSet q <> ∅ /\ map_Forall (fun n v => name_ok n /\ value_ok v) (updSet q) /\ where_ok (updWhere q).

Definition delete_ok (q : Delete) : Prop := name_ok (delTable q) /\ where_ok (delWhere q).

Fixpoint statement_ok (s : Statement) : Prop :=
  match s with
  | SSelect q => select_ok q
  | SInsert q => insert_ok q
  | SCreateTable q => create_ok q
  | SAlterTable q => alter_ok q
  | SUpdate q => update_ok q
  | SDelete q => delete_ok q
  | SDropTable t | SExplainTable t => name_ok t
  | SListTables | SBegin | SCommit | SRollback => True
  | SExplain (SSelect _ | SInsert _ | SUpdate _ | SDelete _) as s' => match s' with SExplain s => statement_ok s | _ => False end
  | SExplain _ => False
  end.

(** The placeholders are numbered from left to right, as the lexer does. *)
Definition placeholders (ts : list Token) : list bytes := Lexeme <$> filter (fun t => Type_ t = ParameterToken) ts.
Definition numbered (ts : list Token) : Prop :=
  forall i x, placeholders ts !! i = Some x -> x = of_string "$" ++ sprint_int (Z.of_nat i).
End printer.

(** ** Tests of words on printed tokens *)

Lemma isWord_ascii `{Text : GoText} {Laws : GoTextLaws} w l ty :
  ascii (of_string w) -> ascii l -> isWord w (MkToken ty l) = bool_decide (lower l = lower (of_string w)).
Proof. intros. unfold isWord. by apply EqualFold_ascii. Qed.

Ltac is_ascii := first [apply bool_decide_eq_true_1; vm_compute; reflexivity | repeat constructor].
(** Decide a word test on a token with a known lexeme. *)
Ltac word_test :=
  match goal with
  | |- isWord ?w (kw ?k) = ?b => transitivity (bool_decide (lower (of_string k) = lower (of_string w))); [apply isWord_ascii; is_ascii|reflexivity]
  | |- isWord ?w ?c = ?b => let c' := eval hnf in c in change (isWord w c' = b); rewrite isWord_ascii by is_ascii; reflexivity
  end.
(** Rewrite with the tests in the goal that can be decided. *)
Ltac word_tests :=
  repeat match goal with
  | |- context [isWord ?w ?c] => first [replace (isWord w c) with true by (symmetry; word_test) | replace (isWord w c) with false by (symmetry; word_test)]
  end; cbn [orb]; cbv iota.
