(* ===== verification/SqlPrintProofs.v ===== *)
(** * Parsing inverts printing

    [parses m ts a]: on the tokens [ts], followed by anything that does not
    continue [m], the parser [m] consumes [ts] and returns [a]. *)
From S2P Require Import Prelude Value Text RowCodec SqlLex SqlParse SqlPrint.

#[local] Set Default Proof Using "All".
Section steps.
Context `{Text : GoText}.
Context {Laws : GoTextLaws}.

(** ** Single tokens *)

Definition plain_types : list TokenType := [Keyword; Identifier; Number; Boolean; Null_].

Lemma wordType_plain w : wordType w ∈ plain_types.
Proof. unfold wordType, plain_types. repeat case_match; set_solver. Qed.

Lemma Lexeme_name w : Lexeme (name w) = w.
Proof. unfold name. by case_decide. Qed.
Lemma name_plain w : Type_ (name w) ∈ plain_types.
Proof. unfold name. case_decide; [set_solver|apply wordType_plain]. Qed.

Lemma isType_plain ty t : Type_ t ∈ plain_types -> ty ∉ plain_types -> isType ty t = false.
Proof. intros Ht Hty. apply bool_decide_eq_false_2. intros E. by rewrite E in Ht. Qed.

(** ** Composing parsers *)

Definition parses {A} (m : parser A) (ts : list Token) (a : A) (ok : Token -> Prop) : Prop :=
  forall c r, ok c -> m (ts ++ c :: r) = (Ok a, c :: r).

(** The parser takes exactly one token. *)
Definition atom {A} (m : parser A) (t : Token) (a : A) : Prop := forall c r, m (t :: c :: r) = (Ok a, c :: r).

(** [ok] holds of the token after [m], be it printed or what follows. *)
Definition heads (ok ok' : Token -> Prop) (ts : list Token) : Prop :=
  match ts with [] => forall c, ok' c -> ok c | t :: _ => ok t end.

Lemma cur_bind {A} (f : Token -> parser A) c r : (cur ≫= f) (c :: r) = f c (c :: r).
Proof. done. Qed.

Lemma take_bind {A} (f : unit -> parser A) t c r : (take_ ≫= f) (t :: c :: r) = f tt (c :: r).
Proof. done. Qed.

Lemma parses_step {A B} (m : parser A) (f : A -> parser B) t a ts b ok :
  atom m t a -> parses (f a) ts b ok -> parses (m ≫= f) (t :: ts) b ok.
Proof.
  intros Hm Hf c r Hc. specialize (Hf c r Hc). cbn [app]. destruct ts as [|t' ts]; cbn [app] in *; erewrite bind_ok by apply Hm; done.
Qed.

Lemma parses_app {A B} (m : parser A) (f : A -> parser B) ts1 ts2 a b ok1 ok2 :
  parses m ts1 a ok1 -> heads ok1 ok2 ts2 -> parses (f a) ts2 b ok2 -> parses (m ≫= f) (ts1 ++ ts2) b ok2.
Proof.
  intros Hm Hh Hf c r Hc. rewrite <- app_assoc. specialize (Hf c r Hc). destruct ts2 as [|t ts2]; cbn [app heads] in *;
    erewrite bind_ok by (apply Hm; auto); done.
Qed.

Lemma parses_look {A} (f : Token -> parser A) t ts b ok : parses (f t) (t :: ts) b ok -> parses (cur ≫= f) (t :: ts) b ok.
Proof. intros Hf c r Hc. exact (Hf c r Hc). Qed.

(** An optional part that is absent. *)
Lemma parses_absent {A} (f : Token -> parser A) b (ok : Token -> Prop) :
  (forall c, ok c -> f c = mret b) -> parses (cur ≫= f) [] b ok.
Proof. intros Hf c r Hc. change ((cur ≫= f) (c :: r) = (Ok b, c :: r)). by rewrite cur_bind, Hf. Qed.

Lemma parses_ret {A} (a : A) ok : parses (mret a) [] a ok.
Proof. done. Qed.
Lemma parses_weaken {A} (m : parser A) ts a (ok ok' : Token -> Prop) : (forall c, ok' c -> ok c) -> parses m ts a ok -> parses m ts a ok'.
Proof. intros Hw Hm c r Hc. apply Hm. auto. Qed.
Lemma parses_last {A B} (m : parser A) (f : A -> B) ts a b ok : parses m ts a ok -> f a = b -> parses (x ← m; mret (f x)) ts b ok.
Proof. intros Hm <- c r Hc. by erewrite bind_ok by (by apply Hm). Qed.

Lemma atom_take t : atom take_ t tt.
Proof. done. Qed.
Lemma atom_lexeme t : atom lexeme t (Lexeme t).
Proof. done. Qed.
Lemma atom_name w : atom lexeme (name w) w.
Proof. intros c r. change (lexeme (name w :: c :: r)) with (Ok (Lexeme (name w)), c :: r). by rewrite Lexeme_name. Qed.
Lemma atom_want w t : isWord w t = true -> atom (want w) t tt.
Proof. intros Hw c r. unfold want. cbv [mbind M_bind cur head of_option]. by rewrite Hw. Qed.

(** ** Values *)

Lemma value_print v : value_ok v -> value_ (printValue v) = Ok v.
Proof.
  destruct v as [|z|s|b| | | |i]; intros Hv; try done; cbn [printValue value_ Type_ Lexeme].
  - rewrite decide_False by apply sprint_int_no_dot. cbn in Hv. by rewrite Atoi_sprint.
  - f_equal. f_equal. destruct b; rewrite EqualFold_ascii by is_ascii; reflexivity.
  - rewrite TrimPrefix_app. cbn in Hv. rewrite Atoi_sprint; [done|lia].
Qed.

Lemma atom_literal v : value_ok v -> atom literal (printValue v) v.
Proof. intros Hv c r. unfold literal. cbv [mbind M_bind cur head of_option lift]. by rewrite value_print. Qed.

(** ** Comma-separated lists *)

Definition list_end (ok : Token -> Prop) (c : Token) : Prop := isType Comma c = false /\ ok c.

Lemma separated_length {A} (f : A -> list Token) l rest : (length l <= S (length (separated f l ++ rest)))%nat.
Proof.
  induction l as [|x [|y l] IH]; [cbn; lia|cbn; lia|]. change (separated f (x :: y :: l)) with (f x ++ comma :: separated f (y :: l)).
  rewrite <- app_assoc, length_app. cbn [app length] in *. lia.
Qed.

Lemma commaLoop_print {A} (item : parser A) (f : A -> list Token) l ok n acc :
  l <> [] -> (length l <= n)%nat -> (forall x, x ∈ l -> parses item (f x) x (fun c => c = comma \/ ok c)) ->
  parses (commaLoop n item acc) (separated f l) (acc ++ l) (list_end ok).
Proof.
  revert l acc. induction n as [|n IH]; intros l acc Hne Hn Hi; [destruct l; [done|cbn in Hn; lia]|]. cbn [commaLoop].
  destruct l as [|x [|y l]]; [done| |].
  - intros c r [Hc Hok]. cbn [separated]. erewrite bind_ok by (apply Hi; [set_solver|by right]).
    by rewrite cur_bind, Hc.
  - change (separated f (x :: y :: l)) with (f x ++ comma :: separated f (y :: l)).
    eapply parses_app; [apply Hi; set_solver|by left|]. apply parses_look. eapply parses_step; [apply atom_take|].
    replace (acc ++ x :: y :: l) with ((acc ++ [x]) ++ y :: l) by (by rewrite <- app_assoc).
    apply IH; [done|cbn in *; lia|]. intros z Hz. apply Hi. set_solver.
Qed.

Lemma commaList_print {A} (item : parser A) (f : A -> list Token) l ok :
  l <> [] -> (forall x, x ∈ l -> parses item (f x) x (fun c => c = comma \/ ok c)) ->
  parses (commaList item) (separated f l) l (list_end ok).
Proof.
  intros Hne Hi c r Hc. unfold commaList. change ((get_state ≫= ?f) ?s) with (f s s).
  apply (commaLoop_print item f l ok (length (separated f l ++ c :: r)) []); [done| |done|done].
  pose proof (separated_length f l r) as H. rewrite !length_app in *. cbn [length] in *. lia.
Qed.

(** ** Conditions *)

Definition leaf_ok (op : bytes) (v : value) : Prop :=
  (op ∈ [of_string "IS NULL"; of_string "IS NOT NULL"] /\ v = VNil) \/ (op ∈ operators.*1 /\ value_ok v).

Lemma cond_ok_ind (P : Condition -> Prop) :
  (forall col op v, name_ok col -> leaf_ok op v -> P (comparison col op v)) ->
  (forall l r w, w ∈ ["OR"; "AND"]%string -> P l -> P r -> P (combine_ l r (of_string w))) ->
  forall c, cond_ok c -> P c.
Proof.
  intros Hl Hn. fix IH 1. intros [col op v [l|] [r|] logic]; try done.
  - intros (->&->&->&Hw&H1&H2). apply IH in H1. apply IH in H2. clear IH.
    apply elem_of_cons in Hw as [->|Hw]; [by apply Hn; [set_solver|..]|].
    apply list_elem_of_singleton in Hw as ->. by apply Hn; [set_solver|..].
  - intros (Hc&->&Ho). by apply Hl.
Qed.

Lemma operator_token op :
  op ∈ operators.*1 -> is_operator (printOperator op) = true /\ isWord "IS" (printOperator op) = false /\
  op <> of_string "IS NULL" /\ op <> of_string "IS NOT NULL".
Proof.
  intros Hop. cbn in Hop. repeat (apply elem_of_cons in Hop as [->|Hop]; [split_and!; [reflexivity|word_test|done|done]|]).
  by apply elem_of_nil in Hop.
Qed.

Lemma parses_leaf col op v : leaf_ok op v -> parses parseComparison (printLeaf col op v) (comparison col op v) (fun _ => True).
Proof.
  intros [[Hop ->]|[Hop Hv]]; unfold printLeaf, parseComparison.
  - repeat (apply elem_of_cons in Hop as [->|Hop]).
    + rewrite decide_True by done. eapply parses_step; [apply atom_name|]. apply parses_look.
      replace (isWord "IS" (kw "IS")) with true by (symmetry; word_test). unfold parseNull. eapply parses_step; [apply atom_take|].
      apply parses_look. replace (isWord "NOT" (kw "NULL")) with false by (symmetry; word_test).
      intros c r _. rewrite bind_ret. cbn [app]. rewrite cur_bind.
      replace (isWord "NULL" (kw "NULL")) with true by (symmetry; word_test). done.
    + rewrite decide_False, decide_True by done. eapply parses_step; [apply atom_name|]. apply parses_look.
      replace (isWord "IS" (kw "IS")) with true by (symmetry; word_test). unfold parseNull. eapply parses_step; [apply atom_take|].
      apply parses_look. replace (isWord "NOT" (kw "NOT")) with true by (symmetry; word_test).
      intros c r _. rewrite bind_assoc. cbn [app]. rewrite take_bind, bind_ret. cbn [app]. rewrite cur_bind.
      replace (isWord "NULL" (kw "NULL")) with true by (symmetry; word_test). done.
    + by apply elem_of_nil in Hop.
  - destruct (operator_token op Hop) as (H1&H2&H3&H4). rewrite !decide_False by done.
    eapply parses_step; [apply atom_name|]. apply parses_look. rewrite H2, H1. eapply parses_step; [apply atom_take|].
    eapply parses_step; [by apply atom_literal|]. apply parses_ret.
Qed.

Lemma printLeaf_length col op v : (0 < length (printLeaf col op v))%nat.
Proof. unfold printLeaf. repeat case_decide; cbn; lia. Qed.

(** The loop goes on with [AND] (or [OR]) and stops elsewhere. *)
Lemma condLoop_more w sub n left right ts c r :
  isWord w (kw w) = true -> (forall x y, ts ++ c :: r = x :: y -> sub (x :: y) = (Ok right, c :: r)) ->
  condLoop w sub (S n) left (kw w :: ts ++ c :: r) = condLoop w sub n (combine_ left right (of_string w)) (c :: r).
Proof.
  intros Hw Hs. cbn [condLoop]. rewrite cur_bind, Hw. destruct (ts ++ c :: r) as [|x y] eqn:E; [by destruct ts|].
  rewrite take_bind. erewrite bind_ok by (by apply Hs). done.
Qed.
Lemma condLoop_stop w sub n left c r : isWord w c = false -> condLoop w sub n left (c :: r) = (Ok left, c :: r).
Proof. intros Hw. destruct n; cbn [condLoop]; by rewrite cur_bind, Hw. Qed.

Definition primary_ok (c : Condition) : Prop := forall fuel,
  (length (printCond 2 c) <= fuel)%nat -> parses (parsePrimary fuel) (printCond 2 c) c (fun _ => True).

Definition and_ok (c : Condition) : Prop := forall fuel x r,
  (length (printCond 1 c) <= fuel)%nat -> exists n, (length (x :: r) <= n)%nat /\
    parseAnd (parsePrimary fuel) (printCond 1 c ++ x :: r) = condLoop "AND" (parsePrimary fuel) n c (x :: r).

Definition or_ok (c : Condition) : Prop := forall fuel x r,
  (length (printCond 0 c) <= fuel)%nat -> isWord "AND" x = false -> exists n, (length (x :: r) <= n)%nat /\
    parseOr (parsePrimary fuel) (printCond 0 c ++ x :: r) = condLoop "OR" (parseAnd (parsePrimary fuel)) n c (x :: r).

Lemma get_bind {A} (f : list Token -> parser A) t : (t ← get_state; f t) t = f t t.
Proof. done. Qed.

(** A condition printed as a primary is one operand of [AND] ... *)
Lemma and_of_primary c : printCond 1 c = printCond 2 c -> primary_ok c -> and_ok c.
Proof.
  intros E Hp fuel x r Hf. exists (length (printCond 1 c ++ x :: r)). split; [rewrite length_app; lia|].
  unfold parseAnd. rewrite get_bind. rewrite E in *. by erewrite bind_ok by (by apply Hp).
Qed.
(** ... and a conjunction one operand of [OR]. *)
Lemma or_of_and c : printCond 0 c = printCond 1 c -> and_ok c -> or_ok c.
Proof.
  intros E Ha fuel x r Hf Hx. exists (length (printCond 0 c ++ x :: r)). split; [rewrite length_app; lia|].
  unfold parseOr. rewrite get_bind. rewrite E in *. destruct (Ha fuel x r Hf) as (n&Hn&Er). rewrite condLoop_stop in Er by done.
  by erewrite bind_ok by exact Er.
Qed.

Lemma primary_of_or c : printCond 2 c = lparen :: printCond 0 c ++ [rparen] -> or_ok c -> primary_ok c.
Proof.
  intros E Ho fuel Hf. rewrite E in *. cbn [length] in Hf. rewrite length_app in Hf. destruct fuel as [|fuel]; [lia|].
  cbn [parsePrimary]. apply parses_look. change (isType LParen lparen) with true. cbv iota. eapply parses_step; [apply atom_take|].
  intros x r _. rewrite <- app_assoc. cbn [app]. destruct (Ho fuel rparen (x :: r)) as (n&Hn&Er); [lia|word_test|].
  rewrite condLoop_stop in Er by word_test. erewrite bind_ok by exact Er. erewrite bind_ok by (apply atom_want; word_test). done.
Qed.

Lemma print_node level l r w :
  w ∈ ["OR"; "AND"]%string -> printCond level (combine_ l r (of_string w)) =
  let k := if decide (w = "OR"%string) then 0%nat else 1%nat in
  let body := printCond k l ++ kw w :: printCond (S k) r in
  if decide (level <= k)%nat then body else lparen :: body ++ [rparen].
Proof. intros Hw. repeat (apply elem_of_cons in Hw as [->|Hw]; [reflexivity|]). by apply elem_of_nil in Hw. Qed.

Lemma print_and l r : printCond 1 (combine_ l r (of_string "AND")) = printCond 1 l ++ kw "AND" :: printCond 2 r.
Proof. reflexivity. Qed.
Lemma print_or l r : printCond 0 (combine_ l r (of_string "OR")) = printCond 0 l ++ kw "OR" :: printCond 1 r.
Proof. reflexivity. Qed.

Lemma and_node l r : and_ok l -> primary_ok r -> and_ok (combine_ l r (of_string "AND")).
Proof.
  intros Hl Hr fuel x rest Hf. rewrite print_and in *. rewrite length_app in Hf. cbn [length] in Hf.
  rewrite <- app_assoc. cbn [app]. destruct (Hl fuel (kw "AND") (printCond 2 r ++ x :: rest)) as (n&Hn&E); [lia|].
  rewrite E. destruct n as [|n]; [cbn in Hn; lia|]. exists n. split; [cbn in Hn; rewrite length_app in Hn; cbn in *; lia|].
  apply condLoop_more; [word_test|]. intros a b Eab. rewrite <- Eab. apply Hr; [lia|done].
Qed.

Lemma or_node l r : or_ok l -> and_ok r -> or_ok (combine_ l r (of_string "OR")).
Proof.
  intros Hl Hr fuel x rest Hf Hx. rewrite print_or in *. rewrite length_app in Hf. cbn [length] in Hf.
  rewrite <- app_assoc. cbn [app]. destruct (Hl fuel (kw "OR") (printCond 1 r ++ x :: rest)) as (n&Hn&E); [lia|word_test|].
  rewrite E. destruct n as [|n]; [cbn in Hn; lia|]. exists n. split; [cbn in Hn; rewrite length_app in Hn; cbn in *; lia|].
  apply condLoop_more; [word_test|]. intros a b Eab. rewrite <- Eab. destruct (Hr fuel x rest) as (m&_&Er); [lia|].
  by rewrite condLoop_stop in Er.
Qed.

Lemma cond_parses c : cond_ok c -> primary_ok c /\ and_ok c /\ or_ok c.
Proof.
  revert c. apply cond_ok_ind.
  - intros col op v Hc Hl. assert (primary_ok (comparison col op v)) as Hp.
    { intros fuel Hf. cbn [printCond comparison] in *. pose proof (printLeaf_length col op v). destruct fuel as [|fuel]; [lia|].
      intros x r _. cbn [parsePrimary]. assert (exists ts, printLeaf col op v = name col :: ts) as [ts E].
      { unfold printLeaf. repeat case_decide; by eexists. }
      rewrite E. cbn [app]. rewrite cur_bind, isType_plain by (apply name_plain || (unfold plain_types; set_solver)).
      pose proof (parses_leaf col op v Hl x r I) as Hp. by rewrite E in Hp. }
    assert (and_ok (comparison col op v)) by (by apply and_of_primary). split_and!; [done|done|by apply or_of_and].
  - intros l r w Hw (Hl2&Hl1&Hl0) (Hr2&Hr1&Hr0). pose proof (print_node 0 l r w Hw) as E0. pose proof (print_node 1 l r w Hw) as E1.
    pose proof (print_node 2 l r w Hw) as E2. cbv zeta in *. repeat (apply elem_of_cons in Hw as [->|Hw]); [| |by apply elem_of_nil in Hw];
      cbn [decide decide_rel] in *.
    + assert (or_ok (combine_ l r (of_string "OR"))) as Ho by (by apply or_node). assert (primary_ok (combine_ l r (of_string "OR"))) as Hp.
      { apply primary_of_or; [|done]. by rewrite E2, E0. }
      split_and!; [done| |done]. apply and_of_primary; [|done]. by rewrite E1, E2.
    + assert (and_ok (combine_ l r (of_string "AND"))) as Ha by (by apply and_node).
      assert (or_ok (combine_ l r (of_string "AND"))) as Ho by (apply or_of_and; [by rewrite E0, E1|done]).
      split_and!; [|done|done]. apply primary_of_or; [|done]. by rewrite E2, E0.
Qed.
End steps.
