(* ===== verification/SqlRoundTrip.v ===== *)
(** * Statements are parsed back from their text *)
From S2P Require Import Prelude Value Text RowCodec SqlLex SqlParse SqlPrint SqlPrintProofs.

#[local] Set Default Proof Using "All".
Section clauses.
Context `{Text : GoText}.
Context {Laws : GoTextLaws}.

(** What may follow a clause: the end of the input or the word of a later clause. *)
Definition tail_ (ws : list string) (c : Token) : Prop := c = eof \/ exists w, w ∈ ws /\ c = kw w.

Lemma tail_ind (ws : list string) (P : Token -> Prop) : P eof -> Forall (fun w => P (kw w)) ws -> forall c, tail_ ws c -> P c.
Proof. intros He Hw c [->|(w&Hin&->)]; [done|]. rewrite Forall_forall in Hw. auto. Qed.

Ltac tail_cases := apply tail_ind; [|repeat first [apply List.Forall_nil | apply List.Forall_cons]]; cbv beta.
Ltac take_tokens := repeat first [eapply parses_step; [first [apply atom_take|apply atom_name|apply atom_want; word_test|apply atom_lexeme|by apply atom_literal]|]].

Lemma parses_where w : where_ok w -> parses condition (printWhere w) w (tail_ ["GROUP"; "ORDER"; "LIMIT"; "OFFSET"]%string).
Proof.
  intros Hw. unfold condition. destruct w as [c|]; cbn [printWhere].
  - apply parses_look. word_tests. take_tokens. intros x r Hx. rewrite get_bind.
    assert (isWord "AND" x = false /\ isWord "OR" x = false) as [H1 H2] by (revert x Hx; tail_cases; split; word_test).
    destruct (cond_parses c Hw) as (_&_&Ho). destruct (Ho (length (printCond 0 c ++ x :: r)) x r) as (n&_&E); [rewrite length_app; lia|done|].
    rewrite condLoop_stop in E by done. by erewrite bind_ok by exact E.
  - apply parses_absent. tail_cases; by word_tests.
Qed.

Lemma parses_int w z n :
  isWord w (kw w) = true -> - 2 ^ 63 <= n < 2 ^ 63 -> forall ok : Token -> Prop, (forall c, ok c -> isWord w c = false) ->
  parses (intClause w z) (printInt w z n) n ok.
Proof.
  intros Hw Hn ok Hok. unfold printInt, intClause. case_decide as E.
  - subst n. apply parses_absent. intros c Hc. by rewrite Hok.
  - apply parses_look. rewrite Hw. eapply parses_step; [apply atom_take|]. apply parses_look. rewrite value_print by done.
    intros c r Hc. done.
Qed.

Lemma parses_group q :
  Forall name_ok (GroupBy q) -> parses groupClause (printGroup q) (GroupBy q) (tail_ ["ORDER"; "LIMIT"; "OFFSET"]%string).
Proof.
  intros Hg. unfold groupClause, printGroup. case_decide as E.
  - rewrite E. apply parses_absent. tail_cases; by word_tests.
  - apply parses_look. word_tests. take_tokens. eapply parses_weaken; [|apply (commaList_print lexeme (fun c => [name c]) (GroupBy q) (fun _ => True)); [done|]].
    + tail_cases; split; try done; apply isType_plain; try apply wordType_plain; unfold plain_types; set_solver.
    + intros x _ c r _. apply atom_name.
Qed.

Lemma parses_order q :
  ((OrderBy q = [] /\ Desc q = false) \/ name_ok (OrderBy q)) ->
  parses orderClause (printOrder q) (OrderBy q, Desc q) (tail_ ["LIMIT"; "OFFSET"]%string).
Proof.
  intros Ho. unfold orderClause, printOrder. case_decide as E.
  - destruct Ho as [[_ ->]|[Ho|[Ho _]]]; [|by rewrite E in Ho|done]. rewrite E. apply parses_absent. tail_cases; by word_tests.
  - apply parses_look. word_tests. take_tokens. destruct (Desc q).
    + apply parses_look. word_tests. take_tokens. apply parses_ret.
    + apply parses_absent. tail_cases; by word_tests.
Qed.

Lemma parses_join q :
  ((JoinTable q = [] /\ JoinLeft q = [] /\ JoinRight q = []) \/ (name_ok (JoinTable q) /\ name_ok (JoinLeft q) /\ name_ok (JoinRight q))) ->
  parses joinClause (printJoin q) (JoinTable q, JoinLeft q, JoinRight q) (tail_ ["WHERE"; "GROUP"; "ORDER"; "LIMIT"; "OFFSET"]%string).
Proof.
  intros Hj. unfold joinClause, printJoin. case_decide as E.
  - destruct Hj as [(_&->&->)|([Hj|[Hj _]]&_)]; [|by rewrite E in Hj|done]. rewrite E. apply parses_absent. tail_cases; by word_tests.
  - apply parses_look. word_tests. intros c r Hc. rewrite bind_ret. revert c r Hc. unfold joinBody. word_tests.
    change (parses (take_ ≫= fun _ => jt ← lexeme; _ ← want "ON"; l ← lexeme; _ ← want "="; r ← lexeme; mret (jt, l, r))
      [kw "JOIN"; name (JoinTable q); kw "ON"; name (JoinLeft q); equal; name (JoinRight q)] (JoinTable q, JoinLeft q, JoinRight q)
      (tail_ ["WHERE"; "GROUP"; "ORDER"; "LIMIT"; "OFFSET"]%string)). take_tokens. apply parses_ret.
Qed.

(** ** Statements *)

Lemma IndexByte_none w b : b ∉ w -> IndexByte w b = None.
Proof.
  induction w as [|x w IH]; intros Hb; [done|]. apply not_elem_of_cons in Hb as [Hx Hb]. cbn. rewrite decide_False by done. by rewrite IH.
Qed.
Lemma IndexByte_first w b s : b ∉ w -> IndexByte (w ++ b :: s) b = Some (length w).
Proof.
  induction w as [|x w IH]; intros Hb; cbn; [by rewrite decide_True|]. apply not_elem_of_cons in Hb as [Hx Hb].
  rewrite decide_False by done. by rewrite IH.
Qed.

Lemma name_no_paren w : name_ok w -> Byte.x28 ∉ w.
Proof.
  intros [->|[_ Hw]] Hin; [vm_compute in Hin; set_solver|]. rewrite forallb_forall in Hw. apply list_elem_of_In in Hin.
  apply Hw in Hin. vm_compute in Hin. discriminate.
Qed.

Lemma printColumnRef_call fn arg :
  Byte.x28 ∉ fn -> printColumnRef (fn ++ of_string "(" ++ arg ++ of_string ")") = [word fn; lparen; name arg; rparen].
Proof.
  intros Hfn. unfold printColumnRef. change (of_string "(" ++ arg ++ of_string ")") with (Byte.x28 :: arg ++ [Byte.x29]).
  rewrite IndexByte_first by done. rewrite take_app_length. do 4 f_equal.
  change (Byte.x28 :: arg ++ [Byte.x29]) with ([Byte.x28] ++ arg ++ [Byte.x29]). rewrite app_assoc. apply slice_mid.
  - rewrite length_app. cbn. lia.
  - rewrite !length_app. cbn. lia.
Qed.

Lemma aggregate_upper fn : fn ∈ aggregates -> ToUpper fn = fn /\ isAggregateName fn = true /\ Byte.x28 ∉ fn.
Proof.
  intros Hf. unfold isAggregateName. assert (ToUpper fn = fn) as E.
  { cbn in Hf. repeat (apply elem_of_cons in Hf as [->|Hf]; [rewrite ToUpper_ascii by is_ascii; reflexivity|]). by apply elem_of_nil in Hf. }
  rewrite E. split_and!; [done|by apply bool_decide_eq_true_2|].
  cbn in Hf. repeat (apply elem_of_cons in Hf as [->|Hf]; [by refine (bool_decide_eq_true_1 (_ ∉ _) _)|]). by apply elem_of_nil in Hf.
Qed.

Lemma parses_selectColumn c : column_ref_ok c -> parses selectColumn (printColumnRef c) c (fun x => x = comma \/ x = kw "FROM").
Proof.
  intros [Hc|(fn&arg&->&Hfn&Harg)] x r Hx; unfold selectColumn.
  - unfold printColumnRef. rewrite IndexByte_none by (by apply name_no_paren). cbn [app]. rewrite cur_bind.
    rewrite Lexeme_name. assert (isType LParen x = false) as Hlp.
    { destruct Hx as [->| ->]; [done|]. apply isType_plain; [apply wordType_plain|unfold plain_types; set_solver]. }
    destruct (isAggregateName c).
    + rewrite bind_assoc. erewrite bind_ok by reflexivity. rewrite bind_ret, Hlp. apply atom_name.
    + rewrite bind_ret. apply atom_name.
  - destruct (aggregate_upper fn Hfn) as (Hu&Ha&Hp). rewrite printColumnRef_call by done. cbn [app]. rewrite cur_bind.
    change (Lexeme (word fn)) with fn. rewrite Ha. rewrite bind_assoc. erewrite bind_ok by reflexivity. rewrite bind_ret.
    change (isType LParen lparen) with true. cbv iota. rewrite !take_bind. erewrite bind_ok by apply atom_name.
    erewrite bind_ok by (apply atom_want; word_test). by rewrite Hu.
Qed.

(** The word of the next clause, or the end. *)
Ltac next_word := repeat first [done | case_decide | case_match | progress cbn [heads app printWhere] | (intros ? <-; by left) | (right; eexists; split; [|reflexivity]; set_solver)].

Lemma parses_select q : select_ok q -> parses selectStmt (printSelect q) (SSelect q) (eq eof).
Proof.
  intros (Hne&Hcols&Ht&Hw&Hj&Hg&Ho&Hl&Hof). unfold selectStmt, printSelect. take_tokens.
  eapply parses_app; [apply (commaList_print selectColumn printColumnRef _ (fun x => x = kw "FROM")); [done|]| |].
  { intros c Hin. apply parses_selectColumn. rewrite Forall_forall in Hcols. auto. }
  { split; [|done]. apply isType_plain; [apply wordType_plain|unfold plain_types; set_solver]. }
  take_tokens.
  eapply parses_app; [by apply parses_join|unfold printWhere, printGroup, printOrder, printInt; destruct (selWhere q); next_word|].
  eapply parses_app; [by apply parses_where|unfold printGroup, printOrder, printInt; next_word|].
  eapply parses_app; [by apply parses_group|unfold printOrder, printInt; next_word|].
  eapply parses_app; [by apply parses_order|unfold printInt; next_word|].
  eapply parses_app; [apply (parses_int "LIMIT" (-1) (Limit q) ltac:(word_test) Hl (tail_ ["OFFSET"%string])); tail_cases; word_test|unfold printInt; next_word|].
  eapply parses_last; [apply (parses_int "OFFSET" 0 (Offset q) ltac:(word_test) Hof); intros c <-; word_test|by destruct q].
Qed.

Lemma parses_names l : Forall name_ok l -> l <> [] -> parses (commaList lexeme) (separated (fun c => [name c]) l) l (eq rparen).
Proof.
  intros Hl Hne. eapply parses_weaken; [|apply (commaList_print lexeme (fun c => [name c]) l (fun _ => True)); [done|]].
  - by intros c <-.
  - intros x _ c r _. apply atom_name.
Qed.

Lemma parses_insert q : insert_ok q -> parses insertStmt (printInsert q) (SInsert q) (eq eof).
Proof.
  intros (Ht&Hne&Hc&Hv&Hlen). unfold insertStmt, printInsert. take_tokens. eapply parses_app; [by apply parses_names|done|]. take_tokens.
  eapply parses_app; [apply (commaList_print literal (fun v => [printValue v]) (insValues q) (fun _ => True))|done|].
  - intros E. rewrite E in Hlen. by destruct (insColumns q).
  - intros v Hin c r _. apply atom_literal. rewrite Forall_forall in Hv. auto.
  - take_tokens. rewrite decide_True by done. by destruct q.
Qed.

Lemma parses_column c ok : column_ok c -> parses column (printColumn c) c ok.
Proof.
  intros [Hn Ht]. unfold column, printColumn. take_tokens. change (Lexeme (kw ?w)) with (of_string w).
  assert (columnType (of_string (typeName (cType c))) = Some (cType c)) as E.
  { unfold typeName, columnType. unfold IntType, TimestampType in Ht. assert (cType c = 1 \/ cType c = 2 \/ cType c = 3 \/ cType c = 4 \/ cType c = 5 \/ cType c = 6) as Hc by lia.
    repeat (destruct Hc as [Hc|Hc]); rewrite Hc; (rewrite ToUpper_ascii by is_ascii); reflexivity. }
  rewrite E. by destruct c.
Qed.

Lemma parses_delete q : delete_ok q -> parses deleteStmt (printStatement (SDelete q)) (SDelete q) (eq eof).
Proof.
  intros [Ht Hw]. unfold deleteStmt. cbn [printStatement]. take_tokens. eapply parses_last; [eapply parses_weaken; [|by apply parses_where]|by destruct q].
  intros c <-. by left.
Qed.

Lemma parses_alter q : alter_ok q -> parses alterStmt (printAlter q) (SAlterTable q) (eq eof).
Proof.
  intros (Ht&H). unfold alterStmt, printAlter. destruct q as [t act n nn c]. cbn in *.
  destruct H as [(c'&[= -> -> -> ->]&Hc)|[(n'&[= -> -> -> ->]&Hc)|(n'&nn'&[= -> -> -> ->]&Hc&Hc')]]; take_tokens;
    change (Lexeme (kw ?w)) with (of_string w); (rewrite ToUpper_ascii by is_ascii).
  - eapply parses_weaken; [|eapply parses_step; [apply atom_want; word_test|]; eapply parses_last; [by apply (parses_column _ (fun _ => True))|done]]. done.
  - change (parses (_ ← want "COLUMN"; n ← lexeme; mret (SAlterTable (MkAlter t (of_string "drop") n [] (MkCol [] 0))))
      [kw "COLUMN"; name n'] (SAlterTable (MkAlter t (of_string "drop") n' [] (MkCol [] 0))) (eq eof)). take_tokens. apply parses_ret.
  - change (parses (_ ← want "COLUMN"; n ← lexeme; _ ← want "TO"; nn ← lexeme; mret (SAlterTable (MkAlter t (of_string "rename") n nn (MkCol [] 0))))
      [kw "COLUMN"; name n'; kw "TO"; name nn'] (SAlterTable (MkAlter t (of_string "rename") n' nn' (MkCol [] 0))) (eq eof)). take_tokens. apply parses_ret.
Qed.

(** Assigning pairs with distinct keys one after the other builds the map. *)
Lemma assignAll_spec {A} (l : list (bytes * A)) : NoDup l.*1 -> assignAll l = list_to_map l.
Proof.
  intros Hd. enough (forall m : gmap bytes A, foldl (fun m kv => <[kv.1:=kv.2]> m) m l = list_to_map l ∪ m) as E.
  { unfold assignAll. rewrite E. apply (right_id_L ∅ (∪)). }
  induction l as [|[k v] l IH]; intros m; [symmetry; apply (left_id_L ∅ (∪))|]. cbn in Hd |- *. apply NoDup_cons in Hd as [Hk Hd].
  rewrite IH by done. rewrite (insert_union_singleton_l m), (insert_union_singleton_l (list_to_map l)), !(assoc_L (∪)).
  f_equal. apply map_union_comm. apply map_disjoint_singleton_r. by apply not_elem_of_list_to_map_1.
Qed.

Lemma parses_update q : update_ok q -> parses updateStmt (printStatement (SUpdate q)) (SUpdate q) (eq eof).
Proof.
  intros (Ht&Hne&Hs&Hw). unfold updateStmt. cbn [printStatement]. take_tokens.
  eapply parses_app; [apply (commaList_print assignment printAssignment (map_to_list (updSet q)) (tail_ ["WHERE"%string]))|..].
  - intros E. by apply map_to_list_empty_iff in E.
  - intros [n v] Hin. apply elem_of_map_to_list in Hin. apply Hs in Hin as [_ Hv]. unfold assignment, printAssignment. cbn [fst snd].
    take_tokens. apply parses_ret.
  - assert (forall c, tail_ ["WHERE"%string] c -> list_end (tail_ ["WHERE"%string]) c) as H.
    { intros c Hc. split; [|done]. revert c Hc. tail_cases; [done|]. apply isType_plain; [apply wordType_plain|unfold plain_types; set_solver]. }
    destruct (updWhere q); cbn [printWhere heads]; [apply H; right; eexists; split; [|reflexivity]; set_solver|intros c <-; apply H; by left].
  - eapply parses_last; [eapply parses_weaken; [|by apply parses_where]|]; [intros c <-; by left|].
    rewrite assignAll_spec by apply NoDup_fst_map_to_list. rewrite list_to_map_to_list. by destruct q.
Qed.

(** ** CREATE TABLE *)

Lemma constraint_notnull n k x r :
  constraintLoop (S n) k (kw "NOT" :: kw "NULL" :: x :: r) = constraintLoop n (MkCon true (Unique k) (References k)) (x :: r).
Proof.
  cbn [constraintLoop]. rewrite cur_bind. word_tests. rewrite take_bind. change (Lexeme (kw ?w)) with (of_string w).
  rewrite ToUpper_ascii by is_ascii. erewrite bind_ok by (apply (parses_step (want "NULL") _ _ tt [] _ (fun _ => True)); [apply atom_want; word_test|apply parses_ret|done]).
  done.
Qed.

Lemma constraint_unique n k x r :
  constraintLoop (S n) k (kw "UNIQUE" :: x :: r) = constraintLoop n (MkCon (NotNull k) true (References k)) (x :: r).
Proof.
  cbn [constraintLoop]. rewrite cur_bind. word_tests. rewrite take_bind. change (Lexeme (kw ?w)) with (of_string w).
  rewrite ToUpper_ascii by is_ascii. done.
Qed.

Lemma constraint_references n k rt rc x r :
  constraintLoop (S n) k (kw "REFERENCES" :: name rt :: lparen :: name rc :: rparen :: x :: r) =
  constraintLoop n (MkCon (NotNull k) (Unique k) (Some (MkRef rt rc))) (x :: r).
Proof.
  cbn [constraintLoop]. rewrite cur_bind. word_tests. rewrite take_bind. change (Lexeme (kw ?w)) with (of_string w).
  rewrite ToUpper_ascii by is_ascii.
  assert (parses (constraintStep (upper (of_string "REFERENCES")) k) [name rt; lparen; name rc; rparen]
    (MkCon (NotNull k) (Unique k) (Some (MkRef rt rc))) (fun _ => True)) as H.
  { change (parses (rt ← lexeme; _ ← want "("; rc ← lexeme; _ ← want ")"; mret (MkCon (NotNull k) (Unique k) (Some (MkRef rt rc))))
      [name rt; lparen; name rc; rparen] (MkCon (NotNull k) (Unique k) (Some (MkRef rt rc))) (fun _ => True)).
    take_tokens. apply parses_ret. }
  by erewrite bind_ok by (by apply H).
Qed.

Lemma constraint_stop n k c r : (c = comma \/ c = rparen) -> constraintLoop n k (c :: r) = (Ok k, c :: r).
Proof. intros [->| ->]; destruct n; cbn [constraintLoop]; rewrite cur_bind; by word_tests. Qed.

Lemma parses_columnDef ck : column_ok ck.1 -> parses columnDef (printColumnDef ck) ck (fun c => c = comma \/ c = rparen).
Proof.
  intros Hc. destruct ck as [c [nn u refs]]. unfold columnDef, printColumnDef. cbn [fst snd] in *.
  eapply parses_app; [by apply (parses_column c (fun _ => True))|destruct (printConstraint _); done|].
  intros x r Hx. rewrite get_bind. unfold printConstraint. cbn [NotNull Unique References].
  erewrite bind_ok; [done|]. destruct nn, u, refs as [[rt rc]|]; cbn [app length refTable refColumn];
    repeat first [rewrite constraint_notnull | rewrite constraint_unique | rewrite constraint_references]; by rewrite constraint_stop.
Qed.

Lemma create_constraints q :
  create_ok q -> assignAll ((fun ck : Column * ColumnConstraint => (cName ck.1, ck.2)) <$> columnDefs q) = ctConstraints q.
Proof.
  intros (_&_&_&Hd&Hdom&_). unfold columnDefs. rewrite <- list_fmap_compose.
  rewrite assignAll_spec by (rewrite <- list_fmap_compose; done).
  apply map_eq. intros n. apply option_eq. intros k. rewrite <- elem_of_list_to_map by (rewrite <- list_fmap_compose; done).
  rewrite list_elem_of_fmap. unfold compose. cbn. split.
  - intros (c&[= -> ->]&Hin). unfold constraint_of. cbn. assert (is_Some (ctConstraints q !! cName c)) as [k E].
    { apply elem_of_dom. rewrite Hdom. apply elem_of_list_to_set, list_elem_of_fmap. by exists c. }
    by rewrite E.
  - intros E. assert (n ∈ dom (ctConstraints q)) as Hn by (apply elem_of_dom; by eexists).
    rewrite Hdom in Hn. apply elem_of_list_to_set, list_elem_of_fmap in Hn as (c&->&Hin). exists c. unfold constraint_of. cbn. by rewrite E.
Qed.

Lemma parses_create q : create_ok q -> parses createStmt (printStatement (SCreateTable q)) (SCreateTable q) (eq eof).
Proof.
  intros Hq. pose proof Hq as (Ht&Hne&Hc&_). unfold createStmt. cbn [printStatement]. take_tokens.
  eapply parses_app; [apply (commaList_print columnDef printColumnDef (columnDefs q) (eq rparen))|done|].
  - intros E. by apply fmap_nil_inv in E.
  - intros ck Hin. apply list_elem_of_fmap in Hin as (c&->&Hin). eapply parses_weaken; [|apply parses_columnDef].
    + intros x [->|<-]; auto.
    + rewrite Forall_forall in Hc. auto.
  - take_tokens. rewrite create_constraints by done. unfold columnDefs. rewrite <- list_fmap_compose. unfold compose. cbn.
    rewrite list_fmap_id. by destruct q.
Qed.

(** ** All statements *)

Lemma at_end_plain t : Type_ t ∈ plain_types -> at_end t = false.
Proof. intros Ht. unfold at_end. rewrite !isType_plain by (done || (unfold plain_types; set_solver)). done. Qed.
Lemma at_end_word w : at_end (kw w) = false.
Proof. apply at_end_plain, wordType_plain. Qed.

Lemma parses_statement s : statement_ok s -> parses statement (printStatement s) s (eq eof).
Proof.
  intros Hs. unfold statement.
  destruct s as [q|q| |q|t|q|q|q| | | |s|t]; cbn [printStatement]; apply parses_look; word_tests.
  - by apply parses_select.
  - by apply parses_insert.
  - unfold showStmt. take_tokens. apply parses_ret.
  - by apply parses_create.
  - unfold dropStmt. take_tokens. apply parses_look. word_tests. take_tokens. apply parses_ret.
  - by apply parses_alter.
  - by apply parses_update.
  - by apply parses_delete.
  - take_tokens. apply parses_ret.
  - take_tokens. apply parses_ret.
  - take_tokens. apply parses_ret.
  - unfold explainStmt. take_tokens.
    assert (forall m w ts, parses m (kw w :: ts) s (eq eof) -> parses (inner ← m; mret (SExplain inner)) (kw w :: ts) (SExplain s) (eq eof)) as He.
    { intros m w ts Hm. eapply parses_last; [exact Hm|done]. }
    destruct s; try done; cbn [printStatement]; apply parses_look; rewrite at_end_word; word_tests; apply He;
      [by apply parses_select|by apply parses_insert|by apply parses_update|by apply parses_delete].
  - unfold explainStmt. take_tokens. apply parses_look. rewrite at_end_word. word_tests. take_tokens. apply parses_look.
    rewrite at_end_plain by apply name_plain. take_tokens. rewrite Lexeme_name. apply parses_ret.
Qed.

Lemma parse_print s : statement_ok s -> parseTokens (printStatement s ++ [eof]) = (Ok s, [eof]).
Proof.
  intros Hs. unfold parseTokens. erewrite bind_ok by (by apply parses_statement). done.
Qed.

(** ** The printed tokens can be lexed *)

Definition writable (t : Token) : Prop := Type_ t = ParameterToken \/ printable [] t.

Lemma printable_out out t : Type_ t <> ParameterToken -> printable [] t -> printable out t.
Proof. unfold printable. by destruct (Type_ t). Qed.

Lemma all_printable_intro ts out :
  Forall writable ts -> (forall i x, placeholders ts !! i = Some x -> x = of_string "$" ++ sprint_int (countParameters out + Z.of_nat i)) ->
  all_printable out ts.
Proof.
  revert out. induction ts as [|t ts IH]; intros out Hw Hn; [done|]. apply Forall_cons in Hw as [Ht Hw]. cbn [all_printable].
  assert (countParameters (out ++ [t]) = countParameters out + if decide (Type_ t = ParameterToken) then 1 else 0) as Ec.
  { unfold countParameters. rewrite filter_app, len_app, filter_cons. by case_decide. }
  unfold placeholders in Hn. rewrite filter_cons in Hn. destruct (decide (Type_ t = ParameterToken)) as [Hp|Hp].
  - split.
    + unfold printable. rewrite Hp. rewrite <- (Z.add_0_r (countParameters out)). by apply (Hn 0%nat).
    + apply IH; [done|]. intros i x Hi. rewrite Ec. replace (countParameters out + 1 + Z.of_nat i) with (countParameters out + Z.of_nat (S i)) by lia.
      by apply (Hn (S i)).
  - split; [destruct Ht; [done|by apply printable_out]|]. apply IH; [done|]. intros i x Hi. rewrite Ec, Z.add_0_r. by apply Hn.
Qed.

Lemma writable_word w : is_word w -> writable (word w).
Proof.
  intros Hw. right. unfold printable, word. cbn [Type_ Lexeme]. pose proof (wordType_plain w) as Ht. unfold plain_types in Ht.
  destruct (wordType w) eqn:E; try done; try set_solver; auto.
Qed.
Lemma writable_name w : name_ok w -> writable (name w).
Proof. unfold name. case_decide; [by right; left|]. intros [?|?]; [done|by apply writable_word]. Qed.

Lemma wordType_upper w : ToUpper w = w -> is_ok (Atoi w) = false -> is_ok (ParseFloat w) = false ->
  wordType w = if decide (w = of_string "NULL") then Null_ else if decide (w = of_string "TRUE" \/ w = of_string "FALSE") then Boolean
               else if decide (w ∈ keywords) then Keyword else Identifier.
Proof. intros E Ha Hf. unfold wordType. rewrite E, Ha, Hf. repeat case_decide; done. Qed.

Lemma writable_int z : - 2 ^ 63 <= z < 2 ^ 63 -> printable [] (MkToken Number (sprint_int z)).
Proof.
  intros Hz. unfold printable. cbn [Type_ Lexeme].
  assert (forall b, IsDigit b = true -> number_byte b = true /\ word_byte b = true) as Hb.
  { intros b Hb. unfold number_byte, word_byte. rewrite Hb, !orb_true_r. done. }
  assert (forall f w, (forall b, IsDigit b = true -> f b = true) -> forallb IsDigit w = true -> forallb f w = true) as Hall.
  { intros f w Hf. rewrite !forallb_forall. auto. }
  pose proof (Atoi_sprint z Hz) as Ea. unfold sprint_int in *. case_decide as Hneg.
  - left. destruct (decimal_not_sign (- z)) as (d&ds&E&_); [lia|]. exists d, ds. rewrite E. split; [done|].
    rewrite <- E. apply Hall; [apply Hb|]. pose proof (decimal_all_digits (- z) ltac:(lia)) as H. by apply andb_true_iff in H as [_ H].
  - right. pose proof (decimal_all_digits z ltac:(lia)) as H. apply andb_true_iff in H as [Hne H]. apply bool_decide_eq_true_1 in Hne.
    split; [split; [done|apply Hall; [apply Hb|done]]|]. unfold wordType. rewrite Ea. cbn [is_ok]. by case_match.
Qed.

Lemma writable_value v : value_ok v -> writable (printValue v).
Proof.
  assert (forall w, w ∈ [of_string "TRUE"; of_string "FALSE"; of_string "NULL"] -> is_word w /\ ToUpper w = w /\ is_ok (Atoi w) = false) as H.
  { intros w Hw. repeat (apply elem_of_cons in Hw as [->|Hw]; [split; [split; [done|reflexivity]|split; [rewrite ToUpper_ascii by is_ascii; reflexivity|reflexivity]]|]).
    by apply elem_of_nil in Hw. }
  assert (forall w ty, w ∈ [of_string "TRUE"; of_string "FALSE"; of_string "NULL"] -> ty = (if decide (w = of_string "NULL") then Null_ else Boolean) ->
    writable (MkToken ty w)) as Hlit.
  { intros w ty Hw ->. destruct (H w Hw) as (H1&H2&H3). right. unfold printable. cbn [Type_ Lexeme].
    assert (wordType w = if decide (w = of_string "NULL") then Null_ else Boolean) as E.
    { rewrite wordType_upper by (done || by apply ParseFloat_words). clear H1 H2 H3.
      repeat (apply elem_of_cons in Hw as [->|Hw]; [reflexivity|]). by apply elem_of_nil in Hw. }
    case_decide; by rewrite E. }
  destruct v as [|z|s|[]| | | |i]; intros Hv; try done; cbn [printValue].
  - apply Hlit; [set_solver|reflexivity].
  - right. by apply writable_int.
  - by right.
  - apply Hlit; [set_solver|reflexivity].
  - apply Hlit; [set_solver|reflexivity].
  - by left.
Qed.

Lemma writable_separated {A} (f : A -> list Token) l : (forall x, x ∈ l -> Forall writable (f x)) -> Forall writable (separated f l).
Proof.
  induction l as [|x [|y l] IH]; intros Hf; [constructor|apply Hf; set_solver|].
  change (separated f (x :: y :: l)) with (f x ++ comma :: separated f (y :: l)). apply Forall_app. split; [apply Hf; set_solver|].
  constructor; [by right|]. apply IH. intros z Hz. apply Hf. set_solver.
Qed.

Lemma writable_kw w : of_string w <> [] -> forallb word_byte (of_string w) = true -> writable (kw w).
Proof. intros. by apply writable_word. Qed.
Lemma writable_names l : Forall name_ok l -> Forall writable (separated (fun c => [name c]) l).
Proof. intros Hl. apply writable_separated. intros x Hx. rewrite Forall_forall in Hl. constructor; [by apply writable_name, Hl|constructor]. Qed.

(** Every token of a list of printed parts. *)
Ltac tokens := repeat first
  [ progress cbn [app] | apply Forall_nil_2 | apply Forall_app; split | apply List.Forall_cons
  | (apply writable_kw; [discriminate|reflexivity]) | (apply writable_name; by auto) | (apply writable_value; by auto) | (right; reflexivity)
  | by apply writable_names ].

Lemma writable_leaf col op v : name_ok col -> leaf_ok op v -> Forall writable (printLeaf col op v).
Proof.
  intros Hc [[Hop ->]|[Hop Hv]]; unfold printLeaf.
  - repeat (apply elem_of_cons in Hop as [->|Hop]; [cbn [decide decide_rel]; tokens|]). by apply elem_of_nil in Hop.
  - destruct (operator_token op Hop) as (_&_&H1&H2). rewrite !decide_False by done. tokens. cbn in Hop.
    repeat (apply elem_of_cons in Hop as [->|Hop]; [right; reflexivity|]). by apply elem_of_nil in Hop.
Qed.

Lemma writable_cond c : cond_ok c -> forall level, Forall writable (printCond level c).
Proof.
  revert c. apply (cond_ok_ind (fun c => forall level, Forall writable (printCond level c))).
  - intros col op v Hc Hl level. by apply writable_leaf.
  - intros l r w Hw Hl Hr level. rewrite print_node by done. cbv zeta.
    assert (Forall writable (printCond (if decide (w = "OR"%string) then 0 else 1) l ++ kw w :: printCond (S (if decide (w = "OR"%string) then 0 else 1)) r)) as H.
    { apply Forall_app; split; [apply Hl|]. constructor; [|apply Hr]. repeat (apply elem_of_cons in Hw as [->|Hw]; [tokens|]). by apply elem_of_nil in Hw. }
    destruct (decide (level <= _)%nat); [done|]. constructor; [by right|]. apply Forall_app; split; [done|]. tokens.
Qed.

Lemma writable_where w : where_ok w -> Forall writable (printWhere w).
Proof. intros Hw. destruct w as [c|]; cbn; tokens. by apply writable_cond. Qed.

Lemma writable_columnRef c : column_ref_ok c -> Forall writable (printColumnRef c).
Proof.
  intros [Hc|(fn&arg&->&Hfn&Harg)].
  - unfold printColumnRef. rewrite IndexByte_none by (by apply name_no_paren). tokens.
  - rewrite printColumnRef_call by (by apply aggregate_upper). tokens. cbn in Hfn.
    repeat (apply elem_of_cons in Hfn as [->|Hfn]; [by apply writable_word|]). by apply elem_of_nil in Hfn.
Qed.

Lemma writable_int_clause w z n : of_string w <> [] -> forallb word_byte (of_string w) = true -> - 2 ^ 63 <= n < 2 ^ 63 -> Forall writable (printInt w z n).
Proof. intros. unfold printInt. case_decide; tokens. by apply writable_word. Qed.

Lemma writable_select q : select_ok q -> Forall writable (printSelect q).
Proof.
  intros (Hne&Hcols&Ht&Hw&Hj&Hg&Ho&Hl&Hof). unfold printSelect. tokens.
  - apply writable_separated. intros c Hc. rewrite Forall_forall in Hcols. by apply writable_columnRef, Hcols.
  - unfold printJoin. case_decide; [constructor|]. destruct Hj as [(?&_&_)|(?&?&?)]; [done|]. tokens.
  - by apply writable_where.
  - unfold printGroup. case_decide; tokens.
  - unfold printOrder. case_decide; [constructor|]. destruct Ho as [[? _]|?]; [done|]. destruct (Desc q); tokens.
  - by apply writable_int_clause.
  - by apply writable_int_clause.
Qed.

Lemma writable_column c : column_ok c -> Forall writable (printColumn c).
Proof. intros [Hn Ht]. unfold printColumn. tokens. unfold typeName. repeat case_decide; by apply writable_word. Qed.

Lemma writable_create q : create_ok q -> Forall writable (printStatement (SCreateTable q)).
Proof.
  intros (Ht&Hne&Hc&Hd&Hdom&Hk). cbn [printStatement]. tokens. apply writable_separated. intros ck Hin.
  apply list_elem_of_fmap in Hin as (c&->&Hin). unfold printColumnDef. cbn [fst snd]. apply Forall_app; split.
  { apply writable_column. rewrite Forall_forall in Hc. auto. }
  assert (constraint_ok (constraint_of (MkSchema (ctColumns q) (ctConstraints q)) (cName c))) as Hok.
  { unfold constraint_of. cbn. destruct (ctConstraints q !! cName c) as [k|] eqn:E; [by apply (Hk (cName c))|done]. }
  unfold printConstraint. destruct (constraint_of _ _) as [nn u [[rt rc]|]]; unfold constraint_ok in Hok; cbn in *; destruct nn, u; tokens;
    apply writable_name; apply Hok.
Qed.

Lemma writable_statement s : statement_ok s -> Forall writable (printStatement s).
Proof.
  induction s as [q|q| |q|t|q|q|q| | | |s IH|t]; intros Hs; cbn [printStatement].
  - by apply writable_select.
  - destruct Hs as (Ht&Hne&Hc&Hv&_). unfold printInsert. tokens. apply writable_separated. intros v Hin. rewrite Forall_forall in Hv. tokens.
  - tokens.
  - by apply writable_create.
  - tokens.
  - destruct Hs as (Ht&Ha). unfold printAlter. destruct q as [t act n nn c]. cbn in *. tokens.
    destruct Ha as [(c'&[= -> -> -> ->]&Hc)|[(n'&[= -> -> -> ->]&Hc)|(n'&nn'&[= -> -> -> ->]&Hc&Hc')]]; cbn [decide decide_rel];
      [constructor; [tokens|]; constructor; [tokens|]; by apply writable_column|tokens|tokens].
  - destruct Hs as (Ht&_&Hs&Hw). tokens; [|by apply writable_where]. apply writable_separated. intros [n v] Hin.
    apply elem_of_map_to_list in Hin. apply Hs in Hin as [? ?]. unfold printAssignment. cbn [fst snd]. tokens.
  - destruct Hs as (Ht&Hw). tokens. by apply writable_where.
  - tokens.
  - tokens.
  - tokens.
  - constructor; [tokens|]. apply IH. by destruct s.
  - tokens.
Qed.

Lemma Parse_print s : statement_ok s -> numbered (printStatement s) -> Parse (render (printStatement s)) = Ok s.
Proof.
  intros Hs Hn. unfold Parse. rewrite Lex_render.
  - cbn [mbind outcome_bind]. change (MkToken EOFToken []) with eof. by rewrite parse_print.
  - apply all_printable_intro; [by apply writable_statement|exact Hn].
Qed.
End clauses.


(** [SELECT dept, COUNT( * ) FROM emp JOIN d ON emp.d = d.id WHERE (a = 1 OR b IS NOT
    NULL) AND name != 'it''s' OR c >= ? GROUP BY dept ORDER BY dept DESC LIMIT 10 OFFSET 5]. *)
Definition demo_select : Statement :=
  SSelect (MkSelect [of_string "dept"; of_string "COUNT(*)"] (of_string "emp")
    (Some (combine_
      (combine_
        (combine_ (comparison (of_string "a") (of_string "=") (VInt 1)) (comparison (of_string "b") (of_string "IS NOT NULL") VNil) (of_string "OR"))
        (comparison (of_string "name") (of_string "!=") (VString (of_string "it's"))) (of_string "AND"))
      (comparison (of_string "c") (of_string ">=") (VParam 0)) (of_string "OR")))
    (of_string "dept") true 10 5 [of_string "dept"] (of_string "d") (of_string "emp.d") (of_string "d.id")).

