(* ===== verification/SqlEval.v ===== *)
(** * Evaluating expressions and queries (the pure part of [src/sql/sql.go])

    Comparison, conditions, coercion, joins, grouping, aggregates, ordering and
    paging, binding of placeholders and splitting of requests, as functions on
    rows. [float64] arithmetic is IEEE 754 binary64 ([SpecFloat]). *)
From Stdlib Require Import SpecFloat.
From S2P Require Import Prelude Value Text RowCodec SqlLex SqlParse.

Record Result := MkResult { resColumns : list bytes; resRows : list Row; Affected : Z }.

(** ** Floats *)

Definition spec_of_bits (b : Z) : spec_float :=
  let s := Z.testbit b 63 in
  let e := b / 2 ^ 52 mod 2 ^ 11 in
  let m := b mod 2 ^ 52 in
  if decide (e = 0) then match m with Zpos p => S754_finite s p (-1074) | _ => S754_zero s end
  else if decide (e = 0x7FF) then if decide (m = 0) then S754_infinity s else S754_nan
  else match m + 2 ^ 52 with Zpos p => S754_finite s p (e - 1075) | _ => S754_nan end.

Definition float64 (i : Z) : spec_float := binary_normalize 53 1024 i 0 false.

(** [int(f)] truncates; out of range it is the smallest [int], as on amd64. *)
Definition int_of_float (f : spec_float) : Z :=
  match f with
  | S754_zero _ => 0
  | S754_finite s m e =>
      let a := if decide (0 <= e) then Zpos m * 2 ^ e else Zpos m / 2 ^ (- e) in
      let n := if (s : bool) then - a else a in
      if decide (- 2 ^ 63 <= n < 2 ^ 63) then n else - 2 ^ 63
  | _ => - 2 ^ 63
  end.

(** ** Comparison *)

Definition number (v : value) : option spec_float :=
  match v with VInt i => Some (float64 i) | VFloat f => Some (spec_of_bits f) | _ => None end.

Definition compareBytes (a b : bytes) : Z := if bytes_ltb a b then -1 else if bytes_ltb b a then 1 else 0.

(** Two [int]s are both numbers: the branch of the source for them is never reached. *)
Definition compare `{Fmt : Formats} (a b : value) : Z :=
  match number a, number b with
  | Some af, Some bf => if SFltb af bf then -1 else if SFltb bf af then 1 else 0
  | _, _ =>
      match a, b with
      | VString x, VString y => compareBytes x y
      | VBool x, VBool y => if Bool.eqb x y then 0 else if x then 1 else -1
      | _, _ => compareBytes (Sprint a) (Sprint b)
      end
  end.

(** ** Rows and conditions *)

Definition lookupColumn (r : Row) (name : bytes) : option value :=
  match r !! name with
  | Some v => Some v
  | None => match IndexByte name Byte.x2e with Some i => r !! drop (S i) name | None => None end
  end.

Definition lookup_ (r : Row) (name : bytes) : value := default VNil (lookupColumn r name).

Definition holds (op : bytes) (cmp : Z) : bool :=
  if decide (op = of_string "=") then bool_decide (cmp = 0)
  else if decide (op = of_string "!=") then bool_decide (cmp <> 0)
  else if decide (op = of_string "<") then bool_decide (cmp < 0)
  else if decide (op = of_string ">") then bool_decide (cmp > 0)
  else if decide (op = of_string "<=") then bool_decide (cmp <= 0)
  else if decide (op = of_string ">=") then bool_decide (cmp >= 0)
  else false.

Definition is_nil (v : value) : bool := bool_decide (v = VNil).

Fixpoint match_ `{Fmt : Formats} (w : Condition) (r : Row) : bool :=
  match w with
  | MkCond col op v lc rc logic =>
      let sub (c : option Condition) := match c with Some c => match_ c r | None => true end in
      if decide (logic = of_string "AND") then sub lc && sub rc
      else if decide (logic = of_string "OR") then sub lc || sub rc
      else
        let x := lookup_ r col in
        if decide (op = of_string "IS NULL") then is_nil x
        else if decide (op = of_string "IS NOT NULL") then negb (is_nil x)
        else if is_nil x || is_nil v then false
        else holds op (compare x v)
  end.

Definition matchWhere `{Fmt : Formats} (w : option Condition) (r : Row) : bool :=
  match w with Some c => match_ c r | None => true end.

(** ** Coercion to a column's type *)

Definition columnTypeName (t : Z) : bytes :=
  of_string (if decide (t = IntType) then "INT" else if decide (t = StringType) then "STRING" else if decide (t = BoolType) then "BOOL"
             else if decide (t = FloatType) then "FLOAT" else if decide (t = BytesType) then "BYTES"
             else if decide (t = TimestampType) then "TIMESTAMP" else "UNKNOWN").

Definition coerceValue `{Text : GoText} (v : value) (typ : Z) : outcome value :=
  let wrong := Err (Errorf "value has wrong type for %s" [AStr (columnTypeName typ)]) in
  match v with
  | VNil => Ok VNil
  | _ =>
      if decide (typ = FloatType) then
        match v with VInt i => Ok (VFloat (float64_of_int i)) | VFloat _ => Ok v | _ => wrong end
      else if decide (typ = BytesType) then
        match v with VString s => Ok (VBytes (Some s)) | VBytes _ => Ok v | _ => wrong end
      else if decide (typ = TimestampType) then
        match v with
        | VString s =>
            match ParseTime s with
            | Ok ns => Ok (VTime ns (of_string "UTC"))
            | _ => Err (Errorf "invalid timestamp %q" [AStr s])
            end
        | VTime _ _ => Ok v
        | _ => wrong
        end
      else Ok v
  end.

(** ** Joins *)

(** The map of buckets by [fmt.Sprintf("%T:%#v", ...)] of the join column. *)
Definition joinBuckets (right_ : bytes) (jr : list Row) : gmap value (list Row) :=
  foldl (fun m b => let key := indexValue (lookup_ b right_) in <[key := default [] (m !! key) ++ [b]]> m) ∅ jr.

(** The columns of [b] that are in [a] already get the joined table's name. Every
    column of [b] is assigned once; a clash of the prefixed name with a column of
    its own would depend on the order of the map, here that of [map_to_list]. *)
Definition mergeRows (joinTable : bytes) (a b : Row) : Row :=
  foldl (fun n kv => if decide (is_Some (n !! kv.1)) then <[joinTable ++ of_string "." ++ kv.1 := kv.2]> n else <[kv.1:=kv.2]> n)
    a (map_to_list b).

Definition joinRows `{Fmt : Formats} (q : Select) (rows jr : list Row) : list Row :=
  let buckets := joinBuckets (JoinRight q) jr in
  rows ≫= fun a =>
    mergeRows (JoinTable q) a <$>
      filter (fun b => compare (lookup_ a (JoinLeft q)) (lookup_ b (JoinRight q)) = 0) (default [] (buckets !! indexValue (lookup_ a (JoinLeft q)))).

(** ** Grouping and aggregates *)

(** [fmt.Sprintf("%#v", v)]. *)
Class GoSyntax := gosyntax : value -> bytes.

Definition isAggregate `{Text : GoText} (s : bytes) : bool :=
  let u := ToUpper s in
  HasPrefix u (of_string "COUNT(") || HasPrefix u (of_string "SUM(") || HasPrefix u (of_string "AVG(") ||
  HasPrefix u (of_string "MIN(") || HasPrefix u (of_string "MAX(").

(** [r[c]], not [lookup(r, c)]. *)
Definition groupKey `{Syn : GoSyntax} (cols : list bytes) (r : Row) : bytes :=
  concat ((fun c => gosyntax (field c r) ++ of_string "|") <$> cols).

Definition allInts (v : list value) : bool := forallb (fun x => match x with VInt _ => true | _ => false end) v.

Fixpoint sumValues (expr : bytes) (sum : spec_float) (vals : list value) : outcome spec_float :=
  match vals with
  | [] => Ok sum
  | v :: vals =>
      match number v with
      | Some n => sumValues expr (SFadd 53 1024 sum n) vals
      | None => Err (Errorf "aggregate %s requires numeric column" [AStr expr])
      end
  end.

Definition best `{Fmt : Formats} (min max : bool) (v0 : value) (vals : list value) : value :=
  foldl (fun b v => let cmp := compare v b in
                    if (min && bool_decide (cmp < 0)) || (max && bool_decide (cmp > 0)) then v else b) v0 vals.

(** The value of one aggregate over the values of its column that are not NULL. *)
Definition aggregateValue `{Fmt : Formats} (u expr : bytes) (vals : list value) : outcome value :=
  if HasPrefix u (of_string "COUNT") then Ok (VInt (len vals))
  else match vals with
       | [] => Ok VNil
       | v0 :: vs =>
           if HasPrefix u (of_string "MIN") || HasPrefix u (of_string "MAX") then
             Ok (best (HasPrefix u (of_string "MIN")) (HasPrefix u (of_string "MAX")) v0 vs)
           else
             sum ← sumValues expr (S754_zero false) vals;
             let sum := if HasPrefix u (of_string "AVG") then SFdiv 53 1024 sum (float64 (len vals)) else sum in
             if HasPrefix u (of_string "SUM") && allInts vals then Ok (VInt (int_of_float sum))
             else Ok (VFloat (bits_of_spec sum))
       end.

Section aggregates.
Context `{Text : GoText} `{Fmt : Formats} `{Syn : GoSyntax}.

Fixpoint aggregateCols (cols : list bytes) (rows : list Row) (out : Row) : outcome Row :=
  match cols with
  | [] => Ok out
  | expr :: cols =>
      let u := ToUpper expr in
      match IndexByte expr Byte.x28 with
      | None =>
          match rows with
          | [] => Err (Errorf "group column %q has no rows" [AStr expr])
          | r0 :: _ => aggregateCols cols rows (<[expr := field expr r0]> out)
          end
      | Some open =>
          if decide (S open <= length expr - 1)%nat then
            let col := TrimSpace (slice (S open) (length expr - 1) expr) in
            if decide (col = of_string "*") then
              aggregateCols cols rows (if HasPrefix u (of_string "COUNT") then <[expr := VInt (len rows)]> out else out)
            else
              v ← aggregateValue u expr (filter (fun v => v <> VNil) (field col <$> rows));
              aggregateCols cols rows (<[expr:=v]> out)
          else Panic
      end
  end.

Definition aggregateRow (cols groups : list bytes) (rows : list Row) : outcome Row :=
  let out := match rows with
             | [] => ∅
             | r0 :: _ => foldl (fun (m : Row) c => <[c := field c r0]> m) ∅ groups
             end in
  aggregateCols cols rows out.

(** The groups in the order in which their keys first appear. *)
Definition addToGroups (cols : list bytes) (gs : list (bytes * list Row)) (r : Row) : list (bytes * list Row) :=
  let key := groupKey cols r in
  match list_find (fun g => g.1 = key) gs with
  | Some (i, g) => <[i := (g.1, g.2 ++ [r])]> gs
  | None => gs ++ [(key, [r])]
  end.

Definition groupRows (cols : list bytes) (rows : list Row) : list (bytes * list Row) := foldl (addToGroups cols) [] rows.

Fixpoint aggregateGroups (cols groups : list bytes) (gs : list (bytes * list Row)) : outcome (list Row) :=
  match gs with
  | [] => Ok []
  | g :: gs => row ← aggregateRow cols groups g.2; rest ← aggregateGroups cols groups gs; Ok (row :: rest)
  end.

(** ** Ordering and paging *)

(** [sort.SliceStable]: each element moves left past the elements it is less than;
    the sorted prefix is kept in reverse. *)
Fixpoint sift {A} (less : A -> A -> bool) (x : A) (rev : list A) : list A :=
  match rev with
  | y :: rev' => if less x y then y :: sift less x rev' else x :: rev
  | [] => [x]
  end.
Definition SliceStable {A} (less : A -> A -> bool) (l : list A) : list A := reverse (foldl (fun rev x => sift less x rev) [] l).

Definition rowLess (orderBy : bytes) (desc : bool) (a b : Row) : bool :=
  let c := compare (field orderBy a) (field orderBy b) in
  if desc then bool_decide (c > 0) else bool_decide (c < 0).

(** [start + q.Limit] is an [int]; slicing with [end < start] panics. *)
Definition applyPagingAndOrder (out : Result) (q : Select) : outcome Result :=
  let rows := if decide (OrderBy q = []) then resRows out else SliceStable (rowLess (OrderBy q) (Desc q)) (resRows out) in
  let n := len rows in
  let start := if decide (Offset q < 0) then 0 else Offset q in
  let start := if decide (start > n) then n else start in
  let end_ := if decide (Limit q >= 0 /\ i64 (start + Limit q) < n) then i64 (start + Limit q) else n in
  if decide (start <= end_) then Ok (MkResult (resColumns out) (slice (Z.to_nat start) (Z.to_nat end_) rows) (Affected out))
  else Panic.

(** ** SELECT on the rows of its tables *)

Fixpoint checkGroupBy (cols : list bytes) (rows : list Row) : outcome unit :=
  match cols with
  | [] => Ok tt
  | c :: cols =>
      if decide (Exists (fun r => lookup_ r c = VNil) rows) then Err (Errorf "unknown column %q" [AStr c])
      else checkGroupBy cols rows
  end.

Fixpoint projectRow (cols : list bytes) (r : Row) (out : Row) : outcome Row :=
  match cols with
  | [] => Ok out
  | c :: cols =>
      match lookupColumn r c with
      | Some v => projectRow cols r (<[c:=v]> out)
      | None => Err (Errorf "unknown column %q" [AStr c])
      end
  end.

Fixpoint projectRows (cols : list bytes) (rows : list Row) : outcome (list Row) :=
  match rows with
  | [] => Ok []
  | r :: rows => p ← projectRow cols r ∅; rest ← projectRows cols rows; Ok (p :: rest)
  end.

Definition selectColumns (schema : Schema) (q : Select) : list bytes :=
  if decide (selColumns q = [of_string "*"]) then cName <$> Columns schema else selColumns q.

(** From the joined rows on: filter, group or project, order, page. *)
Definition evalSelect (schema : Schema) (q : Select) (rows : list Row) : outcome Result :=
  let cols := selectColumns schema q in
  let filtered := filter (fun r => matchWhere (selWhere q) r = true) rows in
  _ ← checkGroupBy (GroupBy q) filtered;
  let aggregate := existsb isAggregate cols in
  if aggregate || bool_decide (GroupBy q <> []) then
    let gs := groupRows (GroupBy q) filtered in
    let gs := if bool_decide (gs = []) && aggregate && bool_decide (GroupBy q = []) then [([], [])] else gs in
    out ← aggregateGroups cols (GroupBy q) gs;
    applyPagingAndOrder (MkResult cols out 0) q
  else
    out ← projectRows cols filtered;
    applyPagingAndOrder (MkResult cols out 0) q.
End aggregates.

(** ** Placeholders *)

Fixpoint conditionValues (c : Condition) : list value :=
  match c with
  | MkCond _ _ v l r _ =>
      let sub (o : option Condition) := match o with Some c => conditionValues c | None => [] end in
      v :: sub l ++ sub r
  end.
Definition whereValues (w : option Condition) : list value := match w with Some c => conditionValues c | None => [] end.

Fixpoint statementValues (s : Statement) : list value :=
  match s with
  | SInsert q => insValues q
  | SUpdate q => (map_to_list (updSet q)).*2 ++ whereValues (updWhere q)
  | SDelete q => whereValues (delWhere q)
  | SSelect q => whereValues (selWhere q)
  | SExplain s => statementValues s
  | _ => []
  end.

Definition countStatementParameters (s : Statement) : Z :=
  foldr (fun v m => match v with VParam i => Z.max i m | _ => m end) (-1) (statementValues s) + 1.

Section binding.
Context (args : list value).

Definition bindValue (v : value) : outcome value :=
  match v with
  | VParam i => if decide (0 <= i) then of_option (args !! Z.to_nat i) else Panic
  | _ => Ok v
  end.

Fixpoint bindValues (l : list value) : outcome (list value) :=
  match l with
  | [] => Ok []
  | v :: l => v ← bindValue v; l ← bindValues l; Ok (v :: l)
  end.

Fixpoint bindCond (c : Condition) : outcome Condition :=
  match c with
  | MkCond col op v l r logic =>
      let sub (o : option Condition) : outcome (option Condition) :=
        match o with Some c => c ← bindCond c; Ok (Some c) | None => Ok None end in
      v ← bindValue v; l ← sub l; r ← sub r; Ok (MkCond col op v l r logic)
  end.
Definition bindWhere (w : option Condition) : outcome (option Condition) :=
  match w with Some c => c ← bindCond c; Ok (Some c) | None => Ok None end.

Definition bindSet (m : gmap bytes value) : outcome (gmap bytes value) :=
  vs ← bindValues (map_to_list m).*2; Ok (list_to_map (zip (map_to_list m).*1 vs)).

Fixpoint bindStatement (s : Statement) : outcome Statement :=
  match s with
  | SInsert q => vs ← bindValues (insValues q); Ok (SInsert (MkInsert (insTable q) (insColumns q) vs))
  | SUpdate q => m ← bindSet (updSet q); w ← bindWhere (updWhere q); Ok (SUpdate (MkUpdate (updTable q) m w))
  | SDelete q => w ← bindWhere (delWhere q); Ok (SDelete (MkDelete (delTable q) w))
  | SSelect q =>
      w ← bindWhere (selWhere q);
      Ok (SSelect (MkSelect (selColumns q) (selTable q) w (OrderBy q) (Desc q) (Limit q) (Offset q) (GroupBy q)
                     (JoinTable q) (JoinLeft q) (JoinRight q)))
  | SExplain s => s ← bindStatement s; Ok (SExplain s)
  | _ => Ok s
  end.
End binding.

(** ** Requests *)

(** [piece] is [s[start:i]] and [out] the statements so far. *)
Fixpoint splitLoop `{Text : GoText} (quote : option byte) (piece s : bytes) (out : list bytes) : list bytes :=
  let emit (p : bytes) := let x := TrimSpace p in if decide (x = []) then out else out ++ [x] in
  match s with
  | [] => emit piece
  | b :: s =>
      match quote with
      | Some q => splitLoop (if decide (b = q) then None else quote) (piece ++ [b]) s out
      | None =>
          if decide (b = Byte.x27 \/ b = Byte.x22) then splitLoop (Some b) (piece ++ [b]) s out
          else if decide (b = Byte.x3b) then splitLoop None [] s (emit piece)
          else splitLoop None (piece ++ [b]) s out
      end
  end.

Definition splitStatements `{Text : GoText} (s : bytes) : list bytes := splitLoop None [] s [].

Definition mapKeys (m : gmap bytes value) : bytes :=
  Join (SliceStable bytes_ltb (map_to_list m).*1) (of_string ", ").
