(* ===== verification/FloatOrder.v ===== *)
(** * The order of [float64] values

    Comparison of IEEE doubles is a total preorder away from NaN, and the
    conversion of integers keeps their order up to [2 ^ 53]. *)
From Stdlib Require Import SpecFloat.
From S2P Require Import Prelude Value Text RowCodec SqlLex SqlParse SqlEval.

(** Sign and size class, then exponent, then mantissa. *)
Definition rank (f : spec_float) : Z * Z * Z :=
  match f with
  | S754_zero _ => (0, 0, 0)
  | S754_infinity s => (if s then -2 else 2, 0, 0)
  | S754_nan => (0, 0, 0)
  | S754_finite s m e => if s then (-1, - e, - Zpos m) else (1, e, Zpos m)
  end.

Definition rank_lt (a b : Z * Z * Z) : Prop :=
  a.1.1 < b.1.1 \/ a.1.1 = b.1.1 /\ (a.1.2 < b.1.2 \/ a.1.2 = b.1.2 /\ a.2 < b.2).

Definition not_nan (f : spec_float) : Prop := f <> S754_nan.

Lemma SFltb_rank f g : not_nan f -> not_nan g -> SFltb f g = true <-> rank_lt (rank f) (rank g).
Proof.
  unfold not_nan, SFltb, SFcompare, rank, rank_lt.
  destruct f as [[]|[]| |[] m1 e1], g as [[]|[]| |[] m2 e2]; intros H1 H2; try done; cbn [fst snd]; try (split; [done|lia]); try (split; [lia|done]);
    change (Pos.compare_cont Eq m1 m2) with (Pos.compare m1 m2); destruct (Z.compare_spec e1 e2); try (split; [lia|done]); try (split; [done|lia]);
    destruct (Pos.compare_spec m1 m2); cbn [CompOpp]; try (split; [lia|done]); try (split; [done|lia]).
Qed.

Lemma SFltb_asym f g : not_nan f -> not_nan g -> SFltb f g = true -> SFltb g f = false.
Proof. intros Hf Hg H. apply not_true_is_false. rewrite SFltb_rank in * by done. unfold rank_lt in *. lia. Qed.

Lemma SFltb_ntrans f g h : not_nan f -> not_nan g -> not_nan h -> SFltb g f = false -> SFltb h g = false -> SFltb h f = false.
Proof.
  intros Hf Hg Hh H1 H2. apply not_true_is_false. apply not_true_iff_false in H1, H2. rewrite SFltb_rank in * by done.
  unfold rank_lt in *. lia.
Qed.

(** ** Integers *)

Lemma digits2_bounds p : 2 ^ (Zpos (digits2_pos p) - 1) <= Zpos p < 2 ^ Zpos (digits2_pos p).
Proof.
  induction p as [p IH|p IH|]; cbn [digits2_pos]; [| |done].
  - rewrite Pos2Z.inj_succ. replace (Z.succ (Zpos (digits2_pos p)) - 1) with (Z.succ (Zpos (digits2_pos p) - 1)) by lia.
    rewrite !Z.pow_succ_r by lia. lia.
  - rewrite Pos2Z.inj_succ. replace (Z.succ (Zpos (digits2_pos p)) - 1) with (Z.succ (Zpos (digits2_pos p) - 1)) by lia.
    rewrite !Z.pow_succ_r by lia. lia.
Qed.

Lemma iter_xO p n : Zpos (Pos.iter xO p n) = Zpos p * 2 ^ Zpos n /\ Zpos (digits2_pos (Pos.iter xO p n)) = Zpos (digits2_pos p) + Zpos n.
Proof.
  induction n as [|n IH] using Pos.peano_ind; [cbn; lia|]. rewrite Pos.iter_succ, Pos2Z.inj_succ, Z.pow_succ_r by lia.
  cbn [digits2_pos]. destruct IH as [IH1 IH2]. rewrite Pos2Z.inj_succ, IH2. lia.
Qed.

Lemma shl_exact p (d := Zpos (digits2_pos p)) : d <= 53 ->
  exists m, shl_align p 0 (d - 53) = (m, d - 53) /\ Zpos m = Zpos p * 2 ^ (53 - d) /\ Zpos (digits2_pos m) = 53.
Proof.
  intros Hd. unfold shl_align. destruct (d - 53 - 0) as [|x|x] eqn:E; [|lia|].
  - exists p. split_and!; [f_equal; lia| |lia]. replace (53 - d) with 0 by lia. lia.
  - destruct (iter_xO p x) as [H1 H2]. exists (Pos.iter xO p x). replace (53 - d) with (Zpos x) by lia. split_and!; [done|done|lia].
Qed.

(** An integer below [2 ^ 53] is converted exactly. *)
Lemma round_exact s p (d := Zpos (digits2_pos p)) : Zpos p < 2 ^ 53 ->
  exists m, binary_round 53 1024 s p 0 = S754_finite s m (d - 53) /\ Zpos m = Zpos p * 2 ^ (53 - d) /\ d <= 53.
Proof.
  intros Hp. assert (d <= 53) as Hd.
  { destruct (digits2_bounds p) as [H _]. fold d in H. apply Z.nlt_ge. intros Hlt.
    assert (2 ^ 53 <= 2 ^ (d - 1)) by (apply Z.pow_le_mono_r; lia). lia. }
  destruct (shl_exact p Hd) as (m&E&Hm&Hdm). exists m. split; [|done].
  assert (forall e, -1074 <= e -> fexp 53 1024 (53 + e) = e) as Hfexp by (intros e He; unfold fexp, emin; lia).
  assert (d >= 1) by (unfold d; lia).
  subst d. unfold binary_round. set (d := Zpos (digits2_pos p)) in *. replace (d + 0) with (53 + (d - 53)) by lia. rewrite Hfexp by lia. rewrite E. unfold binary_round_aux, shr_fexp.
  cbn [Zdigits2]. rewrite Hdm, Hfexp, Z.sub_diag by lia. cbn [shr shr_record_of_loc loc_of_shr_record shr_m round_nearest_even Zdigits2].
  rewrite Hdm, Hfexp, Z.sub_diag by lia. cbn [shr shr_m]. rewrite (proj2 (Z.leb_le _ _)) by lia. done.
Qed.

Lemma pow_order p q dp dq : 0 <= dp -> 0 <= dq ->
  2 ^ (dp - 1) <= p < 2 ^ dp -> 2 ^ (dq - 1) <= q < 2 ^ dq -> dp <= 53 -> dq <= 53 ->
  (dp < dq \/ dp = dq /\ p * 2 ^ (53 - dp) < q * 2 ^ (53 - dq)) <-> p < q.
Proof.
  intros Hp0 Hq0 Hp Hq Hdp Hdq. destruct (Z.lt_trichotomy dp dq) as [H|[H|H]].
  - assert (2 ^ dp <= 2 ^ (dq - 1)) by (apply Z.pow_le_mono_r; lia). lia.
  - subst dq. assert (0 < 2 ^ (53 - dp)) by (apply Z.pow_pos_nonneg; lia). nia.
  - assert (2 ^ dq <= 2 ^ (dp - 1)) by (apply Z.pow_le_mono_r; lia). lia.
Qed.

Lemma float64_not_nan i : -2 ^ 53 < i < 2 ^ 53 -> not_nan (float64 i).
Proof.
  intros Hi. unfold not_nan, float64. destruct i as [|p|p]; [done|..]; cbn [binary_normalize];
    destruct (round_exact false p) as (?&H1&_); try lia; destruct (round_exact true p) as (?&H2&_); try lia; by rewrite ?H1, ?H2.
Qed.

Lemma float64_rank i : -2 ^ 53 < i < 2 ^ 53 ->
  (i = 0 /\ rank (float64 i) = (0, 0, 0)) \/
  exists p m, Zpos m = Zpos p * 2 ^ (53 - Zpos (digits2_pos p)) /\ Zpos (digits2_pos p) <= 53 /\
    ((i = Zpos p /\ rank (float64 i) = (1, Zpos (digits2_pos p) - 53, Zpos m)) \/
     (i = Zneg p /\ rank (float64 i) = (-1, - (Zpos (digits2_pos p) - 53), - Zpos m))).
Proof.
  intros Hi. unfold float64. destruct i as [|p|p]; [by left|right..]; cbn [binary_normalize].
  - destruct (round_exact false p) as (m&E&Hm&Hd); [lia|]. exists p, m. split_and!; [done|done|]. left. by rewrite E.
  - destruct (round_exact true p) as (m&E&Hm&Hd); [lia|]. exists p, m. split_and!; [done|done|]. right. by rewrite E.
Qed.

Lemma float64_lt i j : -2 ^ 53 < i < 2 ^ 53 -> -2 ^ 53 < j < 2 ^ 53 -> SFltb (float64 i) (float64 j) = true <-> i < j.
Proof.
  intros Hi Hj. rewrite SFltb_rank by (by apply float64_not_nan).
  destruct (float64_rank i Hi) as [[-> ->]|(p&m&Hm&Hd&[[-> ->]|[-> ->]])], (float64_rank j Hj) as [[-> ->]|(p'&m'&Hm'&Hd'&[[-> ->]|[-> ->]])];
    unfold rank_lt; cbn [fst snd]; try lia.
  - pose proof (pow_order _ _ _ _ (Zle_0_pos _) (Zle_0_pos _) (digits2_bounds p) (digits2_bounds p') Hd Hd'). lia.
  - pose proof (pow_order _ _ _ _ (Zle_0_pos _) (Zle_0_pos _) (digits2_bounds p') (digits2_bounds p) Hd' Hd). lia.
Qed.

(** ** Sums of integers *)

Lemma shr_1_even p : shr_1 (Build_shr_record (Zpos p * 2) false false) = Build_shr_record (Zpos p) false false.
Proof. replace (Zpos p * 2) with (Zpos (xO p)) by lia. done. Qed.

Lemma iter_pos_iter {A} (f : A -> A) n x : SpecFloat.iter_pos f n x = Pos.iter f x n.
Proof.
  revert x. induction n as [n IH|n IH|]; intros x; cbn [SpecFloat.iter_pos Pos.iter]; [|by rewrite !IH|done].
  rewrite !IH. by rewrite <- !Pos.iter_swap.
Qed.

Lemma shr_exact n m : SpecFloat.iter_pos shr_1 n (Build_shr_record (Zpos m * 2 ^ Zpos n) false false) = Build_shr_record (Zpos m) false false.
Proof.
  rewrite iter_pos_iter. induction n as [|n IH] using Pos.peano_ind; [apply shr_1_even|].
  rewrite Pos.iter_succ, <- Pos.iter_swap, Pos2Z.inj_succ, Z.pow_succ_r by lia.
  replace (Zpos m * (2 * 2 ^ Zpos n)) with (Zpos (m * 2 ^ n) * 2) by (rewrite Pos2Z.inj_mul, Pos2Z.inj_pow; lia).
  rewrite shr_1_even, Pos2Z.inj_mul, Pos2Z.inj_pow. apply IH.
Qed.

Lemma digits2_unique p d : 2 ^ (d - 1) <= Zpos p < 2 ^ d -> 0 <= d -> Zpos (digits2_pos p) = d.
Proof.
  intros Hd H0. pose proof (digits2_bounds p) as Hp. destruct (Z.lt_trichotomy (Zpos (digits2_pos p)) d) as [H|[H|H]]; [|done|].
  - assert (2 ^ Zpos (digits2_pos p) <= 2 ^ (d - 1)) by (apply Z.pow_le_mono_r; lia). lia.
  - assert (2 ^ d <= 2 ^ (Zpos (digits2_pos p) - 1)) by (apply Z.pow_le_mono_r; lia). lia.
Qed.

(** The same integer with a smaller exponent is rounded to the same float. *)
Lemma round_scaled s p P k : Zpos p < 2 ^ 53 -> 0 <= k -> Zpos P = Zpos p * 2 ^ k -> binary_round 53 1024 s P (- k) = binary_round 53 1024 s p 0.
Proof.
  intros Hp Hk HP. set (d := Zpos (digits2_pos p)). destruct (round_exact s p Hp) as (m&->&Hm&Hd). fold d in Hm, Hd |- *.
  pose proof (digits2_bounds p) as Hb. fold d in Hb. assert (1 <= d) by (unfold d; lia).
  assert (Zpos (digits2_pos P) = d + k) as HD.
  { apply digits2_unique; [|lia]. replace (d + k - 1) with (d - 1 + k) by lia. rewrite !Z.pow_add_r by lia. assert (0 < 2 ^ k) by (apply Z.pow_pos_nonneg; lia). nia. }
  assert (Zpos (digits2_pos m) = 53) as Hdm.
  { apply digits2_unique; [|lia]. rewrite Hm. replace 52 with (d - 1 + (53 - d)) by lia. change (53 - 1) with 52. 
    replace (2 ^ 52) with (2 ^ (d - 1) * 2 ^ (53 - d)) by (rewrite <- Z.pow_add_r by lia; f_equal; lia).
    replace (2 ^ 53) with (2 ^ d * 2 ^ (53 - d)) by (rewrite <- Z.pow_add_r by lia; f_equal; lia).
    assert (0 < 2 ^ (53 - d)) by (apply Z.pow_pos_nonneg; lia). nia. }
  assert (forall e, -1074 <= e -> fexp 53 1024 (53 + e) = e) as Hfexp by (intros e He; unfold fexp, emin; lia).
  assert (fexp 53 1024 d = d - 53) as Hfd by (replace d with (53 + (d - 53)) at 1 by lia; apply Hfexp; lia).
  assert (forall mrs, mrs = Build_shr_record (Zpos m) false false ->
    (let '(mrs'', e'') := shr_fexp 53 1024 (round_nearest_even (shr_m mrs) (loc_of_shr_record mrs)) (d - 53) loc_Exact in
     match shr_m mrs'' with Z0 => S754_zero s | Zpos m => if e'' <=? 1024 - 53 then S754_finite s m e'' else S754_infinity s | _ => S754_nan end)
    = S754_finite s m (d - 53)) as Hend.
  { intros mrs ->. cbn [shr_m loc_of_shr_record round_nearest_even]. unfold shr_fexp. cbn [Zdigits2]. rewrite Hdm, Hfexp, Z.sub_diag by lia.
    cbn [shr shr_m shr_record_of_loc]. rewrite (proj2 (Z.leb_le _ _)) by lia. done. }
  unfold binary_round. rewrite HD. replace (d + k + - k) with d by lia. rewrite Hfd. unfold shl_align.
  destruct (d - 53 - - k) as [|n|n] eqn:E.
  - assert (P = m) as -> by (apply Pos2Z.inj; rewrite HP, Hm; do 2 f_equal; lia).
    unfold binary_round_aux, shr_fexp at 1. cbn [Zdigits2]. rewrite Hdm. replace (- k) with (d - 53) by lia. rewrite Hfexp, Z.sub_diag by lia.
    cbn [shr]. by apply Hend.
  - unfold binary_round_aux, shr_fexp at 1. cbn [Zdigits2]. rewrite HD. replace (d + k + - k) with d by lia. rewrite Hfd.
    rewrite E. cbn [shr shr_record_of_loc]. replace (- k + Zpos n) with (d - 53) by lia.
    assert (Zpos P = Zpos m * 2 ^ Zpos n) as ->.
    { rewrite HP, Hm, <- Z.mul_assoc, <- Z.pow_add_r by lia. do 2 f_equal. lia. }
    by apply Hend, shr_exact.
  - destruct (iter_xO P n) as [H1 H2]. assert (Pos.iter xO P n = m) as ->.
    { apply Pos2Z.inj. rewrite H1, HP, Hm, <- Z.mul_assoc, <- Z.pow_add_r by lia. do 2 f_equal. lia. }
    unfold binary_round_aux, shr_fexp at 1. cbn [Zdigits2]. rewrite Hdm, Hfexp, Z.sub_diag by lia. cbn [shr]. by apply Hend.
Qed.

Lemma normalize_scaled c k : - 2 ^ 53 < c < 2 ^ 53 -> 0 <= k -> binary_normalize 53 1024 (c * 2 ^ k) (- k) false = float64 c.
Proof.
  intros Hc Hk. assert (0 < 2 ^ k) by (apply Z.pow_pos_nonneg; lia). unfold float64. destruct c as [|p|p]; [done|..]; cbn [binary_normalize].
  - destruct (Zpos p * 2 ^ k) as [|P|P] eqn:E; [lia| |lia]. cbn [binary_normalize]. apply round_scaled; [lia|done|by rewrite E].
  - destruct (Zneg p * 2 ^ k) as [|P|P] eqn:E; [lia|lia|]. cbn [binary_normalize]. apply round_scaled; [lia|done|lia].
Qed.

(** The parts of a converted integer. *)
Lemma float64_parts a : - 2 ^ 53 < a < 2 ^ 53 -> (a = 0 /\ float64 a = S754_zero false) \/
  exists s m e, float64 a = S754_finite s m e /\ e <= 0 /\ cond_Zopp s (Zpos m) = a * 2 ^ (- e).
Proof.
  intros Ha. unfold float64. destruct a as [|p|p]; [by left|right..]; cbn [binary_normalize].
  - destruct (round_exact false p) as (m&->&Hm&Hd); [lia|]. do 3 eexists. split_and!; [done|lia|]. cbn. rewrite Hm. do 2 f_equal. lia.
  - destruct (round_exact true p) as (m&->&Hm&Hd); [lia|]. do 3 eexists. split_and!; [done|lia|]. cbn [cond_Zopp]. rewrite Hm.
    replace (- (Zpos (digits2_pos p) - 53)) with (53 - Zpos (digits2_pos p)) by lia. lia.
Qed.

Lemma shl_align_value s m e e' : e' <= e -> cond_Zopp s (Zpos (shl_align m e e').1) = cond_Zopp s (Zpos m) * 2 ^ (e - e').
Proof.
  intros He. unfold shl_align. destruct (e' - e) as [|n|n] eqn:E; [|lia|].
  - replace (e - e') with 0 by lia. cbn [fst]. lia.
  - cbn [fst]. destruct (iter_xO m n) as [-> _]. replace (e - e') with (Zpos n) by lia. destruct s; cbn [cond_Zopp]; lia.
Qed.

(** Sums of integers below [2 ^ 53] are exact. *)
Lemma float64_add a b : - 2 ^ 53 < a < 2 ^ 53 -> - 2 ^ 53 < b < 2 ^ 53 -> - 2 ^ 53 < a + b < 2 ^ 53 ->
  SFadd 53 1024 (float64 a) (float64 b) = float64 (a + b).
Proof.
  intros Ha Hb Hab. destruct (float64_parts a Ha) as [[-> Ea]|(s&m&e&Ea&He&Hm)], (float64_parts b Hb) as [[-> Eb]|(s'&m'&e'&Eb&He'&Hm')].
  - by rewrite Ea.
  - rewrite Ea, Eb, Z.add_0_l, Eb. done.
  - rewrite Eb, Ea, Z.add_0_r, Ea. done.
  - rewrite Ea, Eb. cbn [SFadd]. rewrite !shl_align_value, Hm, Hm' by lia. set (z := Z.min e e').
    replace (a * 2 ^ (- e) * 2 ^ (e - z)) with (a * 2 ^ (- z)) by (rewrite <- Z.mul_assoc, <- Z.pow_add_r by lia; do 2 f_equal; lia).
    replace (b * 2 ^ (- e') * 2 ^ (e' - z)) with (b * 2 ^ (- z)) by (rewrite <- Z.mul_assoc, <- Z.pow_add_r by lia; do 2 f_equal; lia).
    rewrite <- Z.mul_add_distr_r. rewrite <- (Z.opp_involutive z) at 2. apply normalize_scaled; [done|lia].
Qed.

Lemma int_of_float64 a : - 2 ^ 53 < a < 2 ^ 53 -> int_of_float (float64 a) = a.
Proof.
  intros Ha. destruct (float64_parts a Ha) as [[-> Ea]|(s&m&e&Ea&He&Hm)]; rewrite Ea; [done|]. cbn [int_of_float].
  assert (0 < 2 ^ (- e)) by (apply Z.pow_pos_nonneg; lia).
  assert ((if decide (0 <= e) then Zpos m * 2 ^ e else Zpos m / 2 ^ (- e)) = Z.abs a) as ->.
  { assert (Zpos m = Z.abs a * 2 ^ (- e)) as -> by (destruct s; cbn in Hm; lia).
    case_decide; [replace e with 0 by lia; cbn; lia|]. by apply Z_div_mult_full; lia. }
  assert ((if s then - Z.abs a else Z.abs a) = a) as -> by (destruct s; cbn in Hm; nia). by rewrite decide_True by lia.
Qed.
