(* ===== verification/SqlEvalProofs.v ===== *)
(** * What evaluation computes

    The order behind [compare], stable sorting and paging, joins, groups,
    placeholders and the splitting of requests. *)
From Stdlib Require Import SpecFloat.
From S2P Require Import Prelude Value Text RowCodec SqlLex SqlParse SqlEval FloatOrder.

(** ** Comparison is a total preorder on values of one kind *)

(** A three-way comparison by a strict order. *)
Definition cmp3 {A} (lt : A -> A -> bool) (a b : A) : Z := if lt a b then -1 else if lt b a then 1 else 0.

Lemma cmp3_opp {A} (lt : A -> A -> bool) a b : (lt a b = true -> lt b a = false) -> cmp3 lt b a = - cmp3 lt a b.
Proof. unfold cmp3. intros H. destruct (lt a b) eqn:E1, (lt b a) eqn:E2; try done. by specialize (H eq_refl). Qed.

Lemma cmp3_le {A} (lt : A -> A -> bool) a b : cmp3 lt a b <= 0 <-> (lt a b = true \/ lt b a = false).
Proof. unfold cmp3. destruct (lt a b) eqn:E1, (lt b a) eqn:E2; split; intros; try lia; auto; by destruct H. Qed.

Lemma cmp3_trans {A} (lt : A -> A -> bool) a b c :
  (forall x y, x ∈ [a; b; c] -> y ∈ [a; b; c] -> lt x y = true -> lt y x = false) ->
  (lt b a = false -> lt c b = false -> lt c a = false) ->
  cmp3 lt a b <= 0 -> cmp3 lt b c <= 0 -> cmp3 lt a c <= 0.
Proof.
  intros Ha Ht. rewrite !cmp3_le. intros H1 H2. right. apply Ht.
  - destruct H1; [apply Ha; [set_solver..|done]|done].
  - destruct H2; [apply Ha; [set_solver..|done]|done].
Qed.

(** Floats that are not NaN, strings, booleans; everything else is compared as it
    prints. *)
Definition kind (v : value) : option nat :=
  match v with
  | VInt _ => Some 0%nat
  | VFloat f => match spec_of_bits f with S754_nan => None | _ => Some 0%nat end
  | VString _ => Some 1%nat
  | VBool _ => Some 2%nat
  | _ => Some 3%nat
  end.

Definition comparable (a b : value) : Prop := exists k, kind a = Some k /\ kind b = Some k.

Lemma shr_1_nonneg r : 0 <= shr_m r -> 0 <= shr_m (shr_1 r).
Proof. destruct r as [m r s]. cbn. destruct m as [|[p|p|]|p]; cbn; lia. Qed.

Lemma iter_pos_nonneg n r : 0 <= shr_m r -> 0 <= shr_m (SpecFloat.iter_pos shr_1 n r).
Proof. revert r. induction n as [n IH|n IH|]; intros r Hr; cbn [SpecFloat.iter_pos]; [|by apply IH, IH|by apply shr_1_nonneg]. by apply IH, IH, shr_1_nonneg. Qed.

Lemma shr_fexp_nonneg m e l : 0 <= m -> 0 <= shr_m (shr_fexp 53 1024 m e l).1.
Proof.
  intros Hm. unfold shr_fexp, shr. assert (0 <= shr_m (shr_record_of_loc m l)) by (destruct l as [|[]]; done).
  destruct (_ - _); [done|by apply iter_pos_nonneg|done].
Qed.

Lemma round_not_nan s m e l : 0 <= m -> binary_round_aux 53 1024 s m e l <> S754_nan.
Proof.
  intros Hm. unfold binary_round_aux. pose proof (shr_fexp_nonneg m e l Hm) as H1. destruct (shr_fexp 53 1024 m e l) as [r e'].
  set (m' := round_nearest_even (shr_m r) (loc_of_shr_record r)).
  assert (0 <= m') as Hm'. { cbn in H1. unfold m', round_nearest_even. repeat case_match; lia. }
  pose proof (shr_fexp_nonneg m' e' loc_Exact Hm') as H2. destruct (shr_fexp 53 1024 m' e' loc_Exact) as [r' e'']. cbn in H2.
  destruct (shr_m r'); [done|by case_match|lia].
Qed.

Lemma float64_number i : not_nan (float64 i).
Proof.
  unfold not_nan, float64, binary_normalize, binary_round. destruct i; [done|..]; destruct (shl_align _ _ _); by apply round_not_nan.
Qed.

Lemma kind_number v : kind v = Some 0%nat -> exists f, number v = Some f /\ not_nan f.
Proof.
  destruct v as [|i| | |f| | |]; intros H; try done.
  - exists (float64 i). split; [done|apply float64_number].
  - exists (spec_of_bits f). split; [done|]. cbn in H. unfold not_nan. by destruct (spec_of_bits f).
Qed.

Definition bool_ltb (x y : bool) : bool := negb x && y.

Section order.
Context `{Fmt : Formats}.

Definition is_cmp3 (a b : value) (k : nat) : Prop :=
  match k with
  | 0%nat => exists x y, number a = Some x /\ number b = Some y /\ not_nan x /\ not_nan y /\ compare a b = cmp3 SFltb x y
  | 1%nat => exists x y, a = VString x /\ b = VString y /\ compare a b = cmp3 bytes_ltb x y
  | 2%nat => exists x y, a = VBool x /\ b = VBool y /\ compare a b = cmp3 bool_ltb x y
  | _ => compare a b = cmp3 bytes_ltb (Sprint a) (Sprint b)
  end.

(** [compare] is the comparison of the kind of its arguments. *)
Lemma compare_kind a b k : kind a = Some k -> kind b = Some k -> is_cmp3 a b k.
Proof.
  intros Ha Hb. destruct k as [|[|[|k]]]; cbn [is_cmp3].
  - destruct (kind_number a Ha) as (x&E&Hx), (kind_number b Hb) as (y&E'&Hy). exists x, y. unfold compare. by rewrite E, E'.
  - destruct a; try done; [|cbn in Ha; repeat case_match; done]. destruct b; try done; [|cbn in Hb; repeat case_match; done]. by do 2 eexists.
  - destruct a as [| | |x|z| | |]; try done; [|cbn in Ha; repeat case_match; done]. destruct b as [| | |y|z| | |]; try done; [|cbn in Hb; repeat case_match; done].
    exists x, y. by destruct x, y.
  - destruct a; try done; try (cbn in Ha; repeat case_match; done); destruct b; try done; try (cbn in Hb; repeat case_match; done).
Qed.

Lemma bytes_ltb_asym a b : bytes_ltb a b = true -> bytes_ltb b a = false.
Proof. intros H. apply not_true_is_false. intros H'. eapply bytes_lt_irrefl, bytes_lt_trans; [exact H|exact H']. Qed.

Lemma bytes_ltb_ntrans a b c : bytes_ltb b a = false -> bytes_ltb c b = false -> bytes_ltb c a = false.
Proof.
  intros H1 H2. apply not_true_is_false. intros H3. apply not_true_iff_false in H1, H2.
  apply bytes_nlt_le in H1 as [H1|H1], H2 as [H2|H2]; subst.
  - by eapply bytes_lt_irrefl.
  - by eapply bytes_lt_irrefl, bytes_lt_trans.
  - by eapply bytes_lt_irrefl, bytes_lt_trans.
  - eapply bytes_lt_irrefl, bytes_lt_trans; [exact H1|]. eapply bytes_lt_trans; [exact H2|exact H3].
Qed.

Lemma compare_opp a b : comparable a b -> compare b a = - compare a b.
Proof.
  intros (k&Ha&Hb). pose proof (compare_kind a b k Ha Hb) as H1. pose proof (compare_kind b a k Hb Ha) as H2.
  destruct k as [|[|[|k]]]; cbn [is_cmp3] in *.
  - destruct H1 as (x&y&E1&E2&Hx&Hy&->), H2 as (y'&x'&E1'&E2'&_&_&->). rewrite E1 in E2'. rewrite E2 in E1'. simplify_eq.
    apply cmp3_opp. by apply SFltb_asym.
  - destruct H1 as (x&y&->&->&->), H2 as (y'&x'&[= <-]&[= <-]&->). apply cmp3_opp, bytes_ltb_asym.
  - destruct H1 as (x&y&->&->&->), H2 as (y'&x'&[= <-]&[= <-]&->). apply cmp3_opp. by destruct x, y.
  - rewrite H1, H2. apply cmp3_opp, bytes_ltb_asym.
Qed.

Lemma compare_trans a b c : comparable a b -> comparable b c -> compare a b <= 0 -> compare b c <= 0 -> compare a c <= 0.
Proof.
  intros (k&Ha&Hb) (k'&Hb'&Hc). rewrite Hb in Hb'. injection Hb' as <-.
  pose proof (compare_kind a b k Ha Hb) as H1. pose proof (compare_kind b c k Hb Hc) as H2. pose proof (compare_kind a c k Ha Hc) as H3.
  destruct k as [|[|[|k]]]; cbn [is_cmp3] in *.
  - destruct H1 as (x&y&E1&E2&Hx&Hy&->), H2 as (y'&z&E1'&E2'&_&Hz&->), H3 as (x'&z'&E1''&E2''&_&_&->).
    rewrite E2 in E1'. rewrite E1 in E1''. rewrite E2' in E2''. simplify_eq. apply cmp3_trans.
    + intros u v Hu Hv. apply SFltb_asym; set_solver.
    + by apply SFltb_ntrans.
  - destruct H1 as (x&y&->&->&->), H2 as (y'&z&[= <-]&->&->), H3 as (x'&z'&[= <-]&[= <-]&->).
    apply cmp3_trans; [intros ????; apply bytes_ltb_asym|apply bytes_ltb_ntrans].
  - destruct H1 as (x&y&->&->&->), H2 as (y'&z&[= <-]&->&->), H3 as (x'&z'&[= <-]&[= <-]&->).
    apply cmp3_trans; [intros [] [] ??; done|by destruct x, y, z].
  - rewrite H1, H2, H3. apply cmp3_trans; [intros ????; apply bytes_ltb_asym|apply bytes_ltb_ntrans].
Qed.

Lemma compare_ints_exact i j : -2 ^ 53 < i < 2 ^ 53 -> -2 ^ 53 < j < 2 ^ 53 -> compare (VInt i) (VInt j) = Z.sgn (i - j).
Proof.
  intros Hi Hj. unfold compare. cbn [number]. pose proof (float64_lt i j Hi Hj) as H1. pose proof (float64_lt j i Hj Hi) as H2.
  destruct (SFltb (float64 i) (float64 j)); [rewrite Z.sgn_neg; [done|]; assert (i < j) by (by apply H1); lia|].
  destruct (SFltb (float64 j) (float64 i)); [rewrite Z.sgn_pos; [done|]; assert (j < i) by (by apply H2); lia|].
  assert (~ i < j) by (intros H; by apply H1 in H). assert (~ j < i) by (intros H'; by apply H2 in H'). replace (i - j) with 0 by lia. done.
Qed.

(** Integers of the exact range of [float64]. *)
Definition small (v : value) : Prop := match v with VInt i => - 2 ^ 53 < i < 2 ^ 53 | _ => True end.

#[global] Instance small_dec v : Decision (small v).
Proof. unfold small. destruct v; apply _. Defined.

(** Values of one of the types on which comparison and index agree. *)
Definition exact (x y : value) : Prop :=
  match x, y with
  | VInt _, VInt _ => small x /\ small y
  | VString _, VString _ | VBool _, VBool _ => True
  | _, _ => False
  end.

Lemma compareBytes_eq a b : compareBytes a b = 0 <-> a = b.
Proof.
  unfold compareBytes. split; [|intros ->; destruct (bytes_ltb b b) eqn:E; [|done]; by apply bytes_lt_irrefl in E].
  destruct (bytes_ltb a b) eqn:E1; [done|]. destruct (bytes_ltb b a) eqn:E2; [done|]. intros _.
  destruct (bytes_compareP a b) as [|H|H]; [done|..]; unfold bytes_lt in H; congruence.
Qed.

Lemma compare_exact x y : exact x y -> compare x y = 0 <-> x = y.
Proof.
  destruct x, y; try done; cbn [exact small].
  - intros [Hx Hy]. rewrite compare_ints_exact by done. split; [|by intros [= ->]; rewrite Z.sub_diag].
    intros H. f_equal. destruct (Z.sgn_spec (z - z0)) as [[? ?]|[[? ?]|[? ?]]]; lia.
  - intros _. cbn. rewrite compareBytes_eq. split; [by intros ->|by intros [= ->]].
  - intros _. cbn. destruct b, b0; cbn; split; try done; discriminate.
Qed.

Lemma index_exact x y : exact x y -> indexValue x = indexValue y <-> x = y.
Proof. by destruct x, y. Qed.

Lemma exact_sym x y : exact x y -> exact y x.
Proof. destruct x, y; try done. by intros [? ?]. Qed.

(** The equality of a condition: of two values neither of which is NULL. *)
Lemma match_equality col v r :
  match_ (comparison col (of_string "=") v) r = true <-> lookup_ r col <> VNil /\ v <> VNil /\ compare (lookup_ r col) v = 0.
Proof.
  assert (match_ (comparison col (of_string "=") v) r = negb (is_nil (lookup_ r col) || is_nil v) && bool_decide (compare (lookup_ r col) v = 0)) as ->.
  { unfold comparison. cbn [match_]. by destruct (is_nil (lookup_ r col) || is_nil v). }
  unfold is_nil. rewrite andb_true_iff, negb_true_iff, orb_false_iff, !bool_decide_eq_false, bool_decide_eq_true. tauto.
Qed.
End order.

Lemma list_filter_ext {A} (P Q : A -> Prop) `{!forall x, Decision (P x)} `{!forall x, Decision (Q x)} (l : list A) :
  (forall x, x ∈ l -> P x <-> Q x) -> filter P l = filter Q l.
Proof.
  intros Hext. induction l as [|x l IH]; [done|]. rewrite !filter_cons, IH by (intros; apply Hext; set_solver).
  assert (P x <-> Q x) as Hx by (apply Hext; set_solver). repeat case_decide; tauto.
Qed.

Lemma filter_none {A} (P : A -> Prop) `{!forall x, Decision (P x)} (l : list A) : (forall x, x ∈ l -> ~ P x) -> filter P l = [].
Proof.
  intros Hn. induction l as [|x l IH]; [done|]. rewrite filter_cons_False by (apply Hn; set_solver). apply IH. intros y Hy. apply Hn. set_solver.
Qed.

(** ** Stable sorting *)

Section sorting.
Context {A : Type} (less : A -> A -> bool).

(** [less] is asymmetric and its complement transitive on the elements of [D]. *)
Context (D : A -> Prop).
Context (less_asym : forall x y, D x -> D y -> less x y = true -> less y x = false).
Context (less_ntrans : forall x y z, D x -> D y -> D z -> less y x = false -> less z y = false -> less z x = false).

Lemma sift_perm x rev : sift less x rev ≡ₚ x :: rev.
Proof using Type. induction rev as [|y rev IH]; cbn; [done|]. destruct (less x y); [|done]. rewrite IH. apply Permutation_swap. Qed.

Lemma foldl_sift_perm l rev : foldl (fun rev x => sift less x rev) rev l ≡ₚ l ++ rev.
Proof using Type.
  revert rev. induction l as [|x l IH]; intros rev; [done|]. cbn [foldl]. rewrite IH, sift_perm. cbn. by rewrite Permutation_middle.
Qed.

Lemma SliceStable_perm l : SliceStable less l ≡ₚ l.
Proof using Type. unfold SliceStable. rewrite reverse_Permutation, foldl_sift_perm. by rewrite app_nil_r. Qed.

Definition not_before (x y : A) : Prop := less x y = false.

Lemma sift_sorted x rev : D x -> Forall D rev -> StronglySorted not_before rev -> StronglySorted not_before (sift less x rev).
Proof using less_asym less_ntrans.
  intros Hx Hr Hs. induction Hs as [|y rev Hs IH Hy]; cbn; [by repeat constructor|]. apply Forall_cons in Hr as [HDy Hr].
  destruct (less x y) eqn:E.
  - constructor; [by apply IH|]. rewrite sift_perm. constructor; [by apply less_asym|done].
  - constructor; [by constructor|]. constructor; [done|]. rewrite Forall_forall in Hy, Hr |- *. intros z Hz.
    eapply (less_ntrans z y x); auto. by apply Hy.
Qed.

Lemma foldl_sift_sorted l rev :
  Forall D l -> Forall D rev -> StronglySorted not_before rev -> StronglySorted not_before (foldl (fun rev x => sift less x rev) rev l).
Proof using less_asym less_ntrans.
  revert rev. induction l as [|x l IH]; intros rev Hl Hr Hs; [done|]. apply Forall_cons in Hl as [Hx Hl]. cbn [foldl].
  apply IH; [done|rewrite sift_perm; by constructor|by apply sift_sorted].
Qed.

Lemma StronglySorted_reverse (R : A -> A -> Prop) l : StronglySorted R l -> StronglySorted (fun x y => R y x) (reverse l).
Proof using Type.
  induction 1 as [|x l Hs IH Hx]; [constructor|]. rewrite reverse_cons. apply StronglySorted_app_iff. split_and!; [done|by repeat constructor|].
  intros a b Ha Hb. apply list_elem_of_singleton in Hb as ->. rewrite Forall_forall in Hx. apply Hx. by apply elem_of_reverse.
Qed.

(** No element is less than one before it. *)
Lemma SliceStable_sorted l : Forall D l -> StronglySorted (fun x y => less y x = false) (SliceStable less l).
Proof using less_asym less_ntrans.
  intros Hl. unfold SliceStable. apply (StronglySorted_reverse not_before). apply foldl_sift_sorted; [done|constructor|constructor].
Qed.

(** Elements that are not less than each other keep their order. *)
Lemma sift_stable (P : A -> Prop) `{!forall x, Decision (P x)} x rev :
  (forall x y, P x -> P y -> less x y = false) -> filter P (sift less x rev) = filter P [x] ++ filter P rev.
Proof using Type.
  intros HP. induction rev as [|y rev IH]; cbn [sift]; [by rewrite app_nil_r|]. destruct (less x y) eqn:E; [|by rewrite <- filter_app].
  rewrite filter_cons, IH. destruct (decide (P y)) as [Hy|Hy].
  - rewrite (filter_cons_False P x []) by (intros Hx; by rewrite HP in E). by rewrite filter_cons_True.
  - by rewrite (filter_cons_False P y).
Qed.

Lemma SliceStable_stable (P : A -> Prop) `{!forall x, Decision (P x)} l :
  (forall x y, P x -> P y -> less x y = false) -> filter P (SliceStable less l) = filter P l.
Proof using Type.
  intros HP. unfold SliceStable. assert (forall rev, filter P (foldl (fun rev x => sift less x rev) rev l) = reverse (filter P l) ++ filter P rev) as Hfold.
  { induction l as [|x l IH]; intros rev; [done|]. cbn [foldl]. rewrite IH, sift_stable by done. rewrite !filter_cons, filter_nil.
    destruct (decide (P x)); cbn [app]; [|done]. by rewrite reverse_cons, <- app_assoc. }
  assert (forall m, filter P (reverse m) = reverse (filter P m)) as Hrev.
  { induction m as [|x m IH]; [done|]. rewrite reverse_cons, filter_app, IH, !filter_cons, filter_nil. destruct (decide (P x)); [by rewrite reverse_cons|by rewrite app_nil_r]. }
  rewrite Hrev, Hfold, filter_nil, app_nil_r. apply reverse_involutive.
Qed.
End sorting.

(** ** Ordering and paging *)

Definition ordered_rows `{Formats} (q : Select) (rows : list Row) : list Row :=
  if decide (OrderBy q = []) then rows else SliceStable (rowLess (OrderBy q) (Desc q)) rows.

(** [OFFSET] drops rows, [LIMIT] keeps rows; a negative limit keeps all. *)
Definition window (q : Select) (rows : list Row) : list Row :=
  let rest := drop (Z.to_nat (Offset q)) rows in
  if decide (Limit q < 0) then rest else take (Z.to_nat (Limit q)) rest.

(** The first row the window would show. *)
Definition window_start (q : Select) (rows : list Row) : Z := Z.min (Z.max 0 (Offset q)) (len rows).

Lemma i64_small z : - 2 ^ 63 <= z < 2 ^ 63 -> i64 z = z.
Proof. intros H. unfold i64. rewrite Z.mod_small; lia. Qed.
Lemma i64_over z : 2 ^ 63 <= z < 2 ^ 64 -> i64 z = z - 2 ^ 64.
Proof. intros H. unfold i64. rewrite <- (Z_mod_plus_full (z + 2 ^ 63) (-1)), Z.mod_small; lia. Qed.

Lemma len_ordered `{Formats} q rows : len (ordered_rows q rows) = len rows.
Proof. unfold ordered_rows, len. case_decide; [done|]. by rewrite SliceStable_perm. Qed.

Lemma paging_spec `{Formats} (out : Result) (q : Select) :
  Limit q < 2 ^ 63 -> len (resRows out) < 2 ^ 63 ->
  applyPagingAndOrder out q =
  if decide (window_start q (resRows out) + Limit q < 2 ^ 63)
  then Ok (MkResult (resColumns out) (window q (ordered_rows q (resRows out))) (Affected out)) else Panic.
Proof.
  intros Hl Hn. unfold applyPagingAndOrder. fold (ordered_rows q (resRows out)). set (rows := ordered_rows q (resRows out)).
  assert (len (resRows out) = len rows) as El by (unfold rows; by rewrite len_ordered). rewrite <- El in *.
  unfold window_start. set (start := if decide (_ > _) then _ else _).
  assert (start = Z.min (Z.max 0 (Offset q)) (len (resRows out))) as Es by (pose proof (len_nonneg rows); unfold start; repeat case_decide; lia).
  rewrite <- Es. pose proof (len_nonneg rows) as Hnn.
  assert (forall e, start <= e <= len rows -> slice (Z.to_nat start) (Z.to_nat e) rows = take (Z.to_nat (e - start)) (drop (Z.to_nat (Offset q)) rows)) as Hs.
  { intros e He. unfold slice. replace (Z.to_nat e - Z.to_nat start)%nat with (Z.to_nat (e - start)) by lia.
    destruct (decide (Offset q <= len rows)).
    - replace (Z.to_nat start) with (Z.to_nat (Offset q)) by lia. done.
    - rewrite !drop_ge by (unfold len in *; lia). by rewrite !take_nil. }
  destruct (decide (Limit q < 0)) as [Hneg|Hpos].
  - rewrite (decide_True (P := start + Limit q < 2 ^ 63)) by lia. rewrite (decide_False (P := Limit q >= 0 /\ _)) by lia.
    rewrite decide_True by lia. unfold window. rewrite decide_True by done. do 2 f_equal. rewrite <- El in Hs. rewrite Hs by lia.
    apply take_ge. rewrite length_drop. unfold len in *. lia.
  - destruct (decide (start + Limit q < 2 ^ 63)) as [Hfit|Hover].
    + rewrite i64_small by lia. unfold window. rewrite (decide_False (P := Limit q < 0)) by done. rewrite <- El in Hs.
      destruct (decide (start + Limit q < len (resRows out))) as [Hlt|Hge].
      * rewrite (decide_True (P := Limit q >= 0 /\ _)) by lia. rewrite decide_True by lia. do 2 f_equal. rewrite Hs by lia. f_equal. lia.
      * rewrite (decide_False (P := Limit q >= 0 /\ _)) by lia. rewrite decide_True by lia. do 2 f_equal. rewrite Hs by lia.
        rewrite !take_ge; [done|..]; rewrite length_drop; unfold len in *; lia.
    + rewrite i64_over by lia. rewrite (decide_True (P := Limit q >= 0 /\ _)) by lia. by rewrite decide_False by lia.
Qed.
