(* ===== verification/SqlQuery.v ===== *)
(** * Queries: ordering, paging, joins and groups

    The theorems about [applyPagingAndOrder], [joinRows] and [groupRows], with the
    queries on which the program departs from what they promise. *)
From Stdlib Require Import SpecFloat.
From S2P Require Import Prelude Value Text RowCodec SqlLex SqlParse SqlEval FloatOrder SqlEvalProofs.

(** ** ORDER BY *)

Section ordering.
Context `{Fmt : Formats}.

(** The column holds values of one kind. *)
Definition one_kind (col : bytes) (rows : list Row) : Prop := exists k, Forall (fun r => kind (field col r) = Some k) rows.

Lemma rowLess_asym col desc k a b :
  kind (field col a) = Some k -> kind (field col b) = Some k -> rowLess col desc a b = true -> rowLess col desc b a = false.
Proof.
  intros Ha Hb. unfold rowLess. rewrite (compare_opp (field col a) (field col b)) by (by exists k).
  destruct desc; intros H%bool_decide_eq_true_1; apply bool_decide_eq_false_2; lia.
Qed.

Lemma rowLess_ntrans col desc k a b c :
  kind (field col a) = Some k -> kind (field col b) = Some k -> kind (field col c) = Some k ->
  rowLess col desc b a = false -> rowLess col desc c b = false -> rowLess col desc c a = false.
Proof.
  intros Ha Hb Hc. unfold rowLess. set (x := field col a) in *. set (y := field col b) in *. set (z := field col c) in *.
  pose proof (compare_opp x y ltac:(by exists k)) as O1. pose proof (compare_opp y z ltac:(by exists k)) as O2.
  pose proof (compare_opp x z ltac:(by exists k)) as O3.
  destruct desc; intros H1%bool_decide_eq_false_1 H2%bool_decide_eq_false_1; apply bool_decide_eq_false_2; intros H3.
  - pose proof (compare_trans z y x ltac:(by exists k) ltac:(by exists k)). lia.
  - pose proof (compare_trans x y z ltac:(by exists k) ltac:(by exists k)). lia.
Qed.

(** The window of a stable sort. *)
Definition sorts (q : Select) (rows sorted : list Row) : Prop :=
  sorted ≡ₚ rows /\ StronglySorted (fun a b => rowLess (OrderBy q) (Desc q) b a = false) sorted /\
  (forall r, r ∈ rows -> filter (fun r' => compare (field (OrderBy q) r) (field (OrderBy q) r') = 0) sorted =
                         filter (fun r' => compare (field (OrderBy q) r) (field (OrderBy q) r') = 0) rows).

Lemma compare_eq_trans k a b c : kind a = Some k -> kind b = Some k -> kind c = Some k -> compare a b = 0 -> compare a c = 0 -> compare b c = 0.
Proof.
  intros Ha Hb Hc H1 H2. pose proof (compare_opp a b ltac:(by exists k)). pose proof (compare_opp a c ltac:(by exists k)).
  pose proof (compare_opp b c ltac:(by exists k)). pose proof (compare_trans b a c ltac:(by exists k) ltac:(by exists k)).
  pose proof (compare_trans c a b ltac:(by exists k) ltac:(by exists k)). lia.
Qed.

Lemma ordered_sorts q rows : OrderBy q <> [] -> one_kind (OrderBy q) rows -> sorts q rows (ordered_rows q rows).
Proof.
  intros Ho [k Hk]. unfold ordered_rows. rewrite decide_False by done. split_and!; [apply SliceStable_perm| |].
  - apply (SliceStable_sorted _ (fun r => kind (field (OrderBy q) r) = Some k)); [|..|done]; intros *.
    + by apply rowLess_asym.
    + by apply rowLess_ntrans.
  - intros r Hr. rewrite Forall_forall in Hk.
    set (P := fun r' => kind (field (OrderBy q) r') = Some k /\ compare (field (OrderBy q) r) (field (OrderBy q) r') = 0).
    assert (forall l, Forall (fun r => kind (field (OrderBy q) r) = Some k) l ->
      filter (fun r' => compare (field (OrderBy q) r) (field (OrderBy q) r') = 0) l = filter P l) as HP.
    { intros l Hl. apply list_filter_ext. rewrite Forall_forall in Hl. intros x Hx. unfold P. split; [intros ?; split; auto|by intros [_ ?]]. }
    rewrite !HP; [|by apply Forall_forall|rewrite SliceStable_perm; by apply Forall_forall].
    apply SliceStable_stable. intros x y [Hx1 Hx2] [Hy1 Hy2]. unfold rowLess.
    rewrite (compare_eq_trans k (field (OrderBy q) r)) by auto. by destruct (Desc q).
Qed.
End ordering.

(** C27: [ORDER BY] and paging: the result is the window that [OFFSET] and [LIMIT] cut
    out of a stable sort of the rows by the column; with no [ORDER BY] it is the
    window of the rows as they are. Conditions: the values of the [ORDER BY] column
    are of one kind (numbers other than NaN, or strings, or booleans, or NULLs, byte
    strings and times; no NULL among numbers, strings or booleans), and the first row
    of the window plus [LIMIT] is below 2^63 (otherwise C32). *)
Theorem order_by_window `{Fmt : Formats} (out : Result) (q : Select)
  (Hlen : len (resRows out) < 2 ^ 63) (Hlimit : window_start q (resRows out) + Limit q < 2 ^ 63) (Hkind : OrderBy q <> [] -> one_kind (OrderBy q) (resRows out)) :
  exists sorted, applyPagingAndOrder out q = Ok (MkResult (resColumns out) (window q sorted) (Affected out)) /\
    (if decide (OrderBy q = []) then sorted = resRows out else sorts q (resRows out) sorted).
Proof.
  exists (ordered_rows q (resRows out)). pose proof (len_nonneg (resRows out)). split.
  - rewrite paging_spec by (unfold window_start in Hlimit; lia). by rewrite decide_True.
  - case_decide as Ho; [unfold ordered_rows; by rewrite decide_True|]. by apply ordered_sorts; [|apply Hkind].
Qed.

(** The rows 3, 1, 2 in descending order, without the first. *)
Definition demo_rows : list Row := (fun n => {[of_string "n" := VInt n]}) <$> [3; 1; 2].
Definition demo_page : Select := MkSelect [of_string "n"] (of_string "t") None (of_string "n") true 5 1 [] [] [] [].

#[global] Instance demo_formats : Formats := {| fmt_float := fun _ => []; fmt_time := fun _ _ => [] |}.

Lemma order_by_window_witness :
  applyPagingAndOrder (MkResult [of_string "n"] demo_rows 0) demo_page =
    Ok (MkResult [of_string "n"] ((fun n => {[of_string "n" := VInt n]}) <$> [2; 1]) 0) /\
  exists sorted, applyPagingAndOrder (MkResult [of_string "n"] demo_rows 0) demo_page =
      Ok (MkResult [of_string "n"] (window demo_page sorted) 0) /\ sorts demo_page demo_rows sorted.
Proof.
  split; [vm_compute; reflexivity|].
  apply (order_by_window (MkResult [of_string "n"] demo_rows 0) demo_page); [vm_compute; reflexivity|vm_compute; reflexivity|].
  intros _. exists 0%nat. apply (bool_decide_eq_true_1 _). vm_compute. reflexivity.
Defined.



(** ** Joins *)

Section joins.
Context `{Fmt : Formats}.

(** Join values on which the hash and the comparison agree: two integers below 2^53
    in absolute value, two strings or two booleans, or exactly one of them NULL. *)
Definition joinable (x y : value) : Prop := (x = VNil /\ y <> VNil) \/ (x <> VNil /\ y = VNil) \/ exact x y.

Lemma joinBuckets_spec right_ jr k :
  default [] (joinBuckets right_ jr !! k) = filter (fun b => indexValue (lookup_ b right_) = k) jr.
Proof using Type.
  unfold joinBuckets. induction jr as [|b jr IH] using rev_ind; [done|]. rewrite foldl_app, filter_app. cbn [foldl].
  destruct (decide (indexValue (lookup_ b right_) = k)) as [<-|Hne].
  - rewrite lookup_insert_eq. cbn [default from_option id]. rewrite IH. by rewrite filter_cons_True.
  - rewrite lookup_insert_ne by done. rewrite IH, filter_cons_False, filter_nil by done. by rewrite app_nil_r.
Qed.

Lemma joinable_match q a b :
  joinable (lookup_ a (JoinLeft q)) (lookup_ b (JoinRight q)) ->
  (compare (lookup_ a (JoinLeft q)) (lookup_ b (JoinRight q)) = 0 /\ indexValue (lookup_ b (JoinRight q)) = indexValue (lookup_ a (JoinLeft q))) <->
  match_ (comparison (JoinRight q) (of_string "=") (lookup_ a (JoinLeft q))) b = true.
Proof.
  rewrite match_equality. set (x := lookup_ a (JoinLeft q)). set (y := lookup_ b (JoinRight q)). intros [[-> Hy]|[[Hx ->]|He]].
  - split; [|by intros (_&?&_)]. intros [_ E]. by destruct y.
  - split; [|by intros (?&_&_)]. intros [_ E]. by destruct x.
  - pose proof (exact_sym _ _ He) as He'. rewrite (compare_exact _ _ He), (index_exact _ _ He'), (compare_exact _ _ He').
    split; [|naive_solver]. intros [E _]. split_and!; [by destruct x, y|by destruct x, y|done].
Qed.
End joins.

(** C26: the hash join is the join of the SQL condition [left = right]: it returns what
    a nested loop over both tables returns that keeps the pairs on which a [WHERE]
    equality is true, in the same order. Condition: any two join values of the two
    tables are integers below 2^53 in absolute value, or strings, or booleans, or
    exactly one of them is NULL. Where it fails the join differs ([join_nulls]): NULLs
    on both sides are joined, and an [INT] is never joined with a [FLOAT]. *)
Theorem join_nested_loop `{Fmt : Formats} (q : Select) (rows jr : list Row)
  (Hj : forall a b, a ∈ rows -> b ∈ jr -> joinable (lookup_ a (JoinLeft q)) (lookup_ b (JoinRight q))) :
  joinRows q rows jr =
  rows ≫= fun a => mergeRows (JoinTable q) a <$>
    filter (fun b => match_ (comparison (JoinRight q) (of_string "=") (lookup_ a (JoinLeft q))) b = true) jr.
Proof.
  unfold joinRows. induction rows as [|a rows IH]; [done|]. cbn [mbind list_bind]. f_equal; [|apply IH; intros; apply Hj; [by right|done]].
  rewrite joinBuckets_spec, list_filter_filter. f_equal. apply list_filter_ext. intros b Hb.
  rewrite <- joinable_match by (apply Hj; [by left|done]). tauto.
Qed.

Definition demo_join : Select := MkSelect [] [] None [] false (-1) 0 [] (of_string "o") (of_string "id") (of_string "o.user").

Lemma join_nested_loop_witness :
  let users : list Row := [ {[of_string "id" := VInt 1]}; {[of_string "id" := VInt 2]} ] in
  let orders : list Row := [ {[of_string "user" := VInt 2]}; {[of_string "user" := VNil]}; {[of_string "user" := VInt 2]} ] in
  joinRows demo_join users orders =
  users ≫= fun a => mergeRows (JoinTable demo_join) a <$>
    filter (fun b => match_ (comparison (JoinRight demo_join) (of_string "=") (lookup_ a (JoinLeft demo_join))) b = true) orders.
Proof.
  intros users orders. apply (join_nested_loop demo_join users orders). intros a b Ha Hb.
  repeat (apply elem_of_cons in Ha as [->|Ha]; [|]); [..|by apply elem_of_nil in Ha];
    (repeat (apply elem_of_cons in Hb as [->|Hb]; [|]); [..|by apply elem_of_nil in Hb]);
    first [right; right; split; vm_compute; split; congruence | right; left; split; vm_compute; congruence].
Defined.

(** NULL joins with NULL, although [=] in a condition is false of NULLs; and an
    [int] never joins with a [float64], although they compare equal there. *)
Theorem join_nulls :
  let q := MkSelect [] [] None [] false 0 0 [] (of_string "b") (of_string "x") (of_string "y") in
  let row (c : string) (v : value) : Row := {[of_string c := v]} in
  length (joinRows q [row "x"%string VNil] [row "y"%string VNil]) = 1%nat /\
  match_ (comparison (of_string "x") (of_string "=") VNil) (row "x"%string VNil) = false /\
  joinRows q [row "x"%string (VInt 1)] [row "y"%string (VFloat (float64_of_int 1))] = [] /\
  match_ (comparison (of_string "x") (of_string "=") (VFloat (float64_of_int 1))) (row "x"%string (VInt 1)) = true.
Proof. split_and!; vm_compute; reflexivity. Qed.

(** ** Groups *)

Section groups.
Context `{Syn : GoSyntax}.

(** Distinct keys, and each group holds the rows with its key in their order. *)
Definition partitions (cols : list bytes) (rows : list Row) (gs : list (bytes * list Row)) : Prop :=
  NoDup gs.*1 /\ (forall k g, (k, g) ∈ gs -> g = filter (fun r => groupKey cols r = k) rows /\ g <> []) /\
  (forall r, r ∈ rows -> groupKey cols r ∈ gs.*1).

Lemma addToGroups_spec cols rows gs r : partitions cols rows gs -> partitions cols (rows ++ [r]) (addToGroups cols gs r).
Proof.
  intros (Hd&Hg&Hr). unfold addToGroups. set (key := groupKey cols r).
  assert (forall k, filter (fun r => groupKey cols r = k) (rows ++ [r]) =
    filter (fun r => groupKey cols r = k) rows ++ if decide (key = k) then [r] else []) as Hf.
  { intros k. rewrite filter_app, filter_cons, filter_nil. done. }
  destruct (list_find (fun g => g.1 = key) gs) as [[i [k g]]|] eqn:E.
  - apply list_find_Some in E as (Hi&Hk&_). cbn in Hk. subst k. cbn [fst snd].
    assert ((<[i:=(key, g ++ [r])]> gs).*1 = gs.*1) as Hkeys.
    { rewrite list_fmap_insert. apply list_insert_id. rewrite list_lookup_fmap, Hi. done. }
    unfold partitions. rewrite Hkeys. split_and!; [done| |].
    + intros k g' Hin. rewrite Hf. apply list_elem_of_lookup in Hin as [j Hj]. destruct (decide (i = j)) as [<-|Hne].
      * rewrite list_lookup_insert_eq in Hj by (by eapply lookup_lt_Some). injection Hj as <- <-. rewrite decide_True by done.
        destruct (Hg key g) as [<- _]; [by eapply list_elem_of_lookup_2|]. split; [done|]. by destruct g.
      * rewrite list_lookup_insert_ne in Hj by done. destruct (Hg k g') as [<- Hne']; [by eapply list_elem_of_lookup_2|].
        rewrite decide_False; [by rewrite app_nil_r|]. intros <-. apply Hne.
        apply (NoDup_lookup gs.*1 i j key); [done|..]; rewrite list_lookup_fmap; [by rewrite Hi|by rewrite Hj].
    + intros r' [Hin|Hin]%elem_of_app; [by apply Hr|]. apply list_elem_of_singleton in Hin as ->. apply list_elem_of_fmap.
      exists (key, g). split; [done|]. by eapply list_elem_of_lookup_2.
  - apply list_find_None in E. rewrite Forall_forall in E.
    assert (key ∉ gs.*1) as Hnew. { intros Hin. apply list_elem_of_fmap in Hin as ([k g]&Ek&Hin). by apply (E _ Hin). }
    unfold partitions. rewrite fmap_app. cbn [fmap list_fmap fst]. split_and!.
    + apply NoDup_app. split_and!; [done| |apply NoDup_singleton]. intros x Hx Hx'. apply list_elem_of_singleton in Hx' as ->. done.
    + intros k g [Hin|Hin]%elem_of_app.
      * destruct (Hg k g Hin) as [Eg Hne]. rewrite Hf, decide_False, app_nil_r; [done|]. intros <-. apply Hnew. apply list_elem_of_fmap. by exists (key, g).
      * apply list_elem_of_singleton in Hin. injection Hin as -> ->. rewrite Hf, decide_True by done.
        assert (filter (fun r => groupKey cols r = key) rows = []) as ->; [|done].
        apply filter_none. intros x Hx Ex. apply Hnew. rewrite <- Ex. by apply Hr.
    + intros r' [Hin|Hin]%elem_of_app; [apply elem_of_app; left; by apply Hr|]. apply list_elem_of_singleton in Hin as ->. set_solver.
Qed.

Lemma groupRows_spec cols rows : partitions cols rows (groupRows cols rows).
Proof.
  unfold groupRows. induction rows as [|r rows IH] using rev_ind; [split_and!; [constructor|set_solver|set_solver]|].
  rewrite foldl_app. cbn [foldl]. by apply addToGroups_spec.
Qed.

Lemma addToGroups_perm cols gs r : concat (addToGroups cols gs r).*2 ≡ₚ concat gs.*2 ++ [r].
Proof.
  unfold addToGroups. destruct (list_find _ gs) as [[i [k g]]|] eqn:E.
  - apply list_find_Some in E as (Hi&_&_). cbn [fst snd]. rewrite <- (take_drop_middle gs i _ Hi) at 2.
    rewrite insert_take_drop by (by eapply lookup_lt_Some). rewrite !fmap_app, !concat_app. cbn [fmap list_fmap concat snd].
    rewrite <- !app_assoc. do 2 apply Permutation_app_head. apply Permutation_app_comm.
  - rewrite fmap_app, concat_app. cbn. done.
Qed.

Lemma groupRows_perm cols rows : concat (groupRows cols rows).*2 ≡ₚ rows.
Proof.
  unfold groupRows. induction rows as [|r rows IH] using rev_ind; [done|]. rewrite foldl_app. cbn [foldl]. by rewrite addToGroups_perm, IH.
Qed.
End groups.

(** C28: [GROUP BY] partitions the rows: every row is in exactly one group, the
    groups have distinct keys, and a group holds exactly the rows with its key in
    their order. *)
Theorem group_partition `{Syn : GoSyntax} (cols : list bytes) (rows : list Row) :
  partitions cols rows (groupRows cols rows) /\ concat (groupRows cols rows).*2 ≡ₚ rows.
Proof. split; [apply groupRows_spec|apply groupRows_perm]. Qed.

(** ** Smallest and largest values *)

Section extremes.
Context `{Fmt : Formats}.

Lemma best_spec (lo hi : bool) v0 vs k :
  lo = negb hi -> kind v0 = Some k -> Forall (fun v => kind v = Some k) vs ->
  best lo hi v0 vs ∈ v0 :: vs /\ kind (best lo hi v0 vs) = Some k /\
  forall v, v ∈ v0 :: vs -> if lo then compare (best lo hi v0 vs) v <= 0 else compare v (best lo hi v0 vs) <= 0.
Proof.
  intros -> Hk Hvs. revert v0 Hk. induction vs as [|x vs IH]; intros v0 Hk.
  - split_and!; [set_solver|done|]. intros v Hv. apply list_elem_of_singleton in Hv as ->.
    pose proof (compare_opp v0 v0 ltac:(by exists k)). destruct hi; cbn; lia.
  - apply Forall_cons in Hvs as [Hx Hvs]. unfold best. cbn [foldl].
    set (b1 := if _ || _ then x else v0). fold (best (negb hi) hi b1 vs).
    assert (kind b1 = Some k /\ b1 ∈ [v0; x] /\ forall v, v ∈ [v0; x] -> if negb hi then compare b1 v <= 0 else compare v b1 <= 0) as (Hb1&Hin1&Hle1).
    { pose proof (compare_opp v0 v0 ltac:(by exists k)). pose proof (compare_opp x x ltac:(by exists k)). pose proof (compare_opp x v0 ltac:(by exists k)).
      unfold b1. destruct hi; cbn [negb andb orb]; case_bool_decide; cbn [orb]; (split_and!; [done|set_solver|]; intros v Hv;
        apply elem_of_cons in Hv as [->|Hv]; [lia|]; apply list_elem_of_singleton in Hv as ->; lia). }
    destruct (IH Hvs b1 Hb1) as (Hin&Hkb&Hle). clearbody b1. split_and!; [clear -Hin Hin1; set_solver|done|].
    intros v Hv. destruct (decide (v ∈ vs)) as [Hvs'|Hvs']; [apply Hle; by right|].
    assert (v ∈ [v0; x]) as Hv2 by (clear -Hv Hvs'; set_solver). assert (kind v = Some k) as Hkv by (clear -Hv2 Hk Hx; set_solver).
    specialize (Hle1 v Hv2). specialize (Hle b1 ltac:(by left)).
    destruct hi; cbn [negb] in *.
    + by apply (compare_trans v b1); [exists k|exists k|..].
    + by apply (compare_trans _ b1); [exists k|exists k|..].
Qed.
End extremes.

(** ** Sums *)

(** No partial sum leaves the integers that a [float64] holds exactly. *)
Fixpoint sums_exact (acc : Z) (zs : list Z) : Prop :=
  match zs with
  | [] => True
  | z :: zs => - 2 ^ 53 < z < 2 ^ 53 /\ - 2 ^ 53 < acc + z < 2 ^ 53 /\ sums_exact (acc + z) zs
  end.

Definition total (zs : list Z) : Z := foldr Z.add 0 zs.

Lemma sumValues_ints expr acc zs :
  - 2 ^ 53 < acc < 2 ^ 53 -> sums_exact acc zs ->
  sumValues expr (float64 acc) (VInt <$> zs) = Ok (float64 (acc + total zs)) /\ - 2 ^ 53 < acc + total zs < 2 ^ 53.
Proof.
  revert acc. induction zs as [|z zs IH]; intros acc Ha Hs; cbn [fmap list_fmap sumValues total foldr] in *; [by rewrite Z.add_0_r|].
  destruct Hs as (Hz&Haz&Hs). cbn [number]. rewrite float64_add by done. fold (total zs). rewrite Z.add_assoc. by apply IH.
Qed.

Lemma allInts_ints zs : allInts (VInt <$> zs) = true.
Proof. by induction zs. Qed.

(** [SUM] of integers is their exact sum as long as every partial sum stays
    below [2 ^ 53] in absolute value, although it is computed in floating point. *)
Theorem sum_exact `{Fmt : Formats} (col expr : bytes) (zs : list Z) (Hne : zs <> []) (Hs : sums_exact 0 zs) :
  aggregateValue (of_string "SUM(" ++ col) expr (VInt <$> zs) = Ok (VInt (total zs)).
Proof.
  destruct (sumValues_ints expr 0 zs ltac:(lia) Hs) as [E Hb]. rewrite Z.add_0_l in *.
  unfold aggregateValue. change (HasPrefix (of_string "SUM(" ++ col) (of_string "COUNT")) with false. cbv iota.
  pose proof (allInts_ints zs) as Hints. assert (VInt <$> zs <> []) as Hvals by (by destruct zs).
  destruct (VInt <$> zs) as [|v0 vs]; [done|].
  change (HasPrefix (of_string "SUM(" ++ col) (of_string "MIN") || HasPrefix (of_string "SUM(" ++ col) (of_string "MAX")) with false. cbv iota.
  change (S754_zero false) with (float64 0). rewrite E. unfold mbind, outcome_bind.
  change (HasPrefix (of_string "SUM(" ++ col) (of_string "AVG")) with false. change (HasPrefix (of_string "SUM(" ++ col) (of_string "SUM")) with true.
  rewrite Hints. cbn [andb]. cbv iota zeta. by rewrite int_of_float64.
Qed.

Lemma sum_exact_witness :
  aggregateValue (of_string "SUM(n)") (of_string "SUM(n)") (VInt <$> [2 ^ 53 - 1; -7; 5]) = Ok (VInt (2 ^ 53 - 3)).
Proof. apply (sum_exact (of_string "n)") (of_string "SUM(n)") [2 ^ 53 - 1; -7; 5]); [discriminate|]. cbn. lia. Defined.

(** comparison of integers is exact below [2 ^ 53] in absolute value. *)
Theorem compare_ints `{Fmt : Formats} (i j : Z) (Hi : - 2 ^ 53 < i < 2 ^ 53) (Hj : - 2 ^ 53 < j < 2 ^ 53) :
  compare (VInt i) (VInt j) = Z.sgn (i - j).
Proof. by apply compare_ints_exact. Qed.

Lemma compare_ints_witness : compare (VInt (2 ^ 53 - 1)) (VInt (2 ^ 53 - 2)) = 1.
Proof. apply (compare_ints (2 ^ 53 - 1) (2 ^ 53 - 2)); lia. Defined.

(** from [2 ^ 53] on integers are confused: a condition on one of them also
    selects its neighbour, and a sum loses a unit. *)
Theorem large_ints_confused :
  match_ (comparison (of_string "id") (of_string "=") (VInt (2 ^ 53 + 1))) {[of_string "id" := VInt (2 ^ 53)]} = true /\
  aggregateValue (of_string "SUM(n)") (of_string "SUM(n)") [VInt (2 ^ 53); VInt 1] = Ok (VInt (2 ^ 53)).
Proof. split; vm_compute; reflexivity. Qed.

(** ** Columns that are not there *)

Definition demo_syntax : GoSyntax := Sprint.

(** [ORDER BY] a column that is not selected leaves the rows unsorted, and
    [GROUP BY] a qualified name puts all rows into one group. *)
Theorem order_and_group_by_projected :
  let people : list Row := [ {[of_string "name" := VString (of_string "b"); of_string "age" := VInt 30]};
                             {[of_string "name" := VString (of_string "a"); of_string "age" := VInt 20]} ] in
  let schema := MkSchema [MkCol (of_string "name") StringType; MkCol (of_string "age") IntType] ∅ in
  let query cols order group := MkSelect (of_string <$> cols) (of_string "people") None (of_string order) false (-1) 0 (of_string <$> group) [] [] [] in
  let run q := evalSelect (Text := AsciiText) (Syn := demo_syntax) schema q people in
  (resRows <$> match run (query ["name"] "age" [])%string with Ok r => Some r | _ => None end) =
    Some [ {[of_string "name" := VString (of_string "b")]}; {[of_string "name" := VString (of_string "a")]} ] /\
  (length ∘ resRows <$> match run (query ["COUNT(*)"] "" ["people.name"])%string with Ok r => Some r | _ => None end) = Some 1%nat /\
  (length ∘ resRows <$> match run (query ["COUNT(*)"] "" ["name"])%string with Ok r => Some r | _ => None end) = Some 2%nat.
Proof. split_and!; apply (bool_decide_eq_true_1 _); vm_compute; reflexivity. Qed.
