(* ===== verification/SqlRequest.v ===== *)
(** * Requests: placeholders and statement lists

    [bindStatement] on as many arguments as [countStatementParameters] asks for,
    and [splitStatements] on statements joined by semicolons. *)
From S2P Require Import Prelude Value Text RowCodec SqlLex SqlParse SqlEval.

(** ** Binding placeholders *)

(** Induction on conditions, through the optional children. *)
Lemma condition_ind (P : Condition -> Prop) :
  (forall col op v l r logic, (forall c, l = Some c -> P c) -> (forall c, r = Some c -> P c) -> P (MkCond col op v l r logic)) ->
  forall c, P c.
Proof.
  intros H. fix IH 1. intros [col op v l r logic]. apply H.
  - intros c E. destruct l as [l|]; [injection E as <-; apply IH|discriminate].
  - intros c E. destruct r as [r|]; [injection E as <-; apply IH|discriminate].
Qed.

Section binding.
Context (args : list value).

(** Every placeholder has an argument. *)
Definition in_range (v : value) : Prop := match v with VParam i => 0 <= i < len args | _ => True end.

Definition subst (v : value) : value :=
  match v with VParam i => default VNil (args !! Z.to_nat i) | _ => v end.

Lemma bindValue_ok v : in_range v -> bindValue args v = Ok (subst v).
Proof.
  intros Hv. destruct v as [| | | | | | |i]; try done. cbn in *. rewrite decide_True by lia.
  destruct (args !! Z.to_nat i) as [x|] eqn:E; [done|]. apply lookup_ge_None in E. unfold len in Hv. lia.
Qed.

Lemma bindValues_ok l : Forall in_range l -> bindValues args l = Ok (subst <$> l).
Proof.
  induction 1 as [|v l Hv Hl IH]; [done|]. cbn [bindValues]. rewrite bindValue_ok by done. unfold mbind, outcome_bind in *. by rewrite IH.
Qed.

(** A statement with its placeholders replaced in place: the value at every position
    (of a column in [VALUES], of an assigned column, of a comparison) is replaced by
    itself or its argument, everything else stays. *)
Fixpoint subst_cond (c : Condition) : Condition :=
  match c with
  | MkCond col op v l r logic =>
      let sub (o : option Condition) := match o with Some c => Some (subst_cond c) | None => None end in
      MkCond col op (subst v) (sub l) (sub r) logic
  end.

Fixpoint subst_statement (s : Statement) : Statement :=
  match s with
  | SSelect q =>
      SSelect (MkSelect (selColumns q) (selTable q) (subst_cond <$> selWhere q) (OrderBy q) (Desc q) (Limit q) (Offset q) (GroupBy q)
                 (JoinTable q) (JoinLeft q) (JoinRight q))
  | SInsert q => SInsert (MkInsert (insTable q) (insColumns q) (subst <$> insValues q))
  | SUpdate q => SUpdate (MkUpdate (updTable q) (subst <$> updSet q) (subst_cond <$> updWhere q))
  | SDelete q => SDelete (MkDelete (delTable q) (subst_cond <$> delWhere q))
  | SExplain s => SExplain (subst_statement s)
  | _ => s
  end.

Lemma bindCond_ok c : Forall in_range (conditionValues c) -> bindCond args c = Ok (subst_cond c).
Proof.
  induction c as [col op v l r logic Hl Hr] using condition_ind. cbn [conditionValues bindCond subst_cond]. intros H.
  apply Forall_cons in H as [Hv H]. apply Forall_app in H as [H1 H2]. rewrite bindValue_ok by done. unfold mbind, outcome_bind in *.
  destruct l as [l|]; [rewrite (Hl l eq_refl H1)|]; (destruct r as [r|]; [by rewrite (Hr r eq_refl H2)|done]).
Qed.

Lemma bindWhere_ok w : Forall in_range (whereValues w) -> bindWhere args w = Ok (subst_cond <$> w).
Proof. intros H. destruct w as [c|]; [|done]. cbn. by rewrite bindCond_ok. Qed.

Lemma bindSet_ok m : Forall in_range (map_to_list m).*2 -> bindSet args m = Ok (subst <$> m).
Proof.
  intros H. unfold bindSet. rewrite bindValues_ok by done. unfold mbind, outcome_bind. f_equal.
  rewrite <- (list_to_map_to_list (subst <$> m)). f_equal. rewrite map_to_list_fmap. rewrite zip_with_fmap_r.
  induction (map_to_list m) as [|[k v] l IH]; [done|]. cbn. f_equal. apply IH. by apply Forall_cons in H as [_ H].
Qed.

Lemma bindStatement_ok s : Forall in_range (statementValues s) -> bindStatement args s = Ok (subst_statement s).
Proof.
  induction s as [q|q| |q|t|q|q|q| | | |s IH|t]; cbn [statementValues bindStatement subst_statement]; intros H; try done.
  - by rewrite bindWhere_ok.
  - by rewrite bindValues_ok.
  - apply Forall_app in H as [H1 H2]. by rewrite bindSet_ok, bindWhere_ok.
  - by rewrite bindWhere_ok.
  - by rewrite (IH H).
Qed.

(** Which values a bound statement holds. *)
Lemma subst_cond_values c : conditionValues (subst_cond c) = subst <$> conditionValues c.
Proof.
  induction c as [col op v l r logic Hl Hr] using condition_ind. cbn [conditionValues subst_cond fmap list_fmap]. f_equal. fold (fmap (M := list) subst). rewrite fmap_app.
  destruct l as [l|], r as [r|]; cbn; rewrite ?(Hl _ eq_refl), ?(Hr _ eq_refl); done.
Qed.

Lemma subst_values s : statementValues (subst_statement s) ≡ₚ subst <$> statementValues s.
Proof.
  assert (forall w, whereValues (subst_cond <$> w) = subst <$> whereValues w) as Hw by (intros [c|]; [apply subst_cond_values|done]).
  induction s as [q|q| |q|t|q|q|q| | | |s IH|t]; cbn [statementValues subst_statement selWhere delWhere updSet updWhere insValues];
    rewrite ?Hw; try done.
  rewrite fmap_app, map_to_list_fmap, <- !list_fmap_compose. done.
Qed.
End binding.

Definition closed (v : value) : Prop := match v with VParam _ => False | _ => True end.
Definition numbered_from_0 (v : value) : Prop := match v with VParam i => 0 <= i | _ => True end.

Lemma count_bounds l :
  Forall numbered_from_0 l -> -1 <= foldr (fun v m => match v with VParam i => Z.max i m | _ => m end) (-1) l /\
  forall i, VParam i ∈ l -> i <= foldr (fun v m => match v with VParam i => Z.max i m | _ => m end) (-1) l.
Proof.
  induction 1 as [|v l Hv Hl [IH1 IH2]]; [split; [done|set_solver]|]. cbn [foldr]. split; [destruct v; lia|].
  intros i Hi. apply elem_of_cons in Hi as [<-|Hi]; [lia|]. specialize (IH2 i Hi). destruct v; lia.
Qed.

Lemma count_closed s : Forall closed (statementValues s) -> countStatementParameters s = 0.
Proof.
  intros H. unfold countStatementParameters. enough (foldr (fun v m => match v with VParam i => Z.max i m | _ => m end) (-1) (statementValues s) = -1) by lia.
  induction H as [|v l Hv Hl IH]; [done|]. cbn [foldr]. rewrite IH. by destruct v.
Qed.

(** C33: a prepared statement that is given as many arguments as it has parameters
    (with parameters numbered from 0, and arguments that are values) is bound in
    place: the result is the same statement in which the placeholder at each position
    is replaced by the argument of its number and every other value, column, operator
    and table stays where it was; no placeholder is left. *)
Theorem bind_replaces (s : Statement) (args : list value)
  (Hnum : Forall numbered_from_0 (statementValues s)) (Hlen : len args = countStatementParameters s) (Hargs : Forall closed args) :
  bindStatement args s = Ok (subst_statement args s) /\ countStatementParameters (subst_statement args s) = 0.
Proof.
  split.
  - apply bindStatement_ok. destruct (count_bounds _ Hnum) as [_ Hb]. rewrite Forall_forall in Hnum |- *. intros v Hv. specialize (Hnum v Hv).
    destruct v; try done. specialize (Hb _ Hv). unfold countStatementParameters in Hlen. cbn in *. lia.
  - apply count_closed. rewrite subst_values. apply Forall_fmap, Forall_forall. intros v _. cbn.
    destruct v as [| | | | | | |i]; try done. cbn. destruct (args !! Z.to_nat i) as [x|] eqn:Ex; [|done]. cbn.
    rewrite Forall_forall in Hargs. by eapply Hargs, list_elem_of_lookup_2.
Qed.

Definition demo_delete : Statement :=
  SDelete (MkDelete (of_string "t") (Some (combine_ (comparison (of_string "a") (of_string "=") (VParam 1))
    (comparison (of_string "b") (of_string "<") (VParam 0)) (of_string "AND")))).

Lemma bind_replaces_witness :
  let bound := SDelete (MkDelete (of_string "t") (Some (combine_ (comparison (of_string "a") (of_string "=") (VBool true))
    (comparison (of_string "b") (of_string "<") (VInt 5)) (of_string "AND")))) in
  subst_statement [VInt 5; VBool true] demo_delete = bound /\
  bindStatement [VInt 5; VBool true] demo_delete = Ok (subst_statement [VInt 5; VBool true] demo_delete) /\
  countStatementParameters (subst_statement [VInt 5; VBool true] demo_delete) = 0.
Proof.
  split; [reflexivity|]. apply (bind_replaces demo_delete [VInt 5; VBool true]); [|reflexivity|repeat constructor].
  cbn. repeat constructor; discriminate.
Defined.

(** ** Splitting requests *)

Section splitting.
Context `{Text : GoText}.

(** The quote that is open after [s]; [None] if a semicolon ends the statement. *)
Fixpoint quote_after (quote : option byte) (s : bytes) : option (option byte) :=
  match s with
  | [] => Some quote
  | b :: s =>
      match quote with
      | Some q => quote_after (if decide (b = q) then None else quote) s
      | None =>
          if decide (b = Byte.x27 \/ b = Byte.x22) then quote_after (Some b) s
          else if decide (b = Byte.x3b) then None
          else quote_after None s
      end
  end.

(** One statement: trimmed, not empty, its quotes closed, no semicolon outside them. *)
Definition single (p : bytes) : Prop := TrimSpace p = p /\ p <> [] /\ quote_after None p = Some None.

Lemma splitLoop_piece quote piece p rest out quote' :
  quote_after quote p = Some quote' -> splitLoop quote piece (p ++ rest) out = splitLoop quote' (piece ++ p) rest out.
Proof.
  revert quote piece. induction p as [|b p IH]; intros quote piece H; cbn [quote_after] in H.
  - injection H as ->. cbn. by rewrite app_nil_r.
  - cbn [app splitLoop]. replace (piece ++ b :: p) with ((piece ++ [b]) ++ p) by (by rewrite <- app_assoc).
    destruct quote as [q|]; [by apply IH|]. destruct (decide (b = Byte.x27 \/ b = Byte.x22)); [by apply IH|].
    destruct (decide (b = Byte.x3b)); [done|]. by apply IH.
Qed.

Lemma splitStatements_join ps out : Forall single ps -> ps <> [] -> splitLoop None [] (Join ps (of_string ";")) out = out ++ ps.
Proof.
  revert out. induction ps as [|p ps IH]; intros out Hs Hne; [done|]. apply Forall_cons in Hs as [(Ht&Hp&Hq) Hs].
  destruct ps as [|p' ps].
  - cbn [Join]. rewrite <- (app_nil_r p) at 1. rewrite (splitLoop_piece _ _ _ _ _ _ Hq). cbn [app splitLoop]. rewrite Ht. by rewrite decide_False.
  - change (Join (p :: p' :: ps) (of_string ";")) with (p ++ Byte.x3b :: Join (p' :: ps) (of_string ";")).
    rewrite (splitLoop_piece _ _ _ _ _ _ Hq). cbn [app]. cbn [splitLoop]. rewrite decide_False by (intros [?|?]; discriminate). rewrite decide_True by done.
    rewrite Ht. rewrite decide_False by done. rewrite IH by done. by rewrite <- app_assoc.
Qed.
End splitting.

(** statements joined by semicolons are split back into the same statements:
    semicolons inside quotes do not end a statement. *)
Theorem split_roundtrip `{Text : GoText} (ps : list bytes) (Hs : Forall single ps) (Hne : ps <> []) :
  splitStatements (Join ps (of_string ";")) = ps.
Proof. unfold splitStatements. by rewrite splitStatements_join. Qed.

Lemma split_roundtrip_witness :
  splitStatements (Text := AsciiText) (of_string "BEGIN;INSERT INTO t (a) VALUES ('x;y');COMMIT") =
  of_string <$> ["BEGIN"; "INSERT INTO t (a) VALUES ('x;y')"; "COMMIT"]%string.
Proof.
  replace (of_string "BEGIN;INSERT INTO t (a) VALUES ('x;y');COMMIT")
    with (Join (of_string <$> ["BEGIN"; "INSERT INTO t (a) VALUES ('x;y')"; "COMMIT"]%string) (of_string ";")) by (vm_compute; reflexivity).
  apply (split_roundtrip (Text := AsciiText) (of_string <$> ["BEGIN"; "INSERT INTO t (a) VALUES ('x;y')"; "COMMIT"]%string)); [|discriminate].
  repeat constructor; try discriminate; vm_compute; reflexivity.
Defined.

(** the splitter does not know the lexer's backslash escapes: a statement the
    parser accepts is cut at a semicolon inside its string literal. *)
Theorem split_breaks_escapes :
  let text := of_string "DELETE FROM t WHERE a = 'it\'s; here'" in
  is_ok (Parse (Text := AsciiText) text) = true /\ length (splitStatements (Text := AsciiText) text) = 2%nat /\
  Forall (fun p => is_ok (Parse (Text := AsciiText) p) = false) (splitStatements (Text := AsciiText) text).
Proof. split_and!; [vm_compute; reflexivity..|]. apply (bool_decide_eq_true_1 _). vm_compute. reflexivity. Qed.
