(* ===== verification/SqlExec.v ===== *)
(** * The executor ([Executor] of [src/sql/sql.go])

    Tables are shared objects: the executor's map leads from names to addresses in
    [tabs], and a transaction keeps addresses too, so a table that was dropped
    meanwhile is still reached by it. Rows that a transaction has written are
    shared as well: [SELECT] and [UPDATE] inside the transaction see the same row
    objects, which live in [rowHeap]. [tabPaths] is the path of each table's store.
    The catalog, the counters of the package and the names that [os.CreateTemp] will
    give to [CREATE TABLE] are part of the state. The order in which
    Go visits a map is the parameter [MapOrder]. *)
From S2P Require Import Prelude Wal Store StoreSpec Value Text RowCodec Table Catalog SqlLex SqlParse SqlEval.

Class MapOrder := range : forall A : Type, gmap bytes A -> list (bytes * A).
Arguments range {_ A} _.
Class MapOrderLaws `{MapOrder} := range_permutation A (m : gmap bytes A) : range m ≡ₚ map_to_list m.

#[global] Instance SomeOrder : MapOrder := fun A m => map_to_list m.
#[global] Instance SomeOrderLaws : MapOrderLaws.
Proof. intros A m. done. Qed.

(** ** State *)

(** A pending write: the row's address, or a deletion. *)
Inductive transactionWrite := WriteRow (row : nat) | WriteDeleted.

Record transactionTableState := MkTxTable {
  tsTable : nat; readAt : Z; tsRollback : list Row; tsWrites : gmap bytes transactionWrite }.
Record transaction := MkTx { txId : Z; txCommit : Z; txActive : bool; txTables : list transactionTableState }.

Record Executor := MkExec {
  tabs : list Table;
  Tables : gmap bytes nat;
  catalog : option Catalog;
  tx : option transaction;
  rowHeap : list Row;
  nextTransactionID : Z;
  nextCommitSequence : Z;
  tempFiles : list bytes;
  tabPaths : list bytes }.

Definition set_tabs (x : list Table) (e : Executor) : Executor :=
  MkExec x (Tables e) (catalog e) (tx e) (rowHeap e) (nextTransactionID e) (nextCommitSequence e) (tempFiles e) (tabPaths e).
Definition set_Tables (x : gmap bytes nat) (e : Executor) : Executor :=
  MkExec (tabs e) x (catalog e) (tx e) (rowHeap e) (nextTransactionID e) (nextCommitSequence e) (tempFiles e) (tabPaths e).
Definition set_catalog (x : option Catalog) (e : Executor) : Executor :=
  MkExec (tabs e) (Tables e) x (tx e) (rowHeap e) (nextTransactionID e) (nextCommitSequence e) (tempFiles e) (tabPaths e).
Definition set_tx (x : option transaction) (e : Executor) : Executor :=
  MkExec (tabs e) (Tables e) (catalog e) x (rowHeap e) (nextTransactionID e) (nextCommitSequence e) (tempFiles e) (tabPaths e).
Definition set_rowHeap (x : list Row) (e : Executor) : Executor :=
  MkExec (tabs e) (Tables e) (catalog e) (tx e) x (nextTransactionID e) (nextCommitSequence e) (tempFiles e) (tabPaths e).
Definition set_counters (t c : Z) (e : Executor) : Executor :=
  MkExec (tabs e) (Tables e) (catalog e) (tx e) (rowHeap e) t c (tempFiles e) (tabPaths e).
Definition set_tempFiles (x : list bytes) (e : Executor) : Executor :=
  MkExec (tabs e) (Tables e) (catalog e) (tx e) (rowHeap e) (nextTransactionID e) (nextCommitSequence e) x (tabPaths e).

Definition set_tabPaths (x : list bytes) (e : Executor) : Executor :=
  MkExec (tabs e) (Tables e) (catalog e) (tx e) (rowHeap e) (nextTransactionID e) (nextCommitSequence e) (tempFiles e) x.

(** [tables]: the tables with the paths of their stores. *)
Definition NewExecutorWithCatalog (tables : list (Table * bytes)) (names : gmap bytes nat) (c : option Catalog) (temps : list bytes) : Executor :=
  MkExec tables.*1 names c None [] 0 0 temps tables.*2.
Definition NewExecutor (tables : list (Table * bytes)) (names : gmap bytes nat) (temps : list bytes) : Executor :=
  NewExecutorWithCatalog tables names None temps.

Abbreviation exec := (M Executor).
Definition empty_result : Result := MkResult [] [] 0.

(** A method of the table at an address. *)
Definition on_table {A} (a : nat) (m : M Table A) : exec A := fun e =>
  match tabs e !! a with
  | Some t => let '(o, t') := m t in (o, set_tabs (<[a:=t']> (tabs e)) e)
  | None => (Panic, e)
  end.
Definition schema_of (a : nat) : exec Schema := on_table a (gets tschema).

Definition inTransaction (e : Executor) : bool := match tx e with Some _ => true | None => false end.
Definition InTransaction (e : Executor) : bool := inTransaction e.

Section executor.
Context `{Codec : IndexCodec} `{Fmt : Formats} `{Text : GoText} `{Syn : GoSyntax} `{Json : JsonCodec} `{Order : MapOrder}.

Definition on_catalog {A} (m : M Catalog A) (absent : A) : exec A := fun e =>
  match catalog e with
  | Some c => let '(o, c') := m c in (o, set_catalog (Some c') e)
  | None => (Ok absent, e)
  end.

Definition table (name : bytes) : exec nat :=
  e ← get_state;
  match Tables e !! ToLower name with
  | Some a => mret a
  | None => fail (Errorf "unknown table %q" [AStr name])
  end.

(** ** Rows visible to the session *)

Inductive rowref := Fresh (r : Row) | Pending (a : nat).

Definition deref (e : Executor) (r : rowref) : Row :=
  match r with Fresh r => r | Pending a => default ∅ (rowHeap e !! a) end.

(** [byKey[fmt.Sprint(row[Columns[0].Name])] = i] for the rows in turn. *)
Fixpoint keyPositions (s : Schema) (i : nat) (rows : list Row) (byKey : gmap bytes nat) : outcome (gmap bytes nat) :=
  match rows with
  | [] => Ok byKey
  | r :: rows => key ← primaryKey s r; keyPositions s (S i) rows (<[key:=i]> byKey)
  end.

(** The pending writes in the order in which they are visited. *)
Fixpoint overlay (writes : list (bytes * transactionWrite)) (rows : list rowref) (byKey : gmap bytes nat) : outcome (list rowref) :=
  match writes with
  | [] => Ok rows
  | (key, WriteDeleted) :: writes =>
      match byKey !! key with
      | Some i =>
          if decide (i < length rows)%nat then
            overlay writes (take i rows ++ drop (S i) rows) ((fun j => if decide (i < j)%nat then (j - 1)%nat else j) <$> byKey)
          else Panic
      | None => overlay writes rows byKey
      end
  | (key, WriteRow a) :: writes =>
      match byKey !! key with
      | Some i => if decide (i < length rows)%nat then overlay writes (<[i := Pending a]> rows) byKey else Panic
      | None => overlay writes (rows ++ [Pending a]) (<[key := length rows]> byKey)
      end
  end.

Definition tableState (t : nat) (x : transaction) : option (nat * transactionTableState) :=
  list_find (fun s => tsTable s = t) (txTables x).

(** [rows, _ = t.ScanAt(...)]: an error leaves no rows. *)
Definition scanAtOrNil (snapshot : Z) (t : Table) : outcome (list Row) :=
  match ScanAt snapshot t with Err _ => Ok [] | o => o end.

Definition rows (t : nat) : exec (list rowref) :=
  e ← get_state;
  match tx e ≫= tableState t with
  | Some (_, st) =>
      rs ← on_table t (fun tb => (scanAtOrNil (readAt st) tb, tb));
      s ← schema_of t;
      byKey ← lift (keyPositions s 0 rs ∅);
      lift (overlay (range (tsWrites st)) (Fresh <$> rs) byKey)
  | None => rs ← on_table t Scan; mret (Fresh <$> rs)
  end.

(** The rows as they are now. *)
Definition rowValues (t : nat) : exec (list Row) := rs ← rows t; e ← get_state; mret (deref e <$> rs).

(** [refRows]: an error leaves no rows. *)
Definition refRows (t : nat) : exec (list Row) := catch (rowValues t) (fun _ => mret []).

Definition recordWrite (t : nat) (key : bytes) (w : transactionWrite) : exec unit :=
  e ← get_state;
  match tx e with
  | None => mret tt
  | Some x =>
      match tableState t x with
      | Some (i, st) =>
          modify (set_tx (Some (MkTx (txId x) (txCommit x) (txActive x)
            (<[i := MkTxTable (tsTable st) (readAt st) (tsRollback st) (<[key:=w]> (tsWrites st))]> (txTables x)))))
      | None => mret tt
      end
  end.

Definition allocRow (r : Row) : exec nat :=
  e ← get_state; _ ← modify (set_rowHeap (rowHeap e ++ [r])); mret (length (rowHeap e)).

(** [r[k] = v] on a row object: a pending row is changed in place. Outside a
    transaction the row object is not shared. *)
Definition storeRow (ref : rowref) (r : Row) : exec nat :=
  match ref with
  | Fresh _ => allocRow r
  | Pending a => e ← get_state; _ ← modify (set_rowHeap (<[a:=r]> (rowHeap e))); mret a
  end.

(** ** Transactions *)

Fixpoint beginTables (ts : list nat) : exec (list transactionTableState) :=
  match ts with
  | [] => mret []
  | t :: ts =>
      readAt ← on_table t Snapshot;
      rs ← on_table t Scan;
      rest ← beginTables ts;
      mret (MkTxTable t readAt rs ∅ :: rest)
  end.

Definition begin_ : exec Result :=
  e ← get_state;
  if inTransaction e then fail (Errorf "transaction already in progress" [])
  else
    let id := u64 (nextTransactionID e + 1) in
    _ ← modify (set_counters id (nextCommitSequence e));
    ts ← beginTables (range (Tables e)).*2;
    _ ← modify (set_tx (Some (MkTx id 0 true ts)));
    mret empty_result.

Fixpoint checkConflicts (t : Table) (snapshot : Z) (keys : list bytes) : outcome unit :=
  match keys with
  | [] => Ok tt
  | key :: keys =>
      if Table.ChangedSince snapshot key t then Err (Errorf "transaction conflict on key %q" [AStr key])
      else checkConflicts t snapshot keys
  end.

Fixpoint checkTables (ts : list transactionTableState) : exec unit :=
  match ts with
  | [] => mret tt
  | st :: ts =>
      _ ← on_table (tsTable st) (fun t => (checkConflicts t (readAt st) (range (tsWrites st)).*1, t));
      checkTables ts
  end.

Definition transactionRow (e : Executor) (w : transactionWrite) : TransactionRow :=
  match w with WriteRow a => MkTxRow (default ∅ (rowHeap e !! a)) false | WriteDeleted => MkTxRow ∅ true end.

Fixpoint applyTables (id : Z) (ts : list transactionTableState) : exec unit :=
  match ts with
  | [] => mret tt
  | st :: ts =>
      e ← get_state;
      _ ← on_table (tsTable st) (ApplyRowsBatch id (range (transactionRow e <$> tsWrites st)));
      applyTables id ts
  end.

Fixpoint releaseTables (ts : list transactionTableState) : exec unit :=
  match ts with
  | [] => mret tt
  | st :: ts => _ ← on_table (tsTable st) (Table.ReleaseSnapshot (readAt st)); releaseTables ts
  end.

Definition commit : exec Result :=
  e ← get_state;
  match tx e with
  | None => fail (Errorf "no transaction in progress" [])
  | Some x =>
      _ ← checkTables (txTables x);
      let id := u64 (nextCommitSequence e + 1) in
      _ ← modify (set_counters (nextTransactionID e) id);
      _ ← modify (set_tx (Some (MkTx (txId x) id (txActive x) (txTables x))));
      _ ← applyTables id (txTables x);
      _ ← releaseTables (txTables x);
      _ ← modify (set_tx None);
      mret empty_result
  end.

(** The error of a method that also counts rows. *)
Definition counted {S} (m : M S (Z * option error)) : M S Z :=
  ne ← m; match ne.2 with None => mret ne.1 | Some err => fail err end.

Fixpoint reinsert (rs : list Row) : M Table unit :=
  match rs with
  | [] => mret tt
  | r :: rs => t ← get_state; key ← lift (primaryKey (tschema t) r); _ ← Table.Insert key r; reinsert rs
  end.

Fixpoint rollbackTables (ts : list transactionTableState) : exec unit :=
  match ts with
  | [] => mret tt
  | st :: ts =>
      _ ← on_table (tsTable st) (counted (DeleteWhere (Some (fun _ => true))));
      _ ← on_table (tsTable st) (reinsert (tsRollback st));
      rollbackTables ts
  end.

Definition rollback : exec Result :=
  e ← get_state;
  match tx e with
  | None => fail (Errorf "no transaction in progress" [])
  | Some x =>
      _ ← rollbackTables (txTables x);
      _ ← releaseTables (txTables x);
      _ ← modify (set_tx None);
      mret empty_result
  end.

(** ** Reading *)

Definition isIndexedEquality (t : Table) (w : option Condition) : option (bytes * value) :=
  match w with
  | Some (MkCond col op v None None _) =>
      if bool_decide (op = of_string "=" /\ col <> [] /\ v <> VNil) && HasIndex col t then Some (col, v) else None
  | _ => None
  end.

Definition indexedEquality (t : nat) (w : option Condition) : exec (option (bytes * value)) :=
  on_table t (gets (fun tb => isIndexedEquality tb w)).

(** The message names the table and carries the error. *)
Definition readingError (name : bytes) (err : error) : error :=
  Errorf "reading table %q: %w (database rows may have been created with a different schema; use a new database file or restore the matching schema)"
    [AStr name; AErr err].

Definition joined (q : Select) (rs : list Row) : exec (list Row) :=
  if decide (JoinTable q = []) then mret rs
  else jt ← table (JoinTable q); jr ← rowValues jt; mret (joinRows q rs jr).

Definition selectRows (q : Select) : exec Result :=
  t ← table (selTable q);
  attempt (rowValues t)
    (fun rs =>
       e ← get_state;
       idx ← (if inTransaction e then mret None else if decide (JoinTable q = []) then indexedEquality t (selWhere q) else mret None);
       rs ← (match idx with Some (col, v) => on_table t (Find col v) | None => mret rs end);
       rs ← joined q rs;
       s ← schema_of t;
       lift (evalSelect s q rs))
    (fun err =>
       e ← get_state;
       idx ← (if inTransaction e then mret None else if decide (JoinTable q = []) then indexedEquality t (selWhere q) else mret None);
       _ ← (match idx with Some (col, v) => on_table t (Find col v) | None => mret [] end);
       fail (readingError (selTable q) err)).

Definition listTables : exec Result :=
  e ← get_state;
  mret (MkResult [of_string "table_name"]
          ((fun n => {[of_string "table_name" := VString n]}) <$> SliceStable bytes_ltb (range (Tables e)).*1) 0).

Definition explainTable (name : bytes) : exec Result :=
  t ← table name;
  s ← schema_of t;
  mret (MkResult (of_string <$> ["column"; "type"; "nullable"; "unique"]%string)
    ((fun c => list_to_map [(of_string "column", VString (cName c)); (of_string "type", VString (columnTypeName (cType c)));
                            (of_string "nullable", VBool (negb (NotNull (constraint_of s (cName c)))));
                            (of_string "unique", VBool (Unique (constraint_of s (cName c))))]) <$> Columns s) 0).

Definition estimate (name : bytes) : exec bytes :=
  catch (t ← table name; rs ← rows t; mret (of_string "rows=" ++ sprint_int (len rs))) (fun _ => mret (of_string "rows=?")).

Definition planFilter (q : Select) : exec (bytes * bytes) :=
  match selWhere q with
  | None => mret (of_string "Seq Scan", of_string "none")
  | Some w =>
      idx ← catch (t ← table (selTable q); indexedEquality t (selWhere q)) (fun _ => mret None);
      match idx with
      | Some (col, v) => mret (of_string "Index Scan", of_string "index condition: " ++ col ++ of_string " = " ++ Sprint v)
      | None => mret (of_string "Seq Scan", of_string "apply WHERE predicate")
      end
  end.

Definition plan (s : Statement) : exec bytes :=
  match s with
  | SSelect q =>
      est ← estimate (selTable q);
      sf ← planFilter q;
      mret (sf.1 ++ of_string " on " ++ selTable q ++ of_string "; " ++ est ++ of_string "; filter: " ++ sf.2 ++
            of_string "; projection: " ++ Join (selColumns q) (of_string ", "))
  | SInsert q => mret (of_string "Insert into " ++ insTable q ++ of_string "; columns: " ++ Join (insColumns q) (of_string ", "))
  | SUpdate q => mret (of_string "Seq Scan on " ++ updTable q ++ of_string "; update columns: " ++ mapKeys (updSet q))
  | SDelete q => mret (of_string "Seq Scan on " ++ delTable q ++ of_string "; delete matching rows")
  | _ => fail (Errorf "unsupported statement for EXPLAIN" [])
  end.

Definition explain (s : Statement) : exec Result :=
  p ← plan s; mret (MkResult [of_string "plan"] [{[of_string "plan" := VString p]}] 0).

(** ** Writing *)

(** The first column whose name is [name] up to case. *)
Definition findColumn (name : bytes) (cs : list Column) : option Column := find (fun c => EqualFold (cName c) name) cs.

(** The row of an [INSERT]: a column keeps the name it has in the statement. *)
Fixpoint insertRow (cs : list Column) (names : list bytes) (vals : list value) (r : Row) : outcome Row :=
  match names, vals with
  | [], _ => Ok r
  | n :: names, v :: vals =>
      v ← (match findColumn n cs with Some c => coerceValue v (cType c) | None => Ok v end);
      insertRow cs names vals (<[n:=v]> r)
  | _ :: _, [] => Panic
  end.

Definition nextId (col : bytes) (rs : list Row) : Z :=
  foldl (fun next r => match r !! col with Some (VInt id) => if decide (id >= next) then i64 (id + 1) else next | _ => next end) 1 rs.

(** The key of the new row, and the row with it. *)
Definition insertKey (t : nat) (s : Schema) (r : Row) : exec (value * Row) :=
  match Columns s with
  | [] => fail (Errorf "table has no columns" [])
  | c0 :: _ =>
      match r !! cName c0 with
      | Some v => mret (v, r)
      | None =>
          if decide (cType c0 = IntType) then
            rs ← rowValues t;
            let next := nextId (cName c0) rs in
            mret (VInt next, <[cName c0 := VInt next]> r)
          else fail (Errorf "insert must include key column %q" [AStr (cName c0)])
      end
  end.

Definition referenced (col : bytes) (v : value) (rs : list Row) : bool :=
  existsb (fun rr => negb (is_nil (field col rr)) && bool_decide (compare (field col rr) v = 0)) rs.

Fixpoint checkReferences (s : Schema) (cs : list Column) (r : Row) : exec unit :=
  match cs with
  | [] => mret tt
  | c :: cs =>
      match References (constraint_of s (cName c)) with
      | Some ref =>
          if is_nil (field (cName c) r) then checkReferences s cs r
          else
            rt ← table (refTable ref);
            rs ← refRows rt;
            if referenced (refColumn ref) (field (cName c) r) rs then checkReferences s cs r
            else fail (Errorf "foreign key constraint failed: %s" [AStr (cName c)])
      | None => checkReferences s cs r
      end
  end.

Definition insert_ (q : Insert) : exec Result :=
  t ← table (insTable q);
  s ← schema_of t;
  r ← lift (insertRow (Columns s) (insColumns q) (insValues q) ∅);
  kr ← insertKey t s r;
  _ ← checkReferences s (Columns s) kr.2;
  e ← get_state;
  _ ← (if inTransaction e then a ← allocRow kr.2; recordWrite t (Sprint kr.1) (WriteRow a) else on_table t (Table.Insert (Sprint kr.1) kr.2));
  mret (MkResult [] [] 1).

(** [SET]: an assignment keeps the name it has in the statement. *)
Fixpoint coerceSet (cs : list Column) (l : list (bytes * value)) (out : Row) : outcome Row :=
  match l with
  | [] => Ok out
  | (n, v) :: l =>
      match findColumn n cs with
      | Some c => v ← coerceValue v (cType c); coerceSet cs l (<[n:=v]> out)
      | None => Err (Errorf "unknown column %q" [AStr n])
      end
  end.

(** What a statement reports: its result, also when it stops half way. *)
Abbreviation reply := (Result * option error)%type.
Definition plain (m : exec Result) : exec reply := attempt m (fun r => mret (r, None)) (fun err => mret (empty_result, Some err)).

Fixpoint updateRowsLoop (t : nat) (w : option Condition) (set_ : Row) (rs : list rowref) (n : Z) : exec reply :=
  match rs with
  | [] => mret (MkResult [] [] n, None)
  | ref :: rs =>
      e ← get_state;
      if matchWhere w (deref e ref) then
        let r := assign set_ (deref e ref) in
        a ← (if inTransaction e then storeRow ref r else mret 0%nat);
        s ← schema_of t;
        key ← lift (primaryKey s r);
        attempt (if inTransaction e then mret tt else on_table t (Table.Insert key r))
          (fun _ => _ ← recordWrite t key (WriteRow a); updateRowsLoop t w set_ rs (n + 1))
          (fun err => mret (MkResult [] [] n, Some err))
      else updateRowsLoop t w set_ rs n
  end.

Definition update (q : Update) : exec reply :=
  attempt (t ← table (updTable q); s ← schema_of t; set_ ← lift (coerceSet (Columns s) (range (updSet q)) ∅); rs ← rows t; mret (t, set_, rs))
    (fun x => updateRowsLoop x.1.1 (updWhere q) x.1.2 x.2 0)
    (fun err => mret (empty_result, Some err)).

Fixpoint deleteRowsLoop (t : nat) (w : option Condition) (rs : list rowref) (n : Z) : exec reply :=
  match rs with
  | [] => mret (MkResult [] [] n, None)
  | ref :: rs =>
      e ← get_state;
      if matchWhere w (deref e ref) then
        s ← schema_of t;
        key ← lift (primaryKey s (deref e ref));
        attempt (if inTransaction e then mret tt else on_table t (Table.Delete key))
          (fun _ => _ ← recordWrite t key WriteDeleted; deleteRowsLoop t w rs (n + 1))
          (fun err => mret (MkResult [] [] n, Some err))
      else deleteRowsLoop t w rs n
  end.

Definition delete_ (q : Delete) : exec reply :=
  attempt (t ← table (delTable q); rs ← rows t; mret (t, rs))
    (fun x => deleteRowsLoop x.1 (delWhere q) x.2 0)
    (fun err => mret (empty_result, Some err)).

(** ** Schema changes *)

Definition create (q : CreateTable) : exec Result :=
  e ← get_state;
  let n := ToLower (ctTable q) in
  if decide (is_Some (Tables e !! n)) then fail (Errorf "table %q already exists" [AStr (ctTable q)])
  else
    match tempFiles e with
    | [] => fail (Errorf "create temporary file" [])
    | path :: temps =>
        _ ← modify (set_tempFiles temps);
        s ← lift (Open fresh_files).1;
        let cols := if existsb (fun c => EqualFold (cName c) (of_string "id")) (ctColumns q) then ctColumns q
                    else MkCol (of_string "id") IntType :: ctColumns q in
        t ← lift (NewTable (Some s) (MkSchema cols (ctConstraints q)));
        let a := length (tabs e) in
        _ ← modify (fun e => set_tabPaths (tabPaths e ++ [path]) (set_tabs (tabs e ++ [t]) e));
        _ ← modify (fun e => set_Tables (<[n:=a]> (Tables e)) e);
        _ ← catch (on_catalog (Set_ (MkEntry n path (tschema t))) tt)
          (fun err =>
             _ ← modify (fun e => set_Tables (base.delete n (Tables e)) e);
             _ ← catch (on_table a Table.Close) (fun _ => mret tt);
             fail err);
        mret (MkResult [] [] 1)
    end.

Definition drop_ (name : bytes) : exec reply :=
  e ← get_state;
  let n := ToLower name in
  match Tables e !! n with
  | None => mret (empty_result, Some (Errorf "unknown table %q" [AStr name]))
  | Some a =>
      _ ← modify (set_Tables (base.delete n (Tables e)));
      attempt (on_catalog (Catalog.Delete n) tt)
        (fun _ => attempt (on_table a Table.Close) (fun _ => mret (MkResult [] [] 1, None)) (fun err => mret (MkResult [] [] 1, Some err)))
        (fun err => mret (empty_result, Some err))
  end.

Definition alterSchema (q : AlterTable) (s : Schema) : Schema :=
  if decide (atAction q = of_string "add") then MkSchema (Columns s ++ [atColumn q]) (Constraints s)
  else if decide (atAction q = of_string "drop") then
    MkSchema (filter (fun c => EqualFold (cName c) (atName q) = false) (Columns s)) (base.delete (atName q) (Constraints s))
  else if decide (atAction q = of_string "rename") then
    MkSchema ((fun c => if EqualFold (cName c) (atName q) then MkCol (atNewName q) (cType c) else c) <$> Columns s)
      (match Constraints s !! atName q with
       | Some k => <[atNewName q := k]> (base.delete (atName q) (Constraints s))
       | None => Constraints s
       end)
  else s.

Definition entryPath (n : bytes) (c : Catalog) : bytes :=
  match find (fun en => bool_decide (eName en = n)) (Entries c) with Some en => ePath en | None => [] end.

Definition alter_ (q : AlterTable) : exec Result :=
  t ← table (atTable q);
  s ← schema_of t;
  let s := alterSchema q s in
  _ ← on_table t (Alter s);
  let n := ToLower (atTable q) in
  _ ← on_catalog (c ← get_state; Set_ (MkEntry n (entryPath n c) s)) tt;
  mret (MkResult [] [] 1).

(** ** Requests *)

Definition executeStatement (s : Statement) : exec reply :=
  match s with
  | SBegin => plain begin_
  | SCommit => plain commit
  | SRollback => plain rollback
  | SExplain s => plain (explain s)
  | SExplainTable n => plain (explainTable n)
  | SInsert q => plain (insert_ q)
  | SSelect q => plain (selectRows q)
  | SListTables => plain listTables
  | SUpdate q => update q
  | SDelete q => delete_ q
  | SDropTable n => drop_ n
  | SAlterTable q => plain (alter_ q)
  | SCreateTable q => plain (create q)
  end.

Definition executeOne (input : bytes) : exec reply :=
  attempt (lift (Parse input)) executeStatement (fun err => mret (empty_result, Some err)).

Fixpoint parseAll (parts : list bytes) : outcome (list Statement) :=
  match parts with
  | [] => Ok []
  | p :: parts => s ← Parse p; rest ← parseAll parts; Ok (s :: rest)
  end.

Definition isTxControl (s : Statement) : bool := match s with SBegin | SCommit | SRollback => true | _ => false end.

(** The statements one after the other, up to the first error. *)
Fixpoint executeAll (parts : list bytes) (out : Result) : exec reply :=
  match parts with
  | [] => mret (out, None)
  | p :: parts =>
      re ← executeOne p;
      match re.2 with
      | None => executeAll parts re.1
      | Some err => mret (empty_result, Some err)
      end
  end.

Fixpoint snapshotTables (ts : list nat) : exec (list (nat * list Row)) :=
  match ts with
  | [] => mret []
  | t :: ts => rs ← on_table t Scan; rest ← snapshotTables ts; mret ((t, rs) :: rest)
  end.

(** Errors while restoring are ignored. *)
Fixpoint reinsertIgnoring (rs : list Row) : M Table unit :=
  match rs with
  | [] => mret tt
  | r :: rs =>
      t ← get_state; key ← lift (primaryKey (tschema t) r);
      _ ← catch (Table.Insert key r) (fun _ => mret tt);
      reinsertIgnoring rs
  end.

Fixpoint restoreTables (snaps : list (nat * list Row)) : exec unit :=
  match snaps with
  | [] => mret tt
  | (t, rs) :: snaps =>
      _ ← on_table t (DeleteWhere (Some (fun _ => true)));
      _ ← on_table t (reinsertIgnoring rs);
      restoreTables snaps
  end.

Definition executeBatch (parts : list bytes) : exec reply :=
  e ← get_state;
  attempt (snapshotTables (range (Tables e)).*2)
    (fun snaps =>
       re ← executeAll parts empty_result;
       match re.2 with
       | None => mret re
       | Some err => _ ← restoreTables snaps; mret (empty_result, Some (Errorf "transaction rolled back: %w" [AErr err]))
       end)
    (fun err => mret (empty_result, Some err)).

Definition Execute (input : bytes) : exec reply :=
  let parts := splitStatements input in
  match parts with
  | [] => mret (empty_result, Some (Errorf "empty request" []))
  | _ =>
      attempt (lift (parseAll parts))
        (fun ss =>
           match parts with
           | [p] => executeOne p
           | _ =>
               e ← get_state;
               if inTransaction e || existsb isTxControl ss then executeAll parts empty_result
               else executeBatch parts
           end)
        (fun err => mret (empty_result, Some err))
  end.

(** ** Prepared statements *)

Record PreparedStatement := MkPrepared { psStatement : Statement; psParameters : Z }.

Definition Prepare (input : bytes) : outcome PreparedStatement :=
  s ← Parse input; Ok (MkPrepared s (countStatementParameters s)).

Definition ExecutePrepared (p : PreparedStatement) (args : list value) : exec reply :=
  if decide (len args = psParameters p) then
    attempt (lift (bindStatement args (psStatement p))) executeStatement (fun err => mret (empty_result, Some err))
  else mret (empty_result, Some (Errorf "expected %d parameters, got %d" [AInt (psParameters p); AInt (len args)])).
End executor.
