(* ===== verification/SqlTx.v ===== *)
(** * Transactions: isolation, own writes, conflicts

    A session in a transaction changes no table before [COMMIT]; it reads its
    snapshot under its own writes; [COMMIT] refuses to overwrite what others wrote
    since. *)
From S2P Require Import Prelude BTree Wal Store StoreSpec Value Text RowCodec Table TableProofs Catalog SqlLex SqlParse SqlEval SqlExec.

(** ** Methods that leave their receiver as it is *)

Definition pure {S A} (m : M S A) : Prop := forall s, (m s).2 = s.

Lemma pure_bind {S A B} (m : M S A) (f : A -> M S B) : pure m -> (forall a, pure (f a)) -> pure (m ≫= f).
Proof. intros Hm Hf s. cbv [mbind M_bind]. specialize (Hm s). destruct (m s) as [[] s']; cbn in Hm; subst; [apply Hf|done..]. Qed.
Lemma pure_get {S A} (f : S -> M S A) : (forall s, pure (f s)) -> pure (s ← get_state; f s).
Proof. intros Hf s. apply (Hf s). Qed.
Lemma pure_ret {S A} (a : A) : pure (mret a : M S A).
Proof. done. Qed.
Lemma pure_lift {S A} (o : outcome A) : pure (lift o : M S A).
Proof. done. Qed.
Lemma pure_gets {S A} (f : S -> A) : pure (gets f).
Proof. done. Qed.
Create HintDb pure.
Create HintDb quiet.
#[local] Hint Resolve pure_bind pure_get pure_ret pure_lift pure_gets : pure.

Lemma pure_deref n : pure (BTree.deref n).
Proof. unfold BTree.deref. auto with pure. Qed.
Lemma pure_leftmost fuel n : pure (leftmost fuel n).
Proof.
  revert n. induction fuel as [|fuel IH]; intros n; [apply pure_lift|]. cbn [leftmost]. apply pure_bind; [apply pure_deref|intros x].
  destruct (leaf x); [apply pure_ret|]. apply pure_bind; [apply pure_lift|auto].
Qed.
Lemma pure_chainValues fuel n : pure (chainValues fuel n).
Proof.
  revert n. induction fuel as [|fuel IH]; intros [n|]; cbn [chainValues]; try apply pure_ret; [apply pure_lift|].
  apply pure_bind; [apply pure_deref|intros x]. apply pure_bind; [apply IH|auto with pure].
Qed.
Lemma pure_leafValues : pure leafValues.
Proof.
  unfold leafValues. apply pure_get. intros t. destruct (root t); [|apply pure_ret].
  apply pure_bind; [apply pure_leftmost|]. intros. apply pure_chainValues.
Qed.

Lemma pure_descend fuel n key : pure (descend fuel n key).
Proof.
  revert n. induction fuel as [|fuel IH]; intros n; [apply pure_lift|]. cbn [descend]. apply pure_bind; [apply pure_deref|intros x].
  destruct (leaf x); [apply pure_ret|]. apply pure_bind; [apply pure_lift|auto].
Qed.
Lemma pure_get_key key : pure (get key).
Proof.
  unfold get. apply pure_get. intros t. destruct (root t); [|apply pure_ret]. apply pure_bind; [apply pure_descend|intros x].
  apply pure_bind; [apply pure_lift|intros i]. destruct (_ !! _); [case_decide|]; try apply pure_ret.
  apply pure_bind; [apply pure_lift|auto with pure].
Qed.

Lemma pure_on_index {A} (m : M btree A) : pure m -> pure (on_store (on_index m)).
Proof.
  intros Hm t. unfold on_store, on_index, zoom. cbn. specialize (Hm (index (tstore t))). destruct (m (index (tstore t))) as [o bt]. cbn in *.
  subst. by destruct t as [[]].
Qed.

Lemma pure_Scan : pure Scan.
Proof. unfold Scan. apply pure_bind; [apply pure_on_index, pure_leafValues|auto with pure]. Qed.
Lemma pure_getAll ks : pure (getAll ks).
Proof.
  induction ks as [|k ks IH]; cbn [getAll]; [apply pure_ret|]. apply pure_bind; [|auto with pure]. unfold Table.Get.
  apply pure_bind; [apply pure_on_index, pure_get_key|intros b]. apply pure_get. intros t. destruct b; auto with pure.
Qed.
Lemma pure_Find col v : pure (Find col v).
Proof. unfold Find. apply pure_get. intros t. destruct (_ ≫= _); [apply pure_getAll|apply pure_ret]. Qed.
#[local] Hint Resolve pure_Scan pure_Find : pure.

(** ** Isolation *)

(** What [BEGIN] keeps of a table, without the writes of the session. *)
Definition begun (st : transactionTableState) : nat * Z * list Row := (tsTable st, readAt st, tsRollback st).

(** The tables, and what the transaction kept at [BEGIN]. *)
Definition fixed (e : Executor) : list Table * gmap bytes nat * option (list (nat * Z * list Row)) :=
  (tabs e, Tables e, (fun x => begun <$> txTables x) <$> tx e).

(** In a transaction, [m] changes no table and leaves the transaction open. *)
Definition quiet {A} (m : exec A) : Prop :=
  forall e, inTransaction e = true -> fixed (m e).2 = fixed e /\ inTransaction (m e).2 = true.

Lemma quiet_bind {A B} (m : exec A) (f : A -> exec B) : quiet m -> (forall a, quiet (f a)) -> quiet (m ≫= f).
Proof.
  intros Hm Hf e He. cbv [mbind M_bind]. destruct (Hm e He) as [H1 H2]. destruct (m e) as [[a| | |] e']; cbn in *; try done.
  destruct (Hf a e' H2) as [H3 H4]. split; [congruence|done].
Qed.
Lemma quiet_attempt {A B} (m : exec A) (f : A -> exec B) g : quiet m -> (forall a, quiet (f a)) -> (forall x, quiet (g x)) -> quiet (attempt m f g).
Proof.
  intros Hm Hf Hg e He. unfold attempt. destruct (Hm e He) as [H1 H2]. destruct (m e) as [[a|x| |] e']; cbn in *; try done.
  - destruct (Hf a e' H2) as [H3 H4]. split; [congruence|done].
  - destruct (Hg x e' H2) as [H3 H4]. split; [congruence|done].
Qed.
Lemma quiet_catch {A} (m : exec A) g : quiet m -> (forall x, quiet (g x)) -> quiet (catch m g).
Proof.
  intros Hm Hg e He. unfold catch. destruct (Hm e He) as [H1 H2]. destruct (m e) as [[a|x| |] e']; cbn in *; try done.
  destruct (Hg x e' H2) as [H3 H4]. split; [congruence|done].
Qed.
Lemma quiet_get {A} (f : Executor -> exec A) : (forall e, inTransaction e = true -> quiet (f e)) -> quiet (e ← get_state; f e).
Proof. intros Hf e He. exact (Hf e He e He). Qed.
Lemma quiet_ret {A} (a : A) : quiet (mret a).
Proof. done. Qed.
Lemma quiet_fail {A} x : quiet (fail x : exec A).
Proof. done. Qed.
Lemma quiet_lift {A} (o : outcome A) : quiet (lift o).
Proof. done. Qed.
Lemma quiet_on_table {A} t (m : M Table A) : pure m -> quiet (on_table t m).
Proof.
  intros Hm e He. unfold on_table. destruct (tabs e !! t) as [tb|] eqn:E; [|done]. specialize (Hm tb). destruct (m tb) as [o tb']. cbn in *. subst.
  split; [|done]. unfold fixed. cbn. by rewrite list_insert_id.
Qed.
#[local] Hint Resolve quiet_bind quiet_attempt quiet_catch quiet_get quiet_ret quiet_fail quiet_lift quiet_on_table : quiet.

Section isolation.
Context `{Codec : IndexCodec} `{Fmt : Formats} `{Text : GoText} `{Syn : GoSyntax} `{Json : JsonCodec} `{Order : MapOrder}.

Lemma quiet_table n : quiet (table n).
Proof using Type. unfold table. apply quiet_get. intros e _. destruct (Tables e !! _); auto with quiet. Qed.
Lemma quiet_schema t : quiet (schema_of t).
Proof using Type. apply quiet_on_table, pure_gets. Qed.
Lemma quiet_rows t : quiet (rows t).
Proof using Type.
  unfold rows. apply quiet_get. intros e _. destruct (tx e ≫= tableState t) as [[i st]|].
  - apply quiet_bind; [apply quiet_on_table; done|intros rs]. apply quiet_bind; [apply quiet_schema|auto with quiet].
  - apply quiet_bind; [apply quiet_on_table, pure_Scan|auto with quiet].
Qed.
#[local] Hint Resolve quiet_table quiet_schema quiet_rows : quiet.
Lemma quiet_rowValues t : quiet (rowValues t).
Proof using Type. unfold rowValues. auto with quiet. Qed.
#[local] Hint Resolve quiet_rowValues : quiet.
Lemma quiet_refRows t : quiet (refRows t).
Proof using Type. unfold refRows. auto with quiet. Qed.

Lemma quiet_modify (f : Executor -> Executor) :
  (forall e, inTransaction e = true -> fixed (f e) = fixed e /\ inTransaction (f e) = true) -> quiet (modify f).
Proof using Type. intros Hf e He. by apply Hf. Qed.

Lemma quiet_recordWrite t key w : quiet (recordWrite t key w).
Proof using Type.
  intros e He. unfold recordWrite. rewrite bind_get. destruct (tx e) as [x|] eqn:Ex; [|done].
  destruct (tableState t x) as [[i st]|] eqn:Es; [|done]. apply list_find_Some in Es as (Hi&_). split; [|done].
  unfold fixed. cbn. rewrite Ex. cbn. rewrite list_fmap_insert. change (begun (MkTxTable _ _ _ _)) with (begun st).
  rewrite (list_insert_id (begun <$> txTables x) i (begun st)); [done|]. by rewrite list_lookup_fmap, Hi.
Qed.
Lemma quiet_allocRow r : quiet (allocRow r).
Proof using Type. unfold allocRow. apply quiet_get. intros e _. apply quiet_bind; [by apply quiet_modify|auto with quiet]. Qed.
Lemma quiet_storeRow ref r : quiet (storeRow ref r).
Proof using Type.
  unfold storeRow. destruct ref; [apply quiet_allocRow|]. apply quiet_get. intros e _. apply quiet_bind; [by apply quiet_modify|auto with quiet].
Qed.
#[local] Hint Resolve quiet_refRows quiet_recordWrite quiet_allocRow quiet_storeRow : quiet.

Lemma quiet_checkReferences s cs r : quiet (checkReferences s cs r).
Proof using Type.
  induction cs as [|c cs IH]; cbn [checkReferences]; [auto with quiet|]. destruct (References _) as [ref|]; [|done].
  destruct (is_nil _); [done|]. apply quiet_bind; [auto with quiet|intros rt]. apply quiet_bind; [auto with quiet|intros rs].
  destruct (referenced _ _ _); auto with quiet.
Qed.

Lemma quiet_insertKey t s r : quiet (insertKey t s r).
Proof using Type.
  unfold insertKey. destruct (Columns s); [auto with quiet|]. destruct (r !! _); [auto with quiet|]. case_decide; [|auto with quiet].
  apply quiet_bind; auto with quiet.
Qed.
#[local] Hint Resolve quiet_checkReferences quiet_insertKey : quiet.

Lemma quiet_insert q : quiet (insert_ q).
Proof using Type.
  unfold insert_. do 5 (apply quiet_bind; [auto with quiet|intros ?]). apply quiet_get. intros e He. rewrite He.
  apply quiet_bind; auto with quiet.
Qed.

Lemma quiet_updateLoop t w set_ rs n : quiet (updateRowsLoop t w set_ rs n).
Proof using Type.
  revert n. induction rs as [|ref rs IH]; intros n; cbn [updateRowsLoop]; [auto with quiet|]. apply quiet_get. intros e He. rewrite He.
  destruct (matchWhere w _); [|done]. do 3 (apply quiet_bind; [auto with quiet|intros ?]). apply quiet_attempt; auto with quiet.
Qed.
Lemma quiet_deleteLoop t w rs n : quiet (deleteRowsLoop t w rs n).
Proof using Type.
  revert n. induction rs as [|ref rs IH]; intros n; cbn [deleteRowsLoop]; [auto with quiet|]. apply quiet_get. intros e He. rewrite He.
  destruct (matchWhere w _); [|done]. do 2 (apply quiet_bind; [auto with quiet|intros ?]). apply quiet_attempt; auto with quiet.
Qed.
#[local] Hint Resolve quiet_insert quiet_updateLoop quiet_deleteLoop : quiet.

Lemma quiet_indexed t w : quiet (indexedEquality t w).
Proof using Type. apply quiet_on_table, pure_gets. Qed.
Lemma quiet_joined q rs : quiet (joined q rs).
Proof using Type. unfold joined. case_decide; auto with quiet. Qed.
#[local] Hint Resolve quiet_indexed quiet_joined : quiet.

Lemma quiet_select q : quiet (selectRows q).
Proof using Type.
  unfold selectRows. apply quiet_bind; [auto with quiet|intros t]. apply quiet_attempt; [auto with quiet|intros rs|intros err];
    apply quiet_get; intros e He; rewrite He; (apply quiet_bind; [apply quiet_ret|intros [[col v]|]]);
    auto 10 using quiet_on_table, pure_Find with quiet.
Qed.

Lemma quiet_explain s : quiet (explain s).
Proof using Type.
  unfold explain. apply quiet_bind; [|auto with quiet]. unfold plan, estimate, planFilter. destruct s; auto with quiet.
  apply quiet_bind; [auto with quiet|intros est]. apply quiet_bind; [|auto with quiet]. destruct (selWhere q); [|auto with quiet].
  apply quiet_bind; [auto with quiet|intros [[col v]|]]; auto with quiet.
Qed.
#[local] Hint Resolve quiet_select quiet_explain : quiet.

(** Statements that neither end the transaction nor change schemas. *)
Definition data_statement (s : Statement) : bool :=
  match s with
  | SSelect _ | SInsert _ | SUpdate _ | SDelete _ | SListTables | SExplain _ | SExplainTable _ | SBegin => true
  | _ => false
  end.

Lemma quiet_plain m : quiet m -> quiet (plain m).
Proof using Type. unfold plain. auto with quiet. Qed.

Lemma quiet_statement s : data_statement s = true -> quiet (executeStatement s).
Proof using Type.
  intros Hs. destruct s; try done; cbn [executeStatement].
  - by apply quiet_plain, quiet_select.
  - by apply quiet_plain, quiet_insert.
  - unfold update. apply quiet_attempt; auto 10 with quiet.
  - unfold delete_. apply quiet_attempt; auto 10 with quiet.
  - apply quiet_plain. unfold begin_. apply quiet_get. intros e He. rewrite He. auto with quiet.
  - by apply quiet_plain, quiet_explain.
  - apply quiet_plain. unfold explainTable. auto 10 with quiet.
Qed.

Lemma quiet_statements ss :
  Forall (fun s => data_statement s = true) ss -> forall e, inTransaction e = true ->
  let e' := foldl (fun e s => (executeStatement s e).2) e ss in fixed e' = fixed e /\ inTransaction e' = true.
Proof using Type.
  induction 1 as [|s ss Hs Hss IH]; intros e He; [done|]. cbn [foldl].
  destruct (quiet_statement s Hs e He) as [H1 H2]. destruct (IH _ H2) as [H3 H4]. split; [congruence|done].
Qed.
End isolation.

(** C17: isolation: whatever a session reads and writes inside a transaction, no
    table changes before [COMMIT], and the transaction stays open. *)
Theorem transaction_isolated `{Codec : IndexCodec} `{Fmt : Formats} `{Text : GoText} `{Syn : GoSyntax} `{Json : JsonCodec} `{Order : MapOrder}
  (ss : list Statement) (e : Executor) (Htx : inTransaction e = true) (Hss : Forall (fun s => data_statement s = true) ss) :
  let e' := foldl (fun e s => (executeStatement s e).2) e ss in tabs e' = tabs e /\ inTransaction e' = true.
Proof. cbn zeta. destruct (quiet_statements ss Hss e Htx) as [[= H1 _ _] H2]. done. Qed.

(** ** Own writes *)

(** [l] pairs the rows with their keys; [byKey] knows their positions, and no
    position of a key that is still to be written and has no row. *)
Definition positions (l : list (bytes * rowref)) (byKey : gmap bytes nat) (writes : list (bytes * transactionWrite)) : Prop :=
  NoDup l.*1 /\ (forall k i, l.*1 !! i = Some k -> byKey !! k = Some i) /\
  (forall k, k ∈ writes.*1 -> k ∉ l.*1 -> byKey !! k = None).

Definition pendingRow (w : transactionWrite) : option rowref := match w with WriteRow a => Some (Pending a) | WriteDeleted => None end.

Definition untouched (writes : list (bytes * transactionWrite)) (l : list (bytes * rowref)) : list rowref :=
  (filter (fun kr => kr.1 ∉ writes.*1) l).*2.

Lemma lookup_key (l : list (bytes * rowref)) byKey writes key i :
  positions l byKey writes -> key ∈ writes.*1 -> byKey !! key = Some i -> exists r, l !! i = Some (key, r).
Proof.
  intros (Hd&Hp&Hn) Hk Hi. destruct (decide (key ∈ l.*1)) as [Hin|Hin]; [|by rewrite Hn in Hi].
  apply list_elem_of_lookup in Hin as [j Hj]. pose proof (Hp _ _ Hj) as Hj'. assert (j = i) as -> by congruence.
  rewrite list_lookup_fmap in Hj. destruct (l !! i) as [[k r]|] eqn:E; [|done]. cbn in Hj. injection Hj as ->. by exists r.
Qed.

Lemma untouched_other key w writes l : key ∉ l.*1 -> untouched ((key, w) :: writes) l = untouched writes l.
Proof.
  intros Hk. unfold untouched. f_equal. induction l as [|[k r] l IH]; [done|]. cbn in Hk. apply not_elem_of_cons in Hk as [Hne Hk].
  rewrite !filter_cons, (IH Hk). cbn [fst]. destruct (decide (k ∉ writes.*1)) as [H|H].
  - rewrite decide_True; [done|]. cbn. rewrite not_elem_of_cons. by split.
  - rewrite decide_False; [done|]. cbn. rewrite not_elem_of_cons. tauto.
Qed.

Lemma untouched_at key w writes l i r :
  NoDup l.*1 -> l !! i = Some (key, r) -> untouched ((key, w) :: writes) l = untouched writes (take i l ++ drop (S i) l).
Proof.
  intros Hd Hi. rewrite <- (take_drop_middle l i _ Hi) at 1. rewrite <- (take_drop_middle l i _ Hi) in Hd.
  rewrite fmap_app in Hd. cbn in Hd. apply NoDup_app in Hd as (_&Hdisj&Hd). apply NoDup_cons in Hd as [Hn _].
  assert (key ∉ (take i l).*1) as Hn' by (intros H; apply (Hdisj _ H); by left).
  unfold untouched. rewrite !filter_app, !fmap_app. fold (untouched ((key, w) :: writes) (take i l)) (untouched writes (take i l)) (untouched writes (drop (S i) l)).
  rewrite untouched_other by done. f_equal. rewrite filter_cons_False by (cbn; rewrite not_elem_of_cons; tauto). by apply untouched_other.
Qed.

Lemma untouched_app writes l1 l2 : untouched writes (l1 ++ l2) = untouched writes l1 ++ untouched writes l2.
Proof. unfold untouched. by rewrite filter_app, fmap_app. Qed.
Lemma untouched_new writes key r : key ∉ writes.*1 -> untouched writes [(key, r)] = [r].
Proof. intros Hk. unfold untouched. by rewrite filter_cons_True. Qed.

Lemma keys_delete (l : list (bytes * rowref)) i : (take i l ++ drop (S i) l).*1 = base.delete i l.*1.
Proof. by rewrite delete_take_drop, fmap_app, fmap_take, fmap_drop. Qed.

Lemma positions_delete l byKey w key writes i r :
  positions l byKey ((key, w) :: writes) -> key ∉ writes.*1 -> l !! i = Some (key, r) ->
  positions (take i l ++ drop (S i) l) ((fun j => if decide (i < j)%nat then (j - 1)%nat else j) <$> byKey) writes.
Proof.
  intros (Hd&Hp&Hn) Hw Hi. unfold positions. rewrite keys_delete. split_and!.
  - eapply sublist_NoDup; [exact Hd|]. apply sublist_delete.
  - intros k j Hj. rewrite lookup_fmap. destruct (decide (j < i)%nat).
    + rewrite list_lookup_delete_lt in Hj by done. rewrite (Hp _ _ Hj). cbn. by rewrite decide_False by lia.
    + rewrite list_lookup_delete_ge in Hj by lia. rewrite (Hp _ _ Hj). cbn. rewrite decide_True by lia. f_equal. lia.
  - intros k Hk Hnew. rewrite lookup_fmap, Hn; [done|by right|]. intros Hin. apply Hnew. assert (k <> key) as Hne by (intros ->; done).
    rewrite <- keys_delete, fmap_app. rewrite <- (take_drop_middle l i _ Hi), fmap_app in Hin. cbn in Hin. clear -Hin Hne. set_solver.
Qed.

Lemma positions_replace l byKey w key writes i r r' :
  positions l byKey ((key, w) :: writes) -> l !! i = Some (key, r) -> positions (<[i := (key, r')]> l) byKey writes.
Proof.
  intros (Hd&Hp&Hn) Hi. assert ((<[i:=(key, r')]> l).*1 = l.*1) as E.
  { rewrite list_fmap_insert. apply list_insert_id. by rewrite list_lookup_fmap, Hi. }
  unfold positions. rewrite E. split_and!; [done|done|]. intros k Hk. apply Hn. by right.
Qed.

Lemma positions_append l byKey w key writes r :
  positions l byKey ((key, w) :: writes) -> key ∉ writes.*1 -> key ∉ l.*1 -> positions (l ++ [(key, r)]) (<[key := length l.*2]> byKey) writes.
Proof.
  intros (Hd&Hp&Hn) Hw Hk. unfold positions. rewrite fmap_app. cbn [fmap list_fmap fst]. split_and!.
  - apply NoDup_app. split_and!; [done| |apply NoDup_singleton]. intros x Hx Hx'. apply list_elem_of_singleton in Hx' as ->. done.
  - intros k i Hi. rewrite length_fmap. destruct (decide (i < length l)%nat) as [Hlt|Hge].
    + rewrite lookup_app_l in Hi by (by rewrite length_fmap). rewrite lookup_insert_ne; [by apply Hp|]. intros <-. apply Hk. by eapply list_elem_of_lookup_2.
    + rewrite lookup_app_r in Hi by (rewrite length_fmap; lia). rewrite length_fmap in Hi. apply list_lookup_singleton_Some in Hi as [Hi <-].
      rewrite lookup_insert_eq. f_equal. lia.
  - intros k Hk' Hnew. apply not_elem_of_app in Hnew as [Hnew _]. rewrite lookup_insert_ne by (intros <-; done). apply Hn; [by right|done].
Qed.

(** Every row without a pending write, and every pending row, in some order. *)
Lemma overlay_spec writes l byKey :
  NoDup writes.*1 -> positions l byKey writes ->
  exists out, overlay writes l.*2 byKey = Ok out /\ out ≡ₚ untouched writes l ++ omap (fun kw => pendingRow kw.2) writes.
Proof.
  revert l byKey. induction writes as [|[key w] writes IH]; intros l byKey Hw Hp.
  { exists l.*2. split; [done|]. cbn. rewrite app_nil_r. unfold untouched. by rewrite filter_all; [|apply Forall_forall; set_solver]. }
  apply NoDup_cons in Hw as [Hk Hw].
  destruct (byKey !! key) as [i|] eqn:Ei.
  - destruct (lookup_key l byKey ((key, w) :: writes) key i Hp) as [r Hr]; [by left|done|].
    assert (i < length l.*2)%nat as Hlt by (rewrite length_fmap; by eapply lookup_lt_Some).
    pose proof (untouched_at key w writes l i r (proj1 Hp) Hr) as Hu. destruct w as [a|]; cbn [overlay]; rewrite Ei, decide_True by done.
    + destruct (IH (<[i := (key, Pending a)]> l) byKey Hw) as (out&E&Hout); [by eapply positions_replace|].
      rewrite list_fmap_insert in E. exists out. split; [exact E|]. rewrite Hout, Hu. cbn [omap list_omap pendingRow snd].
      rewrite insert_take_drop by (by rewrite length_fmap in Hlt). rewrite !untouched_app. change ((key, Pending a) :: drop (S i) l) with ([(key, Pending a)] ++ drop (S i) l).
      rewrite untouched_app, untouched_new by done. cbn [app]. rewrite <- !app_assoc. apply Permutation_app_head. cbn. by rewrite Permutation_middle.
    + destruct (IH (take i l ++ drop (S i) l) ((fun j => if decide (i < j)%nat then (j - 1)%nat else j) <$> byKey) Hw) as (out&E&Hout); [by eapply positions_delete|].
      rewrite fmap_app, fmap_take, fmap_drop in E. exists out. split; [exact E|]. by rewrite Hout, Hu.
  - assert (key ∉ l.*1) as Habs.
    { intros Hin. apply list_elem_of_lookup in Hin as [j Hj]. destruct Hp as (_&Hp&_). by rewrite (Hp _ _ Hj) in Ei. }
    pose proof (untouched_other key w writes l Habs) as Hu. destruct w as [a|]; cbn [overlay]; rewrite Ei.
    + destruct (IH (l ++ [(key, Pending a)]) (<[key := length l.*2]> byKey) Hw) as (out&E&Hout); [by eapply positions_append|].
      rewrite fmap_app in E. exists out. split; [exact E|]. rewrite Hout, Hu, untouched_app, untouched_new by done. cbn [omap list_omap pendingRow snd].
      by rewrite <- app_assoc.
    + destruct (IH l byKey Hw) as (out&E&Hout); [|exists out; split; [exact E|by rewrite Hout, Hu]].
      destruct Hp as (Hd&Hp&Hn). split_and!; [done|done|]. intros k Hk'. apply Hn. by right.
Qed.

Section own_writes.
Context `{Fmt : Formats}.

Lemma keyPositions_spec (s : Schema) (rs : list Row) (i : nat) (byKey : gmap bytes nat) :
  Columns s <> [] -> NoDup (key_of s <$> rs) -> (forall r, r ∈ rs -> byKey !! key_of s r = None) ->
  exists m, keyPositions s i rs byKey = Ok m /\
    (forall j k, (key_of s <$> rs) !! j = Some k -> m !! k = Some (i + j)%nat) /\ (forall k, k ∉ key_of s <$> rs -> m !! k = byKey !! k).
Proof.
  intros Hc. revert i byKey. induction rs as [|r rs IH]; intros i byKey Hd Hn; [by exists byKey|].
  cbn [fmap list_fmap] in Hd. apply NoDup_cons in Hd as [Hr Hd]. cbn [keyPositions]. rewrite primaryKey_ok by done. unfold mbind at 1, outcome_bind at 1.
  destruct (IH (S i) (<[key_of s r := i]> byKey) Hd) as (m&E&H1&H2).
  { intros r' Hr'. rewrite lookup_insert_ne; [apply Hn; by right|]. intros Ek. apply Hr. rewrite Ek. by apply list_elem_of_fmap_2. }
  exists m. split_and!; [done| |].
  - intros [|j] k Hj; cbn in Hj.
    + injection Hj as <-. rewrite H2 by done. rewrite lookup_insert_eq. f_equal. lia.
    + rewrite (H1 _ _ Hj). f_equal. lia.
  - intros k Hk. cbn in Hk. apply not_elem_of_cons in Hk as [Hk1 Hk2]. rewrite H2 by done. by rewrite lookup_insert_ne.
Qed.
End own_writes.

Lemma on_table_pure {A} t tb (m : M Table A) (e : Executor) : tabs e !! t = Some tb -> pure m -> on_table t m e = ((m tb).1, e).
Proof.
  intros E Hm. unfold on_table. rewrite E. specialize (Hm tb). destruct (m tb) as [o tb']. cbn in *. subst. rewrite list_insert_id by done. by destruct e.
Qed.

(** C18: inside a transaction a session reads its own writes over its snapshot: every
    row of the snapshot whose key it has not written, and every row it has written
    and not deleted, each once, in whatever order Go visits the writes. *)
Theorem read_own_writes `{Codec : IndexCodec} `{Fmt : Formats} `{Order : MapOrder} {Laws : MapOrderLaws}
  (e : Executor) (x : transaction) (t i : nat) (st : transactionTableState) (tb : Table) (rs : list Row)
  (Htx : tx e = Some x) (Hst : tableState t x = Some (i, st)) (Htab : tabs e !! t = Some tb)
  (Hscan : ScanAt (readAt st) tb = Ok rs) (Hcols : Columns (tschema tb) <> []) (Hkeys : NoDup (key_of (tschema tb) <$> rs)) :
  exists out, rows t e = (Ok out, e) /\
    out ≡ₚ (Fresh <$> filter (fun r => tsWrites st !! key_of (tschema tb) r = None) rs) ++
           omap (fun kw => pendingRow kw.2) (map_to_list (tsWrites st)).
Proof.
  destruct (keyPositions_spec (tschema tb) rs 0 ∅ Hcols Hkeys) as (m&Em&H1&H2); [intros; apply lookup_empty|].
  set (l := (fun r => (key_of (tschema tb) r, Fresh r)) <$> rs).
  assert (l.*1 = key_of (tschema tb) <$> rs) as El1 by (unfold l; by rewrite <- list_fmap_compose).
  assert (l.*2 = Fresh <$> rs) as El2 by (unfold l; by rewrite <- list_fmap_compose).
  pose proof (range_permutation _ (tsWrites st)) as Hr.
  destruct (overlay_spec (range (tsWrites st)) l m) as (out&E&Hout).
  { rewrite Hr. apply NoDup_fst_map_to_list. }
  { unfold positions. rewrite El1. split_and!; [done|intros k j Hj; by rewrite (H1 _ _ Hj)|]. intros k _ Hk. rewrite H2 by done. apply lookup_empty. }
  exists out. split.
  - unfold rows. rewrite bind_get, Htx. cbn [mbind option_bind]. rewrite Hst.
    erewrite bind_ok by (rewrite (on_table_pure t tb) by done; unfold scanAtOrNil; cbn; by rewrite Hscan).
    unfold schema_of. erewrite bind_ok by (rewrite (on_table_pure t tb) by done; reflexivity). cbn [gets].
    erewrite bind_ok by (unfold lift; by rewrite Em). unfold lift. by rewrite <- El2, E.
  - rewrite Hout. rewrite (omap_Permutation (fun kw => pendingRow kw.2) _ _ Hr). apply Permutation_app_tail. match goal with |- ?a ≡ₚ ?b => enough (a = b) as -> by done end.
    unfold untouched, l. clear -Hr Fmt. induction rs as [|r rs IH]; [done|]. rewrite fmap_cons, !filter_cons. cbn [fst].
    assert (key_of (tschema tb) r ∉ (range (tsWrites st)).*1 <-> tsWrites st !! key_of (tschema tb) r = None) as Hiff.
    { rewrite Hr. rewrite list_elem_of_fmap. split.
      - intros Hn. apply eq_None_not_Some. intros [w Hw]. apply Hn. exists (key_of (tschema tb) r, w). split; [done|]. by apply elem_of_map_to_list.
      - intros Hn ([k w]&Ek&Hin). apply elem_of_map_to_list in Hin. cbn in Ek. subst k. by rewrite Hn in Hin. }
    destruct (decide (tsWrites st !! key_of (tschema tb) r = None)) as [H|H].
    + rewrite decide_True by (by apply Hiff). rewrite !fmap_cons. cbn. by rewrite IH.
    + rewrite decide_False by (by rewrite Hiff). apply IH.
Qed.

(** ** Conflicts *)

Definition conflict_error (key : bytes) : error := Errorf "transaction conflict on key %q" [AStr key].

Lemma checkConflicts_spec (t : Table) (snapshot : Z) (keys : list bytes) :
  (exists key, key ∈ keys /\ Table.ChangedSince snapshot key t = true /\ checkConflicts t snapshot keys = Err (conflict_error key)) \/
  ((forall key, key ∈ keys -> Table.ChangedSince snapshot key t = false) /\ checkConflicts t snapshot keys = Ok tt).
Proof.
  induction keys as [|k keys IH]; [right; split; [set_solver|done]|]. cbn [checkConflicts].
  destruct (Table.ChangedSince snapshot k t) eqn:E; [left; exists k; split_and!; [by left|done|done]|].
  destruct IH as [(key&Hin&Hc&->)|[Hall ->]]; [left; exists key; split_and!; [by right|done|done]|].
  right. split; [|done]. intros key [->|Hin]%elem_of_cons; auto.
Qed.

Section conflicts.
Context `{Codec : IndexCodec} `{Order : MapOrder} {Laws : MapOrderLaws}.

Definition tables_exist (e : Executor) (ts : list transactionTableState) : Prop := Forall (fun st => is_Some (tabs e !! tsTable st)) ts.

Definition conflicting (e : Executor) (st : transactionTableState) (key : bytes) : Prop :=
  is_Some (tsWrites st !! key) /\ exists tb, tabs e !! tsTable st = Some tb /\ Table.ChangedSince (readAt st) key tb = true.

Lemma elem_range {A} (m : gmap bytes A) k : k ∈ (range m).*1 <-> is_Some (m !! k).
Proof using Laws.
  rewrite range_permutation, list_elem_of_fmap. split.
  - intros ([k' v]&->&Hin). apply elem_of_map_to_list in Hin. by eexists.
  - intros [v Hv]. exists (k, v). split; [done|]. by apply elem_of_map_to_list.
Qed.

Lemma checkTables_spec e ts : tables_exist e ts ->
  (exists key st, st ∈ ts /\ conflicting e st key /\ checkTables ts e = (Err (conflict_error key), e)) \/
  ((forall key st, st ∈ ts -> ~ conflicting e st key) /\ checkTables ts e = (Ok tt, e)).
Proof using Laws.
  induction 1 as [|st ts [tb Htb] Hts IH]; [right; split; [set_solver|done]|]. cbn [checkTables]. cbv [mbind M_bind].
  rewrite (on_table_pure (tsTable st) tb) by done. cbn [fst].
  destruct (checkConflicts_spec tb (readAt st) (range (tsWrites st)).*1) as [(key&Hin&Hc&->)|[Hall ->]].
  - left. exists key, st. split_and!; [by left| |done]. split; [by apply elem_range|by exists tb].
  - destruct IH as [(key&st'&Hin&Hc&->)|[Hno ->]]; [left; exists key, st'; split_and!; [by right|done|done]|].
    right. split; [|done]. intros key st' [->|Hin]%elem_of_cons; [|by apply Hno]. intros [Hk (tb'&Etb&Hch)]. simplify_eq.
    rewrite Hall in Hch; [done|]. by apply elem_range.
Qed.
End conflicts.

(** C20: first committer wins: if a key the transaction wrote has changed since its
    snapshot, [COMMIT] reports a conflict on such a key and changes nothing: the
    transaction stays open with its writes. *)
Theorem commit_conflict `{Codec : IndexCodec} `{Order : MapOrder} {Laws : MapOrderLaws}
  (e : Executor) (x : transaction) (st : transactionTableState) (key : bytes)
  (Htx : tx e = Some x) (Hex : tables_exist e (txTables x)) (Hst : st ∈ txTables x) (Hc : conflicting e st key) :
  exists key' st', st' ∈ txTables x /\ conflicting e st' key' /\ commit e = (Err (conflict_error key'), e).
Proof.
  destruct (checkTables_spec e (txTables x) Hex) as [(key'&st'&Hin&Hc'&E)|[Hno _]]; [|by destruct (Hno key st Hst)].
  exists key', st'. split_and!; [done|done|]. unfold commit. rewrite bind_get, Htx. by apply bind_err.
Qed.
