(* ===== verification/SqlRollback.v ===== *)
(** * ROLLBACK

    [ROLLBACK] empties every table of the transaction and inserts the rows it had
    at [BEGIN]. The table invariant of [TableProofs] carries the theorem. *)
From S2P Require Import Prelude OrderedMap BTree Wal Record Store StoreProofs StoreSpec Value Text RowCodec Table StoreContract StoreReopen TableInv TableProofs TableSpec TableOpen Catalog SqlLex SqlParse SqlEval SqlExec SqlTx.

(** ** A step for each table of a transaction *)

Lemma on_table_ok {A} a tb tb' (m : M Table A) o (e : Executor) :
  tabs e !! a = Some tb -> m tb = (o, tb') -> on_table a m e = (o, set_tabs (<[a:=tb']> (tabs e)) e).
Proof. intros Ea Em. unfold on_table. by rewrite Ea, Em. Qed.

(** Two methods of the same table in a row. *)
Lemma on_table_seq {A B C} a (m1 : M Table A) (m2 : A -> M Table B) (f : B -> exec C) (e : Executor) :
  (x ← on_table a m1; y ← on_table a (m2 x); f y) e = (y ← on_table a (x ← m1; m2 x); f y) e.
Proof.
  cbv [mbind M_bind]. unfold on_table. destruct (tabs e !! a) as [tb|] eqn:Ea; [|done].
  destruct (m1 tb) as [[x| | |] tb1]; try done. cbn [tabs set_tabs]. rewrite list_lookup_insert_eq by (by eapply lookup_lt_Some).
  destruct (m2 x tb1) as [o tb2]. rewrite list_insert_insert_eq. by destruct o.
Qed.

Definition same_elsewhere (ts : list transactionTableState) (e e' : Executor) : Prop :=
  forall a, a ∉ tsTable <$> ts -> tabs e' !! a = tabs e !! a.

Definition each_table (P : transactionTableState -> Table -> Prop) (ts : list transactionTableState) (e : Executor) : Prop :=
  Forall (fun st => exists tb, tabs e !! tsTable st = Some tb /\ P st tb) ts.

Lemma same_elsewhere_length P Q ts e e' :
  same_elsewhere ts e e' -> each_table P ts e -> each_table Q ts e' -> length (tabs e') = length (tabs e).
Proof.
  intros Hs HP HQ. apply length_same_dom. intros a. destruct (decide (a ∈ tsTable <$> ts)) as [Hin|Hn]; [|by rewrite Hs].
  apply list_elem_of_fmap in Hin as (st&->&Hin). unfold each_table in *. rewrite Forall_forall in HP, HQ.
  destruct (HP st Hin) as (tb1&->&_), (HQ st Hin) as (tb2&->&_). split; by eexists.
Qed.

Lemma for_tables (h : list Row) (loop : list transactionTableState -> exec unit) (step : transactionTableState -> M Table unit)
    (P Q : transactionTableState -> Table -> Prop) ts e :
  (forall e, loop [] e = (Ok tt, e)) ->
  (forall st ts e, rowHeap e = h -> loop (st :: ts) e = (_ ← on_table (tsTable st) (step st); loop ts) e) ->
  (forall st tb, P st tb -> exists tb', step st tb = (Ok tt, tb') /\ Q st tb') ->
  rowHeap e = h -> NoDup (tsTable <$> ts) -> each_table P ts e ->
  exists tabs', loop ts e = (Ok tt, set_tabs tabs' e) /\ each_table Q ts (set_tabs tabs' e) /\ same_elsewhere ts e (set_tabs tabs' e).
Proof.
  intros Hnil Hcons Hstep. revert e. induction ts as [|st ts IH]; intros e Hh Hd HP.
  { exists (tabs e). rewrite Hnil. split_and!; [by destruct e|constructor|done]. }
  cbn [fmap list_fmap] in Hd. apply NoDup_cons in Hd as [Hn Hd]. apply Forall_cons in HP as [(tb&Ha&Hp) HP].
  destruct (Hstep st tb Hp) as (tb'&E1&Hq). rewrite Hcons by done. rewrite (bind_ok _ _ _ _ _ (on_table_ok _ _ _ _ _ _ Ha E1)).
  set (e2 := set_tabs (<[tsTable st:=tb']> (tabs e)) e).
  assert (forall a, a <> tsTable st -> tabs e2 !! a = tabs e !! a) as He2 by (intros a Hne; cbn; by apply list_lookup_insert_ne).
  destruct (IH e2 Hh Hd) as (tabs'&E&Hdone&Hsame).
  { eapply Forall_impl; [apply Forall_and; split; [exact HP|apply Forall_forall; intros st' Hin; exact Hin]|].
    intros st' [(tb2&Ha2&Hp2) Hin]. exists tb2. rewrite He2; [done|]. intros Eq. apply Hn. rewrite <- Eq. by apply list_elem_of_fmap_2. }
  exists tabs'. change (set_tabs tabs' e2) with (set_tabs tabs' e) in *. split_and!; [done| |].
  - constructor; [|done]. exists tb'. split; [|done]. rewrite (Hsame (tsTable st) Hn). cbn. apply list_lookup_insert_eq. by eapply lookup_lt_Some.
  - intros a Ha'. cbn in Ha'. apply not_elem_of_cons in Ha' as [Hne Ha']. rewrite (Hsame a Ha'). by apply He2.
Qed.

#[local] Set Default Proof Using "All".
Section restoring.
Context `{Codec : IndexCodec} `{Fmt : Formats}.

(** Rows that can be stored again. *)
Definition restorable (s : Schema) (T0 : rowmap) : Prop :=
  unique_ok s T0 /\
  forall k r, T0 !! k = Some r -> key_of s r = k /\ exists b, encode s r = Ok b /\ decode s b = Ok r /\ fits (flagLive, k, b).

Abbreviation sim := (table_sim store_reads durable).

Lemma check_restorable s T0 T1 k r : restorable s T0 -> T1 ⊆ T0 -> T0 !! k = Some r -> check s k r T1 = Ok tt.
Proof.
  intros [Hu _] Hsub Hk. unfold check. destruct (list_find _ _) as [[i c]|] eqn:E; [|done]. exfalso.
  apply list_find_Some in E as (Hc&(Hq&Hv&(k'&old&Hold&Hne&Hi))&_).
  eapply (Hu c k k' r old); try done; [by eapply list_elem_of_lookup_2|by eapply lookup_weaken].
Qed.

(** Rows of [T0], inserted one after the other. *)
Lemma reinsert_spec rs t st T0 T1 :
  sim t st T1 -> restorable (tschema t) T0 -> T1 ⊆ T0 -> Forall (fun r => T0 !! key_of (tschema t) r = Some r) rs ->
  len (states st) + len rs < 2 ^ 32 - 1 ->
  exists t' st' T2, reinsert rs t = (Ok tt, t') /\ sim t' st' T2 /\ T1 ⊆ T2 /\ T2 ⊆ T0 /\
    Forall (fun r => T2 !! key_of (tschema t) r = Some r) rs /\ tschema t' = tschema t /\ grown st st' (len rs).
Proof.
  revert t st T1. induction rs as [|r rs IH]; intros t st T1 Hs H0 Hsub Hrs Hb.
  { exists t, st, T1. split_and!; try done. by apply grown_refl. }
  apply Forall_cons in Hrs as [Hr Hrs]. rewrite len_cons in Hb. pose proof (len_nonneg rs).
  cbn [reinsert]. rewrite bind_get. rewrite primaryKey_ok by apply Hs. erewrite bind_ok by reflexivity.
  set (k := key_of (tschema t) r) in *. destruct (proj2 H0 k r Hr) as (_&b&He&Hd&Hf).
  destruct (Insert_spec store_reads durable t st T1 k r Hs) as (t1&st1&E1&Hs1&Hsc1&Hg1); [|lia|].
  { intros b' Hb'. assert (b' = b) as -> by congruence. done. }
  assert (spec_insert (tschema t) k r T1 = (Ok tt, <[k:=r]> T1)) as Ei.
  { unfold spec_insert. rewrite He. unfold mbind, outcome_bind. by rewrite (check_restorable _ T0). }
  rewrite Ei in *. cbn [fst snd] in *. rewrite (bind_ok _ _ _ _ _ E1).
  assert (<[k:=r]> T1 ⊆ T0) as Hsub1 by (by apply insert_subseteq_l).
  destruct (IH t1 st1 (<[k:=r]> T1) Hs1) as (t2&st2&T2&E2&Hs2&H12&H20&Hrs2&Hsc2&Hg2); [by rewrite Hsc1|done|by rewrite Hsc1|unfold grown in Hg1; lia|].
  rewrite Hsc1 in Hrs2. exists t2, st2, T2. split_and!; [done|done| |done| |congruence|].
  - apply map_subseteq_spec. intros k' r' Hk'. destruct (decide (k' = k)) as [->|Hne].
    + assert (r' = r) as -> by (eapply lookup_weaken in Hk'; [|exact Hsub]; congruence). eapply lookup_weaken; [|exact H12]. apply lookup_insert_eq.
    + eapply lookup_weaken; [|exact H12]. by rewrite lookup_insert_ne.
  - constructor; [|done]. fold k. eapply lookup_weaken; [|exact H12]. apply lookup_insert_eq.
  - rewrite len_cons. by eapply grown_trans.
Qed.

(** The whole table is set back to [T0], whatever it holds. *)
Lemma reset_spec t st T T0 :
  sim t st T -> restorable (tschema t) T0 -> len (states st) + Z.of_nat (base.size T) + Z.of_nat (base.size T0) < 2 ^ 32 - 1 ->
  exists t1 t2 st2, counted (DeleteWhere (Some (fun _ => true))) t = (Ok (len (scan_rows T)), t1) /\
    reinsert (scan_rows T0) t1 = (Ok tt, t2) /\ sim t2 st2 T0 /\ tschema t2 = tschema t /\
    grown st st2 (Z.of_nat (base.size T) + Z.of_nat (base.size T0)).
Proof.
  intros Hs H0 Hb. destruct (DeleteWhere_spec store_reads durable t st T (Some (fun _ => true)) Hs) as (t1&st1&E1&Hs1&Hsc1&Hg1); [lia|].
  assert (filter (fun kr : bytes * Row => matches (Some (fun _ => true)) kr.2 = false) T = ∅) as Ef by (apply map_empty; intros k; apply map_lookup_filter_None; right; intros r _ Hf; done).
  rewrite Ef in Hs1. pose proof (scan_rows_length T0).
  destruct (reinsert_spec (scan_rows T0) t1 st1 T0 ∅ Hs1) as (t2&st2&T2&E2&Hs2&_&H20&Hrs&Hsc2&Hg2).
  - by rewrite Hsc1.
  - apply map_empty_subseteq.
  - apply Forall_forall. intros r [k Hk]%elem_scan_rows. rewrite Hsc1. by destruct (proj2 H0 k r Hk) as (->&_).
  - unfold grown in Hg1. lia.
  - assert (T2 = T0) as ->.
    { apply (anti_symm (⊆)); [done|]. apply map_subseteq_spec. intros k r Hk. rewrite Forall_forall in Hrs.
      destruct (proj2 H0 k r Hk) as (Ek&_). rewrite Hsc1 in Hrs. rewrite <- Ek. apply Hrs. apply elem_scan_rows. by exists k. }
    exists t1, t2, st2. split_and!; [|done|done|congruence|].
    + unfold counted. erewrite bind_ok by exact E1. cbn. unfold count. by rewrite filter_all by (by apply Forall_forall).
    + eapply grown_trans; [exact Hg1|]. eapply grown_weaken; [|exact Hg2]. lia.
Qed.

Lemma release_spec t st T n :
  sim t st T -> exists t' st', Table.ReleaseSnapshot n t = (Ok tt, t') /\ sim t' st' T /\ tschema t' = tschema t /\ states st' = states st /\ readers st' <= readers st.
Proof.
  intros [Hs Ht]. destruct (release_durable (tstore t) st n Hs) as (s'&E&Hs').
  exists (set_tstore s' t), (MkSpec (states st) (if decide (readers st > 0) then readers st - 1 else readers st)).
  split_and!; [by apply on_store_ok| |done|done|cbn; case_decide; lia]. split; [done|]. destruct Ht as [? ? ? ? ?]. split; cbn; try done.
  by apply (sw_reads _ _ Hs').
Qed.

(** ** All tables of the transaction *)

(** [img] gives the schema and the rows of [BEGIN] for each address. *)
Context (img : nat -> Schema * rowmap).
(** [room]: the records that each table can still take afterwards. *)
Context (room : Z) (Hroom : 0 <= room).

(** The table can be emptied and filled with the rows of [BEGIN]. *)
Definition resettable (st : transactionTableState) (tb : Table) : Prop :=
  exists sp T, sim tb sp T /\ tschema tb = (img (tsTable st)).1 /\
    restorable (img (tsTable st)).1 (img (tsTable st)).2 /\ tsRollback st = scan_rows (img (tsTable st)).2 /\
    len (states sp) + Z.of_nat (base.size T) + Z.of_nat (base.size (img (tsTable st)).2) + room < 2 ^ 32 - 1.

(** It holds exactly the rows of [BEGIN]. *)
Definition was_reset (st : transactionTableState) (tb : Table) : Prop :=
  exists sp, sim tb sp (img (tsTable st)).2 /\ tschema tb = (img (tsTable st)).1 /\
    len (states sp) + room < 2 ^ 32 - 1.

Lemma rollbackTables_spec ts e :
  NoDup (tsTable <$> ts) -> each_table resettable ts e ->
  exists tabs', rollbackTables ts e = (Ok tt, set_tabs tabs' e) /\ each_table was_reset ts (set_tabs tabs' e) /\ same_elsewhere ts e (set_tabs tabs' e).
Proof.
  intros Hd HP. eapply (for_tables (rowHeap e) rollbackTables (fun st => _ ← counted (DeleteWhere (Some (fun _ => true))); reinsert (tsRollback st)));
    [done|intros st ts' e' _; cbn [rollbackTables]; apply on_table_seq| |done|exact Hd|exact HP].
  intros st tb (sp&T&Hs&Hsc&H0&Erb&Hb).
  destruct (reset_spec tb sp T (img (tsTable st)).2 Hs) as (t1&t2&sp2&E1&E2&Hs2&Hsc2&Hg2); [by rewrite Hsc|lia|].
  exists t2. rewrite Erb, (bind_ok _ _ _ _ _ E1). split; [done|]. exists sp2. unfold grown in Hg2. split_and!; [done|congruence|lia].
Qed.

Lemma releaseTables_spec ts e :
  NoDup (tsTable <$> ts) -> each_table was_reset ts e ->
  exists tabs', releaseTables ts e = (Ok tt, set_tabs tabs' e) /\
    each_table was_reset ts (set_tabs tabs' e) /\ same_elsewhere ts e (set_tabs tabs' e).
Proof.
  intros Hd HP. eapply (for_tables (rowHeap e) releaseTables (fun st => Table.ReleaseSnapshot (readAt st))); [done|done| |done|exact Hd|exact HP].
  intros st tb (sp&Hs&Hsc&Hb). destruct (release_spec tb sp _ (readAt st) Hs) as (t2&sp2&E2&Hs2&Hsc2&Hst2&_).
  exists t2. split; [done|]. exists sp2. split_and!; [done|congruence|by rewrite Hst2].
Qed.

Lemma rollback_spec e x :
  tx e = Some x -> NoDup (tsTable <$> txTables x) -> each_table resettable (txTables x) e ->
  exists tabs', rollback e = (Ok empty_result, set_tx None (set_tabs tabs' e)) /\ same_elsewhere (txTables x) e (set_tabs tabs' e) /\
    each_table was_reset (txTables x) (set_tabs tabs' e).
Proof.
  intros Htx Hdup Hreset. destruct (rollbackTables_spec (txTables x) e Hdup Hreset) as (tabs1&E1&H1&S1).
  destruct (releaseTables_spec (txTables x) (set_tabs tabs1 e) Hdup H1) as (tabs2&E2&H2&S2).
  exists tabs2. split_and!; [| |done].
  - unfold rollback. rewrite bind_get, Htx. rewrite (bind_ok _ _ _ _ _ E1), (bind_ok _ _ _ _ _ E2). done.
  - intros a Ha. rewrite <- (S1 a Ha). apply (S2 a Ha).
Qed.

(** Each table then scans as the rows kept at [BEGIN]. *)
Lemma reset_scans ts e e' :
  each_table resettable ts e -> each_table was_reset ts e' -> each_table (fun st tb => Scan tb = (Ok (tsRollback st), tb)) ts e'.
Proof.
  unfold each_table. rewrite !Forall_forall. intros H1 H2 st Hst. destruct (H2 st Hst) as (tb&Ha&sp&Hs&_). exists tb. split; [done|].
  destruct (H1 st Hst) as (_&_&_&_&_&_&_&->&_). apply (Scan_spec store_reads tb (current sp)). apply Hs.
Qed.
End restoring.

(** [ROLLBACK] sets every table of the transaction back to exactly the rows it had
    at [BEGIN], ends the transaction and leaves other tables alone, whatever the
    tables hold by then: what other sessions committed since is undone as well. *)
Theorem rollback_resets `{Codec : IndexCodec} `{Fmt : Formats} (img : nat -> Schema * rowmap) (e : Executor) (x : transaction)
  (Htx : tx e = Some x) (Hdup : NoDup (tsTable <$> txTables x)) (Hreset : each_table (resettable img 0) (txTables x) e) :
  exists e', rollback e = (Ok empty_result, e') /\ tx e' = None /\ same_elsewhere (txTables x) e e' /\
    each_table (fun st tb => Scan tb = (Ok (tsRollback st), tb)) (txTables x) e'.
Proof.
  destruct (rollback_spec img 0 ltac:(done) e x Htx Hdup Hreset) as (tabs'&E&Hs&Hr). exists (set_tx None (set_tabs tabs' e)).
  split_and!; [done|done|done|]. by eapply (reset_scans img 0 ltac:(done) (txTables x) e (set_tabs tabs' e)).
Qed.
