(* ===== verification/SqlCommit.v ===== *)
(** * COMMIT

    A [COMMIT] without conflicts applies every pending write to the rows its tables
    hold by then. Nothing is assumed of the secondary index: the batch does not
    maintain it. *)
From S2P Require Import Prelude OrderedMap BTree Wal Record Store StoreInv StoreProofs StoreSpec Value Text RowCodec Table StoreContract StoreReopen TableInv TableProofs TableSpec Catalog SqlLex SqlParse SqlEval SqlExec SqlTx SqlRollback.

#[local] Set Default Proof Using "All".

(** ** One table *)

Section one_table.
Context `{Codec : IndexCodec} `{Fmt : Formats}.
Implicit Types (T : rowmap) (m : kvs) (tb : Table) (sp : spec_state) (l : list (bytes * TransactionRow)).

(** The rows of the table, whatever its index says. *)
Definition holds_rows (tb : Table) (sp : spec_state) (T : rowmap) : Prop :=
  durable (tstore tb) sp /\ rows_rep (tschema tb) (current sp) T.

Lemma holds_scan tb sp T : holds_rows tb sp T -> Scan tb = (Ok (scan_rows T), tb).
Proof.
  intros [Hs Hr]. pose proof (sw_reads _ _ Hs) as Hrd. unfold Scan.
  rewrite (bind_ok _ _ _ _ _ (on_store_ok _ _ _ _ (sr_values _ _ Hrd))), set_tstore_same, bind_get.
  unfold lift. by rewrite (decodeAll_spec _ _ T (sr_sorted _ _ Hrd) Hr).
Qed.

(** A write that can be stored as it is. *)
Definition storable (s : Schema) (key : bytes) (w : TransactionRow) : Prop :=
  if txDeleted w then fits (flagTombstone, key, [])
  else key_of s (txRow w) = key /\ exists b, encode s (txRow w) = Ok b /\ decode s b = Ok (txRow w) /\ fits (flagLive, key, b).

Definition applied (T : rowmap) (kw : bytes * TransactionRow) : rowmap :=
  if txDeleted kw.2 then base.delete kw.1 T else <[kw.1 := txRow kw.2]> T.

Lemma batchOps_spec s l m T :
  sorted_keys m -> rows_rep s m T -> Forall (fun kw => storable s kw.1 kw.2) l ->
  exists ops, batchOps s l = Ok ops /\ len ops = len l /\ Forall fits (op_rec <$> ops) /\ rows_rep s (state_after m (op_rec <$> ops)) (foldl applied T l).
Proof.
  intros Hm Hr Hl. revert m T Hm Hr. induction Hl as [|[key w] l Hw Hl IH]; intros m T Hm Hr; [by exists []|].
  cbn [batchOps foldl]. unfold applied at 2. unfold storable in Hw. cbn [fst snd] in *. destruct (txDeleted w).
  - destruct (IH (kv_del key m) (base.delete key T)) as (ops&E&Hn&Hf&Hrep); [by apply kv_del_sorted|by apply rows_rep_del|].
    exists (MkOp key [] true :: ops). unfold mbind, outcome_bind. rewrite E. split_and!; [done|rewrite !len_cons; lia|by constructor|exact Hrep].
  - destruct Hw as (Hk&b&He&Hd&Hfit).
    destruct (IH (kv_put key b m) (<[key := txRow w]> T)) as (ops&E&Hn&Hf&Hrep); [by apply kv_put_sorted|by apply rows_rep_put|].
    exists (MkOp key b false :: ops). unfold mbind, outcome_bind. rewrite He, E. split_and!; [done|rewrite !len_cons; lia|by constructor|exact Hrep].
Qed.

Lemma ApplyRowsBatch_spec tb sp T id l :
  holds_rows tb sp T -> Forall (fun kw => storable (tschema tb) kw.1 kw.2) l -> len (states sp) + len l < 2 ^ 32 - 1 ->
  exists tb' sp', ApplyRowsBatch id l tb = (Ok tt, tb') /\ holds_rows tb' sp' (foldl applied T l) /\ tschema tb' = tschema tb /\
    len (states sp') = len (states sp) + len l.
Proof.
  intros [Hs Hr] Hl Hb. pose proof (sr_sorted _ _ (sw_reads _ _ Hs)) as Hsort.
  destruct (batchOps_spec (tschema tb) l _ T Hsort Hr Hl) as (ops&E&Hn&Hf&Hrep).
  destruct (ApplyBatch_durable (tstore tb) sp id ops Hs) as (s'&Es&Hs'); [lia|done|].
  assert (current (push (op_rec <$> ops) sp) = state_after (current sp) (op_rec <$> ops)) as Hcur.
  { unfold current at 1. cbn [push states]. by rewrite (state_after_last (current sp)) by (apply states_last, Hs). }
  exists (set_tstore s' tb), (push (op_rec <$> ops) sp). split_and!; [|split; [done|by rewrite Hcur]|done|].
  - unfold ApplyRowsBatch. rewrite bind_get. erewrite bind_ok by (unfold lift; by rewrite E). by apply on_store_ok.
  - rewrite push_length. unfold len in *. rewrite length_fmap. lia.
Qed.

(** The pending writes over the rows. *)
Definition live (w : TransactionRow) : option Row := if txDeleted w then None else Some (txRow w).
Definition overwritten (W : gmap bytes TransactionRow) (T : rowmap) : rowmap :=
  merge (fun w r => match w with Some w => live w | None => r end) W T.

Lemma overwritten_lookup W T key : overwritten W T !! key = match W !! key with Some w => live w | None => T !! key end.
Proof. unfold overwritten. rewrite lookup_merge. unfold diag_None. by destruct (W !! key), (T !! key). Qed.

Lemma applied_all (W : gmap bytes TransactionRow) l T : l ≡ₚ map_to_list W -> foldl applied T l = overwritten W T.
Proof.
  intros Hl. apply map_eq. intros key. rewrite overwritten_lookup.
  assert (NoDup l.*1) as Hd by (rewrite Hl; apply NoDup_fst_map_to_list).
  assert (forall w, W !! key = Some w <-> (key, w) ∈ l) as HW by (intros w; by rewrite Hl, elem_of_map_to_list).
  clear Hl. revert T W HW. induction l as [|[k w] l IH]; intros T W HW; cbn [foldl].
  { destruct (W !! key) as [w|]; [|done]. destruct (proj1 (elem_of_nil (key, w))). by apply HW. }
  cbn in Hd. apply NoDup_cons in Hd as [Hk Hd]. destruct (decide (key = k)) as [->|Hne].
  - rewrite (proj2 (HW w)) by constructor. rewrite (IH Hd _ ∅).
    + rewrite lookup_empty. unfold applied, live. cbn [fst snd]. destruct (txDeleted w); [apply lookup_delete_eq|apply lookup_insert_eq].
    + intros w'. rewrite lookup_empty. split; [done|]. intros Hin. destruct Hk. apply list_elem_of_fmap. by exists (k, w').
  - rewrite (IH Hd _ W).
    + assert (applied T (k, w) !! key = T !! key) as -> by (unfold applied; cbn [fst snd]; destruct (txDeleted w); [by rewrite lookup_delete_ne|by rewrite lookup_insert_ne]). done.
    + intros w'. rewrite HW, elem_of_cons. split; [intros [[= -> ->]|]; done|by right].
Qed.
End one_table.

(** ** All tables of the transaction *)

Section committing.
Context `{Codec : IndexCodec} `{Fmt : Formats} `{Order : MapOrder} {Laws : MapOrderLaws}.
(** The rows of each table, by address, and the row objects of the session. *)
Context (rows_at : nat -> rowmap) (h : list Row).

Definition pending_row (w : transactionWrite) : TransactionRow :=
  match w with WriteRow a => MkTxRow (default ∅ (h !! a)) false | WriteDeleted => MkTxRow ∅ true end.

(** The writes can be stored. *)
Definition committable (st : transactionTableState) (tb : Table) : Prop :=
  exists sp, holds_rows tb sp (rows_at (tsTable st)) /\ map_Forall (fun key w => storable (tschema tb) key (pending_row w)) (tsWrites st) /\
    len (states sp) + Z.of_nat (base.size (tsWrites st)) < 2 ^ 32 - 1.

Definition result_rows (st : transactionTableState) : rowmap := overwritten (pending_row <$> tsWrites st) (rows_at (tsTable st)).

Definition was_committed (st : transactionTableState) (tb : Table) : Prop :=
  exists sp, holds_rows tb sp (result_rows st).

Lemma applyTables_spec id ts e :
  rowHeap e = h -> NoDup (tsTable <$> ts) -> each_table committable ts e ->
  exists tabs', applyTables id ts e = (Ok tt, set_tabs tabs' e) /\ each_table was_committed ts (set_tabs tabs' e) /\ same_elsewhere ts e (set_tabs tabs' e).
Proof.
  intros Hh Hd HP. eapply (for_tables h (applyTables id) (fun st => ApplyRowsBatch id (range (pending_row <$> tsWrites st)))); [done| | |done|exact Hd|exact HP].
  { intros st ts' e' He'. cbn [applyTables]. rewrite bind_get. unfold pending_row. rewrite <- He'. done. }
  intros st tb (sp&Hh'&Hw&Hb). pose proof (range_permutation _ (pending_row <$> tsWrites st)) as Hp.
  assert (len (range (pending_row <$> tsWrites st)) = Z.of_nat (base.size (tsWrites st))) as Hl.
  { unfold len. rewrite Hp, length_map_to_list. f_equal. apply map_size_fmap. }
  destruct (ApplyRowsBatch_spec tb sp _ id (range (pending_row <$> tsWrites st)) Hh') as (tb'&sp'&E&Hh2&_&_); [|lia|].
  - apply Forall_forall. intros [key w] Hin. rewrite Hp in Hin. apply elem_of_map_to_list in Hin. rewrite lookup_fmap in Hin.
    destruct (tsWrites st !! key) as [w'|] eqn:Ew; [|done]. injection Hin as <-. by apply (Hw key w').
  - exists tb'. split; [done|]. exists sp'. by rewrite (applied_all _ _ _ Hp) in Hh2.
Qed.

Lemma release_committed ts e :
  NoDup (tsTable <$> ts) -> each_table was_committed ts e ->
  exists tabs', releaseTables ts e = (Ok tt, set_tabs tabs' e) /\
    each_table (fun st tb => exists sp, holds_rows tb sp (result_rows st)) ts (set_tabs tabs' e) /\ same_elsewhere ts e (set_tabs tabs' e).
Proof.
  intros Hd HP. eapply (for_tables (rowHeap e) releaseTables (fun st => Table.ReleaseSnapshot (readAt st))); [done|done| |done|exact Hd|exact HP].
  intros st tb (sp&[Hs Hr]). destruct (release_durable (tstore tb) sp (readAt st) Hs) as (s'&E&Hs').
  exists (set_tstore s' tb). split; [by apply on_store_ok|]. eexists. split; [exact Hs'|exact Hr].
Qed.
End committing.

(** C19: a [COMMIT] without conflicts, of a transaction whose pending rows can be
    stored, succeeds, ends the transaction, and every table of it holds its rows as
    they were overwritten by the transaction's last write to each key: inserted and
    updated rows are there, deleted ones are gone, all others are as they were, those
    that other sessions wrote meanwhile included. Condition ([committable]): each
    pending row encodes under the schema, fits a page, reads back as it is and lies
    under its own key. Statements do not check this inside a transaction: with a value
    of the wrong type [COMMIT] fails and the transaction stays open
    ([SqlRuns.commit_refuses_types]), and a row whose key was changed twice lies under
    two keys ([SqlRuns.pending_rows_shared]). *)
Theorem commit_applies `{Codec : IndexCodec} `{Fmt : Formats} `{Order : MapOrder} {Laws : MapOrderLaws}
  (rows_at : nat -> rowmap) (e : Executor) (x : transaction)
  (Htx : tx e = Some x) (Hdup : NoDup (tsTable <$> txTables x)) (Hready : each_table (committable rows_at (rowHeap e)) (txTables x) e)
  (Hfree : Forall (fun st => map_Forall (fun key _ => forall tb, tabs e !! tsTable st = Some tb -> Table.ChangedSince (readAt st) key tb = false) (tsWrites st)) (txTables x)) :
  exists e', commit e = (Ok empty_result, e') /\ tx e' = None /\ same_elsewhere (txTables x) e e' /\
    each_table (fun st tb => Scan tb = (Ok (scan_rows (result_rows rows_at (rowHeap e) st)), tb)) (txTables x) e'.
Proof.
  destruct (checkTables_spec e (txTables x)) as [(key&st&Hin&[[w Hw] (tb&Ha&Hch)]&_)|[_ E0]].
  { eapply Forall_impl; [exact Hready|]. intros st (tb&Ha&_). by exists tb. }
  { rewrite Forall_forall in Hfree. by rewrite (Hfree st Hin key w Hw tb Ha) in Hch. }
  set (id := u64 (nextCommitSequence e + 1)).
  set (e1 := set_tx (Some (MkTx (txId x) id (txActive x) (txTables x))) (set_counters (nextTransactionID e) id e)).
  destruct (applyTables_spec rows_at (rowHeap e) id (txTables x) e1 eq_refl Hdup Hready) as (tabs1&E1&H1&S1).
  destruct (release_committed rows_at (rowHeap e) (txTables x) (set_tabs tabs1 e1) Hdup H1) as (tabs2&E2&H2&S2).
  exists (set_tx None (set_tabs tabs2 e1)). split_and!; [|done| |].
  - unfold commit. rewrite bind_get, Htx, (bind_ok _ _ _ _ _ E0). cbv [mbind M_bind modify]. fold id. fold e1. rewrite E1, E2. done.
  - intros a Ha. etrans; [exact (S2 a Ha)|exact (S1 a Ha)].
  - eapply Forall_impl; [exact H2|]. intros st (tb&Ha&sp&Hh). exists tb. split; [done|]. by eapply holds_scan.
Qed.
