(* ===== verification/SqlSpec.v ===== *)
(** * SQL statements on relations

    The specification of the executor outside a transaction is a database of named
    relations: a schema and a map of rows for each table name. Every sequence of
    [SELECT], [INSERT], [UPDATE], [DELETE], [EXPLAIN], [EXPLAIN TABLE] and
    [SHOW TABLES] is answered as the specification says, and the tables of the
    executor go on standing for its relations. *)
From S2P Require Import Prelude OrderedMap BTree Wal Record Store StoreProofs StoreSpec Value Text RowCodec Table StoreContract StoreReopen TableInv TableProofs TableSpec TableOpen Catalog SqlLex SqlParse SqlEval SqlEvalProofs SqlExec SqlTx SqlRollback.

Abbreviation relation := (Schema * rowmap)%type.
Abbreviation database := (gmap bytes relation).
Abbreviation answer := (outcome (Result * option error)).

(** ** The specification *)

Section specification.
Context `{Fmt : Formats} `{Text : GoText} `{Syn : GoSyntax} `{Order : MapOrder}.

Definition relation_of (name : bytes) (D : database) : outcome relation :=
  match D !! ToLower name with Some x => Ok x | None => Err (Errorf "unknown table %q" [AStr name]) end.

(** The column and the value of an equality that an index answers. *)
Definition indexed (s : Schema) (w : option Condition) : option (bytes * value) :=
  match w with
  | Some (MkCond col op v None None _) =>
      if bool_decide (op = of_string "=" /\ col <> [] /\ v <> VNil) && bool_decide (col ∈ cName <$> tail (Columns s)) then Some (col, v) else None
  | _ => None
  end.

Definition access (s : Schema) (T : rowmap) (q : Select) : list Row :=
  match (if decide (JoinTable q = []) then indexed s (selWhere q) else None) with
  | Some (col, v) => find_rows s col v T
  | None => scan_rows T
  end.

Definition spec_select (q : Select) (D : database) : outcome Result :=
  R ← relation_of (selTable q) D;
  rs ← (if decide (JoinTable q = []) then Ok (access R.1 R.2 q)
        else R' ← relation_of (JoinTable q) D; Ok (joinRows q (access R.1 R.2 q) (scan_rows R'.2)));
  evalSelect R.1 q rs.

Definition spec_insertKey (s : Schema) (T : rowmap) (r : Row) : outcome (value * Row) :=
  match Columns s with
  | [] => Err (Errorf "table has no columns" [])
  | c0 :: _ =>
      match r !! cName c0 with
      | Some v => Ok (v, r)
      | None =>
          if decide (cType c0 = IntType) then let next := nextId (cName c0) (scan_rows T) in Ok (VInt next, <[cName c0 := VInt next]> r)
          else Err (Errorf "insert must include key column %q" [AStr (cName c0)])
      end
  end.

(** Every value of a referencing column is there in the table it refers to. *)
Fixpoint spec_references (D : database) (s : Schema) (cs : list Column) (r : Row) : outcome unit :=
  match cs with
  | [] => Ok tt
  | c :: cs =>
      match References (constraint_of s (cName c)) with
      | Some ref =>
          if is_nil (field (cName c) r) then spec_references D s cs r
          else
            R ← relation_of (refTable ref) D;
            if referenced (refColumn ref) (field (cName c) r) (scan_rows R.2) then spec_references D s cs r
            else Err (Errorf "foreign key constraint failed: %s" [AStr (cName c)])
      | None => spec_references D s cs r
      end
  end.

(** All results of [f], or its first refusal. *)
Definition all_given (f : bytes * value -> outcome value) (l : list (bytes * value)) : outcome (list (bytes * value)) :=
  match list_find (fun nv => is_ok (f nv) = false) l with
  | Some (_, nv) => _ ← f nv; Ok []
  | None => Ok (omap (fun nv => match f nv with Ok v => Some (nv.1, v) | _ => None end) l)
  end.

(** The value a literal becomes in the column of that name (up to case), [other]
    when the table has no such column. *)
Definition given (cs : list Column) (other : outcome value) (nv : bytes * value) : outcome value :=
  match list_find (fun c => EqualFold (cName c) nv.1 = true) cs with Some (_, c) => coerceValue nv.2 (cType c) | None => other end.

(** Of two values for the same name, the later one. *)
Definition row_of (l : list (bytes * value)) : Row := list_to_map (reverse l).

(** The row written in an [INSERT]: the values in the order of their columns. *)
Definition spec_row (cs : list Column) (names : list bytes) (vals : list value) : outcome Row :=
  l ← all_given (fun nv => given cs (Ok nv.2) nv) (zip names vals);
  if decide (length vals < length names)%nat then Panic else Ok (row_of l).

(** The assignments of a [SET]: each to a column that exists. *)
Definition spec_set (cs : list Column) (set_ : gmap bytes value) : outcome Row :=
  l ← all_given (fun nv => given cs (Err (Errorf "unknown column %q" [AStr nv.1])) nv) (range set_);
  Ok (row_of l).

(** The table, the key and the row of an [INSERT]. *)
Definition new_row (q : Insert) (D : database) : outcome (relation * (value * Row)) :=
  R ← relation_of (insTable q) D;
  r ← spec_row (Columns R.1) (insColumns q) (insValues q);
  kr ← spec_insertKey R.1 R.2 r;
  _ ← spec_references D R.1 (Columns R.1) kr.2;
  Ok (R, kr).

Definition plainly (o : outcome Result) : answer :=
  match o with Ok r => Ok (r, None) | Err x => Ok (empty_result, Some x) | Panic => Panic | NoFuel => NoFuel end.

Definition spec_sql_insert (q : Insert) (D : database) : answer * database :=
  match new_row q D with
  | Ok (R, kr) =>
      let '(o, T) := spec_insert R.1 (Sprint kr.1) kr.2 R.2 in
      (plainly (_ ← o; Ok (MkResult [] [] 1)), <[ToLower (insTable q) := (R.1, T)]> D)
  | o => (plainly (o ≫= fun _ => Ok empty_result), D)
  end.

(** The table and the assignments of an [UPDATE]. *)
Definition new_values (q : Update) (D : database) : outcome (relation * Row) :=
  R ← relation_of (updTable q) D;
  set_ ← spec_set (Columns R.1) (updSet q);
  Ok (R, set_).

Definition spec_sql_update (q : Update) (D : database) : answer * database :=
  match new_values q D with
  | Ok (R, set_) =>
      let '((n, err), T) := spec_update R.1 (Some (matchWhere (updWhere q))) set_ (scan_rows R.2) 0 R.2 in
      (Ok (MkResult [] [] n, err), <[ToLower (updTable q) := (R.1, T)]> D)
  | o => (plainly (o ≫= fun _ => Ok empty_result), D)
  end.

Definition spec_sql_delete (q : Delete) (D : database) : answer * database :=
  match relation_of (delTable q) D with
  | Ok R =>
      let where_ := Some (matchWhere (delWhere q)) in
      (Ok (MkResult [] [] (count where_ (scan_rows R.2)), None),
       <[ToLower (delTable q) := (R.1, filter (fun kr : bytes * Row => matches where_ kr.2 = false) R.2)]> D)
  | o => (plainly (o ≫= fun _ => Ok empty_result), D)
  end.

Definition spec_explain_table (name : bytes) (D : database) : outcome Result :=
  R ← relation_of name D;
  Ok (MkResult (of_string <$> ["column"; "type"; "nullable"; "unique"]%string)
    ((fun c => list_to_map [(of_string "column", VString (cName c)); (of_string "type", VString (columnTypeName (cType c)));
                            (of_string "nullable", VBool (negb (NotNull (constraint_of R.1 (cName c)))));
                            (of_string "unique", VBool (Unique (constraint_of R.1 (cName c))))]) <$> Columns R.1) 0).

(** The names of all tables, in order. *)
Definition spec_list (D : database) : Result :=
  MkResult [of_string "table_name"] ((fun n => {[of_string "table_name" := VString n]}) <$> sorted_dom D) 0.

(** How a table would be read, and how many rows it has. *)
Definition spec_estimate (name : bytes) (D : database) : bytes :=
  match relation_of name D with Ok R => of_string "rows=" ++ sprint_int (len (scan_rows R.2)) | _ => of_string "rows=?" end.

Definition spec_filter (q : Select) (D : database) : bytes * bytes :=
  match selWhere q with
  | None => (of_string "Seq Scan", of_string "none")
  | Some _ =>
      match relation_of (selTable q) D with
      | Ok R =>
          match indexed R.1 (selWhere q) with
          | Some (col, v) => (of_string "Index Scan", of_string "index condition: " ++ col ++ of_string " = " ++ Sprint v)
          | None => (of_string "Seq Scan", of_string "apply WHERE predicate")
          end
      | _ => (of_string "Seq Scan", of_string "apply WHERE predicate")
      end
  end.

Definition spec_plan (s : Statement) (D : database) : outcome bytes :=
  match s with
  | SSelect q =>
      Ok ((spec_filter q D).1 ++ of_string " on " ++ selTable q ++ of_string "; " ++ spec_estimate (selTable q) D ++ of_string "; filter: " ++
          (spec_filter q D).2 ++ of_string "; projection: " ++ Join (selColumns q) (of_string ", "))
  | SInsert q => Ok (of_string "Insert into " ++ insTable q ++ of_string "; columns: " ++ Join (insColumns q) (of_string ", "))
  | SUpdate q => Ok (of_string "Seq Scan on " ++ updTable q ++ of_string "; update columns: " ++ mapKeys (updSet q))
  | SDelete q => Ok (of_string "Seq Scan on " ++ delTable q ++ of_string "; delete matching rows")
  | _ => Err (Errorf "unsupported statement for EXPLAIN" [])
  end.

Definition spec_explain (s : Statement) (D : database) : outcome Result :=
  p ← spec_plan s D; Ok (MkResult [of_string "plan"] [{[of_string "plan" := VString p]}] 0).

(** Statements that the specification covers: all that leave the schemas alone and
    do not control transactions. *)
Definition relational (s : Statement) : bool :=
  match s with SSelect _ | SInsert _ | SUpdate _ | SDelete _ | SExplain _ | SExplainTable _ | SListTables => true | _ => false end.

Definition spec_statement (s : Statement) (D : database) : answer * database :=
  match s with
  | SSelect q => (plainly (spec_select q D), D)
  | SInsert q => spec_sql_insert q D
  | SUpdate q => spec_sql_update q D
  | SDelete q => spec_sql_delete q D
  | SExplainTable n => (plainly (spec_explain_table n D), D)
  | SExplain s => (plainly (spec_explain s D), D)
  | SListTables => (plainly (Ok (spec_list D)), D)
  | _ => (NoFuel, D)
  end.

(** The rows that the statement stores can be stored as they are. *)
Definition admissible (s : Statement) (D : database) : Prop :=
  relational s = true /\
  match s with
  | SInsert q => forall R kr, new_row q D = Ok (R, kr) -> writable R.1 (Sprint kr.1) kr.2
  | SUpdate q => forall R set_, new_values q D = Ok (R, set_) -> map_Forall (fun _ r => update_ok R.1 (Some (matchWhere (updWhere q))) set_ r) R.2
  | _ => True
  end.

Definition rows_in (name : bytes) (D : database) : Z :=
  match relation_of name D with Ok R => Z.of_nat (base.size R.2) | _ => 0 end.

(** The records that the statement may append to a table. *)
Definition statement_cost (s : Statement) (D : database) : Z :=
  match s with SInsert _ => 1 | SUpdate q => rows_in (updTable q) D | SDelete q => rows_in (delTable q) D | _ => 0 end.

Fixpoint admissible_all (ss : list Statement) (n : Z) (D : database) : Prop :=
  match ss with
  | [] => 0 <= n
  | s :: ss => admissible s D /\ admissible_all ss (n - statement_cost s D) (spec_statement s D).2
  end.

Lemma statement_cost_nonneg s D : 0 <= statement_cost s D.
Proof using Type. destruct s; cbn; unfold rows_in; try destruct (relation_of _ D); lia. Qed.
Lemma statements_room ss n D : admissible_all ss n D -> 0 <= n.
Proof using Type.
  revert n D. induction ss as [|s ss IH]; intros n D; cbn [admissible_all]; [done|]. intros [_ H]. apply IH in H.
  pose proof (statement_cost_nonneg s D). lia.
Qed.
End specification.

(** ** The executor's tables stand for the relations *)

#[local] Set Default Proof Using "All".

(** A step that reads and a continuation. *)
Lemma bind_read {S A B} (m : M S A) (f : A -> M S B) (s : S) (o : outcome A) (g : A -> outcome B) :
  m s = (o, s) -> (forall a, o = Ok a -> f a s = (g a, s)) -> (m ≫= f) s = (o ≫= g, s).
Proof. intros Em Hf. cbv [mbind M_bind outcome_bind]. rewrite Em. destruct o; [by apply Hf|done..]. Qed.

Lemma plain_read m e o : m e = (o, e) -> plain m e = (plainly o, e).
Proof. intros Em. unfold plain, attempt. rewrite Em. by destruct o. Qed.

(** Sorting distinct names gives them in order. *)
Lemma sorted_names {A} (D : gmap bytes A) (l : list bytes) : NoDup l -> (forall k, k ∈ l <-> k ∈ dom D) -> SliceStable bytes_ltb l = sorted_dom D.
Proof.
  intros Hd Hl. set (l' := SliceStable bytes_ltb l). assert (l' ≡ₚ l) as Hp by apply SliceStable_perm.
  assert (forall x y, bytes_ltb x y = false <-> ~ bytes_lt x y) as Hb by (intros x y; unfold bytes_lt; by destruct (bytes_ltb x y)).
  assert (StronglySorted (fun x y => bytes_ltb y x = false) l') as Hs.
  { apply (SliceStable_sorted _ (fun _ => True)); [| |by apply Forall_forall].
    - intros x y _ _ Hxy. apply Hb. intros Hyx. eapply bytes_lt_irrefl, bytes_lt_trans; [exact Hxy|exact Hyx].
    - intros x y z _ _ _ Hyx Hzy. rewrite Hb in *. rewrite !bytes_nlt_le in *. destruct Hyx as [->|Hyx], Hzy as [->|Hzy]; auto. right. by eapply bytes_lt_trans. }
  assert (StronglySorted bytes_lt l') as Hss.
  { rewrite <- Hp in Hd. clear Hp Hl. induction Hs as [|x l'' Hs IH Hx]; [constructor|]. apply NoDup_cons in Hd as [Hn Hd]. constructor; [auto|].
    rewrite Forall_forall in Hx |- *. intros y Hy. specialize (Hx y Hy). rewrite Hb, bytes_nlt_le in Hx. destruct Hx as [->|Hx]; [done|done]. }
  assert (((fun k => (k, [])) <$> l' : kvs).*1 = l') as Ef by (rewrite <- list_fmap_compose; by apply list_fmap_id).
  rewrite <- Ef. apply sorted_dom_spec; unfold sorted_keys; rewrite Ef; [done|]. intros k. by rewrite Hp.
Qed.

(** ** The values of a statement *)

Section values.
Context `{Fmt : Formats} `{Text : GoText} `{Syn : GoSyntax} `{Order : MapOrder}.

Lemma all_given_cons f n x l :
  all_given f ((n, x) :: l) = (v ← f (n, x); r ← all_given f l; Ok ((n, v) :: r)).
Proof using Type.
  unfold all_given. cbn [list_find]. destruct (decide _) as [Hf|Hf]; destruct (f (n, x)) as [v| | |] eqn:Ef; try done.
  destruct (list_find _ l) as [[i nv]|] eqn:E; cbn; [|by rewrite Ef].
  apply list_find_Some in E as (_&Hx&_). by destruct (f nv).
Qed.

Lemma given_column cs other n v :
  given cs other (n, v) = match findColumn n cs with Some c => coerceValue v (cType c) | None => other end.
Proof using Type.
  unfold given, findColumn. cbn [fst snd]. induction cs as [|c cs IH]; [done|]. cbn [list_find find].
  destruct (EqualFold (cName c) n) eqn:E; [by rewrite decide_True by done|]. rewrite decide_False by congruence.
  by destruct (list_find _ cs) as [[]|], (find _ cs).
Qed.

Lemma row_of_foldl (l : list (bytes * value)) : row_of l = foldl (fun r nv => <[nv.1:=nv.2]> r) ∅ l.
Proof using Type.
  unfold row_of. induction l as [|[n v] l IH] using rev_ind; [done|]. rewrite reverse_snoc, foldl_snoc. cbn. by rewrite IH.
Qed.

Lemma insertRow_given cs names vals r :
  insertRow cs names vals r = (l ← all_given (fun nv => given cs (Ok nv.2) nv) (zip names vals);
    if decide (length vals < length names)%nat then Panic else Ok (foldl (fun r nv => <[nv.1:=nv.2]> r) r l)).
Proof using Type.
  revert vals r. induction names as [|n names IH]; intros [|v vals] r; try done. cbn [insertRow zip_with fmap list_fmap fst].
  rewrite all_given_cons, given_column. cbn [snd]. destruct (match findColumn n cs with Some _ => _ | None => _ end) as [v'| | |]; try done.
  cbn [mbind outcome_bind]. rewrite IH. destruct (all_given _ _) as [l| | |]; try done. cbn [mbind outcome_bind foldl fst snd length].
  do 2 case_decide; try done; lia.
Qed.

Lemma insertRow_spec cs names vals : insertRow cs names vals ∅ = spec_row cs names vals.
Proof using Type.
  rewrite insertRow_given. unfold spec_row. destruct (all_given _ _); try done. cbn. by rewrite row_of_foldl.
Qed.

Lemma coerceSet_given cs l r :
  coerceSet cs l r = (l ← all_given (fun nv => given cs (Err (Errorf "unknown column %q" [AStr nv.1])) nv) l;
    Ok (foldl (fun r nv => <[nv.1:=nv.2]> r) r l)).
Proof using Type.
  revert r. induction l as [|[n v] l IH]; intros r; [done|]. cbn [coerceSet fmap list_fmap fst]. rewrite all_given_cons, given_column. cbn [fst].
  destruct (findColumn n cs) as [c|]; [|done]. destruct (coerceValue v (cType c)); try done. cbn [mbind outcome_bind]. rewrite IH.
  by destruct (all_given _ _).
Qed.

Lemma coerceSet_spec cs set_ : coerceSet cs (range set_) ∅ = spec_set cs set_.
Proof using Type.
  rewrite coerceSet_given. unfold spec_set. destruct (all_given _ _); try done. cbn. by rewrite row_of_foldl.
Qed.
End values.

Section refinement.
Context `{Codec : IndexCodec} `{Fmt : Formats} `{Text : GoText} `{Syn : GoSyntax} `{Json : JsonCodec} `{Order : MapOrder} {Laws : MapOrderLaws}.

Abbreviation sim := (table_sim store_reads durable).
Implicit Types (name : bytes) (e : Executor) (D : database) (n : Z) (a : nat) (R : relation) (rs : list Row).

(** Only tables have changed. *)
Definition framed (e e' : Executor) : Prop := exists l, e' = set_tabs l e /\ length l = length (tabs e).

Lemma framed_refl e : framed e e.
Proof. exists (tabs e). by destruct e. Qed.
Lemma framed_trans e1 e2 e3 : framed e1 e2 -> framed e2 e3 -> framed e1 e3.
Proof. intros (l1&->&H1) (l2&->&H2). exists l2. split; [done|]. by rewrite H2. Qed.

(** The table at address [a] stands for the relation and has room for [n] records. *)
Definition table_at (e : Executor) (n : Z) (a : nat) (R : relation) : Prop :=
  exists tb st, tabs e !! a = Some tb /\ sim tb st R.2 /\ tschema tb = R.1 /\ len (states st) + n < 2 ^ 32 - 1.

Record db_sim (e : Executor) (D : database) (n : Z) : Prop := {
  db_tx : tx e = None;
  db_tables : forall name, option_Forall2 (table_at e n) (Tables e !! name) (D !! name);
  db_distinct : forall (n1 n2 : bytes) a, Tables e !! n1 = Some a -> Tables e !! n2 = Some a -> n1 = n2
}.

Lemma table_at_weaken e n m a R : m <= n -> table_at e n a R -> table_at e m a R.
Proof. intros Hm (tb&st&?&?&?&?). exists tb, st. split_and!; try done. lia. Qed.
Lemma db_weaken e D n m : m <= n -> db_sim e D n -> db_sim e D m.
Proof.
  intros Hm [H1 H2 H3]. split; [done| |done]. intros name. specialize (H2 name). inversion H2; constructor. by eapply table_at_weaken.
Qed.

Lemma table_read e D n name R : db_sim e D n -> relation_of name D = Ok R ->
  exists a, table name e = (Ok a, e) /\ Tables e !! ToLower name = Some a /\ table_at e n a R.
Proof.
  intros Hd. unfold relation_of, table. rewrite bind_get. pose proof (db_tables _ _ _ Hd (ToLower name)) as Hn.
  destruct Hn as [a R' Ha|]; [|done]. intros [= ->]. by exists a.
Qed.
Lemma table_error e D n name x : db_sim e D n -> relation_of name D = Err x -> table name e = (Err x, e).
Proof.
  intros Hd. unfold relation_of, table. rewrite bind_get. pose proof (db_tables _ _ _ Hd (ToLower name)) as Hn.
  destruct Hn; [done|]. by intros [= <-].
Qed.
Lemma relation_ok_or_err name D : ok_or_err (relation_of name D).
Proof. unfold relation_of. by destruct (D !! _). Qed.

(** Continue with the address of a table, or stop with the specification's error. *)
Lemma table_bind {B} e D n name (f : nat -> exec B) (g : relation -> outcome B) :
  db_sim e D n -> (forall a R, relation_of name D = Ok R -> Tables e !! ToLower name = Some a -> table_at e n a R -> f a e = (g R, e)) ->
  (table name ≫= f) e = (relation_of name D ≫= g, e).
Proof.
  intros Hd Hf. pose proof (relation_ok_or_err name D). destruct (relation_of name D) as [R|x| |] eqn:E; try done.
  - destruct (table_read _ _ _ _ _ Hd E) as (a&Et&Ha&Hat). rewrite (bind_ok _ _ _ _ _ Et). cbn. by apply Hf.
  - by apply bind_err, (table_error _ D n).
Qed.

Lemma schema_read e n a R : table_at e n a R -> schema_of a e = (Ok R.1, e).
Proof. intros (tb&st&Ha&_&<-&_). unfold schema_of. by rewrite (on_table_pure a tb). Qed.

Lemma rows_read e n a R : tx e = None -> table_at e n a R -> rows a e = (Ok (Fresh <$> scan_rows R.2), e).
Proof.
  intros Htx (tb&st&Ha&Hs&_&_). unfold rows. rewrite bind_get, Htx. cbn [mbind option_bind].
  erewrite bind_ok by (rewrite (on_table_pure a tb) by (done || apply pure_Scan); by rewrite (Scan_spec store_reads tb (current st) R.2) by apply Hs). done.
Qed.

Lemma deref_fresh e rs : deref e <$> (Fresh <$> rs) = rs.
Proof. rewrite <- list_fmap_compose. by apply list_fmap_id. Qed.

Lemma rowValues_read e n a R : tx e = None -> table_at e n a R -> rowValues a e = (Ok (scan_rows R.2), e).
Proof. intros Htx Ha. unfold rowValues. rewrite (bind_ok _ _ _ _ _ (rows_read _ _ _ _ Htx Ha)), bind_get. by rewrite deref_fresh. Qed.

Lemma indexed_read e n a R w : table_at e n a R -> indexedEquality a w e = (Ok (indexed R.1 w), e).
Proof.
  intros (tb&st&Ha&Hs&<-&_). unfold indexedEquality. rewrite (on_table_pure a tb) by done. unfold gets. cbn [fst]. do 2 f_equal.
  unfold isIndexedEquality, indexed. destruct w as [[col op v [] [] l]|]; try done. f_equal. unfold HasIndex.
  pose proof (tr_index _ _ _ _ (proj2 Hs) col) as Hi. destruct (secondary tb !! col) as [ix|].
  - rewrite (bool_decide_eq_true_2 (col ∈ _)) by apply Hi. by rewrite (bool_decide_eq_true_2 (is_Some _)).
  - rewrite (bool_decide_eq_false_2 (col ∈ _)) by done. by rewrite (bool_decide_eq_false_2 (is_Some _)) by (by intros [? ?]).
Qed.

Lemma find_read e n a R col v : table_at e n a R -> on_table a (Find col v) e = (Ok (find_rows R.1 col v R.2), e).
Proof.
  intros (tb&st&Ha&Hs&<-&_). rewrite (on_table_pure a tb) by (done || apply pure_Find).
  by rewrite (Find_spec store_reads tb (current st) R.2) by apply Hs.
Qed.
(** ** Reading statements *)

Lemma select_read e D n q : db_sim e D n -> selectRows q e = (spec_select q D, e).
Proof.
  intros Hd. unfold selectRows, spec_select. apply (table_bind e D n); [done|]. intros a R _ _ Ha. pose proof (db_tx _ _ _ Hd) as Htx.
  unfold attempt. rewrite (rowValues_read _ _ _ _ Htx Ha), bind_get. assert (inTransaction e = false) as -> by (unfold inTransaction; by rewrite Htx).
  unfold access.
  assert (forall rs, (rs ← joined q rs; s ← schema_of a; lift (evalSelect s q rs)) e =
    ((rs ← (if decide (JoinTable q = []) then Ok rs else R' ← relation_of (JoinTable q) D; Ok (joinRows q rs (scan_rows R'.2))); evalSelect R.1 q rs), e)) as Hj.
  { intros rs. apply bind_read.
    - unfold joined. case_decide; [done|]. apply (table_bind e D n); [done|]. intros a' R' _ _ Ha'.
      by rewrite (bind_ok _ _ _ _ _ (rowValues_read _ _ _ _ Htx Ha')).
    - intros rs' _. by rewrite (bind_ok _ _ _ _ _ (schema_read _ _ _ _ Ha)). }
  destruct (decide (JoinTable q = [])) as [Ej|Ej]; [rewrite (bind_ok _ _ _ _ _ (indexed_read _ _ _ _ _ Ha))|rewrite bind_ret].
  - destruct (indexed R.1 (selWhere q)) as [[col v]|]; [rewrite (bind_ok _ _ _ _ _ (find_read _ _ _ _ col v Ha))|rewrite bind_ret]; by rewrite Hj.
  - by rewrite bind_ret, Hj.
Qed.

Lemma explainTable_read e D n name : db_sim e D n -> explainTable name e = (spec_explain_table name D, e).
Proof.
  intros Hd. unfold explainTable, spec_explain_table. apply (table_bind e D n); [done|]. intros a R _ _ Ha.
  by rewrite (bind_ok _ _ _ _ _ (schema_read _ _ _ _ Ha)).
Qed.

Lemma listTables_read e D n : db_sim e D n -> listTables e = (Ok (spec_list D), e).
Proof.
  intros Hd. unfold listTables, spec_list. rewrite bind_get. cbv [mret M_ret]. do 3 f_equal. f_equal.
  pose proof (range_permutation _ (Tables e)) as Hr. apply (sorted_names D).
  - rewrite Hr. apply NoDup_fst_map_to_list.
  - intros k. rewrite Hr, elem_of_dom. pose proof (db_tables _ _ _ Hd k) as Hk. split.
    + intros ([k' a]&->&Hin%elem_of_map_to_list)%list_elem_of_fmap. cbn [fst] in *. rewrite Hin in Hk. inversion Hk. by eexists.
    + intros [R HR]. rewrite HR in Hk. inversion Hk as [a ? _ Ea|]; subst. apply list_elem_of_fmap. exists (k, a). split; [done|].
      by apply elem_of_map_to_list.
Qed.

Lemma estimate_read e D n name : db_sim e D n -> estimate name e = (Ok (spec_estimate name D), e).
Proof.
  intros Hd. unfold estimate, spec_estimate, catch.
  rewrite (table_bind e D n name _ (fun R => Ok (of_string "rows=" ++ sprint_int (len (scan_rows R.2))))) by
    (done || (intros a R _ _ Ha; rewrite (bind_ok _ _ _ _ _ (rows_read _ _ _ _ (db_tx _ _ _ Hd) Ha)); unfold len; by rewrite length_fmap)).
  pose proof (relation_ok_or_err name D) as Ho. by destruct (relation_of name D).
Qed.

Lemma planFilter_read e D n q : db_sim e D n -> planFilter q e = (Ok (spec_filter q D), e).
Proof.
  intros Hd. unfold planFilter, spec_filter. destruct (selWhere q) as [w|] eqn:Ew; [|done].
  assert ((t ← table (selTable q); indexedEquality t (Some w)) e = (relation_of (selTable q) D ≫= (fun R => Ok (indexed R.1 (Some w))), e)) as Ei.
  { apply (table_bind e D n); [done|]. intros a R _ _ Ha. by apply (indexed_read e n). }
  cbv [mbind M_bind] in Ei |- *. unfold catch. rewrite Ei. pose proof (relation_ok_or_err (selTable q) D) as Ho.
  destruct (relation_of (selTable q) D) as [R| | |]; try done. cbn [outcome_bind]. by destruct (indexed R.1 (Some w)) as [[col v]|].
Qed.

Lemma explain_read e D n s : db_sim e D n -> explain s e = (spec_explain s D, e).
Proof.
  intros Hd. unfold explain, spec_explain. apply bind_read; [|done]. destruct s; try done. cbn [plan spec_plan].
  by rewrite (bind_ok _ _ _ _ _ (estimate_read _ _ _ _ Hd)), (bind_ok _ _ _ _ _ (planFilter_read _ _ _ _ Hd)).
Qed.

Lemma references_read e D n s cs r : db_sim e D n -> checkReferences s cs r e = (spec_references D s cs r, e).
Proof.
  intros Hd. induction cs as [|c cs IH]; cbn [checkReferences spec_references]; [done|]. destruct (References _) as [ref|]; [|done].
  destruct (is_nil _); [done|]. apply (table_bind e D n); [done|]. intros a R _ _ Ha. unfold refRows.
  erewrite bind_ok by (unfold catch; by rewrite (rowValues_read _ _ _ _ (db_tx _ _ _ Hd) Ha)). by destruct (referenced _ _ _).
Qed.

Lemma insertKey_read e D n a R r : db_sim e D n -> table_at e n a R -> insertKey a R.1 r e = (spec_insertKey R.1 R.2 r, e).
Proof.
  intros Hd Ha. unfold insertKey, spec_insertKey. destruct (Columns R.1) as [|c0 cs]; [done|]. destruct (r !! cName c0); [done|].
  case_decide; [|done]. by rewrite (bind_ok _ _ _ _ _ (rowValues_read _ _ _ _ (db_tx _ _ _ Hd) Ha)).
Qed.

(** ** Writing statements *)

(** A method of one table changes its relation. *)
Lemma table_change {A} e D n k name a R R' (m : M Table A) (o : outcome A) :
  db_sim e D n -> Tables e !! ToLower name = Some a -> table_at e n a R -> 0 <= k ->
  (forall tb st, sim tb st R.2 -> tschema tb = R.1 -> len (states st) + k < 2 ^ 32 - 1 ->
     exists tb' st', m tb = (o, tb') /\ sim tb' st' R'.2 /\ tschema tb' = R'.1 /\ grown st st' k) ->
  k <= n -> exists e', on_table a m e = (o, e') /\ db_sim e' (<[ToLower name := R']> D) (n - k) /\ framed e e'.
Proof.
  intros Hd Hn (tb&st&Ha&Hs&Hsc&Hb) Hk Hm Hle. destruct (Hm tb st Hs Hsc) as (tb'&st'&Em&Hs'&Hsc'&Hg); [lia|].
  exists (set_tabs (<[a:=tb']> (tabs e)) e). split_and!; [by apply (on_table_ok _ tb)| |eexists; split; [done|apply length_insert]].
  destruct Hd as [H1 H2 H3]. split; [done| |done]. intros name'. cbn [Tables set_tabs]. specialize (H2 name').
  destruct (decide (name' = ToLower name)) as [->|Hne].
  - rewrite lookup_insert_eq, Hn. constructor. exists tb', st'. cbn [tabs set_tabs]. unfold grown in Hg. split_and!; [|done|done|lia].
    apply list_lookup_insert_eq. by eapply lookup_lt_Some.
  - rewrite lookup_insert_ne by done. destruct (Tables e !! name') as [a'|] eqn:E, (D !! name') as [R2|]; inversion H2 as [? ? Ha'|]; subst; constructor.
    destruct Ha' as (tb2&st2&Ha2&Hs2&Hsc2&Hb2). exists tb2, st2. cbn [tabs set_tabs]. rewrite list_lookup_insert_ne; [split_and!; [done..|lia]|].
    intros <-. apply Hne. by eapply H3.
Qed.

Lemma table_write {A} e D n k name a R (m : M Table A) (o : outcome A) T :
  db_sim e D n -> Tables e !! ToLower name = Some a -> table_at e n a R -> 0 <= k ->
  (forall tb st, sim tb st R.2 -> tschema tb = R.1 -> len (states st) + k < 2 ^ 32 - 1 ->
     exists tb' st', m tb = (o, tb') /\ sim tb' st' T /\ tschema tb' = tschema tb /\ grown st st' k) ->
  k <= n -> exists e', on_table a m e = (o, e') /\ db_sim e' (<[ToLower name := (R.1, T)]> D) (n - k) /\ framed e e'.
Proof.
  intros Hd Hn Ha Hk Hm. apply (table_change e D n k name a R (R.1, T) m o Hd Hn Ha Hk). intros tb st Hs Hsc Hb.
  destruct (Hm tb st Hs Hsc Hb) as (tb'&st'&?&?&?&?). exists tb', st'. split_and!; [done|done|cbn; congruence|done].
Qed.

Definition reported (ne : Z * option error) : Result * option error := (MkResult [] [] ne.1, ne.2).

(** Outside a transaction [UPDATE] and [DELETE] are the table's own loops. *)
Lemma updateRowsLoop_table a w set_ rs n e tb :
  tx e = None -> tabs e !! a = Some tb ->
  updateRowsLoop a w set_ (Fresh <$> rs) n e = on_table a (ne ← updateLoop (Some (matchWhere w)) set_ rs n; mret (reported ne)) e.
Proof.
  intros Htx. revert n e tb Htx. induction rs as [|r rs IH]; intros n e tb Htx Ha.
  { unfold on_table. rewrite Ha. unfold updateLoop, deleteLoop. rewrite bind_ret. cbv [mret M_ret]. rewrite list_insert_id by done. by destruct e. }
  cbn [fmap list_fmap updateRowsLoop updateLoop]. rewrite bind_get. cbn [deref matches].
  assert (inTransaction e = false) as Hin by (unfold inTransaction; by rewrite Htx). rewrite Hin.
  destruct (matchWhere w r); [|by apply (IH n e tb)]. rewrite bind_ret. unfold schema_of.
  erewrite bind_ok by (by rewrite (on_table_pure a tb)). unfold gets. cbn [fst]. unfold on_table at 2. rewrite Ha, bind_assoc, bind_get.
  destruct (primaryKey (tschema tb) (assign set_ r)) as [key|x| |];
    try (unfold lift; cbv [mbind M_bind]; rewrite list_insert_id by done; by destruct e).
  erewrite bind_ok by reflexivity. cbv [mbind M_bind]. cbn [lift]. unfold attempt, on_table. rewrite Ha.
  destruct (Table.Insert key (assign set_ r) tb) as [[[]|x| |] tb1]; try done.
  cbv [mbind M_bind recordWrite get_state mret M_ret]. cbn [tx set_tabs]. rewrite Htx.
  rewrite (IH (n + 1) _ tb1) by (done || (apply list_lookup_insert_eq; by eapply lookup_lt_Some)). unfold on_table. cbn [tabs set_tabs].
  rewrite list_lookup_insert_eq by (by eapply lookup_lt_Some). cbv [mbind M_bind].
  by destruct (updateLoop _ _ _ _ _) as [[] ?]; cbn; rewrite list_insert_insert_eq.
Qed.

Lemma deleteRowsLoop_table a w rs n e tb :
  tx e = None -> tabs e !! a = Some tb ->
  deleteRowsLoop a w (Fresh <$> rs) n e = on_table a (ne ← deleteLoop (Some (matchWhere w)) rs n; mret (reported ne)) e.
Proof.
  intros Htx. revert n e tb Htx. induction rs as [|r rs IH]; intros n e tb Htx Ha.
  { unfold on_table. rewrite Ha. unfold updateLoop, deleteLoop. rewrite bind_ret. cbv [mret M_ret]. rewrite list_insert_id by done. by destruct e. }
  cbn [fmap list_fmap deleteRowsLoop deleteLoop]. rewrite bind_get. cbn [deref matches].
  assert (inTransaction e = false) as Hin by (unfold inTransaction; by rewrite Htx). rewrite Hin.
  destruct (matchWhere w r); [|by apply (IH n e tb)]. unfold schema_of.
  erewrite bind_ok by (by rewrite (on_table_pure a tb)). unfold gets. cbn [fst]. unfold on_table at 2. rewrite Ha, bind_assoc, bind_get.
  destruct (primaryKey (tschema tb) r) as [key|x| |];
    try (unfold lift; cbv [mbind M_bind]; rewrite list_insert_id by done; by destruct e).
  erewrite bind_ok by reflexivity. cbv [mbind M_bind]. cbn [lift]. unfold attempt, on_table. rewrite Ha.
  destruct (Table.Delete key tb) as [[[]|x| |] tb1]; try done.
  cbv [mbind M_bind recordWrite get_state mret M_ret]. cbn [tx set_tabs]. rewrite Htx.
  rewrite (IH (n + 1) _ tb1) by (done || (apply list_lookup_insert_eq; by eapply lookup_lt_Some)). unfold on_table. cbn [tabs set_tabs].
  rewrite list_lookup_insert_eq by (by eapply lookup_lt_Some). cbv [mbind M_bind].
  by destruct (deleteLoop _ _ _ _) as [[] ?]; cbn; rewrite list_insert_insert_eq.
Qed.

(** The part of [insert] that reads. *)
Lemma new_row_read e D n q :
  db_sim e D n ->
  match new_row q D with
  | Ok (R, kr) => exists a, Tables e !! ToLower (insTable q) = Some a /\ table_at e n a R /\
      insert_ q e = (_ ← on_table a (Table.Insert (Sprint kr.1) kr.2); mret (MkResult [] [] 1)) e
  | o => insert_ q e = (o ≫= fun _ => Ok empty_result, e)
  end.
Proof.
  intros Hd. unfold insert_, new_row. pose proof (relation_ok_or_err (insTable q) D).
  destruct (relation_of (insTable q) D) as [R|x| |] eqn:ER; try done; [|by apply bind_err, (table_error _ D n)].
  destruct (table_read _ _ _ _ _ Hd ER) as (a&Et&Ha&Hat). rewrite (bind_ok _ _ _ _ _ Et), (bind_ok _ _ _ _ _ (schema_read _ _ _ _ Hat)).
  change (Ok R ≫= ?f) with (f R). cbn beta. rewrite insertRow_spec. destruct (spec_row _ _ _) as [r| | |]; try done. erewrite bind_ok by reflexivity.
  change (Ok r ≫= ?f) with (f r). cbn beta. pose proof (insertKey_read e D n a R r Hd Hat) as Ek.
  destruct (spec_insertKey R.1 R.2 r) as [kr| | |]; try (cbv [mbind M_bind]; by rewrite Ek).
  rewrite (bind_ok _ _ _ _ _ Ek). change (Ok kr ≫= ?f) with (f kr). cbn beta. pose proof (references_read e D n R.1 (Columns R.1) kr.2 Hd) as Er.
  destruct (spec_references D R.1 (Columns R.1) kr.2) as [[]| | |]; try (cbv [mbind M_bind]; by rewrite Er).
  rewrite (bind_ok _ _ _ _ _ Er), bind_get. exists a. split_and!; [done|done|]. unfold inTransaction. by rewrite (db_tx _ _ _ Hd).
Qed.

Lemma insert_refines e D n q :
  db_sim e D n -> admissible (SInsert q) D -> 1 <= n ->
  exists e', plain (insert_ q) e = ((spec_sql_insert q D).1, e') /\ db_sim e' (spec_sql_insert q D).2 (n - 1) /\ framed e e'.
Proof.
  intros Hd [_ Hok] Hn. pose proof (new_row_read e D n q Hd) as Hr. unfold plain, attempt, spec_sql_insert.
  destruct (new_row q D) as [[R kr]|x| |]; try (rewrite Hr; exists e; split_and!; [done| |apply framed_refl]; eapply db_weaken; [|done]; lia).
  destruct Hr as (a&Hname&Hat&->). specialize (Hok R kr eq_refl).
  destruct (table_write e D n 1 (insTable q) a R (Table.Insert (Sprint kr.1) kr.2) (spec_insert R.1 (Sprint kr.1) kr.2 R.2).1
    (spec_insert R.1 (Sprint kr.1) kr.2 R.2).2 Hd Hname Hat) as (e'&E'&Hd'&HT); [lia| |done|].
  { intros tb st Hs Hsc Hb. rewrite <- Hsc in Hok |- *. destruct (Insert_spec store_reads durable tb st R.2 _ _ Hs Hok Hb) as (tb'&st'&?&?&?&?). by exists tb', st'. }
  exists e'. cbv [mbind M_bind]. rewrite E'. destruct (spec_insert R.1 (Sprint kr.1) kr.2 R.2) as [[[]|x| |] T]; done.
Qed.

Lemma update_refines e D n q :
  db_sim e D n -> admissible (SUpdate q) D -> rows_in (updTable q) D <= n ->
  exists e', update q e = ((spec_sql_update q D).1, e') /\ db_sim e' (spec_sql_update q D).2 (n - rows_in (updTable q) D) /\ framed e e'.
Proof.
  intros Hd [_ Hok] Hn. unfold update, attempt, spec_sql_update, new_values, rows_in in *. pose proof (relation_ok_or_err (updTable q) D).
  destruct (relation_of (updTable q) D) as [R|x| |] eqn:ER; try done.
  2: { exists e. rewrite (bind_err _ _ _ _ _ (table_error _ _ _ _ _ Hd ER)). split_and!; [done| |apply framed_refl]. by rewrite Z.sub_0_r. }
  destruct (table_read _ _ _ _ _ Hd ER) as (a&Et&Ha&Hat). rewrite (bind_ok _ _ _ _ _ Et), (bind_ok _ _ _ _ _ (schema_read _ _ _ _ Hat)).
  change (Ok R ≫= ?f) with (f R) in *. cbn beta in *.
  rewrite coerceSet_spec. destruct (spec_set _ _) as [set_|x| |]; try (exists e; split_and!; [done| |apply framed_refl]; eapply db_weaken; [|done]; lia).
  erewrite bind_ok by reflexivity. rewrite (bind_ok _ _ _ _ _ (rows_read _ _ _ _ (db_tx _ _ _ Hd) Hat)). cbv [mret M_ret]. cbn [fst snd mbind outcome_bind].
  specialize (Hok R set_ eq_refl). destruct Hat as (tb&st&Htb&Hrest). rewrite (updateRowsLoop_table _ _ _ _ _ _ tb (db_tx _ _ _ Hd) Htb).
  destruct (table_write e D n (Z.of_nat (base.size R.2)) (updTable q) a R (ne ← updateLoop (Some (matchWhere (updWhere q))) set_ (scan_rows R.2) 0; mret (reported ne))
    (Ok (reported (spec_update R.1 (Some (matchWhere (updWhere q))) set_ (scan_rows R.2) 0 R.2).1))
    (spec_update R.1 (Some (matchWhere (updWhere q))) set_ (scan_rows R.2) 0 R.2).2 Hd Ha) as (e'&E'&Hd'&HT); [by exists tb, st|lia| |done|].
  { intros tb0 st0 Hs Hsc Hb. rewrite <- Hsc in Hok |- *. destruct (Update_spec store_reads durable tb0 st0 R.2 _ _ Hs Hok Hb) as (tb'&st'&E&?&?&?). exists tb', st'.
    unfold Table.Update, updateRows, attempt in E. rewrite (Scan_spec store_reads tb0 (current st0) R.2) in E by apply Hs.
    rewrite (bind_ok _ _ _ _ _ E). by split_and!. }
  exists e'. rewrite E'. by destruct (spec_update R.1 _ set_ (scan_rows R.2) 0 R.2) as [[k err] T].
Qed.

Lemma delete_refines e D n q :
  db_sim e D n -> rows_in (delTable q) D <= n ->
  exists e', delete_ q e = ((spec_sql_delete q D).1, e') /\ db_sim e' (spec_sql_delete q D).2 (n - rows_in (delTable q) D) /\ framed e e'.
Proof.
  intros Hd Hn. unfold delete_, attempt, spec_sql_delete, rows_in in *. pose proof (relation_ok_or_err (delTable q) D).
  destruct (relation_of (delTable q) D) as [R|x| |] eqn:ER; try done.
  2: { exists e. rewrite (bind_err _ _ _ _ _ (table_error _ _ _ _ _ Hd ER)). split_and!; [done| |apply framed_refl]. by rewrite Z.sub_0_r. }
  destruct (table_read _ _ _ _ _ Hd ER) as (a&Et&Ha&Hat). rewrite (bind_ok _ _ _ _ _ Et), (bind_ok _ _ _ _ _ (rows_read _ _ _ _ (db_tx _ _ _ Hd) Hat)).
  cbv [mret M_ret]. cbn [fst snd]. destruct Hat as (tb&st&Htb&Hrest). rewrite (deleteRowsLoop_table _ _ _ _ _ tb (db_tx _ _ _ Hd) Htb).
  destruct (table_write e D n (Z.of_nat (base.size R.2)) (delTable q) a R (ne ← deleteLoop (Some (matchWhere (delWhere q))) (scan_rows R.2) 0; mret (reported ne))
    (Ok (reported (count (Some (matchWhere (delWhere q))) (scan_rows R.2), None)))
    (filter (fun kr : bytes * Row => matches (Some (matchWhere (delWhere q))) kr.2 = false) R.2) Hd Ha) as (e'&E'&Hd'&HT); [by exists tb, st|lia| |done|].
  { intros tb0 st0 Hs _ Hb. destruct (DeleteWhere_spec store_reads durable tb0 st0 R.2 (Some (matchWhere (delWhere q))) Hs Hb) as (tb'&st'&E&?&?&?). exists tb', st'.
    unfold DeleteWhere, deleteRows, attempt in E. rewrite (Scan_spec store_reads tb0 (current st0) R.2) in E by apply Hs.
    rewrite (bind_ok _ _ _ _ _ E). by split_and!. }
  exists e'. by rewrite E'.
Qed.

Lemma statement_refines e D n s :
  db_sim e D n -> admissible s D -> statement_cost s D <= n ->
  exists e', executeStatement s e = ((spec_statement s D).1, e') /\ db_sim e' (spec_statement s D).2 (n - statement_cost s D) /\ framed e e'.
Proof.
  intros Hd Hok Hn. destruct s; try (by destruct Hok); cbn [executeStatement spec_statement statement_cost fst snd] in *.
  - exists e. rewrite (plain_read _ _ _ (select_read _ _ _ q Hd)). split_and!; [done| |apply framed_refl]. by rewrite Z.sub_0_r.
  - by apply insert_refines.
  - exists e. rewrite (plain_read _ _ _ (listTables_read _ _ _ Hd)). split_and!; [done| |apply framed_refl]. by rewrite Z.sub_0_r.
  - by apply update_refines.
  - by apply delete_refines.
  - exists e. rewrite (plain_read _ _ _ (explain_read _ _ _ _ Hd)). split_and!; [done| |apply framed_refl]. by rewrite Z.sub_0_r.
  - exists e. rewrite (plain_read _ _ _ (explainTable_read _ _ _ _ Hd)). split_and!; [done| |apply framed_refl]. by rewrite Z.sub_0_r.
Qed.

Fixpoint execute_run (ss : list Statement) (e : Executor) : list answer * Executor :=
  match ss with
  | [] => ([], e)
  | s :: ss => let '(a, e) := executeStatement s e in let '(l, e) := execute_run ss e in (a :: l, e)
  end.
End refinement.

(** ** Concrete statements *)

(** The conditions by computation. *)
Section checking.
Context `{Fmt : Formats} `{Text : GoText} `{Syn : GoSyntax} `{Order : MapOrder}.

Definition statement_check (s : Statement) (D : database) : bool :=
  relational s &&
  match s with
  | SInsert q => match new_row q D with Ok (R, kr) => writable_b R.1 (Sprint kr.1) kr.2 | _ => true end
  | SUpdate q =>
      match new_values q D with
      | Ok (R, set_) => table_op_check R.1 (TUpdate (Some (matchWhere (updWhere q))) set_) R.2
      | _ => true
      end
  | _ => true
  end.

Fixpoint statements_check (ss : list Statement) (n : Z) (D : database) : bool :=
  match ss with
  | [] => bool_decide (0 <= n)
  | s :: ss => statement_check s D && statements_check ss (n - statement_cost s D) (spec_statement s D).2
  end.

Lemma statement_check_ok s D : statement_check s D = true -> admissible s D.
Proof.
  unfold statement_check, admissible. intros [Hr Hs]%andb_true_iff. split; [done|]. destruct s; try done.
  - intros R kr E. rewrite E in Hs. by apply writable_b_ok.
  - intros R set_ E. rewrite E in Hs.
    assert (table_ops_check R.1 [TUpdate (Some (matchWhere (updWhere q))) set_] (Z.of_nat (base.size R.2)) R.2 = true) as Hc.
    { cbn [table_ops_check]. rewrite Hs. cbn [table_cost]. by rewrite Z.sub_diag. }
    by destruct (table_ops_check_ok _ _ _ _ Hc) as [Hok _].
Qed.

Lemma statements_check_ok ss n D : statements_check ss n D = true -> admissible_all ss n D.
Proof.
  revert n D. induction ss as [|s ss IH]; intros n D; cbn [statements_check admissible_all]; [apply bool_decide_eq_true_1|].
  intros [Hs Hss]%andb_true_iff. split; [by apply statement_check_ok|by apply IH].
Qed.
End checking.
