(* ===== verification/SqlBatch.v ===== *)
(** * Requests of several statements

    Without [BEGIN], [COMMIT] and [ROLLBACK] a request of several statements is all
    or nothing: the executor keeps the rows of all tables and puts them back when a
    statement fails. *)
From S2P Require Import Prelude OrderedMap BTree Wal Record Store StoreProofs StoreSpec Value Text RowCodec Table StoreContract StoreReopen TableInv TableProofs TableSpec TableOpen Catalog SqlLex SqlParse SqlEval SqlExec SqlTx SqlRollback SqlSpec.

#[local] Set Default Proof Using "All".

(** ** How much statements add *)

Section sizes.
Context `{Fmt : Formats} `{Text : GoText} `{Syn : GoSyntax} `{Order : MapOrder}.
Implicit Types (D : database) (R : relation) (T : rowmap) (rs : list Row) (name : bytes).

Lemma spec_insert_size s key r T : Z.of_nat (base.size (spec_insert s key r T).2) <= Z.of_nat (base.size T) + 1.
Proof.
  unfold spec_insert. destruct (encode s r ≫= _); cbn [snd]; try lia. rewrite map_size_insert. destruct (T !! key); cbn; lia.
Qed.

Lemma spec_update_size s w set_ rs n T : Z.of_nat (base.size (spec_update s w set_ rs n T).2) <= Z.of_nat (base.size T) + len rs.
Proof.
  revert n T. induction rs as [|r rs IH]; intros n T; cbn [spec_update]; [change (len []) with 0; cbn [snd]; lia|]. rewrite len_cons. pose proof (len_nonneg rs).
  destruct (matches w r); [|specialize (IH n T); lia].
  pose proof (spec_insert_size s (key_of s (assign set_ r)) (assign set_ r) T) as Hi.
  destruct (spec_insert _ _ _ T) as [[[]|x| |] T1]; cbn [snd] in *; try (specialize (IH (n + 1) T1)); lia.
Qed.

(** The schemas stay, and no table grows by more than the cost. *)
Definition grows (D D' : database) (k : Z) : Prop :=
  forall name, option_Forall2 (fun R R' => R'.1 = R.1 /\ Z.of_nat (base.size R'.2) <= Z.of_nat (base.size R.2) + k) (D !! name) (D' !! name).

Lemma grows_refl D k : 0 <= k -> grows D D k.
Proof. intros Hk name. destruct (D !! name); constructor. split; [done|lia]. Qed.
Lemma grows_trans D1 D2 D3 k1 k2 : grows D1 D2 k1 -> grows D2 D3 k2 -> grows D1 D3 (k1 + k2).
Proof.
  intros H1 H2 name. specialize (H1 name). specialize (H2 name). destruct H1 as [R1 R2 [E1 L1]|]; inversion H2 as [? R3 [E2 L2]|]; subst; constructor.
  split; [congruence|lia].
Qed.
Lemma grows_weaken D1 D2 k1 k2 : k1 <= k2 -> grows D1 D2 k1 -> grows D1 D2 k2.
Proof. intros Hk H1 name. specialize (H1 name). destruct H1 as [R1 R2 [E1 L1]|]; constructor. split; [done|lia]. Qed.
Lemma grows_insert D name R T k :
  relation_of name D = Ok R -> 0 <= k -> Z.of_nat (base.size T) <= Z.of_nat (base.size R.2) + k -> grows D (<[ToLower name := (R.1, T)]> D) k.
Proof.
  intros Hn Hk HT name'. unfold relation_of in Hn. destruct (D !! ToLower name) as [R'|] eqn:E; [|done]. injection Hn as ->.
  destruct (decide (name' = ToLower name)) as [->|Hne]; [rewrite E, lookup_insert_eq; by constructor|].
  rewrite lookup_insert_ne by done. destruct (D !! name'); constructor. split; [done|lia].
Qed.

Lemma new_row_relation q D R kr : new_row q D = Ok (R, kr) -> relation_of (insTable q) D = Ok R.
Proof.
  unfold new_row, mbind, outcome_bind. destruct (relation_of _ D) as [R'| | |]; try done. destruct (spec_row _ _ _) as [r| | |]; try done.
  destruct (spec_insertKey _ _ r) as [kr'| | |]; try done. destruct (spec_references _ _ _ _); try done. by intros [= -> _].
Qed.

Lemma spec_statement_grows s D : grows D (spec_statement s D).2 (statement_cost s D).
Proof.
  destruct s; cbn [spec_statement statement_cost snd]; try (by apply grows_refl).
  - unfold spec_sql_insert. destruct (new_row q D) as [[R kr]| | |] eqn:E; try (apply grows_refl; lia).
    pose proof (spec_insert_size R.1 (Sprint kr.1) kr.2 R.2) as Hi. destruct (spec_insert _ _ _ _) as [o T]. cbn [snd] in *.
    apply grows_insert; [by eapply new_row_relation|lia|done].
  - unfold spec_sql_update, new_values, rows_in. destruct (relation_of (updTable q) D) as [R| | |] eqn:E; try (by apply grows_refl).
    change (Ok R ≫= ?f) with (f R). cbn beta. destruct (spec_set _ _) as [set_| | |]; cbn; try (apply grows_refl; lia).
    pose proof (spec_update_size R.1 (Some (matchWhere (updWhere q))) set_ (scan_rows R.2) 0 R.2) as Hu. pose proof (scan_rows_length R.2).
    destruct (spec_update _ _ _ _ _ _) as [[k err] T]. cbn [snd] in *. apply grows_insert; [done|lia|lia].
  - unfold spec_sql_delete, rows_in. destruct (relation_of (delTable q) D) as [R| | |] eqn:E; try (by apply grows_refl). cbn [snd].
    apply grows_insert; [done|lia|]. pose proof (map_size_filter (fun kr : bytes * Row => matches (Some (matchWhere (delWhere q))) kr.2 = false) R.2). lia.
Qed.
End sizes.

(** ** The statements in turn *)

Section batches.
Context `{Codec : IndexCodec} `{Fmt : Formats} `{Text : GoText} `{Syn : GoSyntax} `{Json : JsonCodec} `{Order : MapOrder} {Laws : MapOrderLaws}.
Implicit Types (D : database) (R : relation) (e : Executor) (a : nat) (name : bytes) (n m k : Z).

(** Up to the first error. *)
Fixpoint spec_all (ss : list Statement) (out : Result) (D : database) : answer * database :=
  match ss with
  | [] => (Ok (out, None), D)
  | s :: ss =>
      match spec_statement s D with
      | (Ok (r, None), D) => spec_all ss r D
      | (Ok (_, Some err), D) => (Ok (empty_result, Some err), D)
      | x => x
      end
  end.

Lemma executeAll_refines parts ss out e D n m :
  parseAll parts = Ok ss -> db_sim e D n -> admissible_all ss m D -> m <= n ->
  exists e' k, executeAll parts out e = ((spec_all ss out D).1, e') /\ db_sim e' (spec_all ss out D).2 (n - k) /\
    framed e e' /\ grows D (spec_all ss out D).2 k /\ 0 <= k <= m.
Proof.
  revert ss out e D n m. induction parts as [|p parts IH]; intros ss out e D n m Hp Hd Hok Hm.
  { injection Hp as <-. exists e, 0. rewrite Z.sub_0_r. split_and!; try done; [apply framed_refl|by apply grows_refl]. }
  cbn [parseAll] in Hp. unfold mbind, outcome_bind in Hp. destruct (Parse p) as [s| | |] eqn:Ep; try done.
  destruct (parseAll parts) as [ss'| | |] eqn:Eps; try done. injection Hp as <-. destruct Hok as [Hs Hss].
  pose proof (statements_room _ _ _ Hss). pose proof (statement_cost_nonneg s D). pose proof (spec_statement_grows s D) as Hg.
  destruct (statement_refines e D n s Hd Hs) as (e1&E1&Hd1&HT1); [lia|].
  cbn [executeAll spec_all]. unfold executeOne, attempt, lift. cbv [mbind M_bind]. rewrite Ep, E1.
  destruct (spec_statement s D) as [[[r [err|]]|x| |] D1]; cbn [fst snd] in *;
    try (exists e1, (statement_cost s D); split_and!; try done; lia).
  destruct (IH ss' r e1 D1 _ _ eq_refl Hd1 Hss) as (e2&k2&E2&Hd2&HT2&Hg2&Hk2); [lia|].
  exists e2, (statement_cost s D + k2). rewrite E2. split_and!; [done| |by eapply framed_trans|by eapply grows_trans|lia|lia].
  by replace (n - (statement_cost s D + k2)) with (n - statement_cost s D - k2) by lia.
Qed.

(** ** Putting the rows back *)

(** The relation of the table at an address. *)
Definition image e D a : relation :=
  default (MkSchema [] ∅, ∅) (list_find (fun na => na.2 = a) (map_to_list (Tables e)) ≫= fun x => D !! x.2.1).

Lemma image_spec e D n name a R : db_sim e D n -> Tables e !! name = Some a -> D !! name = Some R -> image e D a = R.
Proof.
  intros Hd Ha HR. unfold image. destruct (list_find _ _) as [[i [name' a']]|] eqn:E.
  - apply list_find_Some in E as (Hi&Ea&_). cbn in Ea. subst a'. apply list_elem_of_lookup_2, elem_of_map_to_list in Hi.
    rewrite (db_distinct _ _ _ Hd name' name a Hi Ha) in *. cbn. by rewrite HR.
  - apply list_find_None in E. rewrite Forall_forall in E. exfalso. apply (E (name, a)); [|done]. by apply elem_of_map_to_list.
Qed.

Lemma table_image e D n a : db_sim e D n -> a ∈ (range (Tables e)).*2 ->
  exists name, Tables e !! name = Some a /\ D !! name = Some (image e D a) /\ table_at e n a (image e D a).
Proof.
  intros Hd Ha. rewrite range_permutation in Ha. apply list_elem_of_fmap in Ha as ([name a']&->&Hin). apply elem_of_map_to_list in Hin. cbn [snd].
  pose proof (db_tables _ _ _ Hd name) as Hf. rewrite Hin in Hf. inversion Hf as [? R Hat Ea ER|]; subst. symmetry in ER.
  rewrite (image_spec _ _ _ _ _ _ Hd Hin ER). by exists name.
Qed.

Lemma range_addresses e D n : db_sim e D n -> NoDup (range (Tables e)).*2.
Proof.
  intros Hd. rewrite range_permutation. apply NoDup_fmap_2_strong; [|apply NoDup_map_to_list].
  intros [n1 a1] [n2 a2] H1 H2 Ea. cbn in Ea. subst a2. apply elem_of_map_to_list in H1, H2. f_equal. by eapply (db_distinct _ _ _ Hd).
Qed.

Lemma snapshotTables_read e n img l :
  Forall (fun a => table_at e n a (img a)) l -> snapshotTables l e = (Ok ((fun a => (a, scan_rows (img a).2)) <$> l), e).
Proof.
  induction 1 as [|a l (tb&st&Ha&Hs&_) _ IH]; [done|]. cbn [snapshotTables].
  erewrite bind_ok by (rewrite (on_table_pure a tb) by (done || apply pure_Scan); by rewrite (Scan_spec store_reads tb (current st) (img a).2) by apply Hs).
  by rewrite (bind_ok _ _ _ _ _ IH).
Qed.

(** When nothing fails, ignoring errors changes nothing. *)
Lemma reinsertIgnoring_ok rs t t' : reinsert rs t = (Ok tt, t') -> reinsertIgnoring rs t = (Ok tt, t').
Proof.
  revert t. induction rs as [|r rs IH]; intros t; [done|]. cbn [reinsert reinsertIgnoring]. rewrite !bind_get.
  destruct (primaryKey (tschema t) r) as [key| | |]; try done. unfold lift. cbv [mbind M_bind catch].
  destruct (Table.Insert key r t) as [[[]| | |] t1]; try done. apply IH.
Qed.

Lemma restoreTables_ok ts e e' :
  rollbackTables ts e = (Ok tt, e') -> restoreTables ((fun st => (tsTable st, tsRollback st)) <$> ts) e = (Ok tt, e').
Proof.
  revert e. induction ts as [|st ts IH]; intros e; [done|]. cbn [rollbackTables restoreTables fmap list_fmap].
  cbv [mbind M_bind]. unfold on_table. destruct (tabs e !! tsTable st) as [tb|] eqn:Ea; [|done]. unfold counted. cbv [mbind M_bind].
  destruct (DeleteWhere _ tb) as [[[k [x|]]| | |] tb1]; try done. cbn [fst snd mret M_ret tabs set_tabs].
  rewrite list_lookup_insert_eq by (by eapply lookup_lt_Some). destruct (reinsert (tsRollback st) tb1) as [[[]| | |] tb2] eqn:Er; try done.
  rewrite (reinsertIgnoring_ok _ _ _ Er). apply IH.
Qed.

(** The rows of [BEGIN] for an address, in the shape of [rollback]. *)
Definition kept_rows (img : nat -> relation) a : transactionTableState := MkTxTable a 0 (scan_rows (img a).2) ∅.

(** Tables that were all set back to their images stand for the database again. *)
Lemma db_from_reset e e' D n room ts :
  db_sim e D n -> tsTable <$> ts = (range (Tables e)).*2 -> tx e' = None -> Tables e' = Tables e ->
  each_table (was_reset (image e D) room) ts e' -> db_sim e' D room.
Proof.
  intros Hd El Htx HT Hreset. split; [done| |rewrite HT; apply (db_distinct _ _ _ Hd)]. intros name. rewrite HT.
  pose proof (db_tables _ _ _ Hd name) as Hf. destruct (Tables e !! name) as [a|] eqn:Ha; inversion Hf as [? R HRat EA ER|]; subst; constructor.
  assert (image e D a = R) as <- by (by eapply image_spec). unfold each_table in Hreset. rewrite Forall_forall in Hreset.
  assert (a ∈ tsTable <$> ts) as (st&->&Hst)%list_elem_of_fmap.
  { rewrite El, range_permutation. apply list_elem_of_fmap. exists (name, a). split; [done|]. by apply elem_of_map_to_list. }
  destruct (Hreset st Hst) as (tb&Htb&sp&Hs&Hsc&Hb). by exists tb, sp.
Qed.

Lemma batch_restores e e1 D D1 n k room :
  db_sim e D n -> db_sim e1 D1 (n - k) -> framed e e1 -> grows D D1 k -> 0 <= room ->
  map_Forall (fun _ R => restorable R.1 R.2 /\ 2 * k + 2 * Z.of_nat (base.size R.2) + room <= n) D ->
  exists e2, restoreTables ((fun a => (a, scan_rows (image e D a).2)) <$> (range (Tables e)).*2) e1 = (Ok tt, e2) /\ db_sim e2 D room /\ framed e1 e2.
Proof.
  intros Hd Hd1 Hfr Hg Hroom0 Hres. assert (Tables e1 = Tables e) as HT by (by destruct Hfr as (?&->&_)). set (img := image e D). set (l := (range (Tables e)).*2).
  assert (tsTable <$> (kept_rows img <$> l) = l) as El by (rewrite <- list_fmap_compose; by apply list_fmap_id).
  assert (each_table (resettable img room) (kept_rows img <$> l) e1) as Hbefore.
  { apply Forall_fmap, Forall_forall. intros a Ha. destruct (table_image e D n a Hd Ha) as (name&Hname&HD&_). fold img in HD.
    pose proof (db_tables _ _ _ Hd1 name) as Hf. rewrite HT, Hname in Hf. inversion Hf as [? R1 (tb&st&Htb&Hs&Hsc&Hb) EA ER|]; subst.
    pose proof (Hg name) as Hgn. rewrite HD, <- ER in Hgn. inversion Hgn as [? ? [E1 L1]|]; subst. destruct (Hres name _ HD) as [Hr Hroom].
    exists tb. split; [done|]. exists st, R1.2. cbn [tsTable tsRollback kept_rows]. split_and!; [done|congruence|done|done|lia]. }
  destruct (rollbackTables_spec img room Hroom0 (kept_rows img <$> l) e1) as (tabs'&E&Hreset&Hsame); [|done|].
  - rewrite El. by eapply range_addresses.
  - exists (set_tabs tabs' e1). split; [|split; [|exists tabs'; split; [done|by eapply (same_elsewhere_length _ _ _ e1 (set_tabs tabs' e1))]]].
    + apply restoreTables_ok in E. rewrite <- E. f_equal. rewrite <- list_fmap_compose. done.
    + by eapply (db_from_reset e (set_tabs tabs' e1) D n room (kept_rows img <$> l) Hd El (db_tx _ _ _ Hd1)).
Qed.

Lemma relational_control s : relational s = true -> isTxControl s = false.
Proof. by destruct s. Qed.
Lemma statements_control ss n D : admissible_all ss n D -> existsb isTxControl ss = false.
Proof.
  revert n D. induction ss as [|s ss IH]; intros n D; cbn [admissible_all existsb]; [done|]. intros [[Hr _] Hss].
  by rewrite (relational_control s Hr), (IH _ _ Hss).
Qed.
Lemma parseAll_length parts ss : parseAll parts = Ok ss -> length parts = length ss.
Proof.
  revert ss. induction parts as [|p parts IH]; intros ss; cbn [parseAll]; [by intros [= <-]|]. unfold mbind, outcome_bind.
  destruct (Parse p); try done. destruct (parseAll parts) as [ss'| | |]; try done. intros [= <-]. cbn. f_equal. by apply IH.
Qed.

(** All statements, or none of them. *)
Definition spec_batch (ss : list Statement) (D : database) : answer * database :=
  match spec_all ss empty_result D with
  | (Ok (_, Some err), _) => (Ok (empty_result, Some (Errorf "transaction rolled back: %w" [AErr err])), D)
  | x => x
  end.

(** Every table can be put back and has [room] left then. *)
Definition restorable_all (D : database) (m room n : Z) : Prop :=
  map_Forall (fun _ R => restorable R.1 R.2 /\ 2 * m + 2 * Z.of_nat (base.size R.2) + room <= n) D.

Lemma batch_refines parts ss e D n m room :
  parseAll parts = Ok ss -> db_sim e D n -> admissible_all ss m D -> 0 <= room -> m + room <= n -> restorable_all D m room n ->
  exists e', executeBatch parts e = ((spec_batch ss D).1, e') /\ db_sim e' (spec_batch ss D).2 room /\ framed e e'.
Proof.
  intros Hparse Hd Hok Hroom Hm Hres. unfold executeBatch, spec_batch. rewrite bind_get. unfold attempt. rewrite (snapshotTables_read e n (image e D)).
  2: { apply Forall_forall. intros a Ha. by destruct (table_image e D n a Hd Ha) as (_&_&_&?). }
  destruct (executeAll_refines _ ss empty_result e D n m Hparse Hd Hok) as (e1&k&E1&Hd1&HT1&Hg1&Hk); [lia|].
  destruct (batch_restores e e1 D _ n k room Hd Hd1 HT1 Hg1 Hroom) as (e2&E2&Hd2&HT2).
  { intros name R HR. destruct (Hres name R HR) as [? ?]. split; [done|lia]. }
  assert (db_sim e1 (spec_all ss empty_result D).2 room) as Hd1' by (eapply db_weaken; [|done]; lia).
  destruct (spec_all ss empty_result D) as [[[r [err|]]|x| |] D1]; cbn [fst snd] in *; try (exists e1; cbv [mbind M_bind]; by rewrite E1).
  exists e2. rewrite (bind_ok _ _ _ _ _ E1). cbn [snd]. rewrite (bind_ok _ _ _ _ _ E2). split_and!; [done|done|by eapply framed_trans].
Qed.

(** A request of several statements outside a transaction. *)
Lemma Execute_batch input ss e m D n :
  parseAll (splitStatements input) = Ok ss -> (2 <= length ss)%nat -> db_sim e D n -> admissible_all ss m D ->
  Execute input e = executeBatch (splitStatements input) e.
Proof.
  intros Hparse Hlen Hd Hok. pose proof (parseAll_length _ _ Hparse) as Hl. unfold Execute.
  destruct (splitStatements input) as [|p [|p2 parts]]; cbn in Hl; [lia..|].
  unfold attempt, lift. rewrite Hparse, bind_get, (statements_control _ _ _ Hok). unfold inTransaction. by rewrite (db_tx _ _ _ Hd).
Qed.
End batches.

(** C9: a request of several statements that read and write rows ([SELECT], [INSERT],
    [UPDATE], [DELETE], [EXPLAIN], [SHOW TABLES], [EXPLAIN TABLE]), outside a
    transaction, is all or nothing: if they all succeed the tables stand for the
    relations after the last one; if one fails, the reply is the first error and every
    table stands for the relation it had before. Schema changes are excluded: the code
    does not undo a [CREATE], [DROP] or [ALTER] ([SqlRuns.batch_keeps_schema]).
    Conditions: the rows written read back as written and fit a page
    ([admissible_all]), the rows there before can be inserted again
    ([restorable_all]), and the tables have room for both. *)
Theorem batch_atomic `{Codec : IndexCodec} `{Fmt : Formats} `{Text : GoText} `{Syn : GoSyntax} `{Json : JsonCodec} `{Order : MapOrder} {Laws : MapOrderLaws}
  (input : bytes) (ss : list Statement) (e : Executor) (D : database) (n m room : Z)
  (Hparse : parseAll (splitStatements input) = Ok ss) (Hlen : (2 <= length ss)%nat) (Hd : db_sim e D n) (Hok : admissible_all ss m D)
  (Hroom : 0 <= room) (Hm : m + room <= n) (Hres : restorable_all D m room n) :
  exists e', match spec_all ss empty_result D with
    | (Ok (r, None), D') => Execute input e = (Ok (r, None), e') /\ db_sim e' D' room
    | (Ok (_, Some err), _) => Execute input e = (Ok (empty_result, Some (Errorf "transaction rolled back: %w" [AErr err])), e') /\ db_sim e' D room
    | (o, _) => Execute input e = (o, e')
    end.
Proof.
  rewrite (Execute_batch input ss e m D n Hparse Hlen Hd Hok). destruct (batch_refines _ ss e D n m room Hparse Hd Hok Hroom Hm Hres) as (e'&E&Hd'&_).
  exists e'. rewrite E. unfold spec_batch in *. by destruct (spec_all ss empty_result D) as [[[r [err|]]|x| |] D1].
Qed.
