(* ===== verification/SqlDiscard.v ===== *)
(** * BEGIN ... ROLLBACK

    A session's transaction from its first statement to its last: [BEGIN] keeps a
    snapshot and the rows of every table, the statements in between only write
    pending rows, and [ROLLBACK] leaves the database as [BEGIN] found it. *)
From S2P Require Import Prelude OrderedMap BTree Wal Record Store StoreProofs StoreSpec Value Text RowCodec Table StoreContract StoreReopen TableInv TableProofs TableSpec TableOpen Catalog SqlLex SqlParse SqlEval SqlExec SqlTx SqlRollback SqlSpec SqlBatch.

#[local] Set Default Proof Using "All".

Section transactions.
Context `{Codec : IndexCodec} `{Fmt : Formats} `{Text : GoText} `{Syn : GoSyntax} `{Json : JsonCodec} `{Order : MapOrder} {Laws : MapOrderLaws}.
Implicit Types (D : database) (e : Executor) (a : nat) (n room : Z).

Abbreviation sim := (table_sim store_reads durable).

(** ** BEGIN *)

(** A snapshot only counts one more reader. *)
Lemma Snapshot_spec t st T :
  sim t st T -> exists t', Snapshot t = (Ok (seq (tstore t)), t') /\ sim t' (MkSpec (states st) (u64 (readers st + 1))) T /\ tschema t' = tschema t.
Proof.
  intros [Hs Ht]. destruct (begin_durable (tstore t) st Hs) as (s'&E&Hs'). exists (set_tstore s' t).
  split_and!; [by apply on_store_ok| |done]. split; [done|]. destruct Ht as [? ? ? ? ?]. split; cbn; try done. by apply (sw_reads _ _ Hs').
Qed.

(** The tables hold what they held, and the transaction keeps their rows. *)
Definition kept (img : nat -> relation) n (st : transactionTableState) (tb : Table) : Prop :=
  tsRollback st = scan_rows (img (tsTable st)).2 /\
  exists sp, sim tb sp (img (tsTable st)).2 /\ tschema tb = (img (tsTable st)).1 /\ len (states sp) + n < 2 ^ 32 - 1.

Lemma beginTables_spec img n l e :
  NoDup l -> Forall (fun a => table_at e n a (img a)) l ->
  exists ts tabs', beginTables l e = (Ok ts, set_tabs tabs' e) /\ tsTable <$> ts = l /\ each_table (kept img n) ts (set_tabs tabs' e) /\
    (forall a, a ∉ l -> tabs' !! a = tabs e !! a).
Proof.
  revert e. induction l as [|a l IH]; intros e Hd Hat.
  { exists [], (tabs e). split_and!; [by destruct e|done|constructor|done]. }
  apply NoDup_cons in Hd as [Hn Hd]. apply Forall_cons in Hat as [(tb&st&Ha&Hs&Hsc&Hb) Hat].
  destruct (Snapshot_spec tb st _ Hs) as (tb'&E1&Hs'&Hsc'). set (e1 := set_tabs (<[a:=tb']> (tabs e)) e).
  assert (tabs e1 !! a = Some tb') as Ha1 by (apply list_lookup_insert_eq; by eapply lookup_lt_Some).
  destruct (IH e1 Hd) as (ts&tabs'&E2&El&Hk&Hf).
  { rewrite Forall_forall in Hat |- *. intros a' Ha'. destruct (Hat a' Ha') as (tb2&st2&?&?). exists tb2, st2. split; [|done].
    cbn. rewrite list_lookup_insert_ne; [done|]. intros ->. done. }
  change (set_tabs tabs' e1) with (set_tabs tabs' e) in *.
  exists (MkTxTable a (seq (tstore tb)) (scan_rows (img a).2) ∅ :: ts), tabs'. cbn [beginTables].
  rewrite (bind_ok _ _ _ _ _ (on_table_ok a tb tb' Snapshot _ e Ha E1)). fold e1. split_and!.
  - erewrite bind_ok by (rewrite (on_table_pure a tb') by (done || apply pure_Scan); by rewrite (Scan_spec store_reads tb' _ (img a).2) by apply Hs').
    by rewrite (bind_ok _ _ _ _ _ E2).
  - cbn. by rewrite El.
  - constructor; [|done]. exists tb'. split; [cbn; by rewrite (Hf a Hn)|]. split; [done|]. eexists. split_and!; [done|by rewrite Hsc'|done].
  - intros a' [Hne Ha']%not_elem_of_cons. rewrite (Hf a' Ha'). cbn. by apply list_lookup_insert_ne.
Qed.

(** [BEGIN] keeps every table as it is, with its rows. *)
Lemma begin_spec e D n :
  db_sim e D n ->
  exists x tabs', let e1 := set_tx (Some x) (set_counters (u64 (nextTransactionID e + 1)) (nextCommitSequence e) (set_tabs tabs' e)) in
    executeStatement SBegin e = (Ok (empty_result, None), e1) /\ tsTable <$> txTables x = (range (Tables e)).*2 /\
    each_table (kept (image e D) n) (txTables x) e1.
Proof.
  intros Hd. set (e0 := set_counters (u64 (nextTransactionID e + 1)) (nextCommitSequence e) e).
  destruct (beginTables_spec (image e D) n (range (Tables e)).*2 e0) as (ts&tabs'&E&El&Hk&_).
  { by eapply range_addresses. }
  { apply Forall_forall. intros a Ha. by destruct (table_image e D n a Hd Ha) as (_&_&_&?). }
  exists (MkTx (u64 (nextTransactionID e + 1)) 0 true ts), tabs'. cbn zeta. split_and!; [|done|exact Hk].
  cbn [executeStatement]. unfold plain, attempt, begin_. rewrite bind_get. unfold inTransaction. rewrite (db_tx _ _ _ Hd).
  cbv [mbind M_bind modify]. fold e0. by rewrite E.
Qed.

(** ** ROLLBACK *)

Lemma rollback_kept e1 img n room x :
  tx e1 = Some x -> NoDup (tsTable <$> txTables x) -> 0 <= room ->
  each_table (kept img n) (txTables x) e1 -> Forall (fun st => restorable (img (tsTable st)).1 (img (tsTable st)).2 /\
    2 * Z.of_nat (base.size (img (tsTable st)).2) + room <= n) (txTables x) ->
  exists tabs', executeStatement SRollback e1 = (Ok (empty_result, None), set_tx None (set_tabs tabs' e1)) /\
    each_table (was_reset img room) (txTables x) (set_tabs tabs' e1).
Proof.
  intros Htx Hdup Hroom Hk Hres. destruct (rollback_spec img room Hroom e1 x Htx Hdup) as (tabs'&E&_&Hr).
  - unfold each_table in *. rewrite Forall_forall in Hk, Hres |- *. intros st Hst. destruct (Hk st Hst) as (tb&Htb&Erb&sp&Hs&Hsc&Hb).
    destruct (Hres st Hst) as [Hr Hn]. exists tb. split; [done|]. exists sp, (img (tsTable st)).2. split_and!; [done..|lia].
  - exists tabs'. split; [|done]. cbn [executeStatement]. unfold plain, attempt. by rewrite E.
Qed.

(** What the statements of the transaction leave of it. *)
Lemma kept_begun img n e1 e2 x1 x2 :
  tabs e2 = tabs e1 -> begun <$> txTables x2 = begun <$> txTables x1 ->
  each_table (kept img n) (txTables x1) e1 -> each_table (kept img n) (txTables x2) e2.
Proof.
  intros Ht. unfold each_table. generalize (txTables x1) (txTables x2). intros l1 l2. revert l1.
  induction l2 as [|st2 l2 IH]; intros [|st1 l1] E H1; try done. injection E as Ea _ Eb El. apply Forall_cons in H1 as [(tb&Htb&Hk) H1].
  constructor; [|by eapply IH]. exists tb. rewrite Ht, Ea. split; [done|]. unfold kept in *. by rewrite Ea, Eb.
Qed.
End transactions.

(** C21: [ROLLBACK] discards the writes of the transaction. In one session, with no
    other session writing in between: [BEGIN] opens a transaction, any list of
    [SELECT], [INSERT], [UPDATE], [DELETE], [EXPLAIN], [SHOW TABLES], [EXPLAIN TABLE]
    and (refused) [BEGIN] follows, failing ones included, but no schema change; then
    [ROLLBACK] succeeds and every table stands for the relation it stood for before
    [BEGIN], with no transaction open. Conditions: the rows before [BEGIN] are such that
    the code can insert them again ([restorable]: they encode, read back as written, lie
    under their own key and keep [UNIQUE]), and each table has room for the tombstones
    and the rows that [ROLLBACK] writes. *)
Theorem rollback_discards `{Codec : IndexCodec} `{Fmt : Formats} `{Text : GoText} `{Syn : GoSyntax} `{Json : JsonCodec} `{Order : MapOrder} {Laws : MapOrderLaws}
  (ss : list Statement) (e : Executor) (D : database) (n room : Z)
  (Hd : db_sim e D n) (Hss : Forall (fun s => data_statement s = true) ss) (Hroom : 0 <= room) (Hres : restorable_all D 0 room n) :
  exists e1, executeStatement SBegin e = (Ok (empty_result, None), e1) /\ inTransaction e1 = true /\
  let e2 := foldl (fun e s => (executeStatement s e).2) e1 ss in
  exists e3, executeStatement SRollback e2 = (Ok (empty_result, None), e3) /\ db_sim e3 D room.
Proof.
  destruct (begin_spec e D n Hd) as (x1&tabs1&E1&El&Hk). set (e1 := set_tx _ _) in *. exists e1. split_and!; [done|done|]. cbn zeta in *.
  destruct (quiet_statements ss Hss e1 eq_refl) as [Hf Hin]. set (e2 := foldl _ e1 ss) in *. unfold fixed in Hf. injection Hf as Ht HT Hx.
  destruct (tx e2) as [x2|] eqn:Ex2; [|done]. injection Hx as Hx.
  assert (tsTable <$> txTables x2 = (range (Tables e)).*2) as El2.
  { rewrite <- El. apply (f_equal (fmap (fun p => p.1.1))) in Hx. by rewrite <- !list_fmap_compose in Hx. }
  destruct (rollback_kept e2 (image e D) n room x2 Ex2) as (tabs3&E3&Hr); [rewrite El2; by eapply range_addresses|done|by apply (kept_begun (image e D) n e1 e2 x1 x2)| |].
  - apply Forall_forall. intros st Hst. destruct (table_image e D n (tsTable st) Hd) as (name&_&HD&_); [rewrite <- El2; by apply list_elem_of_fmap_2|].
    destruct (Hres name _ HD) as [? ?]. split; [done|lia].
  - eexists. split; [exact E3|]. by apply (db_from_reset e _ D n room (txTables x2) Hd El2).
Qed.
