(* ===== verification/SqlSchema.v ===== *)
(** * Schema statements

    [CREATE TABLE], [DROP TABLE] and [ALTER TABLE] on named relations. The state of
    the specification is a database of relations with the catalog and the names of
    temporary files; every statement but [BEGIN] has its effect on it, so that
    outside a transaction every sequence of statements is specified, the failures of
    the catalog included. *)
From S2P Require Import Prelude OrderedMap BTree Wal Record Store StoreProofs StoreSpec Value Text RowCodec Table StoreContract StoreReopen TableInv TableProofs TableSpec TableOpen TableChange Catalog SqlLex SqlParse SqlEval SqlExec SqlTx SqlRollback SqlSpec.

Record sqlstate := MkSql { rels : database; cat : option Catalog; temps : list bytes }.
Definition set_rels (D : database) (W : sqlstate) : sqlstate := MkSql D (cat W) (temps W).

(** ** The specification *)

Section specification.
Context `{Fmt : Formats} `{Text : GoText} `{Syn : GoSyntax} `{Json : JsonCodec} `{Order : MapOrder}.

(** Without a catalog there is nothing to register. *)
Definition with_catalog (m : M Catalog unit) (c : option Catalog) : outcome unit * option Catalog :=
  match c with Some c => let '(o, c') := m c in (o, Some c') | None => (Ok tt, None) end.

(** A table has a key column. *)
Definition implicit_id (cs : list Column) : list Column :=
  if existsb (fun c => EqualFold (cName c) (of_string "id")) cs then cs else MkCol (of_string "id") IntType :: cs.
Definition new_schema (q : CreateTable) : Schema := MkSchema (implicit_id (ctColumns q)) (ctConstraints q).

Definition one_row : Result := MkResult [] [] 1.

(** The new relation is empty; it is not there when it cannot be registered. *)
Definition spec_create (q : CreateTable) (W : sqlstate) : answer * sqlstate :=
  let n := ToLower (ctTable q) in
  match rels W !! n, temps W with
  | Some _, _ => (plainly (Err (Errorf "table %q already exists" [AStr (ctTable q)])), W)
  | None, [] => (plainly (Err (Errorf "create temporary file" [])), W)
  | None, path :: temps =>
      match validate (new_schema q) with
      | Ok _ =>
          let '(o, c) := with_catalog (Set_ (MkEntry n path (new_schema q))) (cat W) in
          (plainly (_ ← o; Ok one_row), MkSql (if is_ok o then <[n := (new_schema q, ∅)]> (rels W) else rels W) c temps)
      | o => (plainly (o ≫= fun _ => Ok one_row), MkSql (rels W) (cat W) temps)
      end
  end.

(** The relation is gone even when the catalog cannot be saved. *)
Definition spec_drop (name : bytes) (W : sqlstate) : answer * sqlstate :=
  let n := ToLower name in
  match rels W !! n with
  | None => (plainly (Err (Errorf "unknown table %q" [AStr name])), W)
  | Some _ =>
      let '(o, c) := with_catalog (Catalog.Delete n) (cat W) in
      (plainly (_ ← o; Ok one_row), MkSql (base.delete n (rels W)) c (temps W))
  end.

(** What [ALTER] makes of a column: it goes, gets the new name, or stays. *)
Definition column_after (q : AlterTable) (c : Column) : list Column :=
  if EqualFold (cName c) (atName q) then
    if decide (atAction q = of_string "drop") then [] else if decide (atAction q = of_string "rename") then [MkCol (atNewName q) (cType c)] else [c]
  else [c].

(** The altered schema: the columns that are left, in their order, and the new one;
    the constraint of the old name goes, and the new name gets it. *)
Definition schema_after (q : AlterTable) (s : Schema) : Schema :=
  MkSchema
    (if decide (atAction q = of_string "add") then Columns s ++ [atColumn q] else Columns s ≫= column_after q)
    (if decide (atAction q = of_string "drop" \/ atAction q = of_string "rename") then
       (if decide (atAction q = of_string "rename") then match Constraints s !! atName q with Some k => {[atNewName q := k]} | None => ∅ end else ∅)
       ∪ filter (fun nk : bytes * ColumnConstraint => nk.1 <> atName q) (Constraints s)
     else Constraints s).

(** The altered relation. *)
Definition altered (q : AlterTable) (R : relation) : relation :=
  (schema_after q R.1, row_after R.1 (schema_after q R.1) <$> R.2).

(** The rows are converted before the catalog is told. *)
Definition spec_alter (q : AlterTable) (W : sqlstate) : answer * sqlstate :=
  let n := ToLower (atTable q) in
  match relation_of (atTable q) (rels W) with
  | Ok R =>
      match validate (schema_after q R.1) with
      | Ok _ =>
          let '(o, c) := with_catalog (c ← get_state; Set_ (MkEntry n (entryPath n c) (schema_after q R.1))) (cat W) in
          (plainly (_ ← o; Ok one_row), MkSql (<[n := altered q R]> (rels W)) c (temps W))
      | o => (plainly (o ≫= fun _ => Ok one_row), W)
      end
  | o => (plainly (o ≫= fun _ => Ok one_row), W)
  end.

Definition spec_full (s : Statement) (W : sqlstate) : answer * sqlstate :=
  match s with
  | SCreateTable q => spec_create q W
  | SDropTable n => spec_drop n W
  | SAlterTable q => spec_alter q W
  | SCommit | SRollback => (plainly (Err (Errorf "no transaction in progress" [])), W)
  | s => let '(x, D) := spec_statement s (rels W) in (x, set_rels D W)
  end.

Fixpoint spec_script (ss : list Statement) (W : sqlstate) : list answer * sqlstate :=
  match ss with
  | [] => ([], W)
  | s :: ss => let '(x, W) := spec_full s W in let '(l, W) := spec_script ss W in (x :: l, W)
  end.

(** [ALTER] keeps a column and the keys, and the converted rows can be stored. *)
Definition admissible_full (s : Statement) (W : sqlstate) : Prop :=
  match s with
  | SBegin => False
  | SCreateTable _ | SDropTable _ | SCommit | SRollback => True
  | SAlterTable q => forall R, relation_of (atTable q) (rels W) = Ok R -> validate (schema_after q R.1) = Ok tt ->
      Columns (schema_after q R.1) <> [] /\ map_Forall (alterable R.1 (schema_after q R.1)) R.2
  | s => admissible s (rels W)
  end.

Definition full_cost (s : Statement) (W : sqlstate) : Z :=
  match s with SAlterTable q => rows_in (atTable q) (rels W) | s => statement_cost s (rels W) end.

Fixpoint admissible_script (ss : list Statement) (n : Z) (W : sqlstate) : Prop :=
  match ss with
  | [] => 0 <= n
  | s :: ss => admissible_full s W /\ admissible_script ss (n - full_cost s W) (spec_full s W).2
  end.

Lemma full_cost_nonneg s W : 0 <= full_cost s W.
Proof using Type. destruct s; try apply statement_cost_nonneg. cbn. unfold rows_in. destruct (relation_of _ _); lia. Qed.
Lemma script_room ss n W : admissible_script ss n W -> 0 <= n.
Proof using Type.
  revert n W. induction ss as [|s ss IH]; intros n W; cbn [admissible_script]; [done|]. intros [_ H]. apply IH in H.
  pose proof (full_cost_nonneg s W). lia.
Qed.

(** Checking and registering fail with an error or not at all. *)
Lemma validate_ok_or_err s : ok_or_err (validate s).
Proof using Type.
  unfold validate. generalize (@nil bytes). induction (Columns s) as [|c cs IH]; intros seen; cbn [validate_loop]; [done|]. by do 2 (case_decide; [done|]).
Qed.
Lemma save_ok_or_err c : ok_or_err (save c).1.
Proof using Type. unfold save. rewrite bind_get. by destruct (cat_fault (cat_file c)) as [[[] ?]|]. Qed.
Lemma Set_ok_or_err en c : ok_or_err (Set_ en c).1.
Proof using Type.
  unfold Set_. case_decide; [done|]. pose proof (validate_ok_or_err (eSchema en)). destruct (validate (eSchema en)); try done.
  do 2 erewrite bind_ok by reflexivity. apply save_ok_or_err.
Qed.
Lemma Delete_ok_or_err n c : ok_or_err (Catalog.Delete n c).1.
Proof using Type. unfold Catalog.Delete. erewrite bind_ok by reflexivity. apply save_ok_or_err. Qed.
Lemma with_catalog_ok_or_err m c : (forall c, ok_or_err (m c).1) -> ok_or_err (with_catalog m c).1.
Proof using Type. intros Hm. destruct c as [c|]; [|done]. cbn. specialize (Hm c). by destruct (m c). Qed.
End specification.

(** ** The executor *)

#[local] Set Default Proof Using "All".

Section refinement.
Context `{Codec : IndexCodec} `{Fmt : Formats} `{Text : GoText} `{Syn : GoSyntax} `{Json : JsonCodec} `{Order : MapOrder} {Laws : MapOrderLaws}.
Implicit Types (name : bytes) (e : Executor) (D : database) (W : sqlstate) (n : Z) (a : nat) (R : relation).

Abbreviation sim := (table_sim store_reads durable).

(** The executor stands for the specification's state. *)
Record sql_sim (e : Executor) (W : sqlstate) (n : Z) : Prop := {
  ss_db : db_sim e (rels W) n;
  ss_catalog : catalog e = cat W;
  ss_temps : tempFiles e = temps W;
  ss_room : 0 <= n < 2 ^ 32 - 2
}.

Lemma on_catalog_run m e : on_catalog m tt e = ((with_catalog m (catalog e)).1, set_catalog (with_catalog m (catalog e)).2 e).
Proof. unfold on_catalog, with_catalog. destruct e as [? ? [c|] ? ? ? ? ? ?]; cbn; [by destruct (m c)|done]. Qed.

(** ** Where the files are *)

(** Every entry has its own name. *)
Definition keyed (m : gmap bytes CatalogEntry) : Prop := map_Forall (fun k en => eName en = k) m.

(** Tables with a working catalog are registered under the path of their store. *)
Definition filed (e : Executor) : Prop :=
  length (tabPaths e) = length (tabs e) /\
  forall c, catalog e = Some c -> cat_fault (cat_file c) = None -> keyed (cat_entries c) /\
    forall name a, Tables e !! name = Some a -> exists en, cat_entries c !! name = Some en /\ tabPaths e !! a = Some (ePath en).

Definition files_kept (e e' : Executor) : Prop :=
  (filed e -> filed e') /\ sublist (tabPaths e' ++ tempFiles e') (tabPaths e ++ tempFiles e).

Lemma files_kept_refl e : files_kept e e.
Proof. by split. Qed.
Lemma files_kept_trans e1 e2 e3 : files_kept e1 e2 -> files_kept e2 e3 -> files_kept e1 e3.
Proof. intros [H1 S1] [H2 S2]. split; [auto|]. by etrans. Qed.
Lemma framed_files e e' : framed e e' -> files_kept e e'.
Proof. intros (l&->&Hl). split; [|done]. intros [H1 H2]. split; cbn; [congruence|done]. Qed.

Lemma find_entry c k en : keyed (cat_entries c) -> cat_entries c !! k = Some en -> entryPath k c = ePath en.
Proof.
  intros Hk Hn. unfold entryPath. assert (en ∈ Entries c) as Hin.
  { rewrite Entries_perm, list_elem_of_fmap. exists (k, en). split; [done|]. by apply elem_of_map_to_list. }
  destruct (find _ (Entries c)) as [en'|] eqn:E.
  - apply find_some in E as [Hin' Hb]. apply bool_decide_eq_true_1 in Hb. apply list_elem_of_In in Hin'.
    rewrite Entries_perm, list_elem_of_fmap in Hin'. destruct Hin' as ([k' e']&->&H'%elem_of_map_to_list). cbn in Hb. pose proof (Hk _ _ H') as Hk'. cbn in Hk'.
    assert (k' = k) as -> by congruence. cbn. congruence.
  - apply find_none with (x := en) in E; [|by apply list_elem_of_In]. apply bool_decide_eq_false_1 in E. by destruct E; apply (Hk _ _ Hn).
Qed.

(** What registering does to a catalog that works. *)
Lemma Set_effect en c : cat_fault (cat_file c) = None ->
  (exists f, Set_ en c = (Ok tt, MkCatalog f (<[eName en := en]> (cat_entries c))) /\ cat_fault f = None) \/ ((Set_ en c).1 <> Ok tt /\ (Set_ en c).2 = c).
Proof.
  intros Hf. unfold Set_. case_decide; [by right|]. destruct (validate (eSchema en)) as [[]| | |]; [|by right..].
  left. do 2 erewrite bind_ok by reflexivity. rewrite save_ok by done. by eexists.
Qed.
Lemma Set_fault en c : cat_fault (cat_file (Set_ en c).2) = None -> cat_fault (cat_file c) = None.
Proof.
  unfold Set_. case_decide; [done|]. destruct (validate (eSchema en)) as [[]| | |]; try done. do 2 erewrite bind_ok by reflexivity.
  unfold save. rewrite bind_get. cbn [cat_file]. destruct (cat_fault (cat_file c)) as [[[] err]|] eqn:E; cbn; congruence.
Qed.
Lemma Delete_effect k c : cat_fault (cat_file (Catalog.Delete k c).2) = None ->
  cat_fault (cat_file c) = None /\ (Catalog.Delete k c).1 = Ok tt /\ cat_entries (Catalog.Delete k c).2 = base.delete k (cat_entries c).
Proof.
  unfold Catalog.Delete. erewrite bind_ok by reflexivity. unfold save. rewrite bind_get. cbn [cat_file].
  destruct (cat_fault (cat_file c)) as [[[] err]|] eqn:E; cbn; [congruence..|done].
Qed.

Lemma keyed_insert m en : keyed m -> keyed (<[eName en := en]> m).
Proof. intros Hm. by apply map_Forall_insert_2. Qed.
Lemma keyed_delete m k : keyed m -> keyed (base.delete k m).
Proof. intros Hm. by apply map_Forall_delete. Qed.

(** The files after [CREATE], [DROP] and [ALTER]. *)
Lemma filed_create e e' en path tb c :
  filed e -> with_catalog (Set_ en) (catalog e) = (Ok tt, c) -> Tables e' = <[eName en := length (tabs e)]> (Tables e) -> catalog e' = c ->
  tabs e' = tabs e ++ [tb] -> tabPaths e' = tabPaths e ++ [path] -> ePath en = path -> filed e'.
Proof.
  intros [Hl Hf] Ec HT <- Ht Hp Hen. split; [rewrite Ht, Hp, !length_app; cbn; lia|]. intros c' E' Hf'. rewrite HT, Hp. destruct (catalog e) as [c|] eqn:E; cbn in Ec; [|congruence].
  pose proof (Set_fault en c) as Hs. pose proof (Set_effect en c) as He. destruct (Set_ en c) as [o c1]. rewrite E' in Ec. injection Ec as -> ->. cbn [fst snd] in *.
  specialize (Hs Hf'). destruct (Hf c eq_refl Hs) as [Hk Hn]. destruct (He Hs) as [(f&[= ->]&_)|[? _]]; [|done]. cbn [cat_entries]. split; [by apply keyed_insert|].
  intros name a [[<- <-]|[Hne Ha]]%lookup_insert_Some.
  - exists en. rewrite lookup_insert_eq. split; [done|]. rewrite <- Hl, list_lookup_middle by done. congruence.
  - destruct (Hn name a Ha) as (en'&H1&H2). exists en'. rewrite lookup_insert_ne by done. split; [done|]. by apply lookup_app_l_Some.
Qed.

Lemma filed_same e e' c ps :
  filed e -> Tables e' = Tables e -> catalog e' = c -> (forall m, c = Some m -> cat_fault (cat_file m) = None -> catalog e = Some m) ->
  tabPaths e' = tabPaths e ++ ps -> length (tabs e') = (length (tabs e) + length ps)%nat -> filed e'.
Proof.
  intros [Hl Hf] HT <- Hc Hp Ht. split; [rewrite Ht, Hp, length_app; lia|]. intros c' E' Hf'. rewrite HT, Hp. destruct (Hf c' (Hc _ E' Hf') Hf') as [Hk Hn]. split; [done|].
  intros name a Ha. destruct (Hn name a Ha) as (en&H1&H2). exists en. split; [done|]. by apply lookup_app_l_Some.
Qed.

Lemma filed_drop e e' name :
  filed e -> Tables e' = base.delete name (Tables e) -> catalog e' = (with_catalog (Catalog.Delete name) (catalog e)).2 -> tabPaths e' = tabPaths e ->
  length (tabs e') = length (tabs e) -> filed e'.
Proof.
  intros [Hl Hf] HT Hc Hp Ht. split; [congruence|]. intros c' E' Hf'. rewrite HT, Hp. destruct (catalog e) as [c|] eqn:E; cbn in Hc; [|congruence].
  pose proof (Delete_effect name c) as He. destruct (Catalog.Delete name c) as [o c1]. rewrite E' in Hc. injection Hc as ->. cbn [fst snd] in *.
  destruct (He Hf') as (H0&_&->). destruct (Hf c eq_refl H0) as [Hk Hn]. split; [by apply keyed_delete|].
  intros name' a [Hne Ha]%lookup_delete_Some. destruct (Hn name' a Ha) as (en'&H1&H2). exists en'. by rewrite lookup_delete_ne.
Qed.

Lemma filed_alter e e' name a sch :
  filed e -> Tables e !! name = Some a -> Tables e' = Tables e ->
  catalog e' = (with_catalog (c ← get_state; Set_ (MkEntry name (entryPath name c) sch)) (catalog e)).2 -> tabPaths e' = tabPaths e ->
  length (tabs e') = length (tabs e) -> filed e'.
Proof.
  intros [Hl Hf] Ha HT Hc Hp Ht. split; [congruence|]. intros c' E' Hf'. rewrite HT, Hp. destruct (catalog e) as [c|] eqn:E; cbn in Hc; [|congruence].
  rewrite bind_get in Hc. set (en := MkEntry name (entryPath name c) sch) in *.
  pose proof (Set_fault en c) as Hs. pose proof (Set_effect en c) as He. destruct (Set_ en c) as [o c1]. rewrite E' in Hc. injection Hc as ->. cbn [fst snd] in *.
  specialize (Hs Hf'). destruct (Hf c eq_refl Hs) as [Hk Hn]. destruct (He Hs) as [(f&[= _ ->]&_)|[_ ->]]; [|done]. cbn [cat_entries]. split; [by apply (keyed_insert _ en)|].
  intros name' a' Ha'. destruct (Hn name' a' Ha') as (en'&H1&H2). change (eName en) with name. destruct (decide (name' = name)) as [->|Hne].
  - exists en. rewrite lookup_insert_eq. split; [done|]. cbn. by rewrite (find_entry c name en').
  - exists en'. by rewrite lookup_insert_ne.
Qed.

(** More tables in memory, the same names. *)
Lemma db_extend e e' D n :
  db_sim e D n -> (forall a tb, tabs e !! a = Some tb -> tabs e' !! a = Some tb) -> Tables e' = Tables e -> tx e' = tx e -> db_sim e' D n.
Proof.
  intros [H1 H2 H3] Ht HT Hx. split; [congruence| |by rewrite HT]. intros name. rewrite HT. specialize (H2 name).
  destruct H2 as [a R (tb&st&Ha&Hrest)|]; constructor. exists tb, st. split; [by apply Ht|done].
Qed.

(** A table in use is in memory. *)
Lemma db_address e D n name a : db_sim e D n -> Tables e !! name = Some a -> (a < length (tabs e))%nat.
Proof.
  intros Hd Ha. pose proof (db_tables _ _ _ Hd name) as H2. rewrite Ha in H2. inversion H2 as [? ? (tb&st&Htb&_)|]; subst. by eapply lookup_lt_Some.
Qed.

(** A new name for a new table. *)
Lemma db_add e D n name tb st R ps :
  db_sim e D n -> Tables e !! name = None -> sim tb st R.2 -> tschema tb = R.1 -> len (states st) + n < 2 ^ 32 - 1 ->
  db_sim (set_Tables (<[name := length (tabs e)]> (Tables e)) (set_tabPaths ps (set_tabs (tabs e ++ [tb]) e))) (<[name := R]> D) n.
Proof.
  intros Hd Hn Hs Hsc Hb. pose proof (fun (k : bytes) a => db_address e D n k a Hd) as Haddr. destruct Hd as [H1 H2 H3]. split; cbn; [done| |].
  - intros name'. destruct (decide (name' = name)) as [->|Hne].
    + rewrite !lookup_insert_eq. constructor. exists tb, st. cbn. rewrite list_lookup_middle by done. by split_and!.
    + rewrite !lookup_insert_ne by done. specialize (H2 name'). destruct H2 as [a R' (tb'&st'&Ha&Hrest)|]; constructor.
      exists tb', st'. cbn. split; [by apply lookup_app_l_Some|done].
  - intros k1 k2 a. rewrite !lookup_insert_Some. intros [[<- <-]|[? E1]] [[<- E2]|[? E2]]; try done; [|subst a|by eapply H3].
    + apply Haddr in E2. lia.
    + apply Haddr in E1. lia.
Qed.

(** A name is removed; its table may change. *)
Lemma db_remove e e' D n name a :
  db_sim e D n -> Tables e !! name = Some a -> (forall a', a' <> a -> tabs e' !! a' = tabs e !! a') ->
  Tables e' = base.delete name (Tables e) -> tx e' = tx e -> db_sim e' (base.delete name D) n.
Proof.
  intros [H1 H2 H3] Ha Ht HT Hx. split; [congruence| |].
  - intros name'. rewrite HT. destruct (decide (name' = name)) as [->|Hne]; [rewrite !lookup_delete_eq; constructor|].
    rewrite !lookup_delete_ne by done. pose proof (H2 name') as Hn. destruct (Tables e !! name') as [a'|] eqn:Ea'; inversion Hn as [? R (tb&st&Htb&Hrest)|]; subst; constructor.
    exists tb, st. split; [|done]. rewrite Ht; [done|]. intros ->. apply Hne. by eapply H3.
  - intros k1 k2 a'. rewrite HT, !lookup_delete_Some. intros [_ E1] [_ E2]. by eapply H3.
Qed.

Lemma Close_ok tb st T : sim tb st T -> len (states st) < 2 ^ 32 - 1 -> exists tb', Table.Close tb = (Ok tt, tb').
Proof.
  intros [(Hne&(ps&segs&Hk)&_) _] Hb. destruct (Close_keeps (tstore tb) ps segs _ _ Hk) as (s'&db&E&_); [lia|].
  exists (set_tstore s' tb). by apply on_store_ok.
Qed.

Lemma fresh_table s :
  Columns s <> [] -> validate s = Ok tt ->
  exists st0 tb st, (Open fresh_files).1 = Ok st0 /\ NewTable (Some st0) s = Ok tb /\ tschema tb = s /\ sim tb st ∅ /\ states st = [[]].
Proof.
  intros Hc Hv. apply validate_ok in Hv. destruct Open_fresh as (s0&E0&Hs0).
  destruct (NewTable_spec store_reads s0 s [] ∅) as (t&E&Ht&Hst&Hsc); [by apply (durable_reads s0 (MkSpec [[]] 0)), simulates_durable|done|done| |].
  { intros k. rewrite lookup_empty. constructor. }
  exists s0, t, (MkSpec [[]] 0). rewrite E0. split_and!; try done. split; [rewrite Hst; by apply simulates_durable|done].
Qed.

Lemma implicit_id_columns cs : implicit_id cs <> [].
Proof. unfold implicit_id. destruct cs as [|c cs]; [done|]. by destruct (existsb _ _). Qed.

Lemma NewTable_invalid s0 s o : validate s = o -> o <> Ok tt -> ok_or_err o -> NewTable (Some s0) s = (o ≫= fun _ => Panic).
Proof. intros <- Hn Ho. unfold NewTable. by destruct (validate s) as [[]| | |]. Qed.

Lemma Open_fresh_ok : exists s0, (Open fresh_files).1 = Ok s0.
Proof. destruct Open_fresh as (s0&E0&_). exists s0. by rewrite E0. Qed.

(** A refused entry leaves a working catalog as it is. *)
Lemma refused_catalog en c0 o c m :
  with_catalog (Set_ en) c0 = (o, c) -> o <> Ok tt -> c = Some m -> cat_fault (cat_file m) = None -> c0 = Some m.
Proof.
  destruct c0 as [c1|]; cbn; [|by intros [= <- <-]]. intros E Ho -> Hf. pose proof (Set_fault en c1) as Hs. pose proof (Set_effect en c1) as He.
  destruct (Set_ en c1) as [o' c']. injection E as -> ->. cbn [fst snd] in *. destruct (He (Hs Hf)) as [(f&[= -> _]&_)|[_ ->]]; done.
Qed.

Lemma create_refines e W n q :
  sql_sim e W n -> exists e', plain (create q) e = ((spec_create q W).1, e') /\ sql_sim e' (spec_create q W).2 n /\ files_kept e e'.
Proof.
  intros Hsim. pose proof Hsim as [Hd Hc Ht Hroom]. unfold plain, attempt, create, spec_create. rewrite bind_get. cbv zeta. pose proof (db_tables _ _ _ Hd (ToLower (ctTable q))) as Hn.
  destruct (rels W !! ToLower (ctTable q)) as [R|] eqn:ER; inversion Hn as [a ? Ha Ea|Ea]; subst.
  { rewrite decide_True by (by eexists). exists e. split_and!; [done|done|apply files_kept_refl]. }
  symmetry in Ea. rewrite ?Ea, decide_False by (rewrite ?Ea; apply is_Some_None). rewrite Ht. destruct (temps W) as [|path ts] eqn:Ets.
  { exists e. split_and!; [done|done|apply files_kept_refl]. }
  erewrite bind_ok by reflexivity. set (e1 := set_tempFiles ts e). assert (db_sim e1 (rels W) n) as Hd1 by (by apply (db_extend e)).
  fold (implicit_id (ctColumns q)) (new_schema q). destruct Open_fresh_ok as (s0&E0). unfold lift. erewrite bind_ok by (rewrite E0; reflexivity).
  pose proof (validate_ok_or_err (new_schema q)) as Hv. destruct (validate (new_schema q)) as [[]|x| |] eqn:Ev; try done.
  2: { erewrite bind_err by (by rewrite (NewTable_invalid s0 _ _ Ev)). exists e1. split_and!; [done|by split|]. split; [|apply sublist_app; [done|by rewrite Ht; apply sublist_cons]].
       intros Hf. by apply (filed_same e e1 (catalog e) [] Hf); rewrite ?app_nil_r, ?Nat.add_0_r. }
  destruct (fresh_table (new_schema q) (implicit_id_columns _) Ev) as (s0'&tb&st&E0'&En&Hsc&Hs&Hst). assert (s0' = s0) as -> by congruence.
  erewrite bind_ok by (rewrite En; reflexivity). erewrite bind_ok by reflexivity. erewrite bind_ok by reflexivity. rewrite Hsc.
  set (e2 := set_Tables _ _). pose proof (db_add e1 (rels W) n (ToLower (ctTable q)) tb st (new_schema q, ∅) (tabPaths e1 ++ [path]) Hd1 Ea Hs Hsc) as Hd2.
  rewrite Hst in Hd2. change (len [[]]) with 1 in Hd2. specialize (Hd2 ltac:(lia)).
  set (m := Set_ (MkEntry (ToLower (ctTable q)) path (new_schema q))).
  assert (sublist ((tabPaths e ++ [path]) ++ ts) (tabPaths e ++ tempFiles e)) as Hsub by (by rewrite Ht, <- app_assoc).
  pose proof (with_catalog_ok_or_err m (cat W) (Set_ok_or_err _)) as Hm. pose proof (fun Hf => filed_create e (set_catalog (with_catalog m (cat W)).2 e2) (MkEntry (ToLower (ctTable q)) path (new_schema q)) path tb (with_catalog m (cat W)).2 Hf) as Hfile.
  pose proof (fun mc => refused_catalog (MkEntry (ToLower (ctTable q)) path (new_schema q)) (cat W) (with_catalog m (cat W)).1 (with_catalog m (cat W)).2 mc (surjective_pairing _)) as Hsame. rewrite Hc in Hfile. fold m in Hfile. cbv [mbind M_bind]. unfold catch. rewrite on_catalog_run.
  change (catalog e2) with (catalog e). rewrite Hc. destruct (with_catalog m (cat W)) as [o c]. cbn [fst snd] in *. destruct o as [[]|err| |]; try done; cbn [is_ok].
  - eexists. split; [reflexivity|]. split; [|split; [|done]; intros Hf; by apply Hfile]. split; [|done|done|done]. by apply (db_extend _ _ _ _ Hd2).
  - destruct (Close_ok tb st ∅ Hs) as (tb'&Ec); [rewrite Hst; change (len [[]]) with 1; lia|].
    cbv [mbind M_bind modify]. unfold on_table. cbn [tabs set_Tables set_catalog e2 set_tabs set_tabPaths]. rewrite list_lookup_middle by done. rewrite Ec.
    eexists. split; [reflexivity|]. split.
    2: { split; [|done]. intros Hf. apply (filed_same e _ c [path] Hf); [cbn; by rewrite delete_insert_id|done| |done|cbn; rewrite length_insert, length_app; cbn; lia].
         rewrite Hc. intros mc. by apply Hsame. }
    split; [|done|done|done]. apply (db_extend e1); [done| | |done]; cbn.
    + intros a tb0 Ha. pose proof (lookup_lt_Some _ _ _ Ha). rewrite list_lookup_insert_ne by (cbn in *; lia). by apply lookup_app_l_Some.
    + by rewrite delete_insert_id.
Qed.

Lemma drop_refines e W n name :
  sql_sim e W n -> exists e', drop_ name e = ((spec_drop name W).1, e') /\ sql_sim e' (spec_drop name W).2 n /\ files_kept e e'.
Proof.
  intros Hsim. pose proof Hsim as [Hd Hc Ht Hroom]. unfold drop_, spec_drop. rewrite bind_get. cbv zeta. pose proof (db_tables _ _ _ Hd (ToLower name)) as Hn.
  destruct (rels W !! ToLower name) as [R|] eqn:ER; inversion Hn as [a ? Ha Ea|Ea]; subst; [|exists e; split_and!; [done|done|apply files_kept_refl]].
  symmetry in Ea. try rewrite Ea. erewrite bind_ok by reflexivity. unfold attempt. rewrite on_catalog_run. cbn [catalog set_Tables]. rewrite Hc.
  pose proof (with_catalog_ok_or_err (Catalog.Delete (ToLower name)) (cat W) (Delete_ok_or_err _)) as Hm. pose proof (fun e' Hf => filed_drop e e' (ToLower name) Hf) as Hfile. rewrite Hc in Hfile.
  destruct (with_catalog (Catalog.Delete (ToLower name)) (cat W)) as [o c]. cbn [fst snd] in *. destruct o as [[]|err| |]; try done.
  - destruct Ha as (tb&st&Htb&Hs&_&Hb). destruct (Close_ok tb st R.2 Hs) as (tb'&Ec); [lia|].
    unfold on_table. cbn [tabs set_catalog set_Tables]. rewrite Htb, Ec. eexists. split; [reflexivity|]. split.
    2: { split; [|done]. intros Hf. apply Hfile; try done. cbn. apply length_insert. }
    split; [|done|done|done].
    eapply (db_remove e); [done|exact Ea| |done|done]. intros a' Hne. cbn. by apply list_lookup_insert_ne.
  - eexists. split; [reflexivity|]. split; [|split; [|done]; intros Hf; by apply Hfile]. split; [|done|done|done]. by eapply (db_remove e); [..|done|done].
Qed.

Lemma Alter_refused s tb x : validate s = Err x -> Alter s tb = (Err x, tb).
Proof. intros Hv. unfold Alter, lift. cbv [mbind M_bind]. by rewrite Hv. Qed.

Lemma delete_filter {A} (k : bytes) (m : gmap bytes A) : base.delete k m = filter (fun nk : bytes * A => nk.1 <> k) m.
Proof using Type.
  apply map_eq. intros n. rewrite lookup_delete, map_lookup_filter. case_decide as E; destruct (m !! n) eqn:En; cbn; simplify_eq; try done.
  - by rewrite option_guard_False by (intros H; by apply H).
  - by rewrite option_guard_True by congruence.
Qed.

Lemma columns_dropped q (cs : list Column) :
  atAction q = of_string "drop" -> filter (fun c => EqualFold (cName c) (atName q) = false) cs = cs ≫= column_after q.
Proof using Type.
  intros E. induction cs as [|c cs IH]; [done|]. rewrite bind_cons, filter_cons, <- IH. unfold column_after. rewrite (decide_True _ _ E).
  by destruct (EqualFold _ _).
Qed.
Lemma columns_renamed q (cs : list Column) :
  atAction q = of_string "rename" ->
  ((fun c => if EqualFold (cName c) (atName q) then MkCol (atNewName q) (cType c) else c) <$> cs) = cs ≫= column_after q.
Proof using Type.
  intros E. induction cs as [|c cs IH]; [done|]. rewrite bind_cons, fmap_cons, IH. unfold column_after. rewrite E.
  by destruct (EqualFold _ _).
Qed.
Lemma columns_kept q (cs : list Column) :
  atAction q <> of_string "drop" -> atAction q <> of_string "rename" -> cs = cs ≫= column_after q.
Proof using Type.
  intros E1 E2. induction cs as [|c cs IH]; [done|]. rewrite bind_cons, <- IH. unfold column_after. rewrite !decide_False by done.
  by destruct (EqualFold _ _).
Qed.

Lemma alterSchema_spec q s : alterSchema q s = schema_after q s.
Proof using Type.
  unfold alterSchema, schema_after. destruct (decide (atAction q = of_string "add")) as [E|E]; [by rewrite E|].
  destruct (decide (atAction q = of_string "drop")) as [E1|E1].
  { rewrite columns_dropped, delete_filter by done. rewrite (decide_True (P := _ \/ _)) by (by left).
    rewrite (decide_False (P := atAction q = of_string "rename")) by (by rewrite E1). by rewrite (left_id_L ∅ (∪)). }
  destruct (decide (atAction q = of_string "rename")) as [E2|E2].
  - rewrite columns_renamed by done. rewrite decide_True by (by right). f_equal. rewrite <- delete_filter.
    destruct (Constraints s !! atName q) as [k|] eqn:Ek; [by rewrite <- insert_union_singleton_l|].
    rewrite (left_id_L ∅ (∪)). symmetry. by apply delete_id.
  - rewrite decide_False by (by intros [|]). rewrite <- columns_kept by done. by destruct s.
Qed.

(** The conversion of the rows. *)
Lemma alter_rows e D n a R q :
  db_sim e D n -> Tables e !! ToLower (atTable q) = Some a -> table_at e n a R -> Z.of_nat (base.size R.2) <= n ->
  validate (schema_after q R.1) = Ok tt -> Columns (schema_after q R.1) <> [] -> map_Forall (alterable R.1 (schema_after q R.1)) R.2 ->
  exists e', on_table a (Alter (schema_after q R.1)) e = (Ok tt, e') /\
    db_sim e' (<[ToLower (atTable q) := altered q R]> D) (n - Z.of_nat (base.size R.2)) /\ framed e e'.
Proof.
  intros Hd Ha Hat Hle Hv Hc Hok. apply (table_change e D n _ (atTable q) a R (altered q R) _ _ Hd Ha Hat); [lia| |done].
  intros tb st Hs Hsc Hb. apply validate_ok in Hv. rewrite <- Hsc in Hok.
  destruct (Alter_spec store_reads durable tb st R.2 (schema_after q R.1) Hs Hv Hc) as (tb'&st'&E&Hs'&Hsc'&Hg); [by rewrite Hsc in *|lia|].
  exists tb', st'. unfold altered. cbn [fst snd]. rewrite <- Hsc in Hs'. rewrite Hsc in Hs'. by split_and!.
Qed.

Lemma alter_refines e W n q :
  sql_sim e W n -> admissible_full (SAlterTable q) W -> full_cost (SAlterTable q) W <= n ->
  exists e', plain (alter_ q) e = ((spec_alter q W).1, e') /\ sql_sim e' (spec_alter q W).2 (n - full_cost (SAlterTable q) W) /\ files_kept e e'.
Proof.
  intros Hsim Hok Hn. pose proof Hsim as [Hd Hc Ht Hroom]. pose proof (full_cost_nonneg (SAlterTable q) W) as Hk.
  cbn [admissible_full full_cost] in *. unfold plain, attempt, alter_, spec_alter. cbv zeta.
  assert (sql_sim e W (n - rows_in (atTable q) (rels W))) as Hsame by (split; [eapply db_weaken; [|done]; lia|done|done|lia]).
  pose proof (relation_ok_or_err (atTable q) (rels W)) as Ho. destruct (relation_of (atTable q) (rels W)) as [R|x| |] eqn:ER; try done.
  2: { exists e. rewrite (bind_err _ _ _ _ _ (table_error _ _ _ _ _ Hd ER)). split_and!; [done|done|apply files_kept_refl]. }
  destruct (table_read _ _ _ _ _ Hd ER) as (a&Et&Ha&Hat). rewrite (bind_ok _ _ _ _ _ Et), (bind_ok _ _ _ _ _ (schema_read _ _ _ _ Hat)).
  rewrite alterSchema_spec. pose proof (validate_ok_or_err (schema_after q R.1)) as Hv. destruct (validate (schema_after q R.1)) as [[]|x| |] eqn:Ev; try done.
  2: { destruct Hat as (tb&st&Htb&_). exists e.
       erewrite bind_err by (rewrite (on_table_ok a tb tb _ _ e Htb (Alter_refused _ tb _ Ev)); by rewrite list_insert_id by done).
       split_and!; [by destruct e|done|apply files_kept_refl]. }
  destruct (Hok R eq_refl Ev) as [Hcols Hrows]. unfold rows_in in *. rewrite ER in *.
  destruct (alter_rows e (rels W) n a R q Hd Ha Hat Hn Ev Hcols Hrows) as (e1&E1&Hd1&(l&->&Hl)). rewrite (bind_ok _ _ _ _ _ E1).
  set (m := c ← get_state; Set_ (MkEntry (ToLower (atTable q)) (entryPath (ToLower (atTable q)) c) (schema_after q R.1))).
  assert (ok_or_err (with_catalog m (cat W)).1) as Hm.
  { apply with_catalog_ok_or_err. intros c. unfold m. rewrite bind_get. apply Set_ok_or_err. }
  cbv [mbind M_bind]. fold m. rewrite on_catalog_run. cbn [catalog set_tabs]. rewrite Hc.
  pose proof (fun Hf => filed_alter e (set_catalog (with_catalog m (cat W)).2 (set_tabs l e)) (ToLower (atTable q)) a (schema_after q R.1) Hf Ha eq_refl) as Hfile.
  rewrite Hc in Hfile. specialize (fun Hf => Hfile Hf eq_refl eq_refl Hl).
  destruct (with_catalog m (cat W)) as [o c]. cbn [fst snd] in *. destruct o as [[]|err| |]; try done;
    (eexists; split; [reflexivity|]; split; [|by split]; split; [by apply (db_extend _ _ _ _ Hd1)|done|done|lia]).
Qed.

Lemma full_refines e W n s :
  sql_sim e W n -> admissible_full s W -> full_cost s W <= n ->
  exists e', executeStatement s e = ((spec_full s W).1, e') /\ sql_sim e' (spec_full s W).2 (n - full_cost s W) /\ files_kept e e' /\
    (relational s = true -> framed e e').
Proof.
  intros Hsim Hok Hn. assert (forall s, relational s = true -> admissible_full s W = admissible s (rels W) /\ full_cost s W = statement_cost s (rels W) /\
    spec_full s W = let '(x, D) := spec_statement s (rels W) in (x, set_rels D W)) as Hrel by (by intros []).
  destruct (relational s) eqn:Er.
  - destruct (Hrel s Er) as (Ea&Ec&Es). rewrite Ea in Hok. rewrite Ec in Hn |- *. rewrite Es. pose proof Hsim as [Hd Hc Ht Hroom].
    destruct (statement_refines e (rels W) n s Hd Hok Hn) as (e'&E&Hd'&(l&->&Hl)). pose proof (statement_cost_nonneg s (rels W)).
    exists (set_tabs l e). rewrite E. destruct (spec_statement s (rels W)) as [x D]. cbn [fst snd] in *. split; [done|]. split; [split; [done|done|done|lia]|]. split; [apply framed_files|]; by exists l.
  - assert (tx e = None) as Htx by apply (db_tx _ _ _ (ss_db _ _ _ Hsim)).
    destruct s; try done; cbn [executeStatement spec_full full_cost statement_cost] in *; rewrite ?Z.sub_0_r.
    + destruct (create_refines e W n q Hsim) as (e'&?&?&?). by exists e'.
    + destruct (drop_refines e W n table Hsim) as (e'&?&?&?). by exists e'.
    + destruct (alter_refines e W n q Hsim Hok Hn) as (e'&?&?&?). by exists e'.
    + exists e. split; [|split_and!; [done|apply files_kept_refl|done]]. unfold plain, attempt, commit. by rewrite bind_get, Htx.
    + exists e. split; [|split_and!; [done|apply files_kept_refl|done]]. unfold plain, attempt, rollback. by rewrite bind_get, Htx.
Qed.

Lemma script_refines ss e W n :
  sql_sim e W n -> admissible_script ss n W ->
  exists e' n', execute_run ss e = ((spec_script ss W).1, e') /\ sql_sim e' (spec_script ss W).2 n'.
Proof.
  revert e W n. induction ss as [|s ss IH]; intros e W n Hsim Hok; cbn [execute_run spec_script admissible_script] in *; [by exists e, n|].
  destruct Hok as [Hs Hss]. pose proof (script_room _ _ _ Hss).
  destruct (full_refines e W n s Hsim Hs) as (e1&E1&Hsim1&_); [lia|]. rewrite E1. destruct (spec_full s W) as [x W1]. cbn [fst snd] in *.
  destruct (IH e1 W1 _ Hsim1 Hss) as (e2&n2&E2&Hsim2). rewrite E2. exists e2, n2. by destruct (spec_script ss W1).
Qed.
End refinement.

(** C4: outside a transaction the executor is a relational database, schema changes
    included: sequences of statements other than [BEGIN] are answered, results and
    errors alike, as the specification on named relations says. A table is created
    empty with a key column, and not at all when it cannot be registered; a dropped
    table is gone; [ALTER TABLE] gives the table the schema [schema_after] and each
    row its value column by column ([row_after]); the catalog follows, and its
    failures are reported. Conditions ([admissible_script]): a row that [INSERT] or
    [UPDATE] stores fits a page and reads back as it was written (not so an empty
    [BYTES] value or a time outside the range of 64-bit nanoseconds); so does every
    row that [ALTER TABLE] converts, under the key it had, which excludes dropping the
    key column or all columns, and adding a [TIMESTAMP] or [BYTES] column to a table
    with rows ([TableChange.alter_zero_time]); the records stay below 2^32. The
    evaluation of [SELECT] on the rows read is the code's own; C26 to C29 and C32 are
    about it. *)
Theorem sql_refines_database `{Codec : IndexCodec} `{Fmt : Formats} `{Text : GoText} `{Syn : GoSyntax} `{Json : JsonCodec} `{Order : MapOrder} {Laws : MapOrderLaws}
  (ss : list Statement) (e : Executor) (W : sqlstate) (n : Z) (Hsim : sql_sim e W n) (Hok : admissible_script ss n W) :
  exists e' n', execute_run ss e = ((spec_script ss W).1, e') /\ sql_sim e' (spec_script ss W).2 n'.
Proof. by apply (script_refines ss e W n). Qed.

(** ** Concrete scripts *)

Section checking.
Context `{Fmt : Formats} `{Text : GoText} `{Syn : GoSyntax} `{Json : JsonCodec} `{Order : MapOrder}.

Definition full_check (s : Statement) (W : sqlstate) : bool :=
  match s with
  | SBegin => false
  | SCreateTable _ | SDropTable _ | SCommit | SRollback => true
  | SAlterTable q =>
      match relation_of (atTable q) (rels W) with
      | Ok R =>
          negb (is_ok (validate (schema_after q R.1))) ||
          (bool_decide (Columns (schema_after q R.1) <> []) && forallb (alterable_b R.1 (schema_after q R.1)) (map_to_list R.2))
      | _ => true
      end
  | s => statement_check s (rels W)
  end.

Fixpoint script_check (ss : list Statement) (n : Z) (W : sqlstate) : bool :=
  match ss with
  | [] => bool_decide (0 <= n)
  | s :: ss => full_check s W && script_check ss (n - full_cost s W) (spec_full s W).2
  end.

Lemma full_check_ok s W : full_check s W = true -> admissible_full s W.
Proof.
  destruct s; cbn [full_check admissible_full]; try done; try apply statement_check_ok.
  intros Hs R ER Hv. rewrite ER, Hv in Hs. cbn in Hs. apply andb_true_iff in Hs as [Hc Hr]. split; [by apply bool_decide_eq_true_1 in Hc|by apply alterable_b_ok].
Qed.
Lemma script_check_ok ss n W : script_check ss n W = true -> admissible_script ss n W.
Proof.
  revert n W. induction ss as [|s ss IH]; intros n W; cbn [script_check admissible_script]; [apply bool_decide_eq_true_1|].
  intros [Hs Hss]%andb_true_iff. split; [by apply full_check_ok|by apply IH].
Qed.
End checking.
