(* ===== verification/SqlScripts.v ===== *)
(** * Requests in turn

    A request is the text that a client sends: one statement of any kind, or several
    that are executed together. The specification of a request follows from those of
    its statements; a request leaves the database in a state in which the next one
    can be executed and, if need be, undone. *)
From S2P Require Import Prelude OrderedMap BTree Wal Record Store StoreProofs StoreSpec Value Text RowCodec Table StoreContract StoreReopen TableInv TableProofs TableSpec TableOpen TableChange Catalog SqlLex SqlParse SqlEval SqlExec SqlTx SqlRollback SqlSpec SqlBatch SqlSchema.

#[local] Set Default Proof Using "Type".

(** ** Rows that can be put back *)

Section soundness.
Context `{Fmt : Formats} `{Text : GoText} `{Syn : GoSyntax} `{Json : JsonCodec} `{Order : MapOrder}.
Implicit Types (D : database) (R : relation) (T : rowmap) (W : sqlstate).

Lemma restorable_empty s : restorable s ∅.
Proof. split; [intros c k1 k2 r1 r2 _ _ H|intros k r H]; by rewrite lookup_empty in H. Qed.

Lemma restorable_subset s T T' : restorable s T -> T' ⊆ T -> restorable s T'.
Proof. intros [Hu Hr] Hs. split; [by eapply unique_subset|]. intros k r Hk. apply Hr. by eapply lookup_weaken. Qed.

Lemma restorable_insert s key row T : restorable s T -> writable s key row -> restorable s (spec_insert s key row T).2.
Proof.
  intros [Hu Hr] Hw. split; [by apply unique_spec_insert|]. unfold spec_insert. destruct (encode s row) as [b| | |] eqn:Ee; try done.
  change (Ok b ≫= ?f) with (f b). cbn beta. destruct (check s key row T) as [[]| | |]; cbn [snd]; try done.
  intros k r Hk. apply lookup_insert_Some in Hk as [[<- <-]|[_ Hk]]; [|by apply Hr]. destruct (Hw b Ee) as (?&?&?). split; [done|]. by exists b.
Qed.

Lemma restorable_update s w set_ rows n T :
  restorable s T -> Forall (update_ok s w set_) rows -> restorable s (spec_update s w set_ rows n T).2.
Proof.
  intros HT Hok. revert n T HT. induction Hok as [|r rows Hr _ IH]; intros n T HT; cbn [spec_update]; [done|].
  destruct (matches w r) eqn:Em; [|by apply IH]. pose proof (restorable_insert s _ _ T HT (Hr Em)) as Hi.
  destruct (spec_insert _ _ _ T) as [[[]| | |] T1]; cbn [snd] in *; [by apply IH|done|by apply IH..].
Qed.

Definition sound D : Prop := map_Forall (fun _ R => restorable R.1 R.2) D.

Lemma sound_insert D name R : sound D -> restorable R.1 R.2 -> sound (<[name := R]> D).
Proof. intros HD HR. by apply map_Forall_insert_2. Qed.
Lemma sound_lookup D name R : sound D -> relation_of name D = Ok R -> restorable R.1 R.2.
Proof. unfold relation_of. destruct (D !! ToLower name) as [R'|] eqn:E; [|done]. intros HD [= <-]. by eapply HD. Qed.

Lemma statement_sound s D : sound D -> admissible s D -> sound (spec_statement s D).2.
Proof.
  intros HD [_ Hok]. destruct s; cbn [spec_statement snd]; try done.
  - unfold spec_sql_insert. destruct (new_row q D) as [[R kr]| | |] eqn:En; try done.
    pose proof (restorable_insert R.1 (Sprint kr.1) kr.2 R.2 (sound_lookup _ _ _ HD (new_row_relation _ _ _ _ En)) (Hok R kr eq_refl)) as Hi.
    destruct (spec_insert _ _ _ _) as [o T]. by apply sound_insert.
  - unfold spec_sql_update, new_values in *. destruct (relation_of (updTable q) D) as [R| | |] eqn:ER; try done.
    change (Ok R ≫= ?f) with (f R) in *. cbn beta in *. destruct (spec_set _ _) as [set_| | |]; try done. cbn [mbind outcome_bind].
    pose proof (restorable_update R.1 (Some (matchWhere (updWhere q))) set_ (scan_rows R.2) 0 R.2 (sound_lookup _ _ _ HD ER)) as Hu.
    destruct (spec_update _ _ _ _ _ _) as [[k err] T]. apply sound_insert; [done|]. apply Hu. apply Forall_forall. intros r [k' Hk]%elem_scan_rows.
    by apply (Hok R set_ eq_refl k').
  - unfold spec_sql_delete. destruct (relation_of (delTable q) D) as [R| | |] eqn:ER; try done. cbn [snd]. apply sound_insert; [done|].
    apply (restorable_subset R.1 R.2); [by apply (sound_lookup D (delTable q))|apply map_filter_subseteq].
Qed.

Lemma all_sound ss out n D : sound D -> admissible_all ss n D -> sound (spec_all ss out D).2.
Proof.
  revert out n D. induction ss as [|s ss IH]; intros out n D HD; cbn [spec_all admissible_all]; [done|]. intros [Hs Hss].
  pose proof (statement_sound s D HD Hs) as H1. destruct (spec_statement s D) as [[[r [err|]]|x| |] D1]; cbn [snd] in *; try done. by eapply IH.
Qed.

(** [ALTER TABLE] does not check that unique columns stay unique. *)
Definition keeps_unique (s : Statement) W : Prop :=
  match s with
  | SAlterTable q => forall R, relation_of (atTable q) (rels W) = Ok R -> unique_ok (altered q R).1 (altered q R).2
  | _ => True
  end.

Lemma full_sound s W : sound (rels W) -> admissible_full s W -> keeps_unique s W -> sound (rels (spec_full s W).2).
Proof.
  intros HD Hok Hu. destruct s; try done;
    try (pose proof (fun s Hs => statement_sound s (rels W) HD Hs) as H; cbn [spec_full admissible_full] in *;
         match goal with |- context [spec_statement ?x ?D] => specialize (H x Hok); destruct (spec_statement x D); exact H end).
  - cbn [spec_full]. unfold spec_create. destruct (rels W !! _); [done|]. destruct (temps W) as [|path ts]; [done|].
    destruct (validate (new_schema q)); try done. destruct (with_catalog _ _) as [o c]. cbn [snd rels]. destruct (is_ok o); [|done].
    apply sound_insert; [done|apply restorable_empty].
  - cbn [spec_full]. unfold spec_drop. destruct (rels W !! _); [|done]. destruct (with_catalog _ _) as [o c]. cbn [snd rels]. by apply map_Forall_delete.
  - cbn [spec_full]. unfold spec_alter. cbn [admissible_full keeps_unique] in *. destruct (relation_of (atTable q) (rels W)) as [R| | |]; try done.
    destruct (validate (schema_after q R.1)) as [[]| | |] eqn:Ev; try done. destruct (with_catalog _ _) as [o c]. cbn [snd rels].
    apply sound_insert; [done|]. split; [by apply Hu|]. intros k r' Hk. unfold altered in *. cbn [fst snd] in *. rewrite lookup_fmap in Hk.
    destruct (R.2 !! k) as [r|] eqn:Er; [|done]. injection Hk as <-. destruct (Hok R eq_refl Ev) as [_ Hr].
    destruct (Hr k r Er) as (b&He&Hdec&Hkey&Hf). split; [done|]. by exists b.
Qed.

(** ** Requests *)

(** The rows of all tables. *)
Definition total_rows D : Z := foldr (fun (x : bytes * relation) n => Z.of_nat (base.size x.2.2) + n) 0 (map_to_list D).

Lemma total_rows_nonneg D : 0 <= total_rows D.
Proof. unfold total_rows. induction (map_to_list D) as [|x l IH]; cbn; lia. Qed.
Lemma total_rows_bound D name R : D !! name = Some R -> Z.of_nat (base.size R.2) <= total_rows D.
Proof.
  intros HR. apply elem_of_map_to_list in HR. unfold total_rows. induction (map_to_list D) as [|x l IH]; [by apply elem_of_nil in HR|].
  assert (0 <= foldr (fun (x : bytes * relation) n => Z.of_nat (base.size x.2.2) + n) 0 l) by (clear; induction l as [|x l IH]; cbn; lia).
  cbn [foldr]. apply elem_of_cons in HR as [<-|Hin]; [cbn; lia|]. specialize (IH Hin). lia.
Qed.

(** What a request appends to a table at most: a failed batch is undone. *)
Fixpoint total_cost (ss : list Statement) D : Z :=
  match ss with [] => 0 | s :: ss => statement_cost s D + total_cost ss (spec_statement s D).2 end.
Lemma total_cost_nonneg ss D : 0 <= total_cost ss D.
Proof. revert D. induction ss as [|s ss IH]; intros D; cbn; [done|]. pose proof (statement_cost_nonneg s D). specialize (IH (spec_statement s D).2). lia. Qed.

Definition spec_request (input : bytes) W : answer * sqlstate :=
  match splitStatements input with
  | [] => (Ok (empty_result, Some (Errorf "empty request" [])), W)
  | parts =>
      match parseAll parts with
      | Ok [s] => spec_full s W
      | Ok ss => let '(x, D) := spec_batch ss (rels W) in (x, set_rels D W)
      | Err err => (Ok (empty_result, Some err), W)
      | Panic => (Panic, W)
      | NoFuel => (NoFuel, W)
      end
  end.

(** A request that changes no schema. *)
Definition data_request (input : bytes) : Prop :=
  match parseAll (splitStatements input) with Ok ss => Forall (fun s => relational s = true) ss | _ => True end.

(** Without a catalog none appears. *)
Lemma spec_full_catalog s W : cat W = None -> cat (spec_full s W).2 = None.
Proof.
  intros Hc. destruct s; cbn [spec_full];
    try (match goal with |- context [spec_statement ?x ?D] => by destruct (spec_statement x D) end); try done.
  - unfold spec_create. rewrite Hc. destruct (rels W !! _); [done|]. destruct (temps W); [done|]. by destruct (validate _).
  - unfold spec_drop. rewrite Hc. by destruct (rels W !! _).
  - unfold spec_alter. rewrite Hc. destruct (relation_of _ _); try done. by destruct (validate _).
Qed.
Lemma spec_request_catalog input W : cat W = None -> cat (spec_request input W).2 = None.
Proof.
  intros Hc. unfold spec_request. destruct (splitStatements input); [done|]. destruct (parseAll _) as [[|s [|s2 ss]]| | |]; try done;
    try (by apply spec_full_catalog); by destruct (spec_batch _ _).
Qed.

Definition admissible_request (input : bytes) W : Prop :=
  match parseAll (splitStatements input) with
  | Ok [s] => admissible_full s W /\ keeps_unique s W
  | Ok ss => admissible_all ss (total_cost ss (rels W)) (rels W)
  | _ => True
  end.

Definition request_cost (input : bytes) W : Z :=
  match parseAll (splitStatements input) with
  | Ok [s] => full_cost s W
  | Ok ss => 2 * total_cost ss (rels W) + 2 * total_rows (rels W)
  | _ => 0
  end.

Lemma request_cost_nonneg input W : 0 <= request_cost input W.
Proof.
  unfold request_cost. destruct (parseAll _) as [[|s [|s2 ss]]| | |]; try done.
  - pose proof (total_rows_nonneg (rels W)). cbn. lia.
  - apply full_cost_nonneg.
  - pose proof (total_cost_nonneg (s :: s2 :: ss) (rels W)). pose proof (total_rows_nonneg (rels W)). lia.
Qed.

Fixpoint spec_requests (inputs : list bytes) W : list answer * sqlstate :=
  match inputs with
  | [] => ([], W)
  | i :: inputs => let '(x, W) := spec_request i W in let '(l, W) := spec_requests inputs W in (x :: l, W)
  end.

Fixpoint admissible_requests (inputs : list bytes) (n : Z) W : Prop :=
  match inputs with
  | [] => 0 <= n
  | i :: inputs => admissible_request i W /\ admissible_requests inputs (n - request_cost i W) (spec_request i W).2
  end.
Lemma requests_room inputs n W : admissible_requests inputs n W -> 0 <= n.
Proof.
  revert n W. induction inputs as [|i inputs IH]; intros n W; cbn [admissible_requests]; [done|]. intros [_ H]. apply IH in H.
  pose proof (request_cost_nonneg i W). lia.
Qed.
End soundness.

#[local] Set Default Proof Using "All".

Section requests.
Context `{Codec : IndexCodec} `{Fmt : Formats} `{Text : GoText} `{Syn : GoSyntax} `{Json : JsonCodec} `{Order : MapOrder} {Laws : MapOrderLaws}.
Implicit Types (W : sqlstate) (e : Executor) (n : Z) (input : bytes).

Lemma request_refines e W n input :
  sql_sim e W n -> sound (rels W) -> admissible_request input W -> request_cost input W <= n ->
  exists e', Execute input e = ((spec_request input W).1, e') /\ sql_sim e' (spec_request input W).2 (n - request_cost input W) /\
    sound (rels (spec_request input W).2) /\ files_kept e e' /\ (data_request input -> framed e e').
Proof.
  intros Hsim HD Hok Hn. unfold data_request. unfold admissible_request, request_cost in *. pose proof Hsim as [Hd Hc Ht Hroom].
  unfold spec_request, Execute. destruct (splitStatements input) as [|p parts] eqn:Es.
  { cbn [parseAll] in *. cbn beta iota in *. pose proof (total_rows_nonneg (rels W)). exists e. split_and!; [done| |done|apply files_kept_refl|intros _; apply framed_refl]. split; [eapply db_weaken; [|done]|done|done|]; cbn in *; lia. }
  destruct (parseAll (p :: parts)) as [ss|x| |] eqn:Ep; unfold attempt, lift;
    try (exists e; rewrite Z.sub_0_r; split_and!; [done..|apply files_kept_refl|intros _; apply framed_refl]).
  pose proof (parseAll_length _ _ Ep) as Hl. destruct ss as [|s [|s2 ss]]; [done| |].
  - destruct parts as [|p2 parts]; [|done]. destruct Hok as [Hok Hu]. destruct (full_refines e W n s Hsim Hok Hn) as (e'&E&Hsim'&Hk&Hfr).
    exists e'. split_and!; [|done|by apply full_sound|done|by intros [? _]%Forall_cons; apply Hfr]. cbn [parseAll] in Ep. unfold mbind, outcome_bind in Ep. unfold executeOne, attempt, lift.
    destruct (Parse p) as [s'| | |]; try done. injection Ep as ->. done.
  - destruct parts as [|p2 parts]; [done|]. set (m := total_cost (s :: s2 :: ss) (rels W)) in *. pose proof (total_cost_nonneg (s :: s2 :: ss) (rels W)) as Hm.
    rewrite bind_get, (statements_control _ _ _ Hok). assert (inTransaction e = false) as -> by (unfold inTransaction; by rewrite (db_tx _ _ _ Hd)). cbn [orb].
    pose proof (total_rows_nonneg (rels W)). fold m in Hm.
    destruct (batch_refines (p :: p2 :: parts) (s :: s2 :: ss) e (rels W) n m (n - (2 * m + 2 * total_rows (rels W))) Ep Hd Hok) as (e'&E&Hd'&(l&->&Hlen)); [lia|lia| |].
    { intros name R HR. split; [by eapply HD|]. pose proof (total_rows_bound _ _ _ HR). lia. }
    exists (set_tabs l e). rewrite E. assert (sound (spec_batch (s :: s2 :: ss) (rels W)).2) as HD'.
    { unfold spec_batch. pose proof (all_sound (s :: s2 :: ss) empty_result m (rels W) HD Hok) as Ha.
      by destruct (spec_all _ _ _) as [[[r [err|]]|x| |] D1]. }
    destruct (spec_batch (s :: s2 :: ss) (rels W)) as [x D]. cbn [fst snd] in *. split_and!; [done| |done|apply framed_files; by exists l|intros _; by exists l]. split; [done|done|done|lia].
Qed.

Fixpoint execute_requests (inputs : list bytes) (e : Executor) : list answer * Executor :=
  match inputs with
  | [] => ([], e)
  | i :: inputs => let '(x, e) := Execute i e in let '(l, e) := execute_requests inputs e in (x :: l, e)
  end.

Lemma requests_refine inputs e W n :
  sql_sim e W n -> sound (rels W) -> admissible_requests inputs n W ->
  exists e' n', execute_requests inputs e = ((spec_requests inputs W).1, e') /\ sql_sim e' (spec_requests inputs W).2 n' /\
    sound (rels (spec_requests inputs W).2) /\ files_kept e e'.
Proof.
  revert e W n. induction inputs as [|i inputs IH]; intros e W n Hsim HD Hok; cbn [execute_requests spec_requests admissible_requests] in *; [exists e, n; split_and!; [done..|apply files_kept_refl]|].
  destruct Hok as [Hi His]. pose proof (requests_room _ _ _ His).
  destruct (request_refines e W n i Hsim HD Hi) as (e1&E1&Hsim1&HD1&Hk1&_); [lia|]. rewrite E1. destruct (spec_request i W) as [x W1]. cbn [fst snd] in *.
  destruct (IH e1 W1 _ Hsim1 HD1 His) as (e2&n2&E2&Hsim2&HD2&Hk2). rewrite E2. exists e2, n2.
  destruct (spec_requests inputs W1). cbn [fst snd] in *. split_and!; [done..|by eapply files_kept_trans].
Qed.

(** A new executor without tables. *)
Lemma sql_sim_new c ts n : 0 <= n < 2 ^ 32 - 2 -> sql_sim (NewExecutorWithCatalog [] ∅ c ts) (MkSql ∅ c ts) n.
Proof. intros Hn. split; try done. split; try done. intros name. cbn. rewrite !lookup_empty. constructor. Qed.
End requests.

(** C5: the executor answers text as the specification of SQL does: from an empty
    database, sequences of requests outside a transaction get the specified answers,
    and the tables stand for the specified relations. A request is one statement of
    any kind, or several statements that read and write rows, which are all or
    nothing, or malformed or empty text. Conditions ([admissible_requests]): no
    [BEGIN]; a request of several statements has no [CREATE], [DROP], [ALTER],
    [COMMIT] or [ROLLBACK] (the code does not undo schema changes); rows written, and
    rows that [ALTER TABLE] converts, are as in C4; [ALTER TABLE] leaves no two rows
    equal in a [UNIQUE] column; the records stay below 2^32. *)
Theorem requests_refine_database `{Codec : IndexCodec} `{Fmt : Formats} `{Text : GoText} `{Syn : GoSyntax} `{Json : JsonCodec} `{Order : MapOrder} {Laws : MapOrderLaws}
  (inputs : list bytes) (c : option Catalog) (ts : list bytes) (n : Z) (Hn : n < 2 ^ 32 - 2) (Hok : admissible_requests inputs n (MkSql ∅ c ts)) :
  exists e' n', execute_requests inputs (NewExecutorWithCatalog [] ∅ c ts) = ((spec_requests inputs (MkSql ∅ c ts)).1, e') /\
    sql_sim e' (spec_requests inputs (MkSql ∅ c ts)).2 n'.
Proof.
  pose proof (requests_room _ _ _ Hok). destruct (requests_refine inputs (NewExecutorWithCatalog [] ∅ c ts) (MkSql ∅ c ts) n) as (e'&n'&E&Hsim&_).
  - apply sql_sim_new. lia.
  - apply map_Forall_empty.
  - done.
  - by exists e', n'.
Qed.

(** ** Concrete requests *)

Section checking.
Context `{Fmt : Formats} `{Text : GoText} `{Syn : GoSyntax} `{Json : JsonCodec} `{Order : MapOrder}.

Definition unique_b (s : Schema) (T : rowmap) : bool :=
  forallb (fun c => negb (Unique (constraint_of s (cName c))) ||
    forallb (fun x : bytes * Row => forallb (fun y : bytes * Row =>
      bool_decide (x.1 = y.1 \/ field (cName c) x.2 = VNil \/ indexValue (field (cName c) x.2) <> indexValue (field (cName c) y.2))) (map_to_list T)) (map_to_list T))
    (Columns s).
Lemma unique_b_ok s T : unique_b s T = true -> unique_ok s T.
Proof.
  intros Hb c k1 k2 r1 r2 Hc Hu H1 H2 Hk Hn. unfold unique_b in Hb. rewrite forallb_forall in Hb. specialize (Hb c (proj1 (list_elem_of_In _ _) Hc)).
  rewrite Hu in Hb. cbn [negb orb] in Hb. rewrite forallb_forall in Hb.
  specialize (Hb (k1, r1) (proj1 (list_elem_of_In _ _) (proj2 (elem_of_map_to_list T k1 r1) H1))). rewrite forallb_forall in Hb.
  specialize (Hb (k2, r2) (proj1 (list_elem_of_In _ _) (proj2 (elem_of_map_to_list T k2 r2) H2))). apply bool_decide_eq_true_1 in Hb. cbn in Hb.
  by destruct Hb as [?|[?|?]].
Qed.

Definition request_check (input : bytes) (W : sqlstate) : bool :=
  match parseAll (splitStatements input) with
  | Ok [s] => full_check s W && match s with
      | SAlterTable q => match relation_of (atTable q) (rels W) with Ok R => unique_b (altered q R).1 (altered q R).2 | _ => true end
      | _ => true end
  | Ok ss => statements_check ss (total_cost ss (rels W)) (rels W)
  | _ => true
  end.
Lemma request_check_ok input W : request_check input W = true -> admissible_request input W.
Proof.
  unfold request_check, admissible_request. destruct (parseAll _) as [[|s [|s2 ss]]| | |]; try done; try apply statements_check_ok.
  intros [H1 H2]%andb_true_iff. split; [by apply full_check_ok|]. destruct s; try done. cbn [keeps_unique]. intros R ER. rewrite ER in H2. by apply unique_b_ok.
Qed.

Fixpoint requests_check (inputs : list bytes) (n : Z) (W : sqlstate) : bool :=
  match inputs with
  | [] => bool_decide (0 <= n)
  | i :: inputs => request_check i W && requests_check inputs (n - request_cost i W) (spec_request i W).2
  end.
Lemma requests_check_ok inputs n W : requests_check inputs n W = true -> admissible_requests inputs n W.
Proof.
  revert n W. induction inputs as [|i inputs IH]; intros n W; cbn [requests_check admissible_requests]; [apply bool_decide_eq_true_1|].
  intros [Hi His]%andb_true_iff. split; [by apply request_check_ok|by apply IH].
Qed.
End checking.
