(* ===== verification/SqlAccess.v ===== *)
(** * Index scans and generated keys

    A [SELECT] whose condition is an equality on an indexed column reads the rows
    from the index instead of scanning the table: when the literal has the column's
    type, the two agree. An [INSERT] that leaves the key out gets an [id] no row has. *)
From S2P Require Import Prelude OrderedMap Wal Store StoreSpec Value Text RowCodec Table StoreContract StoreReopen TableInv TableProofs TableSpec TableOpen Catalog SqlLex SqlParse SqlEval SqlEvalProofs SqlExec SqlTx SqlSpec.

#[local] Set Default Proof Using "All".

(** ** Decoded rows have values of their columns' types *)

Definition value_of_type (t : Z) (v : value) : Prop :=
  match v with
  | VNil => True
  | VInt _ => t = IntType
  | VString _ => t = StringType
  | VBool _ => t = BoolType
  | VFloat _ => t = FloatType
  | VBytes _ => t = BytesType
  | VTime _ _ => t = TimestampType
  | VParam _ => False
  end.

Definition well_typed (cs : list Column) (r : Row) : Prop :=
  forall c, c ∈ cs -> exists v, r !! cName c = Some v /\ value_of_type (cType c) v.

Lemma bind_Ok {A B} (o : outcome A) (f : A -> outcome B) b : (o ≫= f) = Ok b -> exists a, o = Ok a /\ f a = Ok b.
Proof. destruct o; try done. cbn. eauto. Qed.

Lemma decodeValue_typed c data p ov p' :
  IntType <= cType c <= TimestampType -> decodeValue c data p = Ok (ov, p') -> exists v, ov = Some v /\ value_of_type (cType c) v.
Proof.
  intros Ht. unfold decodeValue. cbn zeta.
  repeat match goal with
  | |- Err _ = Ok _ -> _ => discriminate
  | |- (_ ≫= _) = Ok _ -> _ => let H := fresh in intros (?&_&H)%bind_Ok; revert H
  | |- (if decide _ then _ else _) = Ok _ -> _ => case_decide
  | |- match ?x with _ => _ end = Ok _ -> _ => destruct x
  end; intros [= <- _]; try (eexists; split; [reflexivity|done]).
  exfalso. unfold IntType, StringType, BoolType, FloatType, BytesType, TimestampType in *. lia.
Qed.

Lemma decodeCols_typed s nulls data cs r p r' p' :
  NoDup (cName <$> cs) -> Forall (fun c => IntType <= cType c <= TimestampType) cs ->
  decodeCols s nulls data cs r p = Ok (r', p') ->
  well_typed cs r' /\ (forall k, k ∉ cName <$> cs -> r' !! k = r !! k).
Proof.
  revert r p. induction cs as [|c cs IH]; intros r p Hd Ht E; cbn [decodeCols] in E.
  { injection E as <- <-. split; [|done]. intros c Hc. by apply elem_of_nil in Hc. }
  cbn in Hd. apply NoDup_cons in Hd as [Hn Hd]. apply Forall_cons in Ht as [Hc Ht].
  apply bind_Ok in E as (isnull&_&E).
  assert (exists v p1, value_of_type (cType c) v /\ decodeCols s nulls data cs (<[cName c := v]> r) p1 = Ok (r', p')) as (v&p1&Hv&E1).
  { destruct isnull; [by exists VNil, p|]. apply bind_Ok in E as ([ov p1]&Ev&E). destruct (decodeValue_typed _ _ _ _ _ Hc Ev) as (v&->&Hv). by exists v, p1. }
  destruct (IH _ _ Hd Ht E1) as [H1 H2]. split.
  - intros c' [->|Hin]%elem_of_cons; [|by apply H1]. exists v. rewrite H2 by done. by rewrite lookup_insert_eq.
  - intros k Hk. cbn in Hk. apply not_elem_of_cons in Hk as [Hne Hk]. rewrite H2 by done. by rewrite lookup_insert_ne.
Qed.

Lemma decode_typed s b r : schema_ok s -> decode s b = Ok r -> well_typed (Columns s) r.
Proof.
  intros [Hd Ht]. unfold decode. case_decide; [done|]. intros ([r' p']&E&E')%bind_Ok. case_decide; [done|]. injection E' as <-.
  eapply decodeCols_typed; [exact Hd| |exact E]. eapply Forall_impl; [exact Ht|]. by intros c [_ ?].
Qed.

(** C31: rows are well typed: whatever bytes the store holds, a row that [decode]
    accepts under a valid schema has for every column a value of the column's type or
    NULL. *)
Theorem decoded_well_typed (s : Schema) (data : bytes) (r : Row) (Hs : validate s = Ok tt) (Hd : decode s data = Ok r) : well_typed (Columns s) r.
Proof. by eapply decode_typed; [apply validate_ok|]. Qed.

(** A decoded row by computation. *)
Lemma decode_check (s : Schema) (b : bytes) (r : Row) : match decode s b with Ok r' => bool_decide (r' = r) | _ => false end = true -> decode s b = Ok r.
Proof. destruct (decode s b) as [r'| | |]; try done. intros H. apply bool_decide_eq_true_1 in H. by subst. Qed.

Lemma decoded_well_typed_witness :
  let s := MkSchema [MkCol (of_string "id") IntType; MkCol (of_string "ok") BoolType] ∅ in
  well_typed (Columns s) (list_to_map [(of_string "id", VInt 258); (of_string "ok", VNil)]).
Proof.
  cbn zeta. apply (decoded_well_typed (MkSchema [MkCol (of_string "id") IntType; MkCol (of_string "ok") BoolType] ∅)
    [Byte.x02; Byte.x02; Byte.x01; Byte.x00; Byte.x00; Byte.x00; Byte.x00; Byte.x00; Byte.x00]); [vm_compute; reflexivity|].
  apply decode_check. vm_compute. reflexivity.
Defined.

Section access.
Context `{Fmt : Formats}.
Implicit Types (T : rowmap) (s : Schema) (m : kvs).

Lemma rows_typed s m T k r : schema_ok s -> rows_rep s m T -> T !! k = Some r -> well_typed (Columns s) r.
Proof. intros Hs Hr Hk. destruct (rows_rep_Some _ _ _ _ _ Hr Hk) as (_&b&_&Hd). by eapply decode_typed. Qed.

(** ** Index scans *)

Lemma NoDup_rows s m T (ks : list bytes) : rows_rep s m T -> NoDup ks -> NoDup (omap (fun k => T !! k) ks).
Proof.
  intros Hr. induction 1 as [|k ks Hk _ IH]; [constructor|]. cbn. destruct (T !! k) as [r|] eqn:E; [|done]. constructor; [|done].
  intros (k'&Hin&E')%list_elem_of_omap. destruct (rows_rep_Some _ _ _ _ _ Hr E) as [<- _]. destruct (rows_rep_Some _ _ _ _ _ Hr E') as [<- _]. done.
Qed.

Lemma elem_find_rows s col v T r : col ∈ cName <$> tail (Columns s) ->
  r ∈ find_rows s col v T <-> exists k, T !! k = Some r /\ indexValue (field col r) = indexValue v.
Proof.
  intros Hc. unfold find_rows. rewrite decide_True by done. rewrite list_elem_of_omap. setoid_rewrite elem_of_elements. setoid_rewrite elem_match_keys. split.
  - intros (k&(r'&Hr'&Hi)&Hk). exists k. split; [done|]. congruence.
  - intros (k&Hk&Hi). exists k. split; [|done]. by exists r.
Qed.

(** Types whose values the index and the comparison tell apart alike. *)
Definition discrete (t : Z) : Prop := t = IntType \/ t = StringType \/ t = BoolType.

Lemma discrete_exact t x v : discrete t -> value_of_type t x -> value_of_type t v -> x <> VNil -> v <> VNil -> small x -> small v ->
  compare x v = 0 <-> indexValue x = indexValue v.
Proof.
  intros Ht Hx Hv Hxn Hvn Hsx Hsv. assert (exact x v) as He.
  { destruct x, v; cbn [value_of_type] in Hx, Hv; try done; subst;
      try (exfalso; unfold discrete, IntType, StringType, BoolType, FloatType, BytesType, TimestampType in *; lia). }
  by rewrite (compare_exact _ _ He), (index_exact _ _ He).
Qed.

(** Below a discrete type the equality of a condition is that of the index. *)
Lemma match_exact s m T c v k r :
  schema_ok s -> rows_rep s m T -> c ∈ tail (Columns s) -> discrete (cType c) -> value_of_type (cType c) v -> v <> VNil -> small v ->
  T !! k = Some r -> small (field (cName c) r) ->
  match_ (comparison (cName c) (of_string "=") v) r = true <-> indexValue (field (cName c) r) = indexValue v.
Proof.
  intros Hs Hr Hc Ht Hv Hn Hsv Hk Hsx. assert (c ∈ Columns s) as Hcs by (destruct (Columns s); [done|by right]).
  destruct (rows_typed s m T k r Hs Hr Hk c Hcs) as (x&Hx&Htx). rewrite (field_Some _ _ _ Hx) in *.
  rewrite match_equality. unfold lookup_, lookupColumn. rewrite Hx. cbn [fst]. split.
  - intros (Hxn&_&H). by apply (discrete_exact (cType c)).
  - intros E. assert (x <> VNil) as Hxn by (intros ->; symmetry in E; by apply indexValue_nil in E).
    split_and!; [done|done|]. by apply (discrete_exact (cType c)).
Qed.

Lemma find_scan s m T c v :
  schema_ok s -> sorted_keys m -> rows_rep s m T -> c ∈ tail (Columns s) -> discrete (cType c) -> value_of_type (cType c) v -> v <> VNil -> small v ->
  map_Forall (fun _ r => small (field (cName c) r)) T ->
  find_rows s (cName c) v T ≡ₚ filter (fun r => match_ (comparison (cName c) (of_string "=") v) r = true) (scan_rows T).
Proof.
  intros Hs Hm Hr Hc Ht Hv Hn Hsv HsT. assert (cName c ∈ cName <$> tail (Columns s)) as Hcol by (by apply list_elem_of_fmap_2).
  apply NoDup_Permutation.
  - unfold find_rows. rewrite decide_True by done. eapply NoDup_rows; [exact Hr|]. apply NoDup_elements.
  - apply NoDup_filter. unfold scan_rows. eapply NoDup_rows; [exact Hr|by eapply sorted_dom_NoDup].
  - intros r. rewrite list_elem_of_filter, elem_find_rows, elem_scan_rows by done. split.
    + intros (k&Hk&Hi). split; [|by exists k]. by apply (match_exact s m T c v k r); [..|by apply (HsT k)|].
    + intros [Hw [k Hk]]. exists k. split; [done|]. by apply (match_exact s m T c v k r); [..|by apply (HsT k)|].
Qed.
End access.


(** ** Generated keys *)

Lemma sprint_not_nil z : sprint_int z <> of_string "<nil>".
Proof.
  unfold sprint_int. case_decide; [discriminate|]. intros E.
  destruct (digits_head (S (Z.to_nat (Z.log2 z))) z []) as (d&rest&Hd&E'); [lia|]. unfold decimal in E. rewrite E' in E.
  injection E as E _. apply (f_equal Z_of_byte) in E. unfold digit in E. rewrite Z_of_byte_of_Z, Z.mod_small in E by lia.
  change (Z_of_byte Byte.x3c) with 60 in E. lia.
Qed.

Lemma nextId_loop (col : bytes) (rs : list Row) next :
  1 <= next < 2 ^ 63 -> Forall (fun r : Row => forall i, r !! col = Some (VInt i) -> i < 2 ^ 63 - 1) rs ->
  let id := foldl (fun next r => match r !! col with Some (VInt id) => if decide (id >= next) then i64 (id + 1) else next | _ => next end) next rs in
  1 <= id < 2 ^ 63 /\ next <= id /\ Forall (fun r : Row => forall i, r !! col = Some (VInt i) -> i < id) rs.
Proof.
  intros Hn Hrs. revert next Hn. induction Hrs as [|r rs Hr _ IH]; intros next Hn; cbn zeta; [cbn [foldl]; split_and!; [lia..|constructor]|]. cbn [foldl].
  set (next' := match r !! col with Some (VInt id) => _ | _ => next end).
  assert (1 <= next' < 2 ^ 63 /\ next <= next' /\ forall i, r !! col = Some (VInt i) -> i < next') as (H1&H2&H3).
  { unfold next'. destruct (r !! col) as [[|i| | | | | |]|]; try (split_and!; [lia..|by intros ? [=]]).
    specialize (Hr i eq_refl). case_decide; [rewrite i64_small by lia|]; (split_and!; [lia..|intros ? [= <-]; lia]). }
  destruct (IH next' H1) as (H4&H5&H6). split_and!; [lia..|]. constructor; [|done]. intros i Hi. specialize (H3 i Hi). lia.
Qed.

(** C30: an [INSERT] that leaves out an [INT] key gets an [id] between 1 and 2^63-1
    that no row of the table has, so it never replaces a row, as long as no [id] is
    the largest integer. *)
Theorem insert_fresh_key `{Codec : IndexCodec} `{Fmt : Formats} `{Text : GoText} `{Syn : GoSyntax} `{Json : JsonCodec} `{Order : MapOrder} {Laws : MapOrderLaws}
  (e : Executor) (D : database) (n : Z) (a : nat) (R : relation) (r : Row) (c0 : Column) (cs : list Column)
  (Hd : db_sim e D n) (Hat : table_at e n a R) (Hcols : Columns R.1 = c0 :: cs) (Hint : cType c0 = IntType) (Hnone : r !! cName c0 = None)
  (Hids : map_Forall (fun _ (row : Row) => forall i, row !! cName c0 = Some (VInt i) -> i < 2 ^ 63 - 1) R.2) :
  exists id, 1 <= id < 2 ^ 63 /\ insertKey a R.1 r e = (Ok (VInt id, <[cName c0 := VInt id]> r), e) /\ R.2 !! Sprint (VInt id) = None.
Proof.
  exists (nextId (cName c0) (scan_rows R.2)). destruct (nextId_loop (cName c0) (scan_rows R.2) 1) as (H1&_&H2); [lia| |].
  { apply Forall_forall. intros row [k Hk]%elem_scan_rows. by apply (Hids k row). }
  fold (nextId (cName c0) (scan_rows R.2)) in *. split_and!; [lia|lia| |].
  - rewrite (insertKey_read e D n a R r Hd Hat). unfold spec_insertKey. by rewrite Hcols, Hnone, decide_True.
  - apply eq_None_not_Some. intros [row Hk]. destruct Hat as (tb&st&_&[_ Ht]&Hsc&_).
    pose proof (tr_rows _ _ _ _ Ht) as Hrep. pose proof (tr_schema _ _ _ _ Ht) as Hsch. rewrite Hsc in *.
    destruct (rows_typed R.1 _ _ _ _ Hsch Hrep Hk c0) as (v&Hv&Hty); [rewrite Hcols; by left|].
    destruct (rows_rep_Some _ _ _ _ _ Hrep Hk) as [Ek _]. unfold key_of in Ek. rewrite Hcols, (field_Some _ _ _ Hv) in Ek. rewrite Hint in Hty.
    rewrite Forall_forall in H2. specialize (H2 row (proj2 (elem_scan_rows _ _) (ex_intro _ _ Hk))).
    destruct v as [|i| | | | | |]; try done.
    + symmetry in Ek. by apply sprint_not_nil in Ek.
    + cbn in Ek. apply sprint_int_inj in Ek. specialize (H2 i Hv). lia.
Qed.
