(* ===== verification/SqlExample.v ===== *)
(** * An example database

    One table with two rows, on which the theorems about the executor are applied. *)
From S2P Require Import Prelude OrderedMap BTree Wal Record Store StoreInv StoreProofs StoreSpec Value Text RowCodec Table StoreContract StoreReopen TableInv TableProofs TableSpec TableOpen TableChange Catalog SqlLex SqlParse SqlEval SqlQuery SqlExec SqlTx SqlRollback SqlCommit SqlSpec SqlBatch SqlDiscard SqlSchema SqlScripts SqlAccess.

#[local] Existing Instance AsciiText.
#[local] Existing Instance PlainFormats.
#[local] Existing Instance demo_syntax.
#[local] Existing Instance BitsCodec.
Definition parsed (q : string) : Statement := match Parse (of_string q) with Ok s => s | _ => SBegin end.

(** ** A database with one table *)

Definition two_rows : rowmap := (spec_table people two_people ∅).2.
Definition people_relation : relation := (people, two_rows).
Definition people_db : database := {[of_string "people" := people_relation]}.
Definition one_table (t : Table) : Executor := NewExecutor [(t, of_string "db/people.db")] {[of_string "people" := 0%nat]} [].

(** The rows of [two_people_table], its history forgotten. *)
Lemma example_table :
  exists t st, table_sim store_reads durable t st two_rows /\ tschema t = people /\ len (states st) <= 3 /\ readers st = 0 /\ simulates (tstore t) st.
Proof.
  destruct two_people_table as (t&st&[Hs Ht]&Hsc&Hn&Hr). exists t, st. split_and!; try done. split; [by apply simulates_durable|done].
Qed.

Lemma people_executor : exists t, db_sim (one_table t) people_db 1000 /\ table_at (one_table t) 1000 0 people_relation.
Proof.
  destruct example_table as (t&st&Hts&Hsc&Hn&Hr&Hsim). exists t.
  assert (table_at (one_table t) 1000 0 people_relation) as Hat by (exists t, st; split_and!; [done|done|done|lia]).
  split; [|done]. split; [done| |].
  - intros name. cbn [one_table NewExecutor NewExecutorWithCatalog Tables]. destruct (decide (name = of_string "people")) as [->|Hne].
    + unfold people_db. rewrite !lookup_singleton_eq. by constructor.
    + unfold people_db. rewrite !lookup_singleton_ne by done. constructor.
  - intros n1 n2 a H1 H2. change (Tables (one_table t)) with ({[of_string "people" := 0%nat]} : gmap bytes nat) in H1, H2. apply lookup_singleton_Some in H1 as [<- _], H2 as [<- _]. done.
Qed.

(** ** Schema changes *)

(** The example table with an empty catalog, and two names of temporary files. *)
Definition example_catalog : Catalog := MkCatalog (MkCatFile None None) ∅.
Definition people_sql : sqlstate := MkSql people_db (Some example_catalog) [of_string "/tmp/go-db-table-1"; of_string "/tmp/go-db-table-2"].
Definition people_registered (t : Table) : Executor :=
  NewExecutorWithCatalog [(t, of_string "db/people.db")] {[of_string "people" := 0%nat]} (cat people_sql) (temps people_sql).

Lemma people_sql_sim : exists t, sql_sim (people_registered t) people_sql 1000.
Proof. destruct people_executor as (t&[Htx Htab Hinj]&_). exists t. split; [by split|done|done|lia]. Qed.

Definition schema_statements : list Statement :=
  parsed <$> ["CREATE TABLE pets (name STRING UNIQUE, owner INT REFERENCES people(id))"; "INSERT INTO pets (name, owner) VALUES ('rex', 1)";
              "ALTER TABLE people ADD COLUMN town STRING"; "UPDATE people SET town = 'Bern' WHERE id = 2"; "SELECT * FROM people WHERE town = 'Bern'";
              "SHOW TABLES"; "DROP TABLE pets"; "INSERT INTO pets (name) VALUES ('tim')"; "COMMIT"]%string.

Lemma sql_refines_database_witness :
  exists e e' n', sql_sim e people_sql 1000 /\ execute_run schema_statements e = ((spec_script schema_statements people_sql).1, e') /\
    sql_sim e' (spec_script schema_statements people_sql).2 n'.
Proof.
  destruct people_sql_sim as (t&Hd).
  destruct (sql_refines_database schema_statements (people_registered t) people_sql 1000 Hd) as (e'&n'&E&Hd').
  - apply script_check_ok. vm_compute. reflexivity.
  - exists (people_registered t), e', n'. split; [exact Hd|]. split; [exact E|exact Hd'].
Defined.

(** ** Requests *)

Definition example_requests : list bytes :=
  of_string <$> ["CREATE TABLE t (name STRING UNIQUE)"; "INSERT INTO t (name) VALUES ('a'); INSERT INTO t (name) VALUES ('b')"; "";
                 "DELETE FROM t WHERE id = 1; INSERT INTO t (name) VALUES ('b')"; "SELECT name FROM t ORDER BY name"; "SELEC"; "DROP TABLE t"]%string.
Definition no_tables : sqlstate := MkSql ∅ (Some example_catalog) [of_string "/tmp/go-db-table-1"].

Lemma requests_refine_database_witness :
  exists e' n', execute_requests example_requests (NewExecutorWithCatalog [] ∅ (cat no_tables) (temps no_tables)) = ((spec_requests example_requests no_tables).1, e') /\
    sql_sim e' (spec_requests example_requests no_tables).2 n'.
Proof.
  apply (requests_refine_database example_requests (cat no_tables) (temps no_tables) 1000).
  - lia.
  - apply requests_check_ok. vm_compute. reflexivity.
Defined.

(** ** A batch that fails *)

Definition people_batch : bytes := of_string "DELETE FROM people WHERE id = 1; INSERT INTO people (email, age) VALUES ('bob@x', 5)".
Definition batch_statements : list Statement := match parseAll (splitStatements people_batch) with Ok ss => ss | _ => [] end.

Definition restorable_b (s : Schema) (T : rowmap) : bool :=
  forallb (fun kr : bytes * Row => bool_decide (key_of s kr.2 = kr.1) && is_ok (encode s kr.2) && writable_b s kr.1 kr.2) (map_to_list T).
Lemma restorable_check s T : unique_ok s T -> restorable_b s T = true -> restorable s T.
Proof.
  intros Hu Hb. split; [done|]. intros k r Hk. unfold restorable_b in Hb. rewrite forallb_forall in Hb.
  specialize (Hb (k, r) (proj1 (list_elem_of_In _ _) (proj2 (elem_of_map_to_list T k r) Hk))). cbn [fst snd] in Hb.
  apply andb_true_iff in Hb as [[H1 H2]%andb_true_iff H3]. apply bool_decide_eq_true_1 in H1. split; [done|].
  destruct (encode s r) as [b| | |] eqn:E; try done. exists b. destruct (writable_b_ok s k r H3 b E) as (_&?&?). done.
Qed.

Lemma people_restorable : restorable people two_rows.
Proof. apply restorable_check; [|vm_compute; reflexivity]. apply unique_run. intros c k1 k2 r1 r2 _ _ H1. by rewrite lookup_empty in H1. Qed.

Lemma batch_atomic_witness :
  exists e e', db_sim e people_db 1000 /\
    Execute people_batch e =
      (Ok (empty_result, Some (Errorf "transaction rolled back: %w" [AErr (Errorf "unique constraint failed: %s" [AStr (of_string "email")])])), e') /\
    db_sim e' people_db 900.
Proof.
  destruct people_executor as (t&Hd&_).
  destruct (batch_atomic people_batch batch_statements (one_table t) people_db 1000 10 900) as (e'&He').
  - vm_compute. reflexivity.
  - vm_compute. lia.
  - exact Hd.
  - apply statements_check_ok. vm_compute. reflexivity.
  - lia.
  - lia.
  - intros name R HR. unfold people_db in HR. apply lookup_singleton_Some in HR as [_ <-]. split; [exact people_restorable|]. vm_compute. discriminate.
  - exists (one_table t), e'. split; [exact Hd|].
    assert ((spec_all batch_statements empty_result people_db).1 = Ok (empty_result, Some (Errorf "unique constraint failed: %s" [AStr (of_string "email")]))) as Ea
      by (vm_compute; reflexivity).
    destruct (spec_all batch_statements empty_result people_db) as [a D]. cbn [fst] in Ea. subst a. exact He'.
Defined.

(** ** A transaction that is rolled back *)

Definition discarded : list Statement :=
  parsed <$> ["DELETE FROM people WHERE id = 1"; "INSERT INTO people (email, age) VALUES ('bob@x', 5)"; "UPDATE people SET age = 7"; "SELECT * FROM people"]%string.

Lemma rollback_discards_witness :
  exists e e1 e3, db_sim e people_db 1000 /\ executeStatement SBegin e = (Ok (empty_result, None), e1) /\ inTransaction e1 = true /\
    executeStatement SRollback (foldl (fun e s => (executeStatement s e).2) e1 discarded) = (Ok (empty_result, None), e3) /\ db_sim e3 people_db 900.
Proof.
  destruct people_executor as (t&Hd&_).
  destruct (rollback_discards discarded (one_table t) people_db 1000 900 Hd) as (e1&E1&Hin&e3&E3&Hd3).
  - repeat constructor; vm_compute; reflexivity.
  - lia.
  - intros name R HR. unfold people_db in HR. apply lookup_singleton_Some in HR as [_ <-]. split; [exact people_restorable|]. vm_compute. discriminate.
  - exists (one_table t), e1, e3. split; [exact Hd|]. split; [exact E1|]. split; [exact Hin|]. split; [exact E3|exact Hd3].
Defined.

(** ** A transaction that ends *)

(** The example table inside a transaction that has written two rows, with the
    snapshot of the store as it is. *)
Definition example_tx (t : Table) : transaction :=
  MkTx 1 0 true [MkTxTable 0 (seq (tstore t)) (scan_rows two_rows) {[of_string "3" := WriteRow 0; of_string "1" := WriteDeleted]}].
Definition example_heap : list Row := [person 3 "cy@x" (VInt 5)].
Definition in_example_tx (t : Table) : Executor := set_rowHeap example_heap (set_tx (Some (example_tx t)) (one_table t)).

Lemma example_resettable t st e :
  table_sim store_reads durable t st two_rows -> tschema t = people -> len (states st) <= 3 -> readers st = 0 -> tabs e = [t] ->
  each_table (resettable (fun _ => people_relation) 0) (txTables (example_tx t)) e.
Proof.
  intros Hts Hsc Hn Hr He. apply Forall_singleton. exists t. rewrite He. split; [reflexivity|]. exists st, two_rows.
  split; [exact Hts|]. split; [exact Hsc|]. split; [exact people_restorable|]. split; [reflexivity|].
  assert (Z.of_nat (base.size two_rows) = 2) as E by (vm_compute; reflexivity). cbn [people_relation snd]. rewrite E. lia.
Qed.

Lemma rollback_resets_witness :
  exists t e', rollback (in_example_tx t) = (Ok empty_result, e') /\ tx e' = None /\ same_elsewhere (txTables (example_tx t)) (in_example_tx t) e' /\
    each_table (fun st tb => Scan tb = (Ok (tsRollback st), tb)) (txTables (example_tx t)) e'.
Proof.
  destruct example_table as (t&st&Hts&Hsc&Hn&Hr&Hsim). exists t.
  apply (rollback_resets (fun _ => people_relation) (in_example_tx t) (example_tx t)).
  - reflexivity.
  - apply NoDup_singleton.
  - exact (example_resettable t st (in_example_tx t) Hts Hsc Hn Hr eq_refl).
Defined.

(** Nothing is newer than the store's own sequence number. *)
Lemma unchanged_now (s : Store) (st : spec_state) (key : bytes) : simulates s st -> Store.ChangedSince (seq s) key s = false.
Proof.
  intros (ps&segs&Hse&_). unfold Store.ChangedSince. destruct (last _) as [v|] eqn:E; [|done]. apply bool_decide_eq_false_2.
  pose proof (h_range _ _ (se_hist _ _ _ _ _ Hse) key v). apply last_Some_elem_of in E. specialize (H E). lia.
Qed.

Lemma storable_live s key r : is_ok (encode s r) && writable_b s key r = true -> storable s key (MkTxRow r false).
Proof.
  intros [H1 H2]%andb_true_iff. destruct (encode s r) as [b| | |] eqn:E; try done. destruct (writable_b_ok s key r H2 b E) as (?&?&?).
  split; [done|]. by exists b.
Qed.

Lemma example_committable t st :
  table_sim store_reads durable t st two_rows -> tschema t = people -> len (states st) <= 3 -> readers st = 0 ->
  each_table (committable (fun _ => two_rows) example_heap) (txTables (example_tx t)) (in_example_tx t).
Proof.
  intros Hts Hsc Hn Hr. apply Forall_singleton. exists t. split; [reflexivity|]. exists st.
  split; [split; [apply Hts|apply (tr_rows _ _ _ _ (proj2 Hts))]|]. rewrite Hsc. cbn [tsWrites]. split.
  - intros key w Hw. apply lookup_insert_Some in Hw as [[<- <-]|[_ Hw]].
    + apply storable_live. vm_compute. reflexivity.
    + apply lookup_singleton_Some in Hw as [<- <-]. apply (bool_decide_eq_true_1 (fits _)). vm_compute. reflexivity.
  - assert (Z.of_nat (base.size ({[of_string "3" := WriteRow 0; of_string "1" := WriteDeleted]} : gmap bytes transactionWrite)) = 2) as E by (vm_compute; reflexivity).
    rewrite E. lia.
Qed.

Lemma commit_applies_witness :
  exists t e', commit (in_example_tx t) = (Ok empty_result, e') /\ tx e' = None /\ same_elsewhere (txTables (example_tx t)) (in_example_tx t) e' /\
    each_table (fun st tb => Scan tb = (Ok (scan_rows (result_rows (fun _ => two_rows) example_heap st)), tb)) (txTables (example_tx t)) e'.
Proof.
  destruct example_table as (t&st&Hts&Hsc&Hn&Hr&Hsim). exists t.
  apply (commit_applies (fun _ => two_rows) (in_example_tx t) (example_tx t)).
  - reflexivity.
  - apply NoDup_singleton.
  - exact (example_committable t st Hts Hsc Hn Hr).
  - apply Forall_singleton. intros key w _ tb Htb. cbn in Htb. injection Htb as <-. eapply unchanged_now. exact Hsim.
Defined.

(** ** The index and the keys *)


Definition ids_below_b (col : bytes) (T : rowmap) : bool :=
  forallb (fun kr : bytes * Row => match kr.2 !! col with Some (VInt i) => bool_decide (i < 2 ^ 63 - 1) | _ => true end) (map_to_list T).
Lemma ids_below_check (col : bytes) (T : rowmap) : ids_below_b col T = true -> map_Forall (fun _ (r : Row) => forall i, r !! col = Some (VInt i) -> i < 2 ^ 63 - 1) T.
Proof.
  unfold ids_below_b. rewrite forallb_forall. intros Hb k r Hk i Hi.
  specialize (Hb (k, r) (proj1 (list_elem_of_In _ _) (proj2 (elem_of_map_to_list T k r) Hk))). cbn [snd] in Hb. rewrite Hi in Hb. by apply bool_decide_eq_true_1 in Hb.
Qed.

Lemma insert_fresh_key_witness :
  exists t id, db_sim (one_table t) people_db 1000 /\ 1 <= id < 2 ^ 63 /\
    insertKey 0 people ∅ (one_table t) = (Ok (VInt id, {[of_string "id" := VInt id]}), one_table t) /\ two_rows !! Sprint (VInt id) = None.
Proof.
  destruct people_executor as (t&Hd&Hat). exists t.
  destruct (insert_fresh_key (one_table t) people_db 1000 0 people_relation ∅ (MkCol (of_string "id") IntType) (tail (Columns people)) Hd Hat) as (id&H1&H2&H3).
  - reflexivity.
  - reflexivity.
  - apply lookup_empty.
  - apply ids_below_check. vm_compute. reflexivity.
  - exists id. split; [exact Hd|]. split; [exact H1|]. split; [exact H2|exact H3].
Defined.
