(* ===== verification/SqlRuns.v ===== *)
(** * Runs of the executor

    Scripts: transactions for the theorems on them, and what transactions, the index
    and generated keys do at their limits. *)
From S2P Require Import Prelude OrderedMap BTree Wal Record Store StoreInv StoreProofs StoreSpec Value Text RowCodec Table StoreContract TableInv TableProofs TableSpec TableOpen TableChange Catalog SqlLex SqlParse SqlEval SqlQuery SqlExec SqlTx SqlRollback SqlCommit SqlSpec SqlBatch SqlAccess SqlExample.

#[local] Existing Instance AsciiText.
#[local] Existing Instance PlainFormats.
#[local] Existing Instance demo_syntax.

Definition fresh_db : Executor := NewExecutor [] ∅ (of_string <$> ["/tmp/go-db-table-1"; "/tmp/go-db-table-2"]%string).
Definition script (l : list string) (e : Executor) : Executor := foldl (fun e q => (Execute (of_string q) e).2) e l.

(** ** Transactions that were begun by the executor *)

Definition tx_of (e : Executor) : transaction := default (MkTx 0 0 false []) (tx e).
Definition state_of (e : Executor) : transactionTableState := default (MkTxTable 0 0 [] ∅) (head (txTables (tx_of e))).

Definition before_tx : list string :=
  ["CREATE TABLE people (name STRING UNIQUE, age INT)"; "INSERT INTO people (name, age) VALUES ('ann', 30)";
   "INSERT INTO people (name, age) VALUES ('bob', 20)"; "BEGIN"]%string.
Definition in_tx : list string :=
  ["INSERT INTO people (name, age) VALUES ('cy', 5)"; "UPDATE people SET age = 6 WHERE name = 'cy'";
   "DELETE FROM people WHERE name = 'ann'"; "SELECT * FROM people"]%string.

Lemma transaction_isolated_witness :
  let e := script before_tx fresh_db in
  let e' := foldl (fun e s => (executeStatement s e).2) e (parsed <$> in_tx) in
  inTransaction e = true /\ tabs e' = tabs e /\ inTransaction e' = true.
Proof.
  cbn zeta. split; [vm_compute; reflexivity|]. apply (transaction_isolated (parsed <$> in_tx) (script before_tx fresh_db)).
  - vm_compute. reflexivity.
  - repeat constructor; vm_compute; reflexivity.
Defined.

(** A fact about the first table, by computation. *)
Definition first_table (check : Table -> bool) (e : Executor) : bool := match tabs e with t :: _ => check t | [] => false end.
Lemma first_table_ok check e : first_table check e = true -> exists t, tabs e !! 0%nat = Some t /\ check t = true.
Proof. unfold first_table. destruct (tabs e) as [|t ts]; [done|]. by exists t. Qed.

Definition tx_db : Executor := script (before_tx ++ in_tx) fresh_db.
Definition snapshot_rows : list Row :=
  match tabs tx_db with t :: _ => match ScanAt (readAt (state_of tx_db)) t with Ok rs => rs | _ => [] end | [] => [] end.

Lemma read_own_writes_witness :
  length snapshot_rows = 2%nat /\
  exists t out, tabs tx_db !! 0%nat = Some t /\ rows 0 tx_db = (Ok out, tx_db) /\
    out ≡ₚ (Fresh <$> filter (fun r => tsWrites (state_of tx_db) !! key_of (tschema t) r = None) snapshot_rows) ++
           omap (fun kw => pendingRow kw.2) (map_to_list (tsWrites (state_of tx_db))).
Proof.
  split; [vm_compute; reflexivity|].
  destruct (first_table_ok (fun t => is_result snapshot_rows (ScanAt (readAt (state_of tx_db)) t) && bool_decide (Columns (tschema t) <> []) &&
    bool_decide (NoDup (key_of (tschema t) <$> snapshot_rows))) tx_db) as (t&Ht&Hc); [vm_compute; reflexivity|].
  apply andb_true_iff in Hc as [[H1 H2]%andb_true_iff H3]. exists t.
  destruct (read_own_writes tx_db (tx_of tx_db) 0 0 (state_of tx_db) t snapshot_rows) as (out&E&Hp).
  - vm_compute. reflexivity.
  - vm_compute. reflexivity.
  - exact Ht.
  - by apply is_result_eq.
  - by apply bool_decide_eq_true_1 in H2.
  - by apply bool_decide_eq_true_1 in H3.
  - exists out. split; [exact Ht|]. split; [exact E|exact Hp].
Defined.

(** Another session writes a row that the transaction has written too. *)
Definition interfere (l : list string) (e : Executor) : Executor := set_tx (tx e) (script l (set_tx None e)).
Definition conflict_db : Executor := interfere ["UPDATE people SET age = 31 WHERE name = 'ann'"]%string tx_db.

Lemma commit_conflict_witness :
  exists key' st', st' ∈ txTables (tx_of conflict_db) /\ conflicting conflict_db st' key' /\ commit conflict_db = (Err (conflict_error key'), conflict_db).
Proof.
  destruct (first_table_ok (Table.ChangedSince (readAt (state_of conflict_db)) (of_string "1")) conflict_db) as (t&Ht&Hc); [vm_compute; reflexivity|].
  assert (txTables (tx_of conflict_db) = [state_of conflict_db]) as Hts by (vm_compute; reflexivity).
  assert (tsTable (state_of conflict_db) = 0%nat) as Ha by (vm_compute; reflexivity).
  assert (bool_decide (is_Some (tsWrites (state_of conflict_db) !! of_string "1")) = true) as Hw by (vm_compute; reflexivity).
  apply (commit_conflict conflict_db (tx_of conflict_db) (state_of conflict_db) (of_string "1")).
  - vm_compute. reflexivity.
  - unfold tables_exist. rewrite Hts. apply Forall_singleton. rewrite Ha. by exists t.
  - rewrite Hts. by left.
  - split; [by apply bool_decide_eq_true_1 in Hw|]. exists t. rewrite Ha. by split.
Defined.

(** ** Limits *)

(** What a client sees of each request: the rows and the count, or that it failed. *)
Definition outcome_seen (o : outcome (Result * option error)) : option (list Row * Z) :=
  match o with Ok (r, None) => Some (resRows r, Affected r) | _ => None end.
Fixpoint transcript (l : list string) (e : Executor) : list (option (list Row * Z)) :=
  match l with
  | [] => []
  | q :: l => let '(o, e) := Execute (of_string q) e in outcome_seen o :: transcript l e
  end.

Definition done_ (n : Z) : option (list Row * Z) := Some ([], n).
Definition found (rs : list Row) : option (list Row * Z) := Some (rs, 0).
Definition col (n : string) (v : value) : Row := {[of_string n := v]}.
Definition str (s : string) : value := VString (of_string s).

(** transactions do not check [UNIQUE]: two rows with the same unique value are
    inserted in a transaction and committed; and rows committed by a transaction are
    missing from the index that later equality queries use. *)
Theorem transaction_skips_checks :
  transcript ["CREATE TABLE t (name STRING UNIQUE)"; "BEGIN"; "INSERT INTO t (name) VALUES ('a')"; "INSERT INTO t (name) VALUES ('a')"; "COMMIT";
              "SELECT name FROM t"; "SELECT name FROM t WHERE name = 'a'"; "INSERT INTO t (name) VALUES ('a')"]%string fresh_db =
  [done_ 1; done_ 0; done_ 1; done_ 1; done_ 0; found [col "name" (str "a"); col "name" (str "a")]; found []; None].
Proof. apply (bool_decide_eq_true_1 _). vm_compute. reflexivity. Qed.

(** the index scan and the full scan disagree when the literal does not have the
    column's type: an [INT] literal is compared with a [FLOAT] column as a number, but
    looked up in its index as an [int]. *)
Theorem index_misses_numbers :
  transcript ["CREATE TABLE t (score FLOAT)"; "INSERT INTO t (score) VALUES (1)"; "SELECT id FROM t WHERE score >= 1"; "SELECT id FROM t WHERE score = 1";
              "SELECT id FROM t WHERE score = 1 AND id = 1"]%string fresh_db =
  [done_ 1; done_ 1; found [col "id" (VInt 1)]; found []; found [col "id" (VInt 1)]].
Proof. apply (bool_decide_eq_true_1 _). vm_compute. reflexivity. Qed.

(** after the largest integer has been used as an [id], generated keys wrap to the
    smallest one, and every further [INSERT] replaces the row before it. *)
Theorem id_overflow_replaces :
  transcript ["CREATE TABLE t (name STRING)"; "INSERT INTO t (id, name) VALUES (9223372036854775807, 'a')"; "INSERT INTO t (name) VALUES ('b')";
              "INSERT INTO t (name) VALUES ('c')"; "SELECT name FROM t"]%string fresh_db =
  [done_ 1; done_ 1; done_ 1; done_ 1; found [col "name" (str "c"); col "name" (str "a")]].
Proof. apply (bool_decide_eq_true_1 _). vm_compute. reflexivity. Qed.

(** foreign keys are only checked by [INSERT]: [UPDATE] sets a reference to a row
    that does not exist, and [DELETE] removes rows that are referred to. *)
Theorem references_only_on_insert :
  transcript ["CREATE TABLE t (name STRING)"; "CREATE TABLE u (tid INT REFERENCES t(id))"; "INSERT INTO t (name) VALUES ('a')"; "INSERT INTO u (tid) VALUES (2)";
              "INSERT INTO u (tid) VALUES (1)"; "DELETE FROM t"; "UPDATE u SET tid = 7"; "SELECT tid FROM u"]%string fresh_db =
  [done_ 1; done_ 1; done_ 1; None; done_ 1; done_ 1; done_ 1; found [col "tid" (VInt 7)]].
Proof. apply (bool_decide_eq_true_1 _). vm_compute. reflexivity. Qed.

(** a table created inside a transaction is no part of it: what is written to it
    before [COMMIT] is reported as written and lost. *)
Theorem created_in_transaction_lost :
  transcript ["BEGIN"; "CREATE TABLE t (name STRING)"; "INSERT INTO t (name) VALUES ('a')"; "SELECT name FROM t"; "COMMIT"; "SELECT name FROM t"]%string fresh_db =
  [done_ 0; done_ 1; done_ 1; found []; done_ 0; found []].
Proof. apply (bool_decide_eq_true_1 _). vm_compute. reflexivity. Qed.

(** types are not checked inside a transaction: [COMMIT] finds the wrong value and
    fails, and the transaction stays open. *)
Theorem commit_refuses_types :
  transcript ["CREATE TABLE t (n INT)"; "BEGIN"; "INSERT INTO t (n) VALUES ('x')"; "COMMIT"; "BEGIN"; "ROLLBACK"; "SELECT n FROM t"]%string fresh_db =
  [done_ 1; done_ 0; done_ 1; None; None; done_ 0; found []].
Proof. apply (bool_decide_eq_true_1 _). vm_compute. reflexivity. Qed.

(** a request of several statements undoes its rows when one fails, but not its
    schema changes: the table it dropped stays dropped, the one it created stays. *)
Theorem batch_keeps_schema :
  transcript ["CREATE TABLE t (name STRING)"; "DROP TABLE t; SELECT name FROM nowhere"; "SELECT name FROM t";
              "CREATE TABLE u (name STRING); SELECT name FROM nowhere"; "SELECT name FROM u"]%string fresh_db =
  [done_ 1; None; None; None; found []].
Proof. apply (bool_decide_eq_true_1 _). vm_compute. reflexivity. Qed.

(** a table dropped inside a transaction has its file closed, and [ROLLBACK] and
    [COMMIT] still write to it: both fail, again and again, and the transaction stays
    open. *)
Theorem dropped_in_transaction_stuck :
  transcript ["CREATE TABLE t (name STRING)"; "INSERT INTO t (name) VALUES ('a')"; "BEGIN"; "INSERT INTO t (name) VALUES ('b')"; "DROP TABLE t";
              "ROLLBACK"; "COMMIT"; "ROLLBACK"; "BEGIN"]%string fresh_db =
  [done_ 1; done_ 1; done_ 0; done_ 1; done_ 1; None; None; None; None].
Proof. apply (bool_decide_eq_true_1 _). vm_compute. reflexivity. Qed.

(** a transaction that changes a row's key twice commits both keys with the same
    row, because the pending rows share the row object. *)
Theorem pending_rows_shared :
  transcript ["CREATE TABLE t (name STRING)"; "INSERT INTO t (name) VALUES ('a')"; "BEGIN"; "UPDATE t SET id = 5"; "UPDATE t SET id = 6 WHERE id = 5"; "COMMIT";
              "SELECT id FROM t"]%string fresh_db =
  [done_ 1; done_ 1; done_ 0; done_ 1; done_ 1; done_ 0; found [col "id" (VInt 1); col "id" (VInt 6); col "id" (VInt 6)]].
Proof. apply (bool_decide_eq_true_1 _). vm_compute. reflexivity. Qed.
