(* ===== verification/Server.v ===== *)
(** * The TCP server ([src/server/server.go])

    Every connection has its own executor over the shared tables: its own
    transaction and no catalog. Requests are executed one at a time under the
    server's mutex, and connections interleave between requests. An event is a line
    that a connection sends, or its end. The decoding of JSON, SHA-256 and the network
    are parameters or left out: a line that is written is kept as the response whose
    JSON it is, or [None] for the empty line that is written when [json.Marshal]
    fails. *)
From Stdlib Require Import SpecFloat.
From S2P Require Import Prelude Wal Store StoreSpec Value Text RowCodec Table Catalog SqlLex SqlParse SqlEval SqlExec.

(** [encoding/json] on the two request types; whether [time.Time.MarshalJSON] accepts
    an instant (its year has four digits); [crypto/sha256]. *)
Class GoNet := {
  json_auth : bytes -> outcome (bytes * bytes);
  json_request : bytes -> outcome bytes;
  json_time : Z -> bytes -> bool;
  Sum256 : bytes -> bytes
}.

(** ** Lines of a connection ([bufio.Scanner]) *)

Definition maxLine : Z := 2 ^ 20.
Definition dropCR (b : bytes) : bytes := match last b with Some Byte.x0d => removelast b | _ => b end.

(** A line and its newline must fit the buffer; the scanner stops at the first one
    that does not. *)
Fixpoint scanLines (cur data : bytes) : list bytes :=
  match data with
  | [] => if decide (cur = []) then [] else if decide (len cur < maxLine) then [dropCR cur] else []
  | b :: data =>
      if decide (b = Byte.x0a) then if decide (len cur < maxLine) then dropCR cur :: scanLines [] data else []
      else scanLines (cur ++ [b]) data
  end.

(** ** State *)

Record Response := MkResp { OK : bool; rColumns : list bytes; rRows : list Row; rAffected : Z; rError : option error }.

Definition resp_ok : Response := MkResp true [] [] 0 None.
Definition resp_error (err : error) : Response := MkResp false [] [] 0 (Some err).
Definition resp_result (r : Result) : Response := MkResp true (resColumns r) (resRows r) (Affected r) None.

(** The response to what [Execute] returns. *)
Definition reply (x : Result * option error) : Response := match x with (r, None) => resp_result r | (_, Some err) => resp_error err end.

(** [json.Marshal] reports an error for a float that is infinite or not a number, and
    where [MarshalJSON] of a time does. *)
Definition json_value `{Net : GoNet} (v : value) : bool :=
  match v with
  | VFloat f => match spec_of_bits f with S754_infinity _ | S754_nan => false | _ => true end
  | VTime t loc => json_time t loc
  | _ => true
  end.
Definition marshals `{Net : GoNet} (r : Response) : bool :=
  forallb (fun row : Row => forallb (fun kv : bytes * value => json_value kv.2) (map_to_list row)) (rRows r).

(** [s.write]: the error of [json.Marshal] is ignored, and its result is then empty. *)
Definition write `{Net : GoNet} (r : Response) : option Response := if marshals r then Some r else None.

(** [Stuck]: the connection waits for ever. [cOut]: the lines written to it. *)
Inductive phase := Login | Serving | Closed | Stuck.
Record Conn := MkConn { cPhase : phase; cTx : option transaction; cOut : list (option Response) }.

(** [world]: the server's executor, whose tables all connections share. [mu]: the
    mutex is held. [crashed]: a panic has ended the process. *)
Record Server := MkServer {
  world : Executor; Username : bytes; passwordHash : bytes; mu : bool; crashed : bool; conns : gmap nat Conn }.

Definition set_world (w : Executor) (s : Server) : Server := MkServer w (Username s) (passwordHash s) (mu s) (crashed s) (conns s).
Definition set_mu (b : bool) (s : Server) : Server := MkServer (world s) (Username s) (passwordHash s) b (crashed s) (conns s).
Definition set_crashed (b : bool) (s : Server) : Server := MkServer (world s) (Username s) (passwordHash s) (mu s) b (conns s).
Definition set_conn (i : nat) (c : Conn) (s : Server) : Server :=
  MkServer (world s) (Username s) (passwordHash s) (mu s) (crashed s) (<[i:=c]> (conns s)).

Section server.
Context `{Codec : IndexCodec} `{Fmt : Formats} `{Text : GoText} `{Syn : GoSyntax} `{Json : JsonCodec} `{Order : MapOrder} `{Net : GoNet}.

Definition New (executor : option Executor) : outcome Server :=
  match executor with
  | None => Err (Errorf "nil executor" [])
  | Some e => Ok (MkServer e [] [] false false ∅)
  end.

Definition NewWithAuth (executor : option Executor) (username password : bytes) : outcome Server :=
  if decide (username = [] \/ password = []) then Err (Errorf "authentication credentials are required" [])
  else s ← New executor; Ok (MkServer (world s) username (Sum256 password) (mu s) (crashed s) (conns s)).

(** [go s.handle(conn)]: the connection starts. *)
Definition accept (i : nat) (s : Server) : Server :=
  set_conn i (MkConn (if decide (Username s = []) then Serving else Login) None []) s.

(** The connection's executor: the shared tables, its transaction, no catalog. *)
Definition in_session {A} (m : exec A) (x : option transaction) (w : Executor) : outcome A * option transaction * Executor :=
  let '(o, e) := m (set_catalog None (set_tx x w)) in
  (o, tx e, set_catalog (catalog w) (set_tx (tx w) e)).

Definition say (r : Response) (c : Conn) : Conn := MkConn (cPhase c) (cTx c) (cOut c ++ [write r]).

(** What can happen to an event: it is handled, or it waits for the mutex. *)
Definition step_result := option Server.

(** The deferred functions of [handle], last first: an open transaction is rolled
    back under the mutex, then the connection is closed. *)
Definition close_conn (i : nat) (c : Conn) (s : Server) : step_result :=
  match cTx c with
  | None => Some (set_conn i (MkConn Closed None (cOut c)) s)
  | Some _ =>
      if mu s then None
      else
        let '(o, x, w) := in_session (Execute (of_string "ROLLBACK")) (cTx c) (world s) in
        match o with
        | Ok _ | Err _ => Some (set_conn i (MkConn Closed x (cOut c)) (set_world w s))
        | _ => Some (set_crashed true (set_mu true (set_world w s)))
        end
  end.

Definition authenticates (s : Server) (line : bytes) : bool :=
  match json_auth (TrimSpace line) with
  | Ok (user, password) => bool_decide (user = Username s) && bool_decide (Sum256 password = passwordHash s)
  | _ => false
  end.

(** The query of a line: plain SQL, or the field of a JSON object. *)
Definition request_query (line : bytes) : outcome bytes :=
  if HasPrefix line (of_string "{") then json_request line else Ok line.

(** A query under the mutex. A panic leaves the mutex held; the deferred rollback of
    an open transaction then waits for it for ever, and without one the panic ends
    the process. *)
Definition serve_query (i : nat) (c : Conn) (query : bytes) (s : Server) : step_result :=
  if mu s then None
  else
    let '(o, x, w) := in_session (Execute query) (cTx c) (world s) in
    let c := MkConn (cPhase c) x (cOut c) in
    let s := set_world w s in
    match o with
    | Ok x => Some (set_conn i (say (reply x) c) s)
    | Err err => Some (set_conn i (say (resp_error err) c) s)
    | Panic | NoFuel =>
        let s := set_mu true s in
        Some (match x with Some _ => set_conn i (MkConn Stuck x (cOut c)) s | None => set_crashed true s end)
    end.

Definition serve_line (i : nat) (c : Conn) (line : bytes) (s : Server) : step_result :=
  let line := TrimSpace line in
  if decide (line = []) then Some s
  else
    match request_query line with
    | Ok query =>
        if decide (TrimSpace query = []) then Some (set_conn i (say (resp_error (Errorf "query is required" [])) c) s)
        else serve_query i c query s
    | Err err => Some (set_conn i (say (resp_error err) c) s)
    | _ => Some (set_crashed true s)
    end.

(** The first line of a connection when the server has a user. *)
Definition login_line (i : nat) (c : Conn) (line : bytes) (s : Server) : step_result :=
  if authenticates s line then Some (set_conn i (say resp_ok (MkConn Serving (cTx c) (cOut c))) s)
  else close_conn i (say (resp_error (Errorf "authentication failed" [])) c) s.

(** An event of connection [i]: a line, or [None] when its input ends. *)
Definition deliver (i : nat) (ev : option bytes) (s : Server) : step_result :=
  if crashed s then None
  else
    match conns s !! i with
    | None => None
    | Some c =>
        match cPhase c, ev with
        | Closed, _ => Some s
        | Stuck, _ => None
        | Login, Some line => login_line i c line s
        | Serving, Some line => serve_line i c line s
        | _, None => close_conn i c s
        end
    end.

(** Events of all connections in the order in which they are handled. *)
Fixpoint deliver_all (evs : list (nat * option bytes)) (s : Server) : step_result :=
  match evs with
  | [] => Some s
  | (i, ev) :: evs => s ← deliver i ev s; deliver_all evs s
  end.

(** One connection on its own, from its first byte to its end. *)
Definition handle (i : nat) (input : bytes) (s : Server) : step_result :=
  deliver_all ((fun l => (i, Some l)) <$> scanLines [] input) (accept i s) ≫= deliver i None.
End server.
