(* ===== verification/ServerProofs.v ===== *)
(** * Properties of the server *)
From S2P Require Import Prelude Wal Store StoreSpec Value Text RowCodec Table TableProofs Catalog SqlLex SqlParse SqlPrint SqlRoundTrip SqlEval SqlRequest SqlExec SqlTx SqlRollback Server.

(** ** Lines *)

Lemma scanLines_line (l rest cur : bytes) :
  Byte.x0a ∉ l -> len (cur ++ l) < maxLine -> scanLines cur (l ++ Byte.x0a :: rest) = dropCR (cur ++ l) :: scanLines [] rest.
Proof.
  revert cur. induction l as [|b l IH]; intros cur Hn Hl; cbn [app scanLines].
  - rewrite app_nil_r in *. by rewrite decide_True, decide_True.
  - apply not_elem_of_cons in Hn as [Hb Hn]. rewrite decide_False by congruence. rewrite IH by (done || by rewrite <- app_assoc). by rewrite <- app_assoc.
Qed.

(** A line that arrives as it was sent. *)
Definition plain_line (l : bytes) : Prop := Byte.x0a ∉ l /\ last l <> Some Byte.x0d /\ len l < maxLine.

Lemma dropCR_plain l : last l <> Some Byte.x0d -> dropCR l = l.
Proof. unfold dropCR. destruct (last l) as [[]|]; congruence. Qed.

(** lines that a client sends, each ended by a newline, arrive one by one as they
    were sent. *)
Theorem lines_roundtrip (ls : list bytes) (Hls : Forall plain_line ls) : scanLines [] (concat ((fun l => l ++ [Byte.x0a]) <$> ls)) = ls.
Proof.
  induction Hls as [|l ls (Hn&Hcr&Hl) _ IH]; [done|]. cbn [fmap list_fmap concat]. rewrite <- app_assoc. cbn [app].
  rewrite scanLines_line by done. cbn [app]. rewrite dropCR_plain by done. by f_equal.
Qed.

Lemma lines_roundtrip_witness :
  scanLines [] (of_string "BEGIN" ++ [Byte.x0a] ++ of_string "COMMIT" ++ [Byte.x0a]) = [of_string "BEGIN"; of_string "COMMIT"].
Proof.
  apply (lines_roundtrip [of_string "BEGIN"; of_string "COMMIT"]).
  repeat constructor; try (apply (bool_decide_unpack _); vm_compute; exact I); vm_compute; discriminate.
Defined.

(** A line that does not carry the credentials. *)
Definition wrong_credentials `{Text : GoText} `{Net : GoNet} (user password line : bytes) : Prop :=
  forall u p, json_auth (TrimSpace line) = Ok (u, p) -> ~ (u = user /\ Sum256 p = Sum256 password).

Section server.
Context `{Codec : IndexCodec} `{Fmt : Formats} `{Text : GoText} `{Syn : GoSyntax} `{Json : JsonCodec} `{Order : MapOrder} `{Net : GoNet}.
Implicit Types (s : Server) (c : Conn) (i : nat).

(** ** Authentication *)

Definition failed : option Response := Some (resp_error (Errorf "authentication failed" [])).

(** A connection that has not logged in: nothing answered, or turned away. *)
Definition outside c : Prop :=
  cTx c = None /\ ((cPhase c = Login /\ cOut c = []) \/ (cPhase c = Closed /\ (cOut c = [] \/ cOut c = [failed]))).

Definition rejected s (ev : nat * option bytes) : Prop :=
  is_Some (conns s !! ev.1) /\ match ev.2 with Some line => authenticates s line = false | None => True end.

Lemma wrong_not_authenticated e user password cs line :
  wrong_credentials user password line -> authenticates (MkServer e user (Sum256 password) false false cs) line = false.
Proof using Type.
  intros Hw. unfold authenticates. cbn [Username passwordHash]. destruct (json_auth (TrimSpace line)) as [[u p]| | |] eqn:E; try done.
  specialize (Hw u p E). apply not_true_is_false. intros [H1 H2]%andb_true_iff. apply bool_decide_eq_true_1 in H1, H2. by apply Hw.
Qed.

Lemma deliver_outside s ev :
  crashed s = false -> map_Forall (fun _ c => outside c) (conns s) -> rejected s ev ->
  exists c', deliver ev.1 ev.2 s = Some (set_conn ev.1 c' s) /\ outside c'.
Proof using Type.
  intros Hcr Hout [[c Hc] Hev]. unfold deliver. rewrite Hcr, Hc. destruct (Hout _ _ Hc) as (Htx&[[Hp Ho]|[Hp Ho]]); rewrite Hp.
  - destruct (ev.2) as [line|].
    + unfold login_line, close_conn. rewrite Hev. cbn [cTx say]. rewrite Htx. eexists. split; [reflexivity|]. split; [done|]. right. split; [done|].
      right. cbn. by rewrite Ho.
    + unfold close_conn. rewrite Htx. eexists. split; [reflexivity|]. split; [done|]. right. split; [done|]. by left.
  - exists c. split; [|split; [done|by right]]. destruct s. unfold set_conn. cbn in *. by rewrite insert_id.
Qed.

Lemma locked_out evs s :
  crashed s = false -> map_Forall (fun _ c => outside c) (conns s) -> Forall (rejected s) evs ->
  exists s', deliver_all evs s = Some s' /\ world s' = world s /\ map_Forall (fun _ c => outside c) (conns s').
Proof using Type.
  revert s. induction evs as [|ev evs IH]; intros s Hcr Hout Hev; [by exists s|]. apply Forall_cons in Hev as [He Hev].
  destruct (deliver_outside s ev Hcr Hout He) as (c'&E&Hc'). destruct ev as [i ev]. cbn [deliver_all]. cbn [fst snd] in E. rewrite E. cbn [mbind option_bind].
  destruct (IH (set_conn i c' s)) as (s'&E'&Hw&Ho); [done| | |by exists s'].
  - intros j c Hj. cbn in Hj. apply lookup_insert_Some in Hj as [[_ <-]|[_ Hj]]; [done|by eapply Hout].
  - eapply Forall_impl; [exact Hev|]. intros [j ev'] [Hs Ha]. split; [|done]. cbn. rewrite lookup_insert. by case_decide.
Qed.

(** [n] clients connect. *)
Fixpoint accept_all (n : nat) s : Server := match n with 0%nat => s | S n => accept n (accept_all n s) end.

Lemma accept_all_spec n s : Username s <> [] -> conns s = ∅ ->
  exists cs, accept_all n s = MkServer (world s) (Username s) (passwordHash s) (mu s) (crashed s) cs /\
    forall i, cs !! i = if decide (i < n)%nat then Some (MkConn Login None []) else None.
Proof using Type.
  intros Hu Hc. induction n as [|n (cs&E&IH)]; cbn [accept_all].
  - exists ∅. split; [destruct s; cbn in *; by subst|]. intros i. rewrite lookup_empty. by rewrite decide_False by lia.
  - rewrite E. unfold accept, set_conn. cbn. rewrite decide_False by done. eexists. split; [reflexivity|]. intros i.
    destruct (decide (i = n)) as [->|Hne]; [rewrite lookup_insert_eq; by rewrite decide_True by lia|].
    rewrite lookup_insert_ne, IH by done. repeat case_decide; try done; lia.
Qed.

(** ** Requests inside a transaction *)

Lemma quiet_executeOne p (s : Statement) : Parse p = Ok s -> data_statement s = true -> quiet (executeOne p).
Proof using Type. intros Ep Hs. unfold executeOne, attempt, lift. rewrite Ep. intros e He. by apply (quiet_statement s Hs e). Qed.

Lemma quiet_executeAll parts ss out : parseAll parts = Ok ss -> Forall (fun s : Statement => data_statement s = true) ss -> quiet (executeAll parts out).
Proof using Type.
  revert ss out. induction parts as [|p parts IH]; intros ss out Hp Hss; [done|]. cbn [parseAll] in Hp. unfold mbind, outcome_bind in Hp.
  destruct (Parse p) as [s| | |] eqn:Ep; try done. destruct (parseAll parts) as [ss'| | |]; try done. injection Hp as <-.
  apply Forall_cons in Hss as [Hs Hss]. cbn [executeAll]. apply quiet_bind; [by eapply quiet_executeOne|]. intros [r [err|]]; [done|]. by eapply IH.
Qed.

Lemma quiet_Execute input ss : parseAll (splitStatements input) = Ok ss -> Forall (fun s : Statement => data_statement s = true) ss -> quiet (Execute input).
Proof using Type.
  intros Hp Hss e He. unfold Execute. pose proof (quiet_executeAll _ ss empty_result Hp Hss e He) as Hall.
  destruct (splitStatements input) as [|p parts]; [done|]. unfold attempt, lift. rewrite Hp. destruct parts as [|p2 parts].
  - cbn [parseAll] in Hp. unfold mbind, outcome_bind in Hp. destruct (Parse p) as [s| | |] eqn:Ep; try done. injection Hp as <-.
    apply Forall_cons in Hss as [Hs _]. by apply (quiet_executeOne p s).
  - rewrite bind_get, He. exact Hall.
Qed.

(** The query of a line that a serving connection sends. *)
Definition asks (line query : bytes) : Prop :=
  TrimSpace line <> [] /\ request_query (TrimSpace line) = Ok query /\ TrimSpace query <> [].
End server.

(** C34: a server with a user does nothing for clients that do not know the password:
    whatever lines any number of connections send, in any interleaving, if none of
    them is the right credentials then every event is handled, no table, transaction
    or catalog changes, and all they ever get is one refusal each. *)
Theorem auth_gate `{Codec : IndexCodec} `{Fmt : Formats} `{Text : GoText} `{Syn : GoSyntax} `{Json : JsonCodec} `{Order : MapOrder} `{Net : GoNet}
  (e : Executor) (user password : bytes) (n : nat) (evs : list (nat * option bytes)) (s : Server)
  (Hnew : NewWithAuth (Some e) user password = Ok s)
  (Hevs : Forall (fun ev => (ev.1 < n)%nat /\ match ev.2 with Some line => wrong_credentials user password line | None => True end) evs) :
  exists s', deliver_all evs (accept_all n s) = Some s' /\ world s' = e /\
    map_Forall (fun _ c => cTx c = None /\ cPhase c <> Serving /\ (cOut c = [] \/ cOut c = [failed])) (conns s').
Proof.
  unfold NewWithAuth in Hnew. case_decide as Hu; [done|]. cbn in Hnew. injection Hnew as <-.
  destruct (accept_all_spec n (MkServer e user (Sum256 password) false false ∅)) as (cs&E&Hcs); [cbn; tauto|done|]. rewrite E. cbn.
  destruct (locked_out evs (MkServer e user (Sum256 password) false false cs)) as (s'&E'&Hw&Ho); [done| | |].
  - intros i c Hc. cbn in Hc. rewrite Hcs in Hc. case_decide; [|done]. injection Hc as <-. split; [done|by left].
  - eapply Forall_impl; [exact Hevs|]. intros [i ev] [Hi Ha]. split; [cbn in *; rewrite Hcs, decide_True by done; by eexists|].
    cbn [snd] in *. destruct ev as [line|]; [|done]. by apply wrong_not_authenticated.
  - exists s'. split_and!; [done|done|]. eapply map_Forall_impl; [exact Ho|]. intros i c (Htx&[[Hp Hc]|[Hp Hc]]); rewrite Hp; split_and!; (done || by left).
Qed.

(** C35: transactions of different connections are isolated: while a connection is in
    a transaction, a request of it that reads and writes rows changes no table that
    the others see, and the connection stays in its transaction. *)
Theorem connections_isolated `{Codec : IndexCodec} `{Fmt : Formats} `{Text : GoText} `{Syn : GoSyntax} `{Json : JsonCodec} `{Order : MapOrder} `{Net : GoNet}
  (s : Server) (i : nat) (c : Conn) (line query : bytes) (ss : list Statement)
  (Hrun : crashed s = false /\ mu s = false) (Hc : conns s !! i = Some c) (Hp : cPhase c = Serving) (Htx : is_Some (cTx c)) (Hask : asks line query)
  (Hparse : parseAll (splitStatements query) = Ok ss) (Hss : Forall (fun s : Statement => data_statement s = true) ss) :
  exists s' c', deliver i (Some line) s = Some s' /\ conns s' = <[i:=c']> (conns s) /\ is_Some (cTx c') /\ tabs (world s') = tabs (world s).
Proof.
  destruct Hrun as [Hcr Hmu], Hask as (H1&H2&H3). unfold deliver. rewrite Hcr, Hc, Hp. unfold serve_line. rewrite decide_False, H2, decide_False by done.
  unfold serve_query. rewrite Hmu. unfold in_session.
  destruct (quiet_Execute query ss Hparse Hss (set_catalog None (set_tx (cTx c) (world s)))) as [[= Ht _ _] Hin].
  { destruct Htx as [x Hx]. cbn. unfold inTransaction. cbn. by rewrite Hx. }
  destruct (Execute query _) as [o e']. cbn [snd] in *. assert (is_Some (tx e')) as [x Hx] by (unfold inTransaction in Hin; by destruct (tx e')).
  rewrite Hx. destruct o as [x1|err| |]; (eexists; eexists; split; [reflexivity|]; split_and!; [reflexivity|by eexists|exact Ht]).
Qed.

(** What a serving connection is answered to a line that is not blank. *)
Definition answer_to `{Codec : IndexCodec} `{Fmt : Formats} `{Text : GoText} `{Syn : GoSyntax} `{Json : JsonCodec} `{Order : MapOrder} `{Net : GoNet}
  (s : Server) (c : Conn) (line : bytes) : Response :=
  match request_query (TrimSpace line) with
  | Ok query =>
      if decide (TrimSpace query = []) then resp_error (Errorf "query is required" [])
      else match (in_session (Execute query) (cTx c) (world s)).1.1 with
           | Ok x => reply x
           | Err err => resp_error err
           | Panic | NoFuel => resp_ok
           end
  | Err err => resp_error err
  | Panic | NoFuel => resp_ok
  end.

(** C36: a line of a serving connection that is not blank, when the mutex is free and
    neither JSON decoding nor the executor panics on it, is answered by exactly one
    line, and the mutex is free again and no other connection is touched. The line is
    the JSON of the result or of the error; but when a row of the result holds a value
    that JSON cannot express (an infinite float or NaN, a time out of range) it is
    empty, since the server ignores the error of [json.Marshal]. *)
Theorem requests_answered `{Codec : IndexCodec} `{Fmt : Formats} `{Text : GoText} `{Syn : GoSyntax} `{Json : JsonCodec} `{Order : MapOrder} `{Net : GoNet}
  (s : Server) (i : nat) (c : Conn) (line : bytes)
  (Hrun : crashed s = false /\ mu s = false) (Hc : conns s !! i = Some c) (Hp : cPhase c = Serving) (Hline : TrimSpace line <> [])
  (Hjson : ok_or_err (request_query (TrimSpace line)))
  (Hexec : forall query, request_query (TrimSpace line) = Ok query -> ok_or_err (in_session (Execute query) (cTx c) (world s)).1.1) :
  exists s' c', deliver i (Some line) s = Some s' /\ conns s' = <[i:=c']> (conns s) /\ cPhase c' = Serving /\ mu s' = false /\ crashed s' = false /\
    cOut c' = cOut c ++ [if marshals (answer_to s c line) then Some (answer_to s c line) else None].
Proof.
  destruct Hrun as [Hcr Hmu]. unfold deliver, answer_to. rewrite Hcr, Hc, Hp. unfold serve_line. rewrite decide_False by done.
  destruct (request_query (TrimSpace line)) as [query|err| |]; try done.
  - specialize (Hexec query eq_refl). case_decide; [eexists _, _; by split_and!|]. unfold serve_query. rewrite Hmu.
    destruct (in_session (Execute query) (cTx c) (world s)) as [[[x|err| |] tx'] w]; try done; (eexists _, _; by split_and!).
  - eexists _, _; by split_and!.
Qed.

(** ** The end of a connection *)

Section closing.
Context `{Codec : IndexCodec} `{Fmt : Formats} `{Text : GoText} {Laws : GoTextLaws} `{Syn : GoSyntax} `{Json : JsonCodec} `{Order : MapOrder} `{Net : GoNet}.

Lemma Execute_rollback e : Execute (of_string "ROLLBACK") e = plain rollback e.
Proof using Laws.
  assert (Parse (of_string "ROLLBACK") = Ok SRollback) as Ep.
  { unfold Parse. assert (Lex (of_string "ROLLBACK") = Ok [MkToken (wordType (of_string "ROLLBACK")) (of_string "ROLLBACK"); MkToken EOFToken []]) as -> by reflexivity.
    cbn [mbind outcome_bind]. change [MkToken (wordType _) _; _] with (printStatement SRollback ++ [eof]). by rewrite parse_print. }
  assert (splitStatements (of_string "ROLLBACK") = [of_string "ROLLBACK"]) as Es.
  { unfold splitStatements. change (of_string "ROLLBACK") with (Join [of_string "ROLLBACK"] (of_string ";")) at 1. rewrite splitStatements_join; [done| |done].
    repeat constructor; [|discriminate]. rewrite TrimSpace_ascii; [done|]. apply (bool_decide_unpack _). vm_compute. exact I. }
  unfold Execute. rewrite Es. unfold attempt, lift. cbn [parseAll]. rewrite Ep. cbn [mbind outcome_bind]. unfold executeOne, attempt, lift. by rewrite Ep.
Qed.

Lemma close_rolls_back (img : nat -> Schema * TableInv.rowmap) (s : Server) (i : nat) (c : Conn) (x : transaction) :
  mu s = false -> cTx c = Some x -> NoDup (tsTable <$> txTables x) -> each_table (resettable img 0) (txTables x) (world s) ->
  exists s', close_conn i c s = Some s' /\ conns s' = <[i := MkConn Closed None (cOut c)]> (conns s) /\ mu s' = false /\
    same_elsewhere (txTables x) (world s) (world s') /\ each_table (fun st tb => Scan tb = (Ok (tsRollback st), tb)) (txTables x) (world s').
Proof using Laws.
  intros Hmu Hx Hdup Hreset. unfold close_conn. rewrite Hx, Hmu. unfold in_session. rewrite Execute_rollback. unfold plain, attempt.
  destruct (rollback_spec img 0 ltac:(done) (set_catalog None (set_tx (Some x) (world s))) x eq_refl Hdup Hreset) as (tabs'&->&Hs&Hr).
  eexists. split; [reflexivity|]. split_and!; try done. by eapply (reset_scans img 0 ltac:(done) (txTables x) (world s)).
Qed.
End closing.

(** when a client goes away inside a transaction, the server rolls it back: the
    connection is closed without a transaction, the mutex is free, and every table of
    the transaction holds exactly the rows it had at [BEGIN]. *)
Theorem disconnect_rolls_back `{Codec : IndexCodec} `{Fmt : Formats} `{Text : GoText} {Laws : GoTextLaws} `{Syn : GoSyntax} `{Json : JsonCodec} `{Order : MapOrder} `{Net : GoNet}
  (img : nat -> Schema * TableInv.rowmap) (s : Server) (i : nat) (c : Conn) (x : transaction)
  (Hrun : crashed s = false /\ mu s = false) (Hc : conns s !! i = Some c) (Hp : cPhase c = Serving) (Htx : cTx c = Some x)
  (Hdup : NoDup (tsTable <$> txTables x)) (Hreset : each_table (resettable img 0) (txTables x) (world s)) :
  exists s', deliver i None s = Some s' /\ conns s' !! i = Some (MkConn Closed None (cOut c)) /\ mu s' = false /\
    same_elsewhere (txTables x) (world s) (world s') /\ each_table (fun st tb => Scan tb = (Ok (tsRollback st), tb)) (txTables x) (world s').
Proof.
  destruct Hrun as [Hcr Hmu]. destruct (close_rolls_back img s i c x Hmu Htx Hdup Hreset) as (s'&E&Hcs&Hm&Hs&Hr).
  exists s'. unfold deliver. rewrite Hcr, Hc, Hp, Hcs, lookup_insert_eq. by split_and!.
Qed.

(** A request that panics keeps the mutex: from then on no query of any connection
    is answered. *)
Lemma held_mutex_blocks `{Codec : IndexCodec} `{Fmt : Formats} `{Text : GoText} `{Syn : GoSyntax} `{Json : JsonCodec} `{Order : MapOrder} `{Net : GoNet}
  (s : Server) (i : nat) (c : Conn) (line query : bytes)
  (Hmu : mu s = true) (Hc : conns s !! i = Some c) (Hp : cPhase c = Serving) (Hask : asks line query) : deliver i (Some line) s = None.
Proof.
  destruct Hask as (H1&H2&H3). unfold deliver. rewrite Hc, Hp. destruct (crashed s); [done|]. unfold serve_line.
  rewrite decide_False, H2, decide_False by done. unfold serve_query. by rewrite Hmu.
Qed.
