(* ===== verification/ServerSpec.v ===== *)
(** * What the server promises

    The server as its clients see it: one relational database behind all connections,
    and for every connection whether it has logged in and the responses it was given.
    Each line is one step of this specification, in the order in which the lines are
    handled, whatever connections they come from. Connections that open a
    transaction are the subject of [ServerProofs]. *)
From S2P Require Import Prelude OrderedMap BTree Wal Record Store StoreProofs StoreSpec Value Text RowCodec Table StoreContract StoreReopen TableInv TableProofs TableSpec TableOpen TableChange Catalog SqlLex SqlParse SqlEval SqlExec SqlTx SqlRollback SqlSpec SqlBatch SqlSchema SqlScripts Server.

Record service := MkService { sv_conns : gmap nat Conn; sv_data : sqlstate }.

(** ** The specification *)

Section specification.
Context `{Fmt : Formats} `{Text : GoText} `{Syn : GoSyntax} `{Json : JsonCodec} `{Order : MapOrder} `{Net : GoNet}.
Implicit Types (C : gmap nat Conn) (W : sqlstate) (V : service) (line : bytes).

(** The answer of the executor as the client reads it. *)
Definition response (x : answer) : Response :=
  match x with Ok x => reply x | Err err => resp_error err | _ => resp_ok end.

(** The query that a line asks for. *)
Definition line_query line : option (outcome bytes) :=
  let l := TrimSpace line in
  if decide (l = []) then None
  else Some (query ← request_query l; if decide (TrimSpace query = []) then Err (Errorf "query is required" []) else Ok query).

(** A line of a client that is served: nothing is said to a blank line. *)
Definition spec_line line W : list (option Response) * sqlstate :=
  match line_query line with
  | None => ([], W)
  | Some (Ok query) => let '(x, W) := spec_request query W in ([write (response x)], W)
  | Some (Err err) => ([write (resp_error err)], W)
  | Some _ => ([], W)
  end.

Definition answered (out : list (option Response)) (c : Conn) : Conn := MkConn (cPhase c) (cTx c) (cOut c ++ out).

(** [opens line]: the line carries the credentials. *)
Definition spec_event (opens : bytes -> bool) (ev : nat * option bytes) V : service :=
  match sv_conns V !! ev.1 with
  | None => V
  | Some c =>
      let with_conn c W := MkService (<[ev.1 := c]> (sv_conns V)) W in
      match cPhase c, ev.2 with
      | Login, Some line =>
          with_conn (if opens line then MkConn Serving None (cOut c ++ [write resp_ok])
                     else MkConn Closed None (cOut c ++ [write (resp_error (Errorf "authentication failed" []))])) (sv_data V)
      | Serving, Some line => let '(out, W) := spec_line line (sv_data V) in with_conn (answered out c) W
      | Closed, _ | Stuck, _ => V
      | _, None => with_conn (MkConn Closed None (cOut c)) (sv_data V)
      end
  end.
Definition spec_events (opens : bytes -> bool) (evs : list (nat * option bytes)) V : service := foldl (fun V ev => spec_event opens ev V) V evs.

(** What a line asks for, when its connection is served. *)
Definition asked (ev : nat * option bytes) V : option bytes :=
  match cPhase <$> sv_conns V !! ev.1, ev.2 with
  | Some Serving, Some line => match line_query line with Some (Ok query) => Some query | _ => None end
  | _, _ => None
  end.

(** The connection is there, its JSON is decoded or rejected, and what it asks for is
    specified: it does not begin a transaction and does not panic. *)
Definition admissible_event (ev : nat * option bytes) V : Prop :=
  is_Some (sv_conns V !! ev.1) /\
  match ev.2 with Some line => ok_or_err (request_query (TrimSpace line)) | None => True end /\
  match asked ev V with Some query => admissible_request query (sv_data V) /\ ok_or_err (spec_request query (sv_data V)).1 | None => True end.
(** No schema is changed. *)
Definition data_event (ev : nat * option bytes) V : Prop := match asked ev V with Some query => data_request query | None => True end.
Definition event_cost (ev : nat * option bytes) V : Z := match asked ev V with Some query => request_cost query (sv_data V) | None => 0 end.

Fixpoint admissible_events (opens : bytes -> bool) (evs : list (nat * option bytes)) (n : Z) V : Prop :=
  match evs with
  | [] => 0 <= n
  | ev :: evs => admissible_event ev V /\ admissible_events opens evs (n - event_cost ev V) (spec_event opens ev V)
  end.

Lemma event_cost_nonneg ev V : 0 <= event_cost ev V.
Proof using Type. unfold event_cost. destruct (asked ev V); [apply request_cost_nonneg|done]. Qed.
Lemma events_room opens evs n V : admissible_events opens evs n V -> 0 <= n.
Proof using Type.
  revert n V. induction evs as [|ev evs IH]; intros n V; cbn [admissible_events]; [done|]. intros [_ H]. apply IH in H.
  pose proof (event_cost_nonneg ev V). lia.
Qed.
End specification.

(** ** The refinement *)

Section refinement.
Context `{Codec : IndexCodec} `{Fmt : Formats} `{Text : GoText} `{Syn : GoSyntax} `{Json : JsonCodec} `{Order : MapOrder} {Laws : MapOrderLaws} `{Net : GoNet}.
Implicit Types (s : Server) (V : service) (n : Z) (c : Conn) (i : nat).
#[local] Set Default Proof Using "All".

(** A connection's executor: the shared tables without a catalog. *)
Definition session (w : Executor) : Executor := set_catalog None (set_tx None w).

Record server_sim s V n : Prop := {
  sv_sql : sql_sim (session (world s)) (sv_data V) n;
  sv_sound : sound (rels (sv_data V));
  sv_same : conns s = sv_conns V;
  sv_idle : map_Forall (fun _ c => cTx c = None /\ cPhase c <> Stuck) (sv_conns V);
  sv_free : mu s = false /\ crashed s = false }.

(** Only the world and the connections change. *)
Definition same_server s s' : Prop := Username s' = Username s /\ passwordHash s' = passwordHash s /\ mu s' = mu s /\ crashed s' = crashed s.

Lemma same_authenticates s s' line : same_server s s' -> authenticates s' line = authenticates s line.
Proof using Type. intros (H1&H2&_). unfold authenticates. by rewrite H1, H2. Qed.

(** A query of a connection without a transaction. *)
Lemma session_refines (w : Executor) (W : sqlstate) n query :
  sql_sim (session w) W n -> sound (rels W) -> admissible_request query W -> request_cost query W <= n ->
  exists w', in_session (Execute query) None w = ((spec_request query W).1, None, w') /\
    sql_sim (session w') (spec_request query W).2 (n - request_cost query W) /\ sound (rels (spec_request query W).2) /\
    (data_request query -> framed w w').
Proof.
  intros Hsim HD Hok Hn. destruct (request_refines (session w) W n query Hsim HD Hok Hn) as (e&E&Hs&HD'&_&Hfr). unfold in_session.
  change (set_catalog None (set_tx None w)) with (session w). rewrite E. pose proof (db_tx _ _ _ (ss_db _ _ _ Hs)) as Htx. rewrite Htx.
  eexists. split; [reflexivity|]. split; [|split; [done|]].
  2: { intros Hdata. destruct (Hfr Hdata) as (l&->&Hl). exists l. split; [by destruct w|done]. }
  assert (catalog e = None) as Hc.
  { rewrite (ss_catalog _ _ _ Hs). apply (spec_request_catalog query W). by rewrite <- (ss_catalog _ _ _ Hsim). }
  assert (session (set_catalog (catalog w) (set_tx (tx w) e)) = e) as ->; [|done]. unfold session. destruct e; cbn in *. by subst.
Qed.

(** The connection's state and the data after an event. *)
Lemma sim_conn s V n i c c' :
  server_sim s V n -> sv_conns V !! i = Some c -> cTx c' = None -> cPhase c' <> Stuck ->
  server_sim (set_conn i c' s) (MkService (<[i := c']> (sv_conns V)) (sv_data V)) n.
Proof using Type.
  intros [Hsql HD Hsame Hidle Hfree] Hc Htx Hp. split; [exact Hsql|exact HD| | |exact Hfree]; cbn; [by rewrite Hsame|].
  by apply map_Forall_insert_2.
Qed.

Lemma sim_answered s V n i c out :
  server_sim s V n -> sv_conns V !! i = Some c -> server_sim (set_conn i (answered out c) s) (MkService (<[i := answered out c]> (sv_conns V)) (sv_data V)) n.
Proof using Type. intros Hs Hc. destruct (sv_idle _ _ _ Hs _ _ Hc) as [Htx Hp]. by eapply sim_conn. Qed.

Lemma serve_line_refines s V n i c line :
  server_sim s V n -> sv_conns V !! i = Some c -> cPhase c = Serving -> admissible_event (i, Some line) V -> event_cost (i, Some line) V <= n ->
  exists s', serve_line i c line s = Some s' /\ same_server s s' /\
    server_sim s' (MkService (<[i := answered (spec_line line (sv_data V)).1 c]> (sv_conns V)) (spec_line line (sv_data V)).2) (n - event_cost (i, Some line) V) /\
    (data_event (i, Some line) V -> framed (world s) (world s')).
Proof.
  intros Hs Hc Hp (_&Hj&Hq) Hn. pose proof Hs as [Hsql HD Hsame Hidle [Hmu Hcr]]. destruct (Hidle _ _ Hc) as [Htx _].
  unfold event_cost, data_event, asked in *. cbn [fst snd] in *. rewrite Hc in *. cbn [fmap option_fmap option_map] in *. rewrite Hp in *.
  unfold spec_line, serve_line, line_query in *. destruct (decide (TrimSpace line = [])) as [Hl|Hl].
  { exists s. rewrite Z.sub_0_r. cbn [fst snd]. unfold answered. rewrite app_nil_r. split_and!; [done|by split_and!| |intros _; apply framed_refl].
    destruct c as [p x out]. cbn in *. rewrite insert_id by done. by destruct V. }
  destruct (request_query (TrimSpace line)) as [query|err| |]; try done; cbn [mbind outcome_bind] in *.
  2: { eexists. rewrite Z.sub_0_r. split_and!; [reflexivity|by split_and!| |intros _; apply framed_refl]. by apply (sim_answered s V n i c). }
  destruct (decide (TrimSpace query = [])) as [Hb|Hb].
  { eexists. rewrite Z.sub_0_r. split_and!; [reflexivity|by split_and!| |intros _; apply framed_refl]. by apply (sim_answered s V n i c). }
  destruct Hq as [Hq Ho]. destruct (session_refines (world s) (sv_data V) n query Hsql HD Hq Hn) as (w'&E&Hsql'&HD'&Hfr).
  unfold serve_query. rewrite Hmu, Htx, E. destruct (spec_request query (sv_data V)) as [x W']. cbn [fst snd] in *.
  assert (server_sim (set_world w' s) (MkService (sv_conns V) W') (n - request_cost query (sv_data V))) as Hs' by (by split).
  assert (forall r, say r (MkConn (cPhase c) None (cOut c)) = answered [write r] c) as Hsay by (intros r; unfold say, answered; by rewrite Htx).
  destruct x as [x|err| |]; try done; rewrite Hsay; (eexists; split; [reflexivity|]; split; [by split_and!|]; split; [|exact Hfr]); by apply (sim_answered _ (MkService (sv_conns V) W')).
Qed.

Lemma deliver_refines opens s V n (ev : nat * option bytes) :
  (forall line, authenticates s line = opens line) -> server_sim s V n -> admissible_event ev V -> event_cost ev V <= n ->
  exists s', deliver ev.1 ev.2 s = Some s' /\ same_server s s' /\ server_sim s' (spec_event opens ev V) (n - event_cost ev V) /\
    (data_event ev V -> framed (world s) (world s')).
Proof.
  intros Hop Hs Hok Hn. destruct ev as [i ev]. pose proof Hok as ([c Hc]&_). cbn [fst snd] in *. pose proof Hs as [_ _ Hsame Hidle [Hmu Hcr]]. destruct (Hidle _ _ Hc) as [Htx Hp].
  unfold deliver, spec_event. cbn [fst snd]. rewrite Hcr, Hsame, Hc. assert ((exists line, cPhase c = Serving /\ ev = Some line) \/ (cPhase c <> Serving \/ ev = None)) as [(line&Hsrv&->)|Hns]
    by (destruct (cPhase c), ev; naive_solver).
  { rewrite Hsrv. destruct (serve_line_refines s V n i c line Hs Hc Hsrv Hok Hn) as (s'&E&Hss&Hs'&Hfr). exists s'. split; [done|]. split; [done|]. split; [|done].
    by destruct (spec_line line (sv_data V)). }
  assert (event_cost (i, ev) V = 0) as ->.
  { unfold event_cost, asked. cbn [fst snd]. rewrite Hc. cbn [fmap option_fmap option_map]. destruct (cPhase c), ev as [line|]; try done. naive_solver. }
  rewrite Z.sub_0_r. unfold login_line, close_conn. cbn [cTx say]. rewrite Htx.
  destruct (cPhase c), ev as [line|]; try done; rewrite ?Hop; try naive_solver; try (exists s; split_and!; [done|by split_and!|done|intros _; apply framed_refl]);
    try destruct (opens line); (eexists; split; [reflexivity|]; split; [by split_and!|]; split; [by apply (sim_conn _ _ _ _ c)|intros _; apply framed_refl]).
Qed.

Lemma events_refine opens evs s V n :
  (forall line, authenticates s line = opens line) -> server_sim s V n -> admissible_events opens evs n V ->
  exists s' n', deliver_all evs s = Some s' /\ server_sim s' (spec_events opens evs V) n'.
Proof.
  revert s V n. induction evs as [|[i ev] evs IH]; intros s V n Hop Hs Hok; [by exists s, n|]. cbn [admissible_events] in Hok. destruct Hok as [He Hes].
  pose proof (events_room _ _ _ _ Hes). destruct (deliver_refines opens s V n (i, ev) Hop Hs He) as (s1&E&Hss&Hs1&_); [lia|].
  cbn [deliver_all fst snd] in *. rewrite E. cbn [mbind option_bind]. apply (IH s1 _ _) with (2 := Hs1); [|done].
  intros line. by rewrite (same_authenticates s s1).
Qed.
End refinement.

(** C3: the server is a linearisable database: whatever connections the lines come
    from, every event is handled, and each connection has been told exactly what the
    specification says when the requests are taken one at a time in the order in which
    they were handled: results, errors of SQL, of JSON and of blank queries, the
    answer to its login, and an empty line where the result has no JSON. Conditions
    ([admissible_events]): the lines come from connections that exist; no request
    opens a transaction; no schema change is sent together with another statement;
    neither JSON decoding nor the executor panics (as on [LIMIT ?]); the rows written,
    and those that an [ALTER TABLE] makes, read back as written; [ALTER TABLE] keeps a
    column, the keys and the [UNIQUE] columns; the records stay below 2^32. *)
Theorem server_refines_database `{Codec : IndexCodec} `{Fmt : Formats} `{Text : GoText} `{Syn : GoSyntax} `{Json : JsonCodec} `{Order : MapOrder} {Laws : MapOrderLaws} `{Net : GoNet}
  (evs : list (nat * option bytes)) (s : Server) (V : service) (n : Z)
  (Hs : server_sim s V n) (Hok : admissible_events (authenticates s) evs n V) :
  exists s' n', deliver_all evs s = Some s' /\ conns s' = sv_conns (spec_events (authenticates s) evs V) /\
    server_sim s' (spec_events (authenticates s) evs V) n'.
Proof.
  destruct (events_refine (authenticates s) evs s V n (fun _ => eq_refl) Hs Hok) as (s'&n'&E&Hs').
  exists s', n'. split; [done|]. split; [|done]. apply (sv_same _ _ _ Hs').
Qed.

(** ** Concrete events *)

Section checking.
Context `{Fmt : Formats} `{Text : GoText} `{Syn : GoSyntax} `{Json : JsonCodec} `{Order : MapOrder} `{Net : GoNet}.

Definition ok_or_err_b {A} (o : outcome A) : bool := match o with Ok _ | Err _ => true | _ => false end.
Lemma ok_or_err_b_ok {A} (o : outcome A) : ok_or_err_b o = true -> ok_or_err o.
Proof using Type. by destruct o. Qed.

Fixpoint events_check (opens : bytes -> bool) (evs : list (nat * option bytes)) (n : Z) (V : service) : bool :=
  match evs with
  | [] => bool_decide (0 <= n)
  | ev :: evs =>
      bool_decide (is_Some (sv_conns V !! ev.1)) &&
      match ev.2 with Some line => ok_or_err_b (request_query (TrimSpace line)) | None => true end &&
      match asked ev V with Some query => request_check query (sv_data V) && ok_or_err_b (spec_request query (sv_data V)).1 | None => true end &&
      events_check opens evs (n - event_cost ev V) (spec_event opens ev V)
  end.
Lemma events_check_ok opens evs n V : events_check opens evs n V = true -> admissible_events opens evs n V.
Proof using Type.
  revert n V. induction evs as [|ev evs IH]; intros n V; cbn [events_check admissible_events]; [apply bool_decide_eq_true_1|].
  intros [[[H1 H2]%andb_true_iff H3]%andb_true_iff H4]%andb_true_iff. split; [|by apply IH]. split_and!.
  - by apply bool_decide_eq_true_1 in H1.
  - destruct (ev.2); [by apply ok_or_err_b_ok|done].
  - destruct (asked ev V); [|done]. apply andb_true_iff in H3 as [H3 H5]. split; [by apply request_check_ok|by apply ok_or_err_b_ok].
Qed.
End checking.
