(* ===== verification/Cli.v ===== *)
(** * The command line ([src/cmd/go-db/main.go])

    The seed file, the closing of tables, the backup commands, the client's reading
    of statements and its printing of results. Flags, the start and the end of the
    server and the client's session are in [Startup]. *)
From S2P Require Import Prelude OrderedMap Wal Store StoreSpec Value Text RowCodec Table Catalog Backup SqlLex SqlParse SqlEval SqlExec.

(** [strings.Split(s, sep)] for a separator of one byte. *)
Fixpoint splitByte (sep : byte) (cur s : bytes) : list bytes :=
  match s with
  | [] => [cur]
  | b :: s => if decide (b = sep) then cur :: splitByte sep [] s else splitByte sep (cur ++ [b]) s
  end.
Definition Split (s : bytes) (sep : byte) : list bytes := splitByte sep [] s.

Definition HasSuffix (s suffix : bytes) : bool := HasPrefix (reverse s) (reverse suffix).

(** [strings.Repeat]. *)
Definition Repeat (s : bytes) (n : Z) : outcome bytes := if decide (n < 0) then Panic else Ok (concat (replicate (Z.to_nat n) s)).

(** ** Printing results *)

Fixpoint rule (widths : list Z) : outcome bytes :=
  match widths with
  | [] => Ok []
  | w :: widths => d ← Repeat (of_string "-") (w + 2); rest ← rule widths; Ok (d ++ of_string "+" ++ rest)
  end.
Definition writeRule (widths : list Z) : outcome bytes := r ← rule widths; Ok (of_string "+" ++ r ++ [Byte.x0a]).

Fixpoint rowCells (widths : list Z) (values : list bytes) : outcome bytes :=
  match values, widths with
  | [], _ => Ok []
  | v :: values, w :: widths =>
      pad ← Repeat (of_string " ") (w - len v);
      rest ← rowCells widths values;
      Ok (of_string " " ++ v ++ pad ++ of_string " |" ++ rest)
  | _ :: _, [] => Panic
  end.
Definition writeRow (widths : list Z) (values : list bytes) : outcome bytes :=
  c ← rowCells widths values; Ok (of_string "|" ++ c ++ [Byte.x0a]).

Fixpoint writeRows (widths : list Z) (rows : list (list bytes)) : outcome bytes :=
  match rows with
  | [] => Ok []
  | r :: rows => x ← writeRow widths r; rest ← writeRows widths rows; Ok (x ++ rest)
  end.

Definition widen (widths : list Z) (values : list bytes) : list Z :=
  zip_with (fun w v => if decide (len v > w) then len v else w) widths values.

Definition cellValues `{Fmt : Formats} (columns : list bytes) (row : Row) : list bytes := (fun c => Sprint (field c row)) <$> columns.

Definition formatTable `{Fmt : Formats} (columns : list bytes) (rows : list Row) : outcome bytes :=
  let values := cellValues columns <$> rows in
  let widths := foldl widen (len <$> columns) values in
  r1 ← writeRule widths;
  h ← writeRow widths columns;
  b ← writeRows widths values;
  Ok (r1 ++ h ++ r1 ++ b ++ r1).

(** ** The seed file *)

(** What [os.ReadFile] finds. *)
Inductive seed_file := Missing | Unreadable (err : error) | Content (b : bytes).

Section seeding.
Context `{Codec : IndexCodec} `{Fmt : Formats} `{Text : GoText} `{Syn : GoSyntax} `{Json : JsonCodec} `{Order : MapOrder}.

(** The pieces between semicolons of the lines that are not comments. *)
Definition seedStatements (b : bytes) : list bytes :=
  let lines := filter (fun l => HasPrefix (TrimSpace l) (of_string "--") = false) (Split b Byte.x0a) in
  Split (Join lines [Byte.x0a]) Byte.x3b.

Fixpoint seedLoop (i : Z) (statements : list bytes) : exec unit :=
  match statements with
  | [] => mret tt
  | st :: statements =>
      let st := TrimSpace st in
      if decide (st = []) then seedLoop (i + 1) statements
      else
        re ← Execute st;
        match re.2 with
        | Some err => fail (Errorf "statement %d: %w" [AInt (i + 1); AErr err])
        | None => seedLoop (i + 1) statements
        end
  end.

Definition runSeed (f : seed_file) : exec unit :=
  match f with
  | Missing => mret tt
  | Unreadable err => fail err
  | Content b => seedLoop 0 (seedStatements b)
  end.

(** ** Tables and files *)

(** Each table is closed once, errors are ignored. *)
Fixpoint closeLoop (closed ts : list nat) : exec unit :=
  match ts with
  | [] => mret tt
  | t :: ts =>
      if decide (t ∈ closed) then closeLoop closed ts
      else _ ← catch (on_table t Table.Close) (fun _ => mret tt); closeLoop (t :: closed) ts
  end.
Definition closeTables : exec unit := e ← get_state; closeLoop [] (range (Tables e)).*2.

Definition findCatalogEntry (c : Catalog) (name : bytes) : option CatalogEntry := find (fun en => bool_decide (eName en = name)) (Entries c).

Definition fileCommand (command : bytes) (args : list bytes) : M Disk unit :=
  match args with
  | [source; destination] => if decide (command = of_string "backup") then Backup source destination else Restore source destination
  | _ => fail (Errorf "usage: go-db %s <source-db> <destination-db>" [AStr command])
  end.
End seeding.

(** ** The client *)

(** One line typed by the user: [None] ends the session, otherwise the lines that
    wait for a semicolon and the query that is sent, if any. *)
Definition clientLine `{Text : GoText} (queryLines : list bytes) (text : bytes) : option (list bytes * option bytes) :=
  let line := TrimSpace text in
  if decide (queryLines = [] /\ line = []) then Some ([], None)
  else if decide (queryLines = [] /\ (EqualFold line (of_string "exit") = true \/ EqualFold line (of_string "quit") = true)) then None
  else
    let queryLines := if decide (line <> []) then queryLines ++ [line] else queryLines in
    let query := TrimSpace (Join queryLines (of_string " ")) in
    if HasSuffix query (of_string ";") then Some ([], Some query) else Some (queryLines, None).

(** The queries sent for the lines typed. *)
Fixpoint clientLoop `{Text : GoText} (queryLines : list bytes) (lines : list bytes) : list bytes :=
  match lines with
  | [] => []
  | l :: lines =>
      match clientLine queryLines l with
      | None => []
      | Some (ql, Some q) => q :: clientLoop ql lines
      | Some (ql, None) => clientLoop ql lines
      end
  end.

(** ** Properties of printing *)

Definition padding (n : Z) : bytes := concat (replicate (Z.to_nat n) (of_string " ")).
Definition cell (w : Z) (v : bytes) : bytes := of_string " " ++ v ++ padding (w - len v) ++ of_string " |".
Definition dashes (w : Z) : bytes := concat (replicate (Z.to_nat (w + 2)) (of_string "-")) ++ of_string "+".

Lemma Repeat_ok (s : bytes) (n : Z) : 0 <= n -> Repeat s n = Ok (concat (replicate (Z.to_nat n) s)).
Proof. intros Hn. unfold Repeat. by rewrite decide_False by lia. Qed.
Lemma len_repeat (s : bytes) (n : Z) : len s = 1 -> 0 <= n -> len (concat (replicate (Z.to_nat n) s)) = n.
Proof.
  intros Hs Hn. rewrite <- (Z2Nat.id n Hn) at 2. generalize (Z.to_nat n). intros k. induction k as [|k IH]; [done|]. cbn [replicate concat].
  rewrite len_app, IH, Hs. lia.
Qed.

Lemma rule_ok ws : Forall (fun w => 0 <= w) ws -> rule ws = Ok (concat (dashes <$> ws)).
Proof.
  induction 1 as [|w ws Hw _ IH]; [done|]. cbn [rule]. rewrite Repeat_ok by lia. cbn [mbind outcome_bind]. rewrite IH.
  unfold dashes at 2. cbn. by rewrite <- app_assoc.
Qed.

Lemma rowCells_ok (ws : list Z) (vs : list bytes) : Forall2 (fun w v => len v <= w) ws vs -> rowCells ws vs = Ok (concat (zip_with cell ws vs)).
Proof.
  induction 1 as [|w v ws vs Hw _ IH]; [done|]. cbn [rowCells]. rewrite Repeat_ok by lia. cbn [mbind outcome_bind]. rewrite IH.
  cbn [zip_with concat]. unfold cell at 2, padding. cbn. by rewrite <- !app_assoc.
Qed.

(** The length of a line. *)
Definition line_width (ws : list Z) : Z := 1 + foldr (fun w n => w + 3 + n) 0 ws.

Lemma rule_width ws : Forall (fun w => 0 <= w) ws -> len (of_string "+" ++ concat (dashes <$> ws)) = line_width ws.
Proof.
  intros Hw. unfold line_width. rewrite len_app. change (len (of_string "+")) with 1. f_equal.
  induction Hw as [|w ws Hw _ IH]; [done|]. cbn [fmap list_fmap concat foldr]. rewrite len_app. unfold dashes at 1. rewrite len_app, len_repeat by (done || lia).
  change (len (of_string "+")) with 1. rewrite IH. lia.
Qed.

Lemma cells_width (ws : list Z) (vs : list bytes) : Forall2 (fun w v => len v <= w) ws vs -> len (of_string "|" ++ concat (zip_with cell ws vs)) = line_width ws.
Proof.
  intros Hw. unfold line_width. rewrite len_app. change (len (of_string "|")) with 1. f_equal.
  induction Hw as [|w v ws vs Hw _ IH]; [done|]. cbn [zip_with concat foldr]. rewrite len_app. unfold cell at 1, padding.
  rewrite !len_app, len_repeat by (done || lia). change (len (of_string " ")) with 1. change (len (of_string " |")) with 2. rewrite IH. lia.
Qed.

Lemma widen_spec (ws : list Z) (vs : list bytes) : length ws = length vs ->
  Forall2 (fun w v => len v <= w) (widen ws vs) vs /\ Forall2 (fun w' w => w <= w') (widen ws vs) ws.
Proof.
  revert vs. induction ws as [|w ws IH]; intros [|v vs] Hl; try done. cbn in Hl. destruct (IH vs ltac:(lia)) as [H1 H2].
  cbn. split; constructor; try done; case_decide; lia.
Qed.

Lemma Forall2_wider {A} (P : Z -> A -> Prop) (ws' ws : list Z) (vs : list A) :
  (forall w w' v, w <= w' -> P w v -> P w' v) -> Forall2 (fun w' w => w <= w') ws' ws -> Forall2 P ws vs -> Forall2 P ws' vs.
Proof. intros HP Hw. revert vs. induction Hw as [|w' w ws' ws Hle _ IH]; intros vs Hv; inversion Hv; subst; constructor; [by eapply HP|by apply IH]. Qed.

Lemma widths_spec (ws : list Z) (vss : list (list bytes)) : Forall (fun vs => length ws = length vs) vss ->
  length (foldl widen ws vss) = length ws /\ Forall2 (fun w' w => w <= w') (foldl widen ws vss) ws /\
  Forall (fun vs => Forall2 (fun w v => len v <= w) (foldl widen ws vss) vs) vss.
Proof.
  revert ws. induction vss as [|vs vss IH]; intros ws Hl; cbn [foldl].
  { split_and!; [done| |constructor]. apply Forall2_same_length_lookup. split; [done|]. intros. simplify_eq. lia. }
  apply Forall_cons in Hl as [Hv Hl]. destruct (widen_spec ws vs Hv) as [H1 H2]. assert (length (widen ws vs) = length ws) as Hw by (by eapply Forall2_length).
  destruct (IH (widen ws vs)) as (H3&H4&H5); [by rewrite Hw|]. split_and!; [congruence| |constructor; [|done]].
  - eapply Forall2_wider; [|exact H4|exact H2]. intros; cbn in *; lia.
  - eapply Forall2_wider; [|exact H4|exact H1]. intros; cbn in *; lia.
Qed.

Lemma writeRows_ok ws (vss : list (list bytes)) : Forall (fun vs => Forall2 (fun w v => len v <= w) ws vs) vss ->
  writeRows ws vss = Ok (concat ((fun vs => of_string "|" ++ concat (zip_with cell ws vs) ++ [Byte.x0a]) <$> vss)).
Proof.
  induction 1 as [|vs vss Hv _ IH]; [done|]. cbn [writeRows]. unfold writeRow. rewrite rowCells_ok by done. cbn [mbind outcome_bind]. by rewrite IH.
Qed.

Lemma formatTable_spec `{Fmt : Formats} (columns : list bytes) (rows : list Row) :
  exists ws body, length ws = length columns /\
    let line vs := of_string "|" ++ concat (zip_with cell ws vs) in
    let rule := of_string "+" ++ concat (dashes <$> ws) in
    body = [rule; line columns; rule] ++ ((fun r => line (cellValues columns r)) <$> rows) ++ [rule] /\
    formatTable columns rows = Ok (concat ((fun l => l ++ [Byte.x0a]) <$> body)) /\
    Forall (fun l => len l = line_width ws) body.
Proof.
  set (vss := cellValues columns <$> rows). set (ws := foldl widen (len <$> columns) vss).
  destruct (widths_spec (len <$> columns) vss) as (H1&H2&H3).
  { apply Forall_fmap, Forall_forall. intros r _. unfold cellValues. cbn. by rewrite !length_fmap. }
  fold ws in H1, H2, H3. assert (Forall2 (fun w v => len v <= w) ws columns) as Hc.
  { by apply Forall2_fmap_r in H2. }
  assert (Forall (fun w => 0 <= w) ws) as Hw.
  { clear -Hc. induction Hc as [|w v ws vs H _ IH]; constructor; [|done]. pose proof (len_nonneg v). lia. }
  eexists ws, _. cbn zeta. split; [rewrite H1; apply length_fmap|]. split; [reflexivity|]. split.
  - unfold formatTable. fold vss. fold ws. unfold writeRule, writeRow. rewrite rule_ok by done. cbn [mbind outcome_bind].
    rewrite rowCells_ok by done. cbn [mbind outcome_bind]. rewrite writeRows_ok by done. cbn [mbind outcome_bind].
    rewrite !fmap_app, !concat_app. cbn [fmap list_fmap concat]. unfold vss. rewrite <- !list_fmap_compose. cbn [compose].
    rewrite !app_nil_r, <- !app_assoc. cbn [app]. done.
  - apply Forall_app. split; [|apply Forall_app; split].
    + repeat constructor; [by apply rule_width|by apply cells_width|by apply rule_width].
    + apply Forall_fmap, Forall_forall. intros r Hr. apply cells_width. rewrite Forall_forall in H3. apply H3. unfold vss. by apply list_elem_of_fmap_2.
    + constructor; [by apply rule_width|constructor].
Qed.
Lemma formatTable_total `{Fmt : Formats} (columns : list bytes) (rows : list Row) : exists b, formatTable columns rows = Ok b.
Proof. destruct (formatTable_spec columns rows) as (ws&body&_&_&E&_). by eexists. Qed.

(** C40: the client prints every result: a rule, the header, a rule, one line per row
    and a rule, where the cells of a line are the printed values padded to their
    column's width, and all lines have the same length; no padding is negative. *)
Theorem table_printed `{Fmt : Formats} (columns : list bytes) (rows : list Row) :
  exists ws body, length ws = length columns /\
    let line vs := of_string "|" ++ concat (zip_with cell ws vs) in
    let rule := of_string "+" ++ concat (dashes <$> ws) in
    body = [rule; line columns; rule] ++ ((fun r => line (cellValues columns r)) <$> rows) ++ [rule] /\
    formatTable columns rows = Ok (concat ((fun l => l ++ [Byte.x0a]) <$> body)) /\
    Forall (fun l => len l = line_width ws) body.
Proof. apply formatTable_spec. Qed.

(** ** Properties of the client *)

Lemma Join_snoc (ts : list bytes) (x sep : bytes) : ts <> [] -> Join (ts ++ [x]) sep = Join ts sep ++ sep ++ x.
Proof.
  induction ts as [|t ts IH]; [done|]. intros _. destruct ts as [|t2 ts]; [done|].
  change (Join ((t :: t2 :: ts) ++ [x]) sep) with (t ++ sep ++ Join ((t2 :: ts) ++ [x]) sep).
  change (Join (t :: t2 :: ts) sep) with (t ++ sep ++ Join (t2 :: ts) sep). rewrite IH by done. by rewrite <- !app_assoc.
Qed.

(** Neither the first nor the last byte is a space. *)
Definition starts_tight (s : bytes) : Prop := match s with b :: _ => IsSpace b = false | [] => False end.
Definition tight (s : bytes) : Prop := starts_tight s /\ starts_tight (reverse s).

Lemma starts_app s t : starts_tight s -> starts_tight (s ++ t).
Proof. by destruct s. Qed.
Lemma tight_snoc a b c : tight a -> tight c -> tight (a ++ b ++ c).
Proof. intros [Ha _] [_ Hc]. split; [by apply starts_app|]. rewrite !reverse_app, <- app_assoc. by apply starts_app. Qed.
Lemma trim_tight s : tight s -> trim s = s.
Proof.
  assert (forall s, starts_tight s -> trim_left s = s) as Hl by (intros [|b s'] Hs; [done|]; cbn in *; by rewrite Hs).
  intros [H1 H2]. unfold trim. rewrite (Hl s H1), (Hl _ H2). apply reverse_involutive.
Qed.

Lemma HasSuffix_app a x b : x <> [] -> HasSuffix (a ++ x) [b] = HasSuffix x [b].
Proof.
  intros Hx. unfold HasSuffix. rewrite reverse_app. change (reverse [b]) with [b]. destruct (reverse x) as [|c y] eqn:E; [|cbn; by destruct (y ++ reverse a), y].
  apply (f_equal reverse) in E. by rewrite reverse_involutive in E.
Qed.

Section client.
Context `{Text : GoText} {Laws : GoTextLaws}.

(** A line as it is typed: ASCII, without spaces around it. *)
Definition typed_line (x : bytes) : Prop := ascii x /\ tight x.
Definition ends_statement (x : bytes) : bool := HasSuffix x (of_string ";").

Lemma typed_nonempty x : typed_line x -> x <> [].
Proof using Type. intros [_ [H _]] ->. done. Qed.
Lemma typed_join ts x : Forall typed_line ts -> typed_line x ->
  typed_line (Join (ts ++ [x]) (of_string " ")) /\ ends_statement (Join (ts ++ [x]) (of_string " ")) = ends_statement x.
Proof using Type.
  revert x. induction ts as [|t ts IH] using rev_ind; intros x Hts Hx; [done|]. apply Forall_app in Hts as [Hts Ht]. apply Forall_cons in Ht as [Ht _].
  rewrite Join_snoc by (by destruct ts). destruct (IH t Hts Ht) as [[Ha Hj] _]. destruct Hx as [Hxa Hxt]. split.
  - split; [|by apply tight_snoc]. apply Forall_app. split; [done|]. apply Forall_app. split; [|done]. repeat constructor.
  - unfold ends_statement. change (of_string ";") with [Byte.x3b]. rewrite app_assoc. apply HasSuffix_app. by apply typed_nonempty.
Qed.

(** The commands that end the session. *)
Definition leaves (x : bytes) : bool := EqualFold x (of_string "exit") || EqualFold x (of_string "quit").

Lemma clientLine_typed ql x :
  Forall typed_line ql -> typed_line x -> (ql = [] -> leaves x = false) ->
  clientLine ql x = if ends_statement x then Some ([], Some (Join (ql ++ [x]) (of_string " "))) else Some (ql ++ [x], None).
Proof using Laws.
  intros Hq Hx Hl. unfold clientLine. assert (x <> []) as Hne by (by apply typed_nonempty).
  assert (TrimSpace x = x) as -> by (rewrite TrimSpace_ascii by apply Hx; apply trim_tight, Hx).
  rewrite decide_False by (by intros [_ ?]). rewrite decide_False.
  2: { intros [Hn Ho]. specialize (Hl Hn). unfold leaves in Hl. apply orb_false_iff in Hl as [? ?]. destruct Ho; congruence. }
  rewrite decide_True by done. destruct (typed_join ql x Hq Hx) as [[Ha Ht] <-].
  by rewrite (TrimSpace_ascii _ Ha), trim_tight by done.
Qed.

Lemma clientLoop_typed ql ls x rest :
  Forall typed_line ql -> Forall (fun l => typed_line l /\ ends_statement l = false) ls -> typed_line x -> ends_statement x = true ->
  (ql = [] -> Forall (fun l => leaves l = false) (ls ++ [x])) ->
  clientLoop ql (ls ++ x :: rest) = Join (ql ++ ls ++ [x]) (of_string " ") :: clientLoop [] rest.
Proof using Laws.
  intros Hq Hls. revert ql Hq. induction Hls as [|l ls [Hl He] _ IH]; intros ql Hq Hx Hex Hlv; cbn [app clientLoop].
  - rewrite clientLine_typed by (done || by intros ?; apply (Forall_cons (fun l => leaves l = false) x []), Hlv). by rewrite Hex.
  - rewrite clientLine_typed by (done || by intros ?; specialize (Hlv ltac:(done)); apply Forall_cons in Hlv as [? _]). rewrite He.
    rewrite IH; [by rewrite <- app_assoc| |done|done|by destruct ql]. apply Forall_app. split; [done|by apply Forall_singleton].
Qed.
End client.

(** a statement that is typed over several lines is sent as one line when its
    semicolon comes: the lines joined by spaces; the rest is read afresh. *)
Theorem client_joins_lines `{Text : GoText} {Laws : GoTextLaws} (ls rest : list bytes) (x : bytes)
  (Hls : Forall (fun l => typed_line l /\ ends_statement l = false) ls) (Hx : typed_line x) (Hend : ends_statement x = true)
  (Hstay : Forall (fun l => leaves l = false) (ls ++ [x])) :
  clientLoop [] (ls ++ x :: rest) = Join (ls ++ [x]) (of_string " ") :: clientLoop [] rest.
Proof. by apply (clientLoop_typed []). Qed.

Lemma client_joins_lines_witness :
  clientLoop (Text := AsciiText) [] (of_string <$> ["SELECT *"; "FROM t;"; "exit"]%string) = [of_string "SELECT * FROM t;"].
Proof.
  apply (client_joins_lines (Text := AsciiText) [of_string "SELECT *"] [of_string "exit"] (of_string "FROM t;")).
  - repeat constructor; try done; apply (bool_decide_unpack _); vm_compute; exact I.
  - split; [apply (bool_decide_unpack _); vm_compute; exact I|done].
  - done.
  - repeat constructor.
Defined.
