(* ===== verification/Startup.v ===== *)
(** * The life of a process ([src/cmd/go-db/main.go], [ListenAndServe] of [src/server/server.go])

    Command-line flags, the choice of a command, the server from its start to its end
    and the interactive client. A running process holds the files of its tables in
    its stores and the catalog file in the catalog; [sync] is the disk when the
    process has ended. Every store has files of its own: [serverCommand] hands one
    store to all entries whose path is the database's, so the model describes
    catalogs with at most one such entry. The network is a list of events. *)
From S2P Require Import Prelude OrderedMap Wal Store StoreSpec Value Text RowCodec Table Catalog Backup SqlLex SqlParse SqlEval SqlExec Server Cli.

(** ** Flags ([flag.FlagSet] with string flags) *)

(** [name=value], cut at the first equals sign behind the first byte. *)
Fixpoint cutEquals (name rest : bytes) : bytes * option bytes :=
  match rest with
  | [] => (name, None)
  | b :: rest => if decide (b = Byte.x3d) then (name, Some rest) else cutEquals (name ++ [b]) rest
  end.

(** [ErrHelp] and every other error end the process. *)
Definition ErrHelp : error := Errorf "flag: help requested" [].

Fixpoint parseFlags (defined : list bytes) (args : list bytes) (vals : gmap bytes bytes) : outcome (gmap bytes bytes) :=
  match args with
  | (b0 :: b1 :: rest as s) :: args =>
      if decide (b0 <> Byte.x2d) then Ok vals
      else if decide (b1 = Byte.x2d /\ rest = []) then Ok vals
      else
        match (if decide (b1 = Byte.x2d) then rest else b1 :: rest) with
        | [] => Err (Errorf "bad flag syntax: %s" [AStr s])
        | c :: name =>
            if decide (c = Byte.x2d \/ c = Byte.x3d) then Err (Errorf "bad flag syntax: %s" [AStr s])
            else
              let '(name, value) := cutEquals [c] name in
              if decide (name ∉ defined) then
                if decide (name = of_string "help" \/ name = of_string "h") then Err ErrHelp
                else Err (Errorf "flag provided but not defined: -%s" [AStr name])
              else
                match value, args with
                | Some v, _ => parseFlags defined args (<[name := v]> vals)
                | None, v :: args => parseFlags defined args (<[name := v]> vals)
                | None, [] => Err (Errorf "flag needs an argument: -%s" [AStr name])
                end
        end
  | _ => Ok vals
  end.

Definition flagValue (name default_ : string) (vals : gmap bytes bytes) : bytes := default (of_string default_) (vals !! of_string name).

Record serverOptions := MkOptions { dbPath : bytes; addr : bytes; seedPath : bytes; username : bytes; password : bytes }.

Definition serverFlags (args : list bytes) : outcome serverOptions :=
  vals ← parseFlags (of_string <$> ["db"; "addr"; "seed"; "user"; "password"]%string) args ∅;
  Ok (MkOptions (flagValue "db" "db/go-db.db" vals) (flagValue "addr" ":5433" vals) (flagValue "seed" "seed.sql" vals)
        (flagValue "user" "" vals) (flagValue "password" "" vals)).

Record clientOptions := MkClient { clAddr : bytes; clUser : bytes; clPassword : bytes }.

Definition clientFlags (args : list bytes) : outcome clientOptions :=
  vals ← parseFlags (of_string <$> ["addr"; "user"; "password"]%string) args ∅;
  Ok (MkClient (flagValue "addr" ":5433" vals) (flagValue "user" "" vals) (flagValue "password" "" vals)).

(** [fatal(action, err)]. *)
Definition fatalError (action : bytes) (err : error) : error := Errorf "error %s: %v" [AStr action; AErr err].
Definition fatal {S A} (action : bytes) (err : error) : M S A := fail (fatalError action err).

Definition together : error := Errorf "--user and --password must be provided together" [].

(** ** The choice of a command *)

Inductive invocation := FileCommand (command : bytes) (args : list bytes) | ServerCommand (args : list bytes) | SqlCommand (args : list bytes) | Usage | BadCommand.

(** [os.Args], the program's name first. *)
Definition main (argv : list bytes) : invocation :=
  match argv with
  | _ :: cmd :: args =>
      if decide (cmd = of_string "backup" \/ cmd = of_string "restore") then FileCommand cmd args
      else if decide (cmd = of_string "server") then ServerCommand args
      else if decide (cmd = of_string "sql") then SqlCommand args
      else BadCommand
  | _ => Usage
  end.

(** ** Starting the server *)

(** The files of a store, and what its methods do to them. *)
Definition onFiles {A} (path : bytes) (m : M Files A) : M Disk A := fun d =>
  let '(o, f) := m (open_files path d) in (o, put_files path f d).

(** What [os.ReadFile] finds. *)
Definition seedFile (path : bytes) (d : Disk) : seed_file := match fs d !! path with Some b => Content b | None => Missing end.

(** The catalog's file and the files of all tables. *)
Definition sync (db : bytes) (e : Executor) (d : Disk) : Disk :=
  let d := foldl (fun d (tp : Table * bytes) => put_files tp.2 (files_of (tstore tp.1)) d) d (zip (tabs e) (tabPaths e)) in
  match catalog e ≫= fun c => cat_data (cat_file c) with
  | Some b => set_fs (<[db ++ catalogSuffix := b]> (fs d)) d
  | None => d
  end.

Section process.
Context `{Codec : IndexCodec} `{Fmt : Formats} `{Text : GoText} `{Syn : GoSyntax} `{Json : JsonCodec} `{Order : MapOrder} `{Net : GoNet}.

(** [_ = store.Close()]. *)
Definition closeStore (db : bytes) (store : Store) : M Disk unit := fun d =>
  let '(o, s) := Store.Close store in
  (match o with Panic => Panic | NoFuel => NoFuel | _ => Ok tt end, put_files db (files_of s) d).

Definition openEntry (db : bytes) (store : Store) (en : CatalogEntry) : M Disk Table :=
  if decide (ePath en = db) then lift (NewTable (Some store) (eSchema en)) else onFiles (ePath en) (OpenTable (eSchema en)).

Fixpoint openEntries (db : bytes) (store : Store) (l : list CatalogEntry) : M Disk (list (Table * bytes)) :=
  match l with
  | [] => mret []
  | en :: l =>
      t ← catch (openEntry db store en)
            (fun err => _ ← closeStore db store; fatal (of_string "opening table " ++ eName en) err);
      ts ← openEntries db store l;
      mret ((t, ePath en) :: ts)
  end.

(** [tables[entry.Name] = table] for the entries in turn. *)
Fixpoint tableNames (i : nat) (l : list CatalogEntry) (m : gmap bytes nat) : gmap bytes nat :=
  match l with [] => m | en :: l => tableNames (S i) l (<[eName en := i]> m) end.

(** [closeTables] at the end of the process. *)
Definition stop {A} (db : bytes) (e : Executor) (rest : M Disk A) : M Disk A := fun d =>
  match closeTables e with
  | (Panic, e) => (Panic, sync db e d)
  | (NoFuel, e) => (NoFuel, sync db e d)
  | (_, e) => rest (sync db e d)
  end.

(** From the flags to the server, before it listens. [temps]: the names that
    [os.CreateTemp] will give. *)
Definition launch (o : serverOptions) (temps : list bytes) : M Disk Server :=
  let db := dbPath o in
  if decide (bool_decide (username o = []) <> bool_decide (password o = [])) then fatal (of_string "server") together
  else
    store ← catch (onFiles db Open) (fatal (of_string "opening store"));
    d ← get_state;
    c ← catch (lift (OpenCatalog (MkCatFile (fs d !! (db ++ catalogSuffix)) None)))
          (fun err => _ ← closeStore db store; fatal (of_string "opening catalog") err);
    ts ← openEntries db store (Entries c);
    d ← get_state;
    match runSeed (seedFile (seedPath o) d) (NewExecutorWithCatalog ts (tableNames 0 (Entries c) ∅) (Some c) temps) with
    | (Ok _, e) =>
        match (if decide (username o <> []) then NewWithAuth (Some e) (username o) (password o) else New (Some e)) with
        | Ok s => mret s
        | Err err => stop db e (fatal (of_string "creating server") err)
        | Panic => fun d => (Panic, sync db e d)
        | NoFuel => fun d => (NoFuel, sync db e d)
        end
    | (Err err, e) => stop db e (fatal (of_string "running seed file") err)
    | (Panic, e) => fun d => (Panic, sync db e d)
    | (NoFuel, e) => fun d => (NoFuel, sync db e d)
    end.

(** ** Listening *)

(** [Accepted]: a client connects; [AcceptFailed]: [Accept] returns an error;
    [Interrupted]: the signal handler calls [Close]; [Sent]: a line of a connection,
    or its end. *)
Inductive net_event := Accepted (i : nat) | AcceptFailed | Interrupted | Sent (i : nat) (ev : option bytes).

(** How far the loop comes with the events: [ErrClosed] is its return after
    [Close], [Died] the end of the process by a panic, [Waiting] for more events. *)
Inductive serving := ListenFailed (err : error) (s : Server) | ErrClosed (s : Server) | Died (s : Server) | Waiting (s : Server).

(** [ln]: [s.ln] is not nil. Closing twice does nothing more. *)
Definition CloseListener (ln : bool) : bool := if ln then false else ln.

(** A line that waits for the mutex waits for ever, since only a panic leaves it
    held. *)
Fixpoint acceptLoop (ln : bool) (evs : list net_event) (s : Server) : serving :=
  match evs with
  | [] => Waiting s
  | Accepted i :: evs => acceptLoop ln evs (accept i s)
  | AcceptFailed :: evs => if ln then acceptLoop ln evs s else ErrClosed s
  | Interrupted :: evs => acceptLoop (CloseListener ln) evs s
  | Sent i ev :: evs =>
      match deliver i ev s with
      | Some s => if crashed s then Died s else acceptLoop ln evs s
      | None => acceptLoop ln evs s
      end
  end.

(** [listen]: the error of [net.Listen], if any. *)
Definition ListenAndServe (listen : option error) (evs : list net_event) (s : Server) : serving :=
  match listen with Some err => ListenFailed err s | None => acceptLoop true evs s end.

(** The whole command; the result is the server as it was at the end, and [NoFuel]
    while it runs. *)
Definition serverCommand (args temps : list bytes) (listen : option error) (evs : list net_event) : M Disk Server :=
  o ← lift (serverFlags args);
  s ← launch o temps;
  match ListenAndServe listen evs s with
  | ListenFailed err s => stop (dbPath o) (world s) (fatal (of_string "server") err)
  | ErrClosed s => stop (dbPath o) (world s) (mret s)
  | Died s => fun d => (Panic, sync (dbPath o) (world s) d)
  | Waiting s => fun d => (NoFuel, sync (dbPath o) (world s) d)
  end.
End process.

(** ** The interactive client *)

(** What the client writes to the terminal. *)
Inductive printed := Prompt (more : bool) | Greeting (address : bytes) | Failure (err : option error) | ResultTable (b : bytes) | Done (affected : Z)
  | SendError (err : error) | ReadError (err : error).

(** [strconv.Quote], the connection as it is written and read. *)
Section client.
Context `{Fmt : Formats} `{Text : GoText} (Quote : bytes -> bytes).
Context {W : Type} (write : bytes -> W -> outcome unit * W) (read : W -> outcome Response * W).

Definition quoteMark : bytes := [Byte.x22].
Definition authText (user pass : bytes) : bytes :=
  of_string "{" ++ quoteMark ++ of_string "username" ++ quoteMark ++ of_string ":" ++ Quote user ++ of_string "," ++
  quoteMark ++ of_string "password" ++ quoteMark ++ of_string ":" ++ Quote pass ++ of_string "}".

Definition authenticate (o : clientOptions) : M W unit :=
  if decide (clUser o = []) then mret tt
  else
    _ ← catch (write (authText (clUser o) (clPassword o) ++ [Byte.x0a])) (fatal (of_string "authenticating"));
    r ← catch read (fatal (of_string "authenticating"));
    if OK r then mret tt else fatal (of_string "authenticating") (Errorf "%s" (match rError r with Some err => [AErr err] | None => [] end)).

(** The answer to a query. *)
Definition printResponse (r : Response) : outcome printed :=
  if OK r then
    if decide (rRows r <> []) then b ← formatTable (rColumns r) (rRows r); Ok (ResultTable b) else Ok (Done (rAffected r))
  else Ok (Failure (rError r)).

Fixpoint sqlLoop (queryLines lines : list bytes) : M W (list printed) :=
  let prompt := Prompt (bool_decide (queryLines <> [])) in
  match lines with
  | [] => mret [prompt]
  | l :: lines =>
      match clientLine queryLines l with
      | None => mret [prompt]
      | Some (ql, None) => out ← sqlLoop ql lines; mret (prompt :: out)
      | Some (ql, Some query) => fun w =>
          match write (query ++ [Byte.x0a]) w with
          | (Ok _, w) =>
              match read w with
              | (Ok r, w) => (p ← lift (printResponse r); out ← sqlLoop ql lines; mret (prompt :: p :: out)) w
              | (Err err, w) => (Ok [prompt; ReadError err], w)
              | (Panic, w) => (Panic, w)
              | (NoFuel, w) => (NoFuel, w)
              end
          | (Err err, w) => (Ok [prompt; SendError err], w)
          | (Panic, w) => (Panic, w)
          | (NoFuel, w) => (NoFuel, w)
          end
      end
  end.

(** [dial]: the error of [net.Dial], if any; [lines]: what the user types. *)
Definition sqlCommand (args : list bytes) (dial : option error) (lines : list bytes) : M W (list printed) :=
  o ← lift (clientFlags args);
  if decide (bool_decide (clUser o = []) <> bool_decide (clPassword o = [])) then fatal (of_string "sql") together
  else
    match dial with
    | Some err => fatal (of_string "connecting to server") err
    | None => _ ← authenticate o; out ← sqlLoop [] lines; mret (Greeting (clAddr o) :: out)
    end.
End client.

(** ** Properties of flags *)

Lemma cutEquals_plain (acc name : bytes) : Byte.x3d ∉ name -> cutEquals acc name = (acc ++ name, None).
Proof.
  revert acc. induction name as [|b name IH]; intros acc Hn; cbn [cutEquals]; [by rewrite app_nil_r|]. apply not_elem_of_cons in Hn as [Hb Hn].
  rewrite decide_False by congruence. rewrite IH by done. by rewrite <- app_assoc.
Qed.
Lemma cutEquals_value (acc name v : bytes) : Byte.x3d ∉ name -> cutEquals acc (name ++ Byte.x3d :: v) = (acc ++ name, Some v).
Proof.
  revert acc. induction name as [|b name IH]; intros acc Hn; cbn [cutEquals app]; [by rewrite decide_True, app_nil_r|].
  apply not_elem_of_cons in Hn as [Hb Hn]. rewrite decide_False by congruence. rewrite IH by done. by rewrite <- app_assoc.
Qed.

(** A name that can be written on the command line. *)
Definition flag_name (name : bytes) : Prop := match name with [] => False | c :: _ => c <> Byte.x2d end /\ Byte.x3d ∉ name.

(** A flag with its value: behind a space or an equals sign, with one dash or two. *)
Inductive flag_style := Spaced | Joined.
Record flag := MkFlag { fName : bytes; fValue : bytes; fStyle : flag_style; fDouble : bool }.

Definition write_flag (f : flag) : list bytes :=
  let dashes := if fDouble f then of_string "--" else of_string "-" in
  match fStyle f with Spaced => [dashes ++ fName f; fValue f] | Joined => [dashes ++ fName f ++ Byte.x3d :: fValue f] end.

Lemma parse_flag (defined : list bytes) (f : flag) (rest : list bytes) (vals : gmap bytes bytes) :
  flag_name (fName f) -> fName f ∈ defined -> parseFlags defined (write_flag f ++ rest) vals = parseFlags defined rest (<[fName f := fValue f]> vals).
Proof.
  intros [Hc He] Hd. destruct f as [[|c name] v style double]; [done|]. cbn [fName fValue] in *. apply not_elem_of_cons in He as [Hce He].
  destruct style, double; cbn [write_flag fStyle fDouble fName fValue app]; cbn [parseFlags of_string app]; cbn;
    repeat (rewrite decide_False by (congruence || naive_solver)); repeat (rewrite ?(decide_True (P := Byte.x2d = Byte.x2d)) by done; rewrite ?decide_False by (congruence || naive_solver));
    rewrite ?cutEquals_plain, ?cutEquals_value by done; cbn [app]; rewrite ?decide_False by (by intros ?); done.
Qed.

(** flags are read as they are written: for every list of defined flags, in either
    style, parsing gives each the last value that was written for it. *)
Theorem flags_roundtrip (defined : list bytes) (fs : list flag) (Hfs : Forall (fun f => flag_name (fName f) /\ fName f ∈ defined) fs) :
  parseFlags defined (concat (write_flag <$> fs)) ∅ = Ok (foldl (fun vals f => <[fName f := fValue f]> vals) ∅ fs).
Proof.
  generalize (∅ : gmap bytes bytes). induction Hfs as [|f fs [Hn Hd] _ IH]; intros vals; [done|]. cbn [fmap list_fmap concat foldl].
  by rewrite parse_flag.
Qed.
