(* ===== verification/Restart.v ===== *)
(** * From one process to the next

    What a stopped server leaves on the disk is what the next one starts from: the
    catalog, and for every entry the files of a table with its rows. *)
From S2P Require Import Prelude OrderedMap Page BufferPool Pager BTree BTreeProofs Wal Record Store StoreInv StoreProofs StoreSpec StoreRecovery Value Text RowCodec Table StoreContract StoreReopen TableInv TableProofs TableSpec TableOpen TableChange Catalog Backup SqlLex SqlParse SqlEval SqlExec SqlTx SqlRollback SqlSpec SqlBatch SqlSchema SqlScripts Server ServerProofs ServerSpec Cli Startup.

#[local] Set Default Proof Using "Type".

(** ** Files on the disk *)

(** The files of a store. *)
Definition bundle (path : bytes) : list bytes := [path; path ++ walSuffix; path ++ idxSuffix].

(** Files that were closed without faults. *)
Definition clean (f : Files) : Prop :=
  (write_fault (db_file f) = None /\ fclosed (db_file f) = false) /\ wal_fault (wal_data f) = None /\ idx_fault (idx_file f) = None /\ is_Some (idx_data (idx_file f)).

Lemma put_frame path f d q : q ∉ bundle path -> fs (put_files path f d) !! q = fs d !! q.
Proof. unfold bundle. rewrite !not_elem_of_cons. intros (?&?&?&_). by apply put_files_frame. Qed.

Lemma open_same path d d' : (forall q, q ∈ bundle path -> fs d' !! q = fs d !! q) -> open_files path d' = open_files path d.
Proof. intros H. unfold open_files. rewrite !H by (unfold bundle; set_solver). done. Qed.

Lemma open_put path f d : clean f -> open_files path (put_files path f d) = f.
Proof.
  destruct f as [[b w o] [b2 w2] [i wi]]. intros ([Hw Ho]&Hw2&Hi&[x Hx]). cbn in *. subst. unfold open_files, put_files. cbn.
  pose proof (path_self path walSuffix) as Hpw. pose proof (path_self path idxSuffix) as Hpi.
  assert (path ++ walSuffix <> path ++ idxSuffix) as Hwi by (by apply path_neq).
  rewrite (lookup_insert_ne _ (path ++ idxSuffix) path) by (apply not_eq_sym; by apply Hpi). rewrite lookup_insert_eq.
  rewrite (lookup_insert_ne _ (path ++ idxSuffix) (path ++ walSuffix)) by (by apply not_eq_sym).
  rewrite (lookup_insert_ne _ path (path ++ walSuffix)) by (by apply Hpw). by rewrite !lookup_insert_eq.
Qed.

(** Paths whose stores share no file. *)
Definition apart (ps : list bytes) : Prop := NoDup (ps ≫= bundle).

Lemma apart_submseteq ps ps' : ps ⊆+ ps' -> apart ps' -> apart ps.
Proof.
  intros Hs Hd. apply (bind_submseteq bundle) in Hs. apply submseteq_Permutation in Hs as [k Hk]. unfold apart in Hd. rewrite Hk in Hd. by apply NoDup_app in Hd as [? _].
Qed.
Lemma apart_sublist ps ps' : sublist ps ps' -> apart ps' -> apart ps.
Proof. intros Hs. by apply apart_submseteq, sublist_submseteq. Qed.
Lemma apart_NoDup ps : apart ps -> NoDup ps.
Proof.
  unfold apart. induction ps as [|p ps IH]; cbn [mbind list_bind]; [constructor|]. intros (_&H2&H3)%NoDup_app. constructor; [|by apply IH].
  intros Hin. apply (H2 p); [apply list_elem_of_here|]. apply list_elem_of_bind. exists p. split; [apply list_elem_of_here|done].
Qed.
Lemma apart_two ps i j p q x : apart ps -> ps !! i = Some p -> ps !! j = Some q -> i <> j -> x ∈ bundle p -> x ∉ bundle q.
Proof.
  intros Hd Hi Hj Hne Hp Hq. revert i j Hi Hj Hne Hd. induction ps as [|r ps IH]; intros [|i] [|j] Hi Hj Hne Hd; try done; cbn [lookup list_lookup] in *;
    unfold apart in Hd; cbn [mbind list_bind] in Hd; apply NoDup_app in Hd as (H1&H2&H3).
  - injection Hi as ->. apply (H2 x Hp). apply list_elem_of_bind. exists q. split; [done|]. by eapply list_elem_of_lookup_2.
  - injection Hj as ->. apply (H2 x Hq). apply list_elem_of_bind. exists p. split; [done|]. by eapply list_elem_of_lookup_2.
  - apply (IH i j); [done|done|lia|done].
Qed.

(** Several stores are written. *)
Abbreviation put_all d l := (foldl (fun d (tp : Table * bytes) => put_files tp.2 (files_of (tstore tp.1)) d) d l).

Lemma put_all_frame l d q : q ∉ l.*2 ≫= bundle -> fs (put_all d l) !! q = fs d !! q.
Proof.
  revert d. induction l as [|[t p] l IH]; intros d Hq; cbn [foldl]; [done|]. cbn [fmap list_fmap mbind list_bind snd] in Hq. apply not_elem_of_app in Hq as [H1 H2].
  rewrite IH by done. by apply put_frame.
Qed.
Lemma put_all_at l d i t p : apart l.*2 -> l !! i = Some (t, p) -> clean (files_of (tstore t)) -> open_files p (put_all d l) = files_of (tstore t).
Proof.
  revert d i. induction l as [|[t' p'] l IH]; intros d i Hd Hi Hc; [done|]. unfold apart in Hd. cbn [fmap list_fmap mbind list_bind snd] in Hd. apply NoDup_app in Hd as (H1&H2&H3).
  destruct i as [|i]; cbn [lookup list_lookup foldl] in *; [|by apply (IH _ i)]. injection Hi as -> ->. rewrite (open_same p (put_files p (files_of (tstore t)) d)).
  - by apply open_put.
  - intros q Hq. apply put_all_frame. by apply H2.
Qed.

(** ** Tables on the disk *)

Abbreviation sim := (table_sim store_reads durable).

Section tables.
Context `{Codec : IndexCodec} {Gob : IndexCodecLaws} `{Fmt : Formats}.

(** A table with the rows of a relation and room for [n] records. *)
Definition holds (n : Z) (t : Table) (R : relation) : Prop :=
  exists st, sim t st R.2 /\ tschema t = R.1 /\ len (states st) + n < 2 ^ 32 - 1.

(** The files of an entry are those of such a table. *)
Definition stored (d : Disk) (n : Z) (en : CatalogEntry) (R : relation) : Prop :=
  eSchema en = R.1 /\ exists t, OpenTable R.1 (open_files (ePath en) d) = (Ok t, files_of (tstore t)) /\ holds n t R.

Lemma stored_same d d' n en R : (forall q, q ∈ bundle (ePath en) -> fs d' !! q = fs d !! q) -> stored d n en R -> stored d' n en R.
Proof. intros H (Hs&t&E&Ht). split; [done|]. exists t. by rewrite (open_same _ d d'). Qed.

Lemma table_reopens n t R :
  holds n t R -> 0 <= n -> exists t' t1, Table.Close t = (Ok tt, t') /\ clean (files_of (tstore t')) /\
    OpenTable R.1 (files_of (tstore t')) = (Ok t1, files_of (tstore t1)) /\ holds n t1 R.
Proof using Gob.
  intros (st&[Hd Ht]&Hsc&Hb) Hn. pose proof Hd as (_&(ps&segs&Hk)&_). destruct (Close_keeps (tstore t) ps segs _ _ Hk) as (s'&db&Ec&(Hw&_)&Ef); [lia|].
  destruct (reopen_durable (tstore t) st Hd) as (s2&s1&Ec2&Eo&Hd1); [lia|]. rewrite Ec in Ec2. injection Ec2 as <-.
  destruct (NewTable_spec store_reads s1 R.1 (current st) R.2) as (t1&En&Ht1&Hs1&Hsc1);
    [by apply (durable_reads s1 (MkSpec (states st) 0))|rewrite <- Hsc; apply Ht|rewrite <- Hsc; apply Ht|rewrite <- Hsc; apply Ht|].
  exists (set_tstore s' t), t1. split_and!.
  - by apply on_store_ok.
  - cbn [tstore set_tstore]. rewrite Ef. cbn. destruct Hw. by split_and!.
  - unfold OpenTable. cbn [tstore set_tstore]. by rewrite Eo, En, Hs1.
  - exists (MkSpec (states st) 0). split_and!; [split; [by rewrite Hs1|done]|done|done].
Qed.

(** ** Opening *)

Lemma openEntries_ok (db : bytes) (store : Store) (l : list CatalogEntry) (d : Disk) (n : Z) (rel : bytes -> relation) :
  apart (db :: (ePath <$> l)) -> Forall (fun en => stored d n en (rel (eName en))) l ->
  exists ts d', openEntries db store l d = (Ok ts, d') /\ ts.*2 = ePath <$> l /\ Forall2 (fun en (tp : Table * bytes) => holds n tp.1 (rel (eName en))) l ts /\
    forall q, q ∉ (ePath <$> l) ≫= bundle -> fs d' !! q = fs d !! q.
Proof.
  revert d. induction l as [|en l IH]; intros d Ha Hl; cbn [openEntries].
  { exists [], d. split_and!; try done. }
  apply Forall_cons in Hl as [(Hs&t&E&Ht) Hl]. set (d1 := put_files (ePath en) (files_of (tstore t)) d).
  assert (openEntry db store en d = (Ok t, d1)) as Eo.
  { unfold openEntry. rewrite decide_False.
    - unfold onFiles. by rewrite Hs, E.
    - intros E'. apply (apart_two (db :: (ePath <$> en :: l)) 0 1 db (ePath en) db Ha); try done; rewrite ?E'; apply list_elem_of_here. }
  destruct (IH d1) as (ts&d'&E'&Hp&Hts&Hfr).
  - eapply apart_sublist; [|exact Ha]. by apply sublist_skip, sublist_cons.
  - apply Forall_forall. intros en' Hin. rewrite Forall_forall in Hl. eapply stored_same; [|by apply Hl]. intros q Hq. apply put_frame.
    apply list_elem_of_lookup in Hin as [i Hi].
    apply (apart_two (db :: (ePath <$> en :: l)) (S (S i)) 1 (ePath en') (ePath en)); [done| |done|done|done].
    change ((ePath <$> l) !! i = Some (ePath en')). by rewrite list_lookup_fmap, Hi.
  - exists ((t, ePath en) :: ts), d'. erewrite bind_ok by (unfold catch; by rewrite Eo). rewrite (bind_ok _ _ _ _ _ E'). split_and!; [done| |by constructor|].
    + cbn. by rewrite Hp.
    + intros q Hq. cbn [fmap list_fmap mbind list_bind] in Hq. apply not_elem_of_app in Hq as [H1 H2]. rewrite Hfr by done. by apply put_frame.
Qed.
End tables.

Lemma tableNames_other i l m name : name ∉ eName <$> l -> tableNames i l m !! name = m !! name.
Proof.
  revert i m. induction l as [|en l IH]; intros i m Hn; [done|]. cbn in *. apply not_elem_of_cons in Hn as [Hn1 Hn2].
  rewrite IH by done. by rewrite lookup_insert_ne.
Qed.
Lemma tableNames_at i l m j en : NoDup (eName <$> l) -> l !! j = Some en -> tableNames i l m !! eName en = Some (i + j)%nat.
Proof.
  revert i m j. induction l as [|en' l IH]; intros i m [|j] Hd Hj; try done; cbn in *; apply NoDup_cons in Hd as [Hn Hd].
  - injection Hj as ->. rewrite tableNames_other by done. rewrite lookup_insert_eq. f_equal. lia.
  - rewrite (IH (S i)) with (j := j) by done. f_equal. lia.
Qed.

(** ** Closing *)

Section closing.
Context `{Codec : IndexCodec} {Gob : IndexCodecLaws} `{Fmt : Formats} `{Text : GoText} `{Syn : GoSyntax} `{Json : JsonCodec} `{Order : MapOrder} {Laws : MapOrderLaws}.

Lemma closeLoop_ok closed l e :
  NoDup l -> (forall a, a ∈ l -> a ∉ closed) -> (forall a, a ∈ l -> exists tb tb', tabs e !! a = Some tb /\ Table.Close tb = (Ok tt, tb')) ->
  exists tabs', closeLoop closed l e = (Ok tt, set_tabs tabs' e) /\ length tabs' = length (tabs e) /\ (forall a, a ∉ l -> tabs' !! a = tabs e !! a) /\
    forall a tb tb', a ∈ l -> tabs e !! a = Some tb -> Table.Close tb = (Ok tt, tb') -> tabs' !! a = Some tb'.
Proof.
  intros Hd. revert closed e. induction Hd as [|a l Hn _ IH]; intros closed e Hc Hl; cbn [closeLoop].
  { exists (tabs e). split_and!; [by destruct e|done|done|]. intros a tb tb' H. by apply elem_of_nil in H. }
  rewrite decide_False by (apply Hc; by constructor). destruct (Hl a) as (tb&tb'&Ha&Ec); [by constructor|].
  erewrite bind_ok by (unfold catch; by rewrite (on_table_ok a tb tb' _ _ e Ha Ec)). set (e1 := set_tabs (<[a := tb']> (tabs e)) e).
  assert (forall a', a' <> a -> tabs e1 !! a' = tabs e !! a') as He1 by (intros a' Hne; cbn; by apply list_lookup_insert_ne).
  assert (forall a', a' ∈ l -> a' <> a) as Hne by (by intros a' Hin ->).
  destruct (IH (a :: closed) e1) as (tabs'&E&Hlen&Hsame&Hres).
  - intros a' Hin. apply not_elem_of_cons. split; [by apply Hne|]. apply Hc. by constructor.
  - intros a' Hin. rewrite He1 by (by apply Hne). apply Hl. by constructor.
  - exists tabs'. split_and!; [exact E|by rewrite Hlen; apply length_insert| |].
    { intros a' Hn'. apply not_elem_of_cons in Hn' as [H1 H2]. rewrite Hsame by done. by apply He1. }
    intros a' t t' Hin Ht Et. apply elem_of_cons in Hin as [->|Hin].
    + rewrite Hsame by done.
      assert (t' = tb') as -> by congruence. apply list_lookup_insert_eq. by eapply lookup_lt_Some.
    + apply (Hres a' t t'); [done|by rewrite He1 by (by apply Hne)|done].
Qed.

(** ** A stopped and a running process *)

(** The database file itself, which no table uses: not there yet, or opened before. *)
Definition empty_files : Files := MkFiles (MkFile [] None false) (MkWal [] None) (MkIdx (Some (gob_encode [])) None).
Definition unused (f : Files) : Prop := f = fresh_files \/ f = empty_files.

Definition catalogPath (db : bytes) : bytes := db ++ catalogSuffix.

(** The disk of a stopped server: an empty database file, the catalog, and the
    relations [D] in the files of its entries; [ts] are the names that
    [os.CreateTemp] will give. *)
Record on_disk (db : bytes) (d : Disk) (c : Catalog) (D : database) (ts : list bytes) (n : Z) : Prop := {
  od_store : unused (open_files db d);
  od_file : cat_file c = MkCatFile (fs d !! catalogPath db) None;
  od_catalog : catalog_rep c (cat_entries c);
  od_tables : forall name, option_Forall2 (stored d n) (cat_entries c !! name) (D !! name);
  od_apart : apart (db :: (ePath <$> Entries c) ++ ts);
  od_alone : catalogPath db ∉ ((ePath <$> Entries c) ++ ts) ≫= bundle;
  od_sound : sound D;
  od_room : 0 <= n < 2 ^ 32 - 2
}.

(** A server that runs on such a disk. *)
Record running (db : bytes) (d : Disk) (e : Executor) (c : Catalog) (D : database) (ts : list bytes) (n : Z) : Prop := {
  ru_sim : sql_sim e (MkSql D (Some c) ts) n;
  ru_filed : filed e;
  ru_catalog : catalog_rep c (cat_entries c);
  ru_schemas : forall name, eSchema <$> cat_entries c !! name = fst <$> D !! name;
  ru_apart : apart (db :: tabPaths e ++ tempFiles e);
  ru_alone : catalogPath db ∉ (tabPaths e ++ tempFiles e) ≫= bundle;
  ru_sound : sound D;
  ru_store : open_files db d = empty_files;
  ru_file : cat_data (cat_file c) = None -> fs d !! catalogPath db = None
}.

(** The table of an entry and its path. *)
Lemma running_entry db d e c D ts n name en :
  running db d e c D ts n -> cat_entries c !! name = Some en ->
  exists a tb R, Tables e !! name = Some a /\ tabs e !! a = Some tb /\ D !! name = Some R /\ holds n tb R /\ eSchema en = R.1 /\
    tabPaths e !! a = Some (ePath en).
Proof.
  intros Hr Hen. pose proof (ru_schemas _ _ _ _ _ _ _ Hr name) as Hs. rewrite Hen in Hs. destruct (D !! name) as [R|] eqn:ER; [|done]. injection Hs as Hs.
  pose proof (db_tables _ _ _ (ss_db _ _ _ (ru_sim _ _ _ _ _ _ _ Hr)) name) as Ht. cbn [rels] in Ht. rewrite ER in Ht.
  inversion Ht as [a ? (tb&st&Htb&Hsim&Hsc&Hb) Ea|]; subst. symmetry in Ea. exists a, tb, R.
  destruct (ru_filed _ _ _ _ _ _ _ Hr) as [_ Hf]. destruct (Hf c (ss_catalog _ _ _ (ru_sim _ _ _ _ _ _ _ Hr))) as [_ Hf2]; [apply (ru_catalog _ _ _ _ _ _ _ Hr)|].
  destruct (Hf2 name a Ea) as (en'&Hen'&Hp). rewrite Hen in Hen'. injection Hen' as <-. split_and!; try done. by exists st.
Qed.

(** The paths of the entries are among those of the tables. *)
Lemma running_paths db d e c D ts n : running db d e c D ts n -> (ePath <$> Entries c) ⊆+ tabPaths e.
Proof.
  intros Hr. destruct (ru_catalog _ _ _ _ _ _ _ Hr) as (_&Hok&_). assert (NoDup (tabPaths e)) as Hd.
  { apply apart_NoDup. eapply apart_sublist; [|exact (ru_apart _ _ _ _ _ _ _ Hr)]. by apply sublist_cons, sublist_inserts_r. }
  assert (forall en, en ∈ Entries c -> exists a, Tables e !! eName en = Some a /\ tabPaths e !! a = Some (ePath en)) as Hen.
  { intros en Hin. apply elem_Entries in Hin; [|done]. destruct (running_entry _ _ _ _ _ _ _ _ _ Hr Hin) as (a&_&_&Ha&_&_&_&_&Hp). by exists a. }
  apply NoDup_submseteq.
  - apply NoDup_fmap_2_strong; [|eapply NoDup_fmap_1, Entries_names; exact Hok]. intros en1 en2 H1 H2 E.
    destruct (Hen _ H1) as (a1&T1&P1), (Hen _ H2) as (a2&T2&P2). rewrite E in P1. pose proof (NoDup_lookup _ _ _ _ Hd P1 P2) as ->.
    assert (eName en1 = eName en2) as Hnm by (eapply (db_distinct _ _ _ (ss_db _ _ _ (ru_sim _ _ _ _ _ _ _ Hr))); [exact T1|exact T2]).
    apply elem_Entries in H1, H2; try done. congruence.
  - intros p Hp. apply list_elem_of_fmap in Hp as (en&->&Hin). destruct (Hen _ Hin) as (a&_&Hp). by eapply list_elem_of_lookup_2.
Qed.

Lemma closeTables_ok e D n :
  db_sim e D n -> 0 <= n ->
  exists tabs', closeTables e = (Ok tt, set_tabs tabs' e) /\ length tabs' = length (tabs e) /\
    forall name a tb R, Tables e !! name = Some a -> tabs e !! a = Some tb -> holds n tb R ->
      exists t', tabs' !! a = Some t' /\ clean (files_of (tstore t')) /\
        exists t1, OpenTable R.1 (files_of (tstore t')) = (Ok t1, files_of (tstore t1)) /\ holds n t1 R.
Proof using All.
  intros Hd Hn. unfold closeTables. rewrite bind_get. assert (forall a, a ∈ (range (Tables e)).*2 <-> exists name, Tables e !! name = Some a) as Hin.
  { intros a. rewrite range_permutation, list_elem_of_fmap. split; [intros ([name a']&->&H%elem_of_map_to_list); by exists name|].
    intros [name H]. exists (name, a). split; [done|]. by apply elem_of_map_to_list. }
  destruct (closeLoop_ok [] (range (Tables e)).*2 e) as (tabs'&E&Hlen&_&Hres).
  - by eapply range_addresses.
  - intros a _. apply not_elem_of_nil.
  - intros a [name Ha]%Hin. pose proof (db_tables _ _ _ Hd name) as Ht. rewrite Ha in Ht. inversion Ht as [? R (tb&st&Htb&Hs&Hsc&Hb)|]; subst.
    destruct (table_reopens n tb R) as (t'&_&Ec&_); [by exists st|done|]. by exists tb, t'.
  - exists tabs'. split_and!; [done|done|]. intros name a tb R Ha Htb Hh. destruct (table_reopens n tb R Hh Hn) as (t'&t1&Ec&Hc&Eo&H1).
    exists t'. split_and!; [|done|by exists t1]. apply (Hres a tb t'); [|done|done]. apply Hin. by exists name.
Qed.

(** What [sync] leaves alone, and the catalog. *)
Lemma sync_frame db e d q : length (tabPaths e) = length (tabs e) -> q ∉ tabPaths e ≫= bundle -> q <> catalogPath db -> fs (sync db e d) !! q = fs d !! q.
Proof.
  intros Hl Hq Hne. unfold sync. set (l := zip (tabs e) (tabPaths e)). assert (l.*2 = tabPaths e) as El by (apply snd_zip; lia).
  assert (fs (put_all d l) !! q = fs d !! q) as E by (apply put_all_frame; by rewrite El).
  destruct (catalog e ≫= _); cbn [fs set_fs]; [|done]. unfold catalogPath in Hne. by rewrite lookup_insert_ne.
Qed.
Lemma sync_table db e d a tb p :
  length (tabPaths e) = length (tabs e) -> apart (tabPaths e) -> catalogPath db ∉ tabPaths e ≫= bundle ->
  tabs e !! a = Some tb -> tabPaths e !! a = Some p -> clean (files_of (tstore tb)) -> open_files p (sync db e d) = files_of (tstore tb).
Proof.
  intros Hl Hap Hn Ha Hp Hc. unfold sync. set (l := zip (tabs e) (tabPaths e)). assert (l.*2 = tabPaths e) as El by (apply snd_zip; lia).
  assert (open_files p (put_all d l) = files_of (tstore tb)) as E.
  { apply (put_all_at l d a); [by rewrite El| |done]. unfold l. apply lookup_zip_with_Some. by exists tb, p. }
  rewrite <- E. destruct (catalog e ≫= _); [|done]. apply open_same. intros q Hq. cbn [fs set_fs]. apply lookup_insert_ne. intros <-. apply Hn.
  apply list_elem_of_bind. exists p. split; [done|]. by eapply list_elem_of_lookup_2.
Qed.

Lemma catalogPath_bundle db : catalogPath db ∉ bundle db.
Proof.
  unfold bundle, catalogPath. rewrite !not_elem_of_cons. split_and!; [|by apply path_neq|by apply path_neq|apply not_elem_of_nil].
  apply not_eq_sym. by apply path_self.
Qed.

Lemma stop_stores {A} db d e c D ts n (rest : M Disk A) :
  running db d e c D ts n -> exists d', stop db e rest d = rest d' /\ on_disk db d' c D ts n /\
    forall q, q ∉ (tabPaths e ≫= bundle) -> q <> catalogPath db -> fs d' !! q = fs d !! q.
Proof using All.
  intros Hr. pose proof (ru_sim _ _ _ _ _ _ _ Hr) as [Hd Hc Ht Hroom]. cbn [rels cat temps] in *. pose proof (ru_filed _ _ _ _ _ _ _ Hr) as [Hlen _].
  destruct (closeTables_ok e D n Hd) as (tabs'&E&Hl'&Hclosed); [lia|]. set (e' := set_tabs tabs' e) in *.
  pose proof (ru_apart _ _ _ _ _ _ _ Hr) as Hap. pose proof (ru_alone _ _ _ _ _ _ _ Hr) as Hal. rewrite bind_app in Hal. apply not_elem_of_app in Hal as [Hal1 Hal2].
  assert (length (tabPaths e') = length (tabs e')) as Hlen' by (cbn; lia). pose proof (running_paths _ _ _ _ _ _ _ Hr) as Hps.
  assert (apart (tabPaths e)) as Hap1 by (eapply apart_sublist; [|exact Hap]; by apply sublist_cons, sublist_inserts_r).
  exists (sync db e' d). split; [unfold stop; by rewrite E|]. split; [|intros q H1 H2; by apply sync_frame].
  assert (forall q, q ∈ bundle db -> q ∉ tabPaths e ≫= bundle) as Hdb.
  { intros q Hq. unfold apart in Hap. cbn [mbind list_bind] in Hap. apply NoDup_app in Hap as (_&H2&_). specialize (H2 q Hq).
    fold (mbind (M := list) bundle (tabPaths e ++ tempFiles e)) in H2. rewrite bind_app in H2. by apply not_elem_of_app in H2 as [H2 _]. }
  split; try done; [| |apply (ru_catalog _ _ _ _ _ _ _ Hr)| | | |apply (ru_sound _ _ _ _ _ _ _ Hr)].
  - right. rewrite <- (ru_store _ _ _ _ _ _ _ Hr). apply open_same. intros q Hq. apply sync_frame; [done|by apply Hdb|]. intros ->. by apply (catalogPath_bundle db).
  - destruct (ru_catalog _ _ _ _ _ _ _ Hr) as (_&_&_&Hf). destruct c as [[b w] m]. cbn in Hf, Hc |- *. subst w. f_equal. unfold sync. cbn [catalog e' set_tabs]. rewrite Hc. cbn.
    destruct b as [b|]; cbn [fs set_fs]; [by rewrite lookup_insert_eq|]. symmetry. rewrite put_all_frame by (rewrite snd_zip by (cbn in *; lia); done).
    by apply (ru_file _ _ _ _ _ _ _ Hr).
  - intros name. pose proof (ru_schemas _ _ _ _ _ _ _ Hr name) as Hs. destruct (cat_entries c !! name) as [en|] eqn:Een; cbn in Hs.
    + destruct (running_entry _ _ _ _ _ _ _ _ _ Hr Een) as (a&tb&R&Ha&Htb&HR&Hh&Hsch&Hp). rewrite HR. constructor. split; [done|].
      destruct (Hclosed name a tb R Ha Htb Hh) as (t'&Ht'&Hcl&t1&Eo&H1). exists t1. by rewrite (sync_table db e' d a t').
    + destruct (D !! name); [done|constructor].
  - eapply apart_submseteq; [|exact Hap]. apply submseteq_skip. rewrite Ht. by apply submseteq_app.
  - rewrite bind_app, not_elem_of_app. rewrite <- Ht. split; [|done]. intros Hin. apply Hal1. apply (elem_of_submseteq _ _ _ Hin). by apply bind_submseteq.
Qed.
End closing.

Lemma tableNames_inv l name a : NoDup (eName <$> l) -> tableNames 0 l ∅ !! name = Some a -> exists en, l !! a = Some en /\ eName en = name.
Proof.
  intros Hd Ha. destruct (decide (name ∈ eName <$> l)) as [Hin|Hn]; [|by rewrite tableNames_other, lookup_empty in Ha].
  apply list_elem_of_fmap in Hin as (en&->&Hin). apply list_elem_of_lookup in Hin as [j Hj]. rewrite (tableNames_at 0 l ∅ j en Hd Hj) in Ha. injection Ha as <-. by exists en.
Qed.

(** ** Starting *)

Section starting.
Context `{Codec : IndexCodec} {Gob : IndexCodecLaws} `{Fmt : Formats} `{Text : GoText} `{Syn : GoSyntax} `{Json : JsonCodec} {JLaws : JsonCodecLaws} `{Order : MapOrder}.

Lemma Open_unused f : unused f -> exists s0, Open f = (Ok s0, files_of s0) /\ files_of s0 = empty_files.
Proof using Gob.
  intros [-> | ->]; eexists; [split; reflexivity|]. split; [|shelve]. eapply Open_unfold; [reflexivity|]. unfold openSteps.
  erewrite bind_ok by reflexivity. erewrite bind_ok by (apply wrap_ok; unfold loadIndex; rewrite bind_get; cbn; rewrite gob_roundtrip; reflexivity). reflexivity.
  Unshelve. reflexivity.
Qed.

Lemma open_store db d : unused (open_files db d) ->
  exists s0 d1, onFiles db Open d = (Ok s0, d1) /\ open_files db d1 = empty_files /\ forall q, q ∉ bundle db -> fs d1 !! q = fs d !! q.
Proof using Gob.
  intros Hf. destruct (Open_unused _ Hf) as (s0&E0&Ef). exists s0, (put_files db empty_files d). unfold onFiles. rewrite E0, Ef.
  split_and!; [done| |intros q Hq; by apply put_frame]. apply open_put. by split_and!.
Qed.

(** The executor over the tables of the catalog. *)
Definition opened_db (tables : list (Table * bytes)) (c : Catalog) (ts : list bytes) : Executor :=
  NewExecutorWithCatalog tables (tableNames 0 (Entries c) ∅) (Some c) ts.

Lemma opened_sim (tables : list (Table * bytes)) (c : Catalog) (D : database) (ts : list bytes) (n : Z) (rel : bytes -> relation) :
  entries_ok (cat_entries c) -> (forall name, option_Forall2 (fun en R => eSchema en = R.1 /\ R = rel name) (cat_entries c !! name) (D !! name)) ->
  Forall2 (fun en (tp : Table * bytes) => holds n tp.1 (rel (eName en))) (Entries c) tables -> 0 <= n < 2 ^ 32 - 2 ->
  sql_sim (opened_db tables c ts) (MkSql D (Some c) ts) n.
Proof.
  intros Hok HD Ht Hn. pose proof (Entries_names c Hok) as Hnd. split; [|done|done|done]. split; [done| |].
  - intros name. cbn [rels Tables opened_db NewExecutorWithCatalog]. specialize (HD name). destruct (cat_entries c !! name) as [en|] eqn:Een; inversion HD as [? R [Hs ->]|]; subst.
    + assert (eName en = name) as <- by (apply (Hok _ _ Een)). assert (en ∈ Entries c) as [j Hj]%list_elem_of_lookup by (by apply elem_Entries).
      rewrite (tableNames_at 0 _ _ j en) by done. constructor. destruct (Forall2_lookup_l _ _ _ _ _ Ht Hj) as ([t p]&Hjt&st&Hsim&Hsc&Hb).
      exists t, st. split_and!; try done. cbn. by rewrite list_lookup_fmap, Hjt.
    + rewrite tableNames_other, lookup_empty; [constructor|]. intros (en&->&Hin)%list_elem_of_fmap. apply elem_Entries in Hin; [|done]. congruence.
  - intros n1 n2 a H1 H2. apply tableNames_inv in H1 as (en1&E1&<-), H2 as (en2&E2&<-); try done. congruence.
Qed.

Lemma starts db d c D ts n :
  on_disk db d c D ts n ->
  exists s0 d1 tables d2, onFiles db Open d = (Ok s0, d1) /\ OpenCatalog (MkCatFile (fs d1 !! (db ++ catalogSuffix)) None) = Ok c /\
    openEntries db s0 (Entries c) d1 = (Ok tables, d2) /\ running db d2 (opened_db tables c ts) c D ts n /\
    tabPaths (opened_db tables c ts) = ePath <$> Entries c /\
    forall q, q ∉ bundle db -> q ∉ (ePath <$> Entries c) ≫= bundle -> fs d2 !! q = fs d !! q.
Proof using All.
  intros [Hst Hfile Hcat Htab Hap Hal HD Hn]. pose proof Hcat as (_&Hok&Hsv&Hf). destruct (open_store db d Hst) as (s0&d1&E0&Hst1&Hfr1). exists s0, d1.
  pose proof (Entries_names c Hok) as Hnd. set (rel := fun name => default (MkSchema [] ∅, ∅) (D !! name)).
  assert (apart (db :: (ePath <$> Entries c))) as Hap1 by (eapply apart_sublist; [|exact Hap]; by apply sublist_skip, sublist_inserts_r).
  assert (forall q, q ∈ bundle db -> q ∉ (ePath <$> Entries c) ≫= bundle) as Hdb.
  { intros q Hq. unfold apart in Hap1. cbn [mbind list_bind] in Hap1. apply NoDup_app in Hap1 as (_&H2&_). by apply H2. }
  destruct (openEntries_ok db s0 (Entries c) d1 n rel Hap1) as (tables&d2&E2&Hpaths&Hholds&Hfr2).
  { apply Forall_forall. intros en Hin. assert (cat_entries c !! eName en = Some en) as Hen by (by apply elem_Entries). specialize (Htab (eName en)). rewrite Hen in Htab.
    inversion Htab as [? R HR Ea Eb|]; subst. unfold rel. rewrite <- Eb. cbn. eapply stored_same; [|exact HR]. intros q Hq. apply Hfr1. intros Hq'. apply (Hdb q Hq').
    apply list_elem_of_bind. exists (ePath en). split; [done|]. by apply list_elem_of_fmap_2. }
  rewrite bind_app in Hal. apply not_elem_of_app in Hal as [Hal1 Hal2].
  assert (fs d2 !! catalogPath db = fs d !! catalogPath db) as Hcf by (rewrite Hfr2, Hfr1; [done|apply catalogPath_bundle|done]).
  exists tables, d2. split_and!; [done| |done| |done|].
  - rewrite Hfr1 by apply catalogPath_bundle. fold (catalogPath db). rewrite <- Hfile, (OpenCatalog_saved (cat_file c) (cat_entries c)) by done. by destruct c.
  - split; try done; cbn [opened_db NewExecutorWithCatalog tabPaths tempFiles].
    + apply (opened_sim tables c D ts n rel); try done. intros name. unfold rel. specialize (Htab name).
      destruct Htab as [en R [Hs _]|]; constructor. by split.
    + split; [cbn; by rewrite !length_fmap|]. intros c' [= <-] _. split; [intros name en Hen; apply (Hok _ _ Hen)|]. cbn. intros name a Ha.
      apply tableNames_inv in Ha as (en&Ha&<-); [|done]. exists en. split; [apply elem_Entries; [done|by eapply list_elem_of_lookup_2]|].
      by rewrite Hpaths, list_lookup_fmap, Ha.
    + intros name. specialize (Htab name). destruct Htab as [en R [Hs _]|]; cbn; congruence.
    + by rewrite Hpaths.
    + rewrite Hpaths, bind_app, not_elem_of_app. done.
    + rewrite (open_same db d1); [done|]. intros q Hq. by apply Hfr2, Hdb.
    + rewrite Hcf, Hfile. done.
  - intros q H1 H2. rewrite Hfr2, Hfr1; done.
Qed.
End starting.
