(* ===== verification/Lives.v ===== *)
(** * The lives of a server

    A server is started with a seed file, serves its clients and is stopped, any
    number of times on the same disk. The specification knows relations, their
    registration and the responses; the disk and the files are gone from it. *)
From S2P Require Import Prelude OrderedMap Page BufferPool Pager BTree BTreeProofs Wal Record Store StoreInv StoreProofs StoreSpec StoreRecovery Value Text RowCodec Table StoreContract StoreReopen TableInv TableProofs TableSpec TableOpen TableChange Catalog Backup SqlLex SqlParse SqlEval SqlExec SqlTx SqlRollback SqlSpec SqlBatch SqlSchema SqlScripts Server ServerProofs ServerSpec Cli Startup Restart.

#[local] Set Default Proof Using "Type".

(** ** Registration *)

Section registration.
Context `{Fmt : Formats} `{Text : GoText} `{Syn : GoSyntax} `{Json : JsonCodec} `{Order : MapOrder}.
Implicit Types (W : sqlstate) (c : Catalog) (D : database).

(** The catalog lists exactly the relations with their schemas. *)
Definition lists c D : Prop := forall name, eSchema <$> cat_entries c !! name = fst <$> D !! name.

(** The texts of a new entry are ASCII. *)
Definition registrable (s : Statement) W : Prop :=
  match s with
  | SCreateTable q => forall path ts, temps W = path :: ts -> ascii_entry (MkEntry (ToLower (ctTable q)) path (new_schema q))
  | SAlterTable q => forall R path, relation_of (atTable q) (rels W) = Ok R -> ascii path -> ascii_entry (MkEntry (ToLower (atTable q)) path (schema_after q R.1))
  | _ => True
  end.

(** A catalog without a file was never saved. *)
Definition unsaved (c c' : Catalog) : Prop := cat_data (cat_file c') = None -> cat_data (cat_file c) = None.

Record recorded W c : Prop := { rc_cat : cat W = Some c; rc_rep : catalog_rep c (cat_entries c); rc_lists : lists c (rels W) }.

Lemma save_unsaved c c0 : cat_file c0 = cat_file c -> unsaved c (save c0).2.
Proof. intros E. unfold unsaved, save. rewrite bind_get, E. destruct (cat_fault (cat_file c)) as [[[] ?]|]; cbn; congruence. Qed.
Lemma Set_unsaved en c : unsaved c (Set_ en c).2.
Proof. unfold Set_. case_decide; [by intros ?|]. destruct (validate (eSchema en)) as [[]| | |]; try (by intros ?). do 2 erewrite bind_ok by reflexivity. by apply save_unsaved. Qed.
Lemma Delete_unsaved name c : unsaved c (Catalog.Delete name c).2.
Proof. unfold Catalog.Delete. erewrite bind_ok by reflexivity. by apply save_unsaved. Qed.

Lemma lists_grows c D D' k : lists c D -> grows D D' k -> lists c D'.
Proof. intros H Hg name. rewrite H. destruct (Hg name) as [R R' [HR _]|]; cbn; congruence. Qed.
Lemma lists_insert c c' D name en s T :
  lists c D -> cat_entries c' = <[name := en]> (cat_entries c) -> eSchema en = s -> lists c' (<[name := (s, T)]> D).
Proof. intros H E Hs name'. rewrite E. destruct (decide (name' = name)) as [->|Hne]; [rewrite !lookup_insert_eq; cbn; congruence|by rewrite !lookup_insert_ne]. Qed.
Lemma lists_delete c c' D name : lists c D -> cat_entries c' = base.delete name (cat_entries c) -> lists c' (base.delete name D).
Proof. intros H E name'. rewrite E. destruct (decide (name' = name)) as [->|Hne]; [by rewrite !lookup_delete_eq|by rewrite !lookup_delete_ne]. Qed.

(** Registering an entry in a catalog that works. *)
Lemma Set_rep c en : catalog_rep c (cat_entries c) -> ascii_entry en ->
  (exists c', Set_ en c = (Ok tt, c') /\ catalog_rep c' (cat_entries c') /\ cat_entries c' = <[eName en := en]> (cat_entries c)) \/
  ((eName en = [] \/ ePath en = [] \/ validate (eSchema en) <> Ok tt) /\ is_ok (Set_ en c).1 = false /\ (Set_ en c).2 = c).
Proof.
  intros Hc Ha. destruct (catalog_step_refines (CSet en) c (cat_entries c) Hc Ha) as (c'&E&Hc'). cbn [catalog_step spec_catalog_step] in *.
  case_decide as Hd; [right; unfold Set_; rewrite decide_True by done; split; [naive_solver|done]|].
  destruct (validate (eSchema en)) as [[]|x| |] eqn:Ev;
    try (right; unfold Set_; rewrite decide_False by done; cbv [mbind M_bind lift]; rewrite Ev; split_and!; [right; right; congruence|done|done]).
  cbn [fst snd] in *. left. exists c'. split; [done|]. pose proof Hc' as (He&_). by rewrite He.
Qed.

Lemma full_recorded s W c : recorded W c -> registrable s W -> exists c', recorded (spec_full s W).2 c' /\ unsaved c c'.
Proof.
  assert (forall W', cat W' = Some c /\ catalog_rep c (cat_entries c) /\ lists c (rels W') -> exists c', recorded W' c' /\ unsaved c c') as Hsame
    by (intros W' (?&?&?); exists c; split; [by split|by intros ?]).
  intros [Hcat Hrep Hl] Hreg. destruct s; cbn [spec_full]; try (by apply Hsame);
    try (match goal with |- context [spec_statement ?x ?D] => pose proof (spec_statement_grows x D) as Hg; destruct (spec_statement x D) as [a D'];
           apply Hsame; split_and!; [done|done|by eapply lists_grows] end).
  - unfold spec_create. destruct (rels W !! _) eqn:ER; [by apply Hsame|]. destruct (temps W) as [|path ts] eqn:Et; [by apply Hsame|].
    destruct (validate (new_schema q)) as [[]| | |]; try (by apply Hsame). rewrite Hcat. cbn [with_catalog].
    pose proof (Set_unsaved (MkEntry (ToLower (ctTable q)) path (new_schema q)) c) as Hu.
    destruct (Set_rep c (MkEntry (ToLower (ctTable q)) path (new_schema q)) Hrep) as [(c'&E&Hc'&He)|(_&Hno&Heq)]; [by apply (Hreg path ts)| |].
    + rewrite E in *. exists c'. split; [|done]. split; [done|done|]. cbn [rels snd is_ok]. by eapply lists_insert.
    + destruct (Set_ _ c) as [o c']. cbn [fst snd] in *. subst c'. rewrite Hno. by apply Hsame.
  - unfold spec_drop. destruct (rels W !! _) eqn:ER; [|by apply Hsame]. rewrite Hcat. cbn [with_catalog].
    pose proof (Delete_unsaved (ToLower table) c) as Hu. destruct (catalog_step_refines (CDelete (ToLower table)) c (cat_entries c) Hrep I) as (c'&E&Hc').
    cbn [catalog_step spec_catalog_step fst snd] in *. rewrite E in *. exists c'. split; [|done]. pose proof Hc' as (He&_). split; [done|by rewrite He|]. by eapply lists_delete.
  - unfold spec_alter. destruct (relation_of (atTable q) (rels W)) as [R| | |] eqn:ER; try (by apply Hsame).
    destruct (validate (schema_after q R.1)) as [[]| | |] eqn:Ev; try (by apply Hsame). rewrite Hcat. cbn [with_catalog]. rewrite bind_get.
    assert (exists en, cat_entries c !! ToLower (atTable q) = Some en) as [en Hen].
    { unfold relation_of in ER. destruct (rels W !! ToLower (atTable q)) as [R'|] eqn:E; [|done]. pose proof (Hl (ToLower (atTable q))) as H. rewrite E in H.
      destruct (cat_entries c !! _) as [en|]; [by exists en|done]. }
    destruct Hrep as (He0&Hok&Hrest). destruct (Hok _ _ Hen) as (Hname&Hn&Hp&_&Hasc). assert (keyed (cat_entries c)) as Hk by (intros k e' H'; apply (Hok _ _ H')).
    rewrite (find_entry c _ en Hk Hen). set (en' := MkEntry (ToLower (atTable q)) (ePath en) (schema_after q R.1)). pose proof (Set_unsaved en' c) as Hu.
    destruct (Set_rep c en') as [(c'&E&Hc'&He)|([H|[H|H]]&_)]; [done|apply (Hreg R); [done|apply Hasc]| |cbn in H; congruence|done|done].
    rewrite E in *. exists c'. split; [|done]. split; [done|done|]. cbn [rels snd]. by eapply lists_insert.
Qed.

Definition registrable_request (input : bytes) W : Prop :=
  match parseAll (splitStatements input) with Ok [s] => registrable s W | _ => True end.

Lemma spec_all_grows ss out D : grows D (spec_all ss out D).2 (total_cost ss D).
Proof.
  revert out D. induction ss as [|s ss IH]; intros out D; cbn [spec_all total_cost snd]; [by apply grows_refl|].
  pose proof (spec_statement_grows s D) as Hg. pose proof (total_cost_nonneg ss (spec_statement s D).2) as Hn.
  destruct (spec_statement s D) as [[[r [err|]]|x| |] D1]; cbn [fst snd] in *; try (eapply grows_weaken; [|exact Hg]; lia).
  eapply grows_trans; [exact Hg|apply IH].
Qed.

Lemma request_recorded input W c : recorded W c -> registrable_request input W -> exists c', recorded (spec_request input W).2 c' /\ unsaved c c'.
Proof.
  intros Hr Hreg. unfold registrable_request, spec_request in *. assert (exists c', recorded W c' /\ unsaved c c') as Hsame by (exists c; split; [done|by intros ?]).
  destruct (splitStatements input) as [|p parts]; [done|]. destruct (parseAll (p :: parts)) as [ss| | |]; try done.
  assert (exists c', recorded (let '(x, D) := spec_batch ss (rels W) in (x, set_rels D W)).2 c' /\ unsaved c c') as Hb.
  { destruct Hr as [H1 H2 H3]. unfold spec_batch. pose proof (spec_all_grows ss empty_result (rels W)) as Hg.
    destruct (spec_all ss empty_result (rels W)) as [[[r [err|]]|x| |] D1]; cbn [snd set_rels] in *;
      (exists c; split; [split; [done|done|done || by eapply lists_grows]|by intros ?]). }
  destruct ss as [|s0 [|s2 ss]]; [done| |done]. by apply full_recorded.
Qed.

(** ** The seed file *)

(** Every statement is admissible, can be registered and succeeds. *)
Fixpoint seed_ok (statements : list bytes) W : Prop :=
  match statements with
  | [] => True
  | st :: statements =>
      let st := TrimSpace st in
      if decide (st = []) then seed_ok statements W
      else admissible_request st W /\ registrable_request st W /\ (exists r, (spec_request st W).1 = Ok (r, None)) /\ seed_ok statements (spec_request st W).2
  end.
Fixpoint spec_seed (statements : list bytes) W : sqlstate :=
  match statements with
  | [] => W
  | st :: statements => let st := TrimSpace st in if decide (st = []) then spec_seed statements W else spec_seed statements (spec_request st W).2
  end.
Fixpoint seed_cost (statements : list bytes) W : Z :=
  match statements with
  | [] => 0
  | st :: statements =>
      let st := TrimSpace st in if decide (st = []) then seed_cost statements W else request_cost st W + seed_cost statements (spec_request st W).2
  end.
Lemma seed_cost_nonneg statements W : 0 <= seed_cost statements W.
Proof.
  revert W. induction statements as [|st l IH]; intros W; cbn [seed_cost]; [done|]. case_decide; [apply IH|].
  pose proof (request_cost_nonneg (TrimSpace st) W). specialize (IH (spec_request (TrimSpace st) W).2). lia.
Qed.
End registration.

(** ** A running server executes requests with its catalog *)

Section executing.
Context `{Codec : IndexCodec} {Gob : IndexCodecLaws} `{Fmt : Formats} `{Text : GoText} `{Syn : GoSyntax} `{Json : JsonCodec} `{Order : MapOrder} {Laws : MapOrderLaws}.
Implicit Types (W : sqlstate) (e : Executor) (n : Z).
#[local] Set Default Proof Using "All".

(** A running server, with the state of the specification. *)
Definition runs db d e W n : Prop := exists c, cat W = Some c /\ running db d e c (rels W) (temps W) n.
Definition all_paths e : list bytes := tabPaths e ++ tempFiles e.

Lemma request_running db d e W n input :
  runs db d e W n -> admissible_request input W -> registrable_request input W -> request_cost input W <= n ->
  exists e', Execute input e = ((spec_request input W).1, e') /\ runs db d e' (spec_request input W).2 (n - request_cost input W) /\ sublist (all_paths e') (all_paths e).
Proof.
  intros (c&Hc&[Hsim Hf Hcat Hl Hap Hal HD Hst Hfile]) Hok Hreg Hn. assert (MkSql (rels W) (Some c) (temps W) = W) as EW by (destruct W; cbn in *; congruence). rewrite EW in Hsim.
  destruct (request_refines e W n input Hsim HD Hok Hn) as (e'&E&Hsim'&HD'&[Hf' Hsub]&_). exists e'. split; [done|]. split; [|done].
  destruct (request_recorded input W c) as (c'&[Hc' Hcat' Hl']&Hu); [by split|done|]. exists c'. split; [done|].
  assert (MkSql (rels (spec_request input W).2) (Some c') (temps (spec_request input W).2) = (spec_request input W).2) as EW' by (destruct (spec_request input W) as [x []]; cbn in *; congruence).
  split; try done; [by rewrite EW'|by apply Hf'| | |by intros H; apply Hfile, Hu].
  - eapply apart_sublist; [|exact Hap]. by apply sublist_skip.
  - intros Hin. apply Hal. apply (elem_of_submseteq _ _ _ Hin). by apply bind_submseteq, sublist_submseteq.
Qed.

Lemma seed_running db d e W n i l :
  runs db d e W n -> seed_ok l W -> seed_cost l W <= n ->
  exists e', seedLoop i l e = (Ok tt, e') /\ runs db d e' (spec_seed l W) (n - seed_cost l W) /\ sublist (all_paths e') (all_paths e).
Proof.
  revert e W n i. induction l as [|st l IH]; intros e W n i Hr Hok Hn; cbn [seedLoop seed_ok seed_cost spec_seed] in *.
  { exists e. by rewrite Z.sub_0_r. }
  case_decide as Hb; [by apply IH|]. destruct Hok as (Ha&Hreg&[r Er]&Hok). pose proof (seed_cost_nonneg l (spec_request (TrimSpace st) W).2) as H0.
  destruct (request_running db d e W n (TrimSpace st) Hr Ha Hreg) as (e1&E1&Hr1&S1); [lia|]. rewrite Er in E1. rewrite (bind_ok _ _ _ _ _ E1). cbn [snd].
  destruct (IH e1 _ _ (i + 1) Hr1 Hok) as (e2&E2&Hr2&S2); [lia|]. exists e2. rewrite E2. split_and!; [done| |by etrans].
  by replace (n - (request_cost (TrimSpace st) W + seed_cost l (spec_request (TrimSpace st) W).2))
    with (n - request_cost (TrimSpace st) W - seed_cost l (spec_request (TrimSpace st) W).2) by lia.
Qed.
End executing.

(** ** The network *)

Section network.
Context `{Codec : IndexCodec} `{Fmt : Formats} `{Text : GoText} `{Syn : GoSyntax} `{Json : JsonCodec} `{Order : MapOrder} {Laws : MapOrderLaws} `{Net : GoNet}.
Implicit Types (V : service) (o : serverOptions) (n : Z).

(** The server of [launch] for an executor. *)
Definition server_of o (e : Executor) : Server := MkServer e (username o) (if decide (username o = []) then [] else Sum256 (password o)) false false ∅.
Definition credentials o (line : bytes) : bool := authenticates (server_of o (NewExecutor [] ∅ [])) line.

(** Clients connect, [Accept] may fail and is tried again, lines arrive. *)
Definition spec_net_event o (ev : net_event) V : service :=
  match ev with
  | Accepted i => MkService (<[i := MkConn (if decide (username o = []) then Serving else Login) None []]> (sv_conns V)) (sv_data V)
  | Sent i l => spec_event (credentials o) (i, l) V
  | _ => V
  end.
Definition spec_net o (evs : list net_event) V : service := foldl (fun V ev => spec_net_event o ev V) V evs.

(** Requests over the network leave the schemas alone. *)
Definition admissible_net_event (ev : net_event) V : Prop :=
  match ev with Interrupted => False | Sent i l => admissible_event (i, l) V /\ data_event (i, l) V | _ => True end.
Definition net_cost (ev : net_event) V : Z := match ev with Sent i l => event_cost (i, l) V | _ => 0 end.

Fixpoint admissible_net o (evs : list net_event) (n : Z) V : Prop :=
  match evs with
  | [] => 0 <= n
  | ev :: evs => admissible_net_event ev V /\ admissible_net o evs (n - net_cost ev V) (spec_net_event o ev V)
  end.
Fixpoint net_total o (evs : list net_event) V : Z := match evs with [] => 0 | ev :: evs => net_cost ev V + net_total o evs (spec_net_event o ev V) end.

Lemma net_cost_nonneg ev V : 0 <= net_cost ev V.
Proof. destruct ev; try done. apply event_cost_nonneg. Qed.
Lemma net_room o evs n V : admissible_net o evs n V -> 0 <= n.
Proof.
  revert n V. induction evs as [|ev evs IH]; intros n V; cbn [admissible_net]; [done|]. intros [_ H]. apply IH in H. pose proof (net_cost_nonneg ev V). lia.
Qed.
Lemma net_total_room o evs n V : admissible_net o evs n V -> net_total o evs V <= n.
Proof. revert n V. induction evs as [|ev evs IH]; intros n V; cbn [admissible_net net_total]; [done|]. intros [_ H]. apply IH in H. lia. Qed.

(** The end of the process: the signal, and the error of [Accept] that follows. *)
Definition shutdown_events : list net_event := [Interrupted; AcceptFailed].

#[local] Set Default Proof Using "All".

Lemma deliver_not_crashed s V n ev s' : server_sim s V n -> deliver ev.1 ev.2 s = Some s' -> same_server s s' -> crashed s' = false.
Proof using Type. intros Hs _ (_&_&_&->). apply (sv_free _ _ _ Hs). Qed.

Lemma net_refines o evs s V n :
  Username s = username o /\ passwordHash s = passwordHash (server_of o (world s)) -> server_sim s V n -> admissible_net o evs n V ->
  exists s', acceptLoop true (evs ++ shutdown_events) s = ErrClosed s' /\ server_sim s' (spec_net o evs V) (n - net_total o evs V) /\ framed (world s) (world s').
Proof.
  revert s V n. induction evs as [|ev evs IH]; intros s V n Hset Hs Hok; cbn [app acceptLoop admissible_net net_total] in *.
  { exists s. rewrite Z.sub_0_r. split_and!; [done|done|apply framed_refl]. }
  destruct Hok as [He Hes]. pose proof (net_room _ _ _ _ Hes) as H0. destruct Hset as [Hu Hh].
  assert (forall s', server_sim s' (spec_net_event o ev V) (n - net_cost ev V) -> Username s' = Username s /\ passwordHash s' = passwordHash s -> framed (world s) (world s') ->
    exists s'', acceptLoop true (evs ++ shutdown_events) s' = ErrClosed s'' /\ server_sim s'' (spec_net o evs (spec_net_event o ev V)) (n - (net_cost ev V + net_total o evs (spec_net_event o ev V))) /\
      framed (world s) (world s'')) as Hnext.
  { intros s' Hs' [Hu' Hh'] Hfr. destruct (IH s' _ _ ltac:(split; [congruence|rewrite Hh', Hh; done]) Hs' Hes) as (s''&E&Hs''&Hfr'). exists s''. split; [done|].
    replace (n - (net_cost ev V + net_total o evs (spec_net_event o ev V))) with (n - net_cost ev V - net_total o evs (spec_net_event o ev V)) by lia.
    split; [done|by eapply framed_trans]. }
  destruct ev as [i| | |i l]; cbn [spec_net_event net_cost admissible_net_event acceptLoop] in *; try done.
  - apply Hnext; [|done|apply framed_refl]. rewrite Z.sub_0_r. unfold accept. rewrite Hu. destruct Hs as [H1 H2 H3 H4 H5]. split; [exact H1|exact H2| | |exact H5]; cbn.
    + by rewrite H3.
    + apply map_Forall_insert_2; [|done]. split; [done|]. cbn. by case_decide.
  - apply Hnext; [by rewrite Z.sub_0_r|done|apply framed_refl].
  - destruct He as [He Hdata]. destruct (deliver_refines (credentials o) s V n (i, l)) as (s1&E1&Hss&Hs1&Hfr1); [|done|done|lia|].
    { intros line. unfold credentials, authenticates. cbn [Username passwordHash server_of] in *. by rewrite Hu, Hh. }
    cbn [fst snd] in *. rewrite E1, (deliver_not_crashed s V n (i, l) s1) by done. apply Hnext; [done|by destruct Hss as (?&?&_)|by apply Hfr1].
Qed.
End network.

(** ** A life *)

(** The seed file that is in place when the server starts, and what happens until it
    is stopped. *)
Record life := MkLife { lf_seed : option bytes; lf_events : list net_event }.

Definition place (path : bytes) (b : option bytes) (d : Disk) : Disk :=
  set_fs (match b with Some b => <[path := b]> (fs d) | None => base.delete path (fs d) end) d.

Section lives.
Context `{Fmt : Formats} `{Text : GoText} `{Syn : GoSyntax} `{Json : JsonCodec} `{Order : MapOrder} `{Net : GoNet}.
Implicit Types (W : sqlstate) (o : serverOptions) (n : Z) (l : life).

Definition seed_of l : list bytes := match lf_seed l with Some b => seedStatements b | None => [] end.

(** Connections have no catalog. *)
Definition service_of W : service := MkService ∅ (MkSql (rels W) None (temps W)).

Definition spec_life o l W : gmap nat Conn * sqlstate :=
  let W1 := spec_seed (seed_of l) W in
  let V := spec_net o (lf_events l) (service_of W1) in
  (sv_conns V, set_rels (rels (sv_data V)) W1).
Definition admissible_life o l n W : Prop :=
  seed_ok (seed_of l) W /\ admissible_net o (lf_events l) (n - seed_cost (seed_of l) W) (service_of (spec_seed (seed_of l) W)).
Definition life_cost o l W : Z := seed_cost (seed_of l) W + net_total o (lf_events l) (service_of (spec_seed (seed_of l) W)).

Fixpoint spec_lives o (ls : list life) W : list (gmap nat Conn) * sqlstate :=
  match ls with
  | [] => ([], W)
  | l :: ls => let '(x, W) := spec_life o l W in let '(xs, W) := spec_lives o ls W in (x :: xs, W)
  end.
Fixpoint admissible_lives o (ls : list life) n W : Prop :=
  match ls with
  | [] => True
  | l :: ls => admissible_life o l n W /\ admissible_lives o ls (n - life_cost o l W) (spec_life o l W).2
  end.

(** Data requests keep the schemas. *)
Lemma data_lists c input W : data_request input -> lists c (rels W) -> lists c (rels (spec_request input W).2).
Proof.
  unfold data_request, spec_request. intros Hd Hl. destruct (splitStatements input) as [|p parts]; [done|]. destruct (parseAll (p :: parts)) as [ss| | |]; try done.
  assert (lists c (rels (let '(x, D) := spec_batch ss (rels W) in (x, set_rels D W)).2)) as Hb.
  { unfold spec_batch. pose proof (spec_all_grows ss empty_result (rels W)) as Hg.
    destruct (spec_all ss empty_result (rels W)) as [[[r [err|]]|x| |] D1]; cbn [snd set_rels rels] in *; (done || by eapply lists_grows). }
  destruct ss as [|s0 [|s2 ss]]; [done| |done]. apply Forall_cons in Hd as [Hd _]. pose proof (spec_statement_grows s0 (rels W)) as Hg.
  destruct s0; try done; cbn [spec_full]; match goal with |- context [spec_statement ?x ?D] => destruct (spec_statement x D) as [a D'] end; cbn [snd set_rels rels] in *; exact (lists_grows c (rels W) D' _ Hl Hg).
Qed.

Lemma event_lists opens c ev V : data_event ev V -> lists c (rels (sv_data V)) -> lists c (rels (sv_data (spec_event opens ev V))).
Proof.
  unfold data_event, asked, spec_event. intros Hd Hl. destruct (sv_conns V !! ev.1) as [x|]; [|done]. cbn [fmap option_fmap option_map] in Hd.
  destruct (cPhase x), (ev.2) as [line|]; try done. unfold spec_line. destruct (line_query line) as [[query|err| |]|]; try done.
  pose proof (data_lists c query (sv_data V) Hd Hl) as H. by destruct (spec_request query (sv_data V)).
Qed.
Lemma net_lists o c evs n V : admissible_net o evs n V -> lists c (rels (sv_data V)) -> lists c (rels (sv_data (spec_net o evs V))).
Proof.
  revert n V. induction evs as [|ev evs IH]; intros n V Hok Hl; [done|]. destruct Hok as [He Hes]. apply (IH _ _ Hes).
  destruct ev; try done. destruct He as [_ He]. by apply event_lists.
Qed.
End lives.

(** ** The refinement *)

Section refinement.
Context `{Codec : IndexCodec} {Gob : IndexCodecLaws} `{Fmt : Formats} `{Text : GoText} `{Syn : GoSyntax} `{Json : JsonCodec} {JLaws : JsonCodecLaws} `{Order : MapOrder} {Laws : MapOrderLaws} `{Net : GoNet}.
Implicit Types (W : sqlstate) (o : serverOptions) (n : Z) (l : life).
#[local] Set Default Proof Using "All".

(** The seed file is no file of the database. *)
Definition free (seed db : bytes) (ps : list bytes) : Prop := seed ∉ (db :: ps) ≫= bundle /\ seed <> catalogPath db.

(** The disk of a stopped server, with the state of the specification. *)
Definition rests o d W n : Prop :=
  exists c, cat W = Some c /\ on_disk (dbPath o) d c (rels W) (temps W) n /\ free (seedPath o) (dbPath o) ((ePath <$> Entries c) ++ temps W).

Lemma free_submseteq seed db ps ps' : ps' ⊆+ ps -> free seed db ps -> free seed db ps'.
Proof using Type.
  intros Hs [H1 H2]. split; [|done]. intros Hin. apply H1. apply (elem_of_submseteq _ _ _ Hin). by apply bind_submseteq, submseteq_skip.
Qed.

Lemma place_rests o d W n b : rests o d W n -> rests o (place (seedPath o) b d) W n.
Proof.
  intros (c&Hc&[Hst Hfile Hcat Htab Hap Hal HD Hn]&Hf1&Hf2). exists c. split; [done|]. split; [|by split].
  assert (forall q, q <> seedPath o -> fs (place (seedPath o) b d) !! q = fs d !! q) as Hfr.
  { intros q Hq. unfold place. destruct b; cbn; [by rewrite lookup_insert_ne|by rewrite lookup_delete_ne]. }
  assert (forall p q, p ∈ dbPath o :: (ePath <$> Entries c) ++ temps W -> q ∈ bundle p -> q <> seedPath o) as Hne.
  { intros p q Hp Hq ->. apply Hf1. apply list_elem_of_bind. by exists p. }
  split; try done.
  - rewrite (open_same _ d); [done|]. intros q Hq. apply Hfr. eapply Hne; [|exact Hq]. by constructor.
  - rewrite Hfr by (by apply not_eq_sym). done.
  - intros name. specialize (Htab name). destruct (cat_entries c !! name) as [en|] eqn:Een; inversion Htab as [? R HR|]; subst; constructor.
    eapply stored_same; [|exact HR]. intros q Hq. apply Hfr. eapply Hne; [|exact Hq]. constructor. apply elem_of_app. left. apply list_elem_of_fmap_2.
    destruct Hcat as (_&Hok&_). apply elem_Entries; [done|]. by destruct (Hok _ _ Een) as [-> _].
Qed.

(** The credentials are given together. *)
Definition consistent o : Prop := username o = [] <-> password o = [].

Lemma server_of_new o e : consistent o ->
  (if decide (username o <> []) then NewWithAuth (Some e) (username o) (password o) else New (Some e)) = Ok (server_of o e).
Proof using Type.
  intros Ho. unfold server_of. case_decide as Hu.
  - unfold NewWithAuth. rewrite decide_False by (unfold consistent in Ho; tauto). by rewrite decide_False.
  - assert (username o = []) as -> by (by destruct (username o)). done.
Qed.

Lemma launch_runs o d W n l :
  rests o d W n -> consistent o -> fs d !! seedPath o = lf_seed l -> seed_ok (seed_of l) W -> seed_cost (seed_of l) W <= n ->
  exists e d', launch o (temps W) d = (Ok (server_of o e), d') /\ runs (dbPath o) d' e (spec_seed (seed_of l) W) (n - seed_cost (seed_of l) W) /\
    exists c, cat W = Some c /\ sublist (all_paths e) ((ePath <$> Entries c) ++ temps W).
Proof.
  intros (c&Hc&Hod&Hf1&Hf2) Ho Hseed Hok Hn. destruct (starts _ _ _ _ _ _ Hod) as (s0&d1&tables&d2&E0&Ec&E2&Hrun&Hpaths&Hfr).
  set (e0 := opened_db tables c (temps W)) in *. assert (runs (dbPath o) d2 e0 W n) as Hruns by (by exists c).
  destruct (seed_running (dbPath o) d2 e0 W n 0 (seed_of l) Hruns Hok Hn) as (e&Es&Hrun'&Hsub). exists e, d2. split_and!; [|done|].
  - unfold launch. cbv zeta. rewrite decide_False.
    2: { intros H. apply H. unfold consistent in Ho. repeat case_bool_decide; tauto. }
    erewrite bind_ok by (unfold catch; by rewrite E0). rewrite bind_get. erewrite bind_ok by (unfold catch, lift; by rewrite Ec).
    rewrite (bind_ok _ _ _ _ _ E2), bind_get. fold (opened_db tables c (temps W)). fold e0.
    assert (fs d2 !! seedPath o = lf_seed l) as Hs2.
    { rewrite Hfr; [done| |]; intros Hin; apply Hf1; cbn [mbind list_bind]; apply elem_of_app; [by left|right]. fold (mbind (M := list) bundle ((ePath <$> Entries c) ++ temps W)).
      rewrite bind_app. apply elem_of_app. by left. }
    assert (runSeed (seedFile (seedPath o) d2) e0 = (Ok tt, e)) as -> by (unfold seedFile; rewrite Hs2; unfold seed_of in Es; by destruct (lf_seed l)).
    by rewrite server_of_new.
  - exists c. split; [done|]. etrans; [exact Hsub|]. unfold all_paths. rewrite Hpaths. done.
Qed.

(** A new server has no connections. *)
Lemma launched_sim o db d e W n : runs db d e W n -> server_sim (server_of o e) (service_of W) n.
Proof using Type.
  intros (c&Hc&[[Hd Hcat Ht Hn] _ _ _ _ _ HD _ _]). split; try done. split; try done.
  destruct Hd as [Htx Htab Hinj]. by split.
Qed.

(** After requests that leave the schemas alone the server still runs. *)
Lemma served_runs o evs d e s W n :
  runs (dbPath o) d e W n -> admissible_net o evs n (service_of W) ->
  server_sim s (spec_net o evs (service_of W)) (n - net_total o evs (service_of W)) -> framed e (world s) ->
  runs (dbPath o) d (world s) (set_rels (rels (sv_data (spec_net o evs (service_of W)))) W) (n - net_total o evs (service_of W)).
Proof.
  intros (c&Hc&[[Hd Hcat Ht Hn] Hf Hrep Hl Hap Hal HD Hst Hfile]) Hok [Hsql HD' _ _ _] Hfr. exists c. split; [done|]. cbn [rels cat temps set_rels] in *.
  pose proof (framed_files _ _ Hfr) as [Hkeep _]. destruct Hfr as (tl&Hw&Hlen). destruct Hsql as [Hd' _ Ht' Hn']. split; try done; cbn [rels temps set_rels].
  - split; cbn [rels cat temps]; [|by rewrite Hw|by rewrite Hw|done]. destruct Hd' as [_ Htab Hinj]. split; [rewrite Hw; apply (db_tx _ _ _ Hd)|exact Htab|exact Hinj].
  - by apply Hkeep.
  - by apply (net_lists o c evs n (service_of W)).
  - by rewrite Hw.
  - by rewrite Hw.
Qed.

Lemma life_refines args o d W n l :
  serverFlags args = Ok o -> consistent o -> rests o d W n -> admissible_life o l n W ->
  exists s d', serverCommand args (temps W) None (lf_events l ++ shutdown_events) (place (seedPath o) (lf_seed l) d) = (Ok s, d') /\
    conns s = (spec_life o l W).1 /\ tempFiles (world s) = temps (spec_life o l W).2 /\ rests o d' (spec_life o l W).2 (n - life_cost o l W).
Proof.
  intros Ef Ho Hr [Hseed Hnet]. pose proof (net_room _ _ _ _ Hnet) as Hroom. pose proof Hr as (c0&Hc0&_&Hfree).
  destruct (launch_runs o (place (seedPath o) (lf_seed l) d) W n l) as (e&d1&El&Hrun&(c1&Hc1&Hsub)); [by apply place_rests|done| |done|lia|].
  { unfold place. destruct (lf_seed l); cbn; [apply lookup_insert_eq|apply lookup_delete_eq]. }
  rewrite Hc0 in Hc1. injection Hc1 as <-. set (W1 := spec_seed (seed_of l) W) in *. set (n1 := n - seed_cost (seed_of l) W) in *.
  destruct (net_refines o (lf_events l) (server_of o e) (service_of W1) n1) as (s&Ea&Hs&Hfr); [done|by eapply launched_sim|done|].
  pose proof (served_runs o (lf_events l) d1 e s W1 n1 Hrun Hnet Hs Hfr) as Hrun2. pose proof Hrun2 as (c2&Hc2&Hrun2').
  destruct (stop_stores (A := Server) _ _ _ _ _ _ _ (mret s) Hrun2') as (d2&Ed&Hod&_). exists s, d2. split_and!.
  - unfold serverCommand. erewrite bind_ok by (unfold lift; by rewrite Ef). rewrite (bind_ok _ _ _ _ _ El). cbn [ListenAndServe]. by rewrite Ea, Ed.
  - apply (sv_same _ _ _ Hs).
  - by rewrite (ss_temps _ _ _ (ru_sim _ _ _ _ _ _ _ Hrun2')).
  - exists c2. split; [done|]. split.
    + unfold spec_life, life_cost. fold W1. cbn [snd]. replace (n - (seed_cost (seed_of l) W + net_total o (lf_events l) (service_of W1))) with (n1 - net_total o (lf_events l) (service_of W1)) by (unfold n1; lia).
      exact Hod.
    + eapply free_submseteq; [|exact Hfree]. etrans; [|by apply sublist_submseteq]. unfold all_paths. destruct Hfr as (tl&Hw&_).
      pose proof (running_paths _ _ _ _ _ _ _ Hrun2') as Hp. rewrite Hw in Hp. change (tabPaths (set_tabs tl (world (server_of o e)))) with (tabPaths e) in Hp.
      apply submseteq_app; [done|]. destruct Hrun as (c3&_&Hrun3). rewrite (ss_temps _ _ _ (ru_sim _ _ _ _ _ _ _ Hrun3)). done.
Qed.

(** The lives of a server on one disk: what its connections were told. *)
Fixpoint run_lives (args : list bytes) (seed : bytes) (ls : list life) (ts : list bytes) : M Disk (list (gmap nat Conn)) :=
  match ls with
  | [] => mret []
  | l :: ls =>
      s ← (fun d => serverCommand args ts None (lf_events l ++ shutdown_events) (place seed (lf_seed l) d));
      rest ← run_lives args seed ls (tempFiles (world s));
      mret (conns s :: rest)
  end.

Lemma lives_refine args o ls d W n :
  serverFlags args = Ok o -> consistent o -> rests o d W n -> admissible_lives o ls n W ->
  exists d' n', run_lives args (seedPath o) ls (temps W) d = (Ok (spec_lives o ls W).1, d') /\ rests o d' (spec_lives o ls W).2 n'.
Proof.
  intros Ef Ho. revert d W n. induction ls as [|l ls IH]; intros d W n Hr Hok; cbn [run_lives spec_lives admissible_lives] in *; [by exists d, n|].
  destruct Hok as [Hl Hls]. destruct (life_refines args o d W n l Ef Ho Hr Hl) as (s&d1&E&Hc&Ht&Hr1). erewrite bind_ok by exact E.
  destruct (spec_life o l W) as [x W1]. cbn [fst snd] in *. destruct (IH d1 W1 _ Hr1 Hls) as (d2&n2&E2&Hr2). rewrite Ht, (bind_ok _ _ _ _ _ E2).
  exists d2, n2. destruct (spec_lives o ls W1) as [xs W2]. cbn [fst snd] in *. by rewrite Hc.
Qed.

(** An empty disk. *)
Definition nothing (ts : list bytes) : sqlstate := MkSql ∅ (Some (MkCatalog (MkCatFile None None) ∅)) ts.

Lemma rests_fresh o ts n :
  apart (dbPath o :: ts) -> catalogPath (dbPath o) ∉ ts ≫= bundle -> free (seedPath o) (dbPath o) ts -> 0 <= n < 2 ^ 32 - 2 -> rests o (MkDisk ∅ ∅ ∅) (nothing ts) n.
Proof using Type.
  intros Ha Hc Hf Hn. exists (MkCatalog (MkCatFile None None) ∅). split; [done|]. assert (Entries (MkCatalog (MkCatFile None None) ∅) = []) as E by done.
  rewrite E. split; [|done]. split; try done; rewrite ?E; try done.
  - by left.
  - intros name. cbn. rewrite !lookup_empty. constructor.
Qed.
End refinement.

(** C1: the database survives restarts. From an empty disk, a server is started and
    stopped any number of times with the same options; each time a seed file may
    create, alter, drop and fill tables, and clients connect, log in and read and
    write rows. Every start succeeds, every client is told what the specification
    says, which carries the relations from one life to the next, and nothing is lost
    when the process ends. Conditions ([admissible_lives]): every statement of a seed
    file succeeds (a seed that creates a table again is refused,
    [ServerRuns.seed_creates_once]), its schemas have ASCII names, and its requests
    are those of C5; clients send no schema change (they would be forgotten,
    [ServerRuns.server_forgets_tables]), no [BEGIN], [COMMIT] or [ROLLBACK], nothing
    on which the server panics, and only rows that read back as written; a connection
    is accepted before it sends; user and password are both set or both empty; the
    paths of the database, the temporary files, the catalog and the seed file do not
    overlap; the records stay below 2^32. *)
Theorem server_survives_restarts `{Codec : IndexCodec} {Gob : IndexCodecLaws} `{Fmt : Formats} `{Text : GoText} `{Syn : GoSyntax} `{Json : JsonCodec} {JLaws : JsonCodecLaws}
  `{Order : MapOrder} {Laws : MapOrderLaws} `{Net : GoNet} (args : list bytes) (o : serverOptions) (ls : list life) (ts : list bytes) (n : Z)
  (Hflags : serverFlags args = Ok o) (Hcred : consistent o) (Hpaths : apart (dbPath o :: ts)) (Hcat : catalogPath (dbPath o) ∉ ts ≫= bundle)
  (Hseed : free (seedPath o) (dbPath o) ts) (Hn : 0 <= n < 2 ^ 32 - 2) (Hok : admissible_lives o ls n (nothing ts)) :
  exists d' n', run_lives args (seedPath o) ls ts (MkDisk ∅ ∅ ∅) = (Ok (spec_lives o ls (nothing ts)).1, d') /\ rests o d' (spec_lives o ls (nothing ts)).2 n'.
Proof. apply (lives_refine args o ls (MkDisk ∅ ∅ ∅) (nothing ts) n Hflags Hcred); [by apply rests_fresh|done]. Qed.

(** ** Concrete lives *)

Section checking.
Context `{Fmt : Formats} `{Text : GoText} `{Syn : GoSyntax} `{Json : JsonCodec} `{Order : MapOrder} `{Net : GoNet}.

Definition ascii_entry_b (e : CatalogEntry) : bool :=
  bool_decide (ascii (eName e)) && bool_decide (ascii (ePath e)) && forallb (fun c => bool_decide (ascii (cName c))) (Columns (eSchema e)) &&
  forallb (fun x : bytes * ColumnConstraint => bool_decide (ascii x.1) &&
    match References x.2 with Some r => bool_decide (ascii (refTable r)) && bool_decide (ascii (refColumn r)) | None => true end) (map_to_list (Constraints (eSchema e))).
Lemma ascii_entry_b_ok e : ascii_entry_b e = true -> ascii_entry e.
Proof.
  unfold ascii_entry_b. intros [[[H1 H2]%andb_true_iff H3]%andb_true_iff H4]%andb_true_iff. apply bool_decide_eq_true_1 in H1, H2. rewrite forallb_forall in H3, H4.
  split_and!; [done|done| |].
  - apply Forall_forall. intros c Hc. specialize (H3 c (proj1 (list_elem_of_In _ _) Hc)). by apply bool_decide_eq_true_1 in H3.
  - intros k x Hk. specialize (H4 (k, x) (proj1 (list_elem_of_In _ _) (proj2 (elem_of_map_to_list _ k x) Hk))). cbn [fst snd] in H4.
    apply andb_true_iff in H4 as [H4 H5]. apply bool_decide_eq_true_1 in H4. split; [done|]. destruct (References x) as [r|]; [|done].
    apply andb_true_iff in H5 as [H5 H6]. apply bool_decide_eq_true_1 in H5, H6. by split.
Qed.

Definition registrable_b (s : Statement) (W : sqlstate) : bool :=
  match s with
  | SCreateTable q => match temps W with path :: _ => ascii_entry_b (MkEntry (ToLower (ctTable q)) path (new_schema q)) | [] => true end
  | SAlterTable q => match relation_of (atTable q) (rels W) with Ok R => ascii_entry_b (MkEntry (ToLower (atTable q)) [] (schema_after q R.1)) | _ => true end
  | _ => true
  end.
Lemma registrable_b_ok s W : registrable_b s W = true -> registrable s W.
Proof.
  destruct s; cbn [registrable registrable_b]; try done.
  - intros H path ts E. rewrite E in H. by apply ascii_entry_b_ok.
  - intros H R path E Hp. rewrite E in H. apply ascii_entry_b_ok in H as (?&_&?&?). by split_and!.
Qed.

Fixpoint seed_check (statements : list bytes) (W : sqlstate) : bool :=
  match statements with
  | [] => true
  | st :: statements =>
      let st := TrimSpace st in
      if decide (st = []) then seed_check statements W
      else request_check st W && match parseAll (splitStatements st) with Ok [s] => registrable_b s W | _ => true end &&
           match (spec_request st W).1 with Ok (_, None) => true | _ => false end && seed_check statements (spec_request st W).2
  end.
Lemma seed_check_ok l W : seed_check l W = true -> seed_ok l W.
Proof.
  revert W. induction l as [|st l IH]; intros W; cbn [seed_check seed_ok]; [done|]. case_decide; [apply IH|].
  intros [[[H1 H2]%andb_true_iff H3]%andb_true_iff H4]%andb_true_iff. split_and!; [by apply request_check_ok| | |by apply IH].
  - unfold registrable_request. destruct (parseAll _) as [[|s [|s2 ss]]| | |]; try done. by apply registrable_b_ok.
  - destruct (spec_request (TrimSpace st) W).1 as [[r [err|]]| | |]; try done. by exists r.
Qed.

Definition data_b (query : bytes) : bool := match parseAll (splitStatements query) with Ok ss => forallb relational ss | _ => true end.
Fixpoint net_check (o : serverOptions) (evs : list net_event) (n : Z) (V : service) : bool :=
  match evs with
  | [] => bool_decide (0 <= n)
  | ev :: evs =>
      match ev with
      | Interrupted => false
      | Sent i l => events_check (credentials o) [(i, l)] (event_cost (i, l) V) V && match asked (i, l) V with Some query => data_b query | None => true end
      | _ => true
      end && net_check o evs (n - net_cost ev V) (spec_net_event o ev V)
  end.
Lemma net_check_ok o evs n V : net_check o evs n V = true -> admissible_net o evs n V.
Proof.
  revert n V. induction evs as [|ev evs IH]; intros n V; cbn [net_check admissible_net]; [apply bool_decide_eq_true_1|].
  intros [He Hes]%andb_true_iff. split; [|by apply IH]. destruct ev as [i| | |i l]; try done. apply andb_true_iff in He as [He Hd]. split.
  - by apply events_check_ok in He as [He _].
  - unfold data_event. destruct (asked (i, l) V) as [query|]; [|done]. unfold data_request, data_b in *. destruct (parseAll _); try done.
    apply Forall_forall. intros s Hs. rewrite forallb_forall in Hd. by apply Hd, list_elem_of_In.
Qed.

Fixpoint lives_check (o : serverOptions) (ls : list life) (n : Z) (W : sqlstate) : bool :=
  match ls with
  | [] => true
  | l :: ls =>
      seed_check (seed_of l) W && net_check o (lf_events l) (n - seed_cost (seed_of l) W) (service_of (spec_seed (seed_of l) W)) &&
      lives_check o ls (n - life_cost o l W) (spec_life o l W).2
  end.
Lemma lives_check_ok o ls n W : lives_check o ls n W = true -> admissible_lives o ls n W.
Proof.
  revert n W. induction ls as [|l ls IH]; intros n W; cbn [lives_check admissible_lives]; [done|].
  intros [[H1 H2]%andb_true_iff H3]%andb_true_iff. split; [|by apply IH]. split; [by apply seed_check_ok|by apply net_check_ok].
Qed.
End checking.
