(* ===== verification/EndToEnd.v ===== *)
(** * The client and the server together

    The interactive client of [sqlCommand] on a connection of the server: what the
    user types reaches the executor, and what is printed is the answer of the
    specification. [decode] stands for what [encoding/json] makes of a response on
    its way (numbers arrive as floats, for instance); a response that the server fails
    to encode arrives as an empty line, which the client's decoder skips. *)
From S2P Require Import Prelude OrderedMap BTree Wal Record Store StoreProofs StoreSpec Value Text RowCodec Table StoreContract StoreReopen TableInv TableProofs TableSpec TableOpen TableChange Catalog Backup SqlLex SqlParse SqlEval SqlExec SqlTx SqlRollback SqlSpec SqlBatch SqlSchema SqlScripts Server ServerProofs ServerSpec Cli Startup.

(** The server and the number of lines that the client has read. *)
Abbreviation wire := (Server * nat)%type.

Section conversation.
Context `{Codec : IndexCodec} `{Fmt : Formats} `{Text : GoText} {TLaws : GoTextLaws} `{Syn : GoSyntax} `{Json : JsonCodec} `{Order : MapOrder} {Laws : MapOrderLaws} `{Net : GoNet}.
Context (decode : Response -> Response) (i : nat).
#[local] Set Default Proof Using "Type".

(** The next response among the lines from the [n]th on: empty ones are skipped. *)
Fixpoint next_response (n : nat) (out : list (option Response)) : option (Response * nat) :=
  match out with
  | [] => None
  | Some r :: _ => Some (r, S n)
  | None :: out => next_response (S n) out
  end.

(** The bytes that the client writes are read as lines; the client waits for a
    response that is not there. *)
Definition send (b : bytes) : M wire unit := fun w =>
  match deliver_all ((fun l => (i, Some l)) <$> scanLines [] b) w.1 with Some s => (Ok tt, (s, w.2)) | None => (NoFuel, w) end.
Definition receive : M wire Response := fun w =>
  match conns w.1 !! i ≫= fun c => next_response w.2 (drop w.2 (cOut c)) with Some (r, n) => (Ok (decode r), (w.1, n)) | None => (NoFuel, w) end.

(** A statement on one line. *)
Definition one_line (q : bytes) : Prop :=
  typed_line q /\ ends_statement q = true /\ leaves q = false /\ HasPrefix q (of_string "{") = false /\ plain_line q.

Lemma typed_query q : one_line q -> line_query q = Some (Ok q).
Proof using TLaws.
  intros ((Ha&Ht)&_&_&Hj&_). assert (TrimSpace q = q) as E by (rewrite TrimSpace_ascii by done; by apply trim_tight).
  assert (q <> []) as Hne by (by apply typed_nonempty). unfold line_query, request_query. rewrite E, decide_False, Hj by done. cbn [mbind outcome_bind].
  by rewrite E, decide_False.
Qed.

(** What is printed for a response. *)
Lemma printed_total (r : Response) : exists p, printResponse r = Ok p.
Proof.
  unfold printResponse. destruct (OK r); [|by eexists]. case_decide; [|by eexists].
  destruct (formatTable_total (rColumns r) (rRows r)) as [b E]. rewrite E. by eexists.
Qed.

#[local] Set Default Proof Using "All".

Lemma one_query s V n c q :
  server_sim s V n -> sv_conns V !! i = Some c -> cPhase c = Serving -> one_line q -> admissible_request q (sv_data V) ->
  ok_or_err (spec_request q (sv_data V)).1 -> marshals (response (spec_request q (sv_data V)).1) = true -> request_cost q (sv_data V) <= n ->
  let c' := answered [Some (response (spec_request q (sv_data V)).1)] c in
  let V' := MkService (<[i := c']> (sv_conns V)) (spec_request q (sv_data V)).2 in
  exists s', send (q ++ [Byte.x0a]) (s, length (cOut c)) = (Ok tt, (s', length (cOut c))) /\
    receive (s', length (cOut c)) = (Ok (decode (response (spec_request q (sv_data V)).1)), (s', length (cOut c'))) /\
    server_sim s' V' (n - request_cost q (sv_data V)).
Proof.
  intros Hs Hc Hp Hq Ha Ho Hm Hn. cbv zeta. pose proof (typed_query q Hq) as Hlq. destruct Hq as (Ht&_&_&Hj&Hpl).
  assert (asked (i, Some q) V = Some q) as Hask by (unfold asked; cbn [fst snd]; rewrite Hc; cbn [fmap option_fmap option_map]; by rewrite Hp, Hlq).
  destruct (deliver_refines (authenticates s) s V n (i, Some q)) as (s'&E&_&Hs'&_); [done|done| |by unfold event_cost; rewrite Hask|].
  { unfold admissible_event. rewrite Hask. cbn [fst snd]. split_and!; [by eexists| |done|done].
    assert (TrimSpace q = q) as -> by (rewrite TrimSpace_ascii by apply Ht; by apply trim_tight, Ht). unfold request_query. by rewrite Hj. }
  unfold event_cost in Hs'. rewrite Hask in Hs'. unfold spec_event, spec_line in Hs'. cbn [fst snd] in *. rewrite Hc, Hp, Hlq in Hs'.
  destruct (spec_request q (sv_data V)) as [x W']. unfold write in Hs'. cbn [fst snd] in *. rewrite Hm in Hs'. exists s'. split_and!; [| |done].
  - unfold send. cbn [fst snd]. pose proof (lines_roundtrip [q]) as Hl. cbn [fmap list_fmap concat] in Hl. rewrite app_nil_r in Hl. rewrite Hl by (by constructor).
    cbn [fmap list_fmap deliver_all]. by rewrite E.
  - unfold receive. cbn [fst snd]. rewrite (sv_same _ _ _ Hs'). cbn [sv_conns]. rewrite lookup_insert_eq. cbn [mbind option_bind answered cOut].
    rewrite drop_app_length. cbn. by rewrite length_app, Nat.add_comm.
Qed.

(** An answer that reaches the client: the executor did not panic, and JSON can
    express every value. *)
Definition encodable (x : answer) : Prop := ok_or_err x /\ marshals (response x) = true.

(** The terminal: a prompt before every statement, the answers in between. *)
Definition transcript (ps : list printed) : list printed := concat ((fun p => [Prompt false; p]) <$> ps) ++ [Prompt false].

Lemma conversation_refines qs s V n c :
  server_sim s V n -> sv_conns V !! i = Some c -> cPhase c = Serving -> Forall one_line qs ->
  admissible_requests qs n (sv_data V) -> Forall encodable (spec_requests qs (sv_data V)).1 ->
  exists w ps, sqlLoop send receive [] qs (s, length (cOut c)) = (Ok (transcript ps), w) /\
    Forall2 (fun x p => printResponse (decode (response x)) = Ok p) (spec_requests qs (sv_data V)).1 ps.
Proof.
  revert s V n c. induction qs as [|q qs IH]; intros s V n c Hs Hc Hp Hq Ha Ho.
  { eexists _, []. split; [reflexivity|constructor]. }
  apply Forall_cons in Hq as [Hq Hqs]. cbn [admissible_requests spec_requests] in *. destruct Ha as [Ha Has]. pose proof (requests_room _ _ _ Has) as Hroom.
  destruct (spec_request q (sv_data V)) as [x W'] eqn:Ex. destruct (spec_requests qs W') as [xs W''] eqn:Exs. cbn [fst snd] in *.
  apply Forall_cons in Ho as [[Hx Hm] Hos]. pose proof (one_query s V n c q Hs Hc Hp Hq Ha) as H1. cbv zeta in H1. rewrite Ex in H1. cbn [fst snd] in H1.
  destruct (H1 Hx Hm ltac:(lia)) as (s1&Es&Er&Hs1). destruct (printed_total (decode (response x))) as [p Ep].
  destruct (IH s1 _ _ _ Hs1 (lookup_insert_eq _ _ _) Hp Hqs) as (w&ps&El&Hps); cbn [sv_data]; [done|by rewrite Exs|]. cbn [sv_data] in Hps. rewrite Exs in Hps. cbn [fst] in Hps.
  exists w, (p :: ps). split; [|by constructor]. cbn [sqlLoop]. destruct Hq as (Ht&He&Hl&_). rewrite (clientLine_typed [] q) by done. rewrite He. cbn [app Join].
  rewrite Es, Er. erewrite bind_ok by (unfold lift; by rewrite Ep). rewrite (bind_ok _ _ _ _ _ El). done.
Qed.

(** How the client gets in: without a user, or with the server's credentials. *)
Definition gets_in (Quote : bytes -> bytes) (o : clientOptions) s c : Prop :=
  cOut c = [] /\
  ((clUser o = [] /\ clPassword o = [] /\ cPhase c = Serving) \/
   (clUser o <> [] /\ clPassword o <> [] /\ cPhase c = Login /\ plain_line (authText Quote (clUser o) (clPassword o)) /\
    authenticates s (authText Quote (clUser o) (clPassword o)) = true /\ ok_or_err (request_query (TrimSpace (authText Quote (clUser o) (clPassword o)))) /\
    OK (decode resp_ok) = true)).

Lemma login_refines Quote o s V n c :
  server_sim s V n -> sv_conns V !! i = Some c -> gets_in Quote o s c ->
  exists s' V' c', authenticate Quote send receive o (s, 0%nat) = (Ok tt, (s', length (cOut c'))) /\ server_sim s' V' n /\ sv_data V' = sv_data V /\
    sv_conns V' !! i = Some c' /\ cPhase c' = Serving.
Proof.
  intros Hs Hc [Hout [(Hu&_&Hp)|(Hu&_&Hp&Hpl&Hauth&Hj&Hok)]]; unfold authenticate.
  { rewrite decide_True by done. exists s, V, c. rewrite Hout. by split_and!. }
  rewrite decide_False by done. set (t := authText Quote (clUser o) (clPassword o)) in *.
  assert (asked (i, Some t) V = None) as Hask by (unfold asked; cbn [fst snd]; rewrite Hc; cbn [fmap option_fmap option_map]; by rewrite Hp).
  destruct (deliver_refines (authenticates s) s V n (i, Some t)) as (s'&E&_&Hs'&_); [done|done| |unfold event_cost; rewrite Hask; apply (ss_room _ _ _ (sv_sql _ _ _ Hs))|].
  { unfold admissible_event. rewrite Hask. cbn [fst snd]. split_and!; [by eexists|done|done]. }
  unfold event_cost in Hs'. rewrite Hask, Z.sub_0_r in Hs'. unfold spec_event in Hs'. cbn [fst snd] in *. rewrite Hc, Hp, Hauth in Hs'.
  change (write resp_ok) with (Some resp_ok) in Hs'. set (c' := MkConn Serving None (cOut c ++ [Some resp_ok])) in *. exists s', (MkService (<[i := c']> (sv_conns V)) (sv_data V)), c'.
  split_and!; [|done|done|apply lookup_insert_eq|done].
  pose proof (lines_roundtrip [t]) as Hl. cbn [fmap list_fmap concat] in Hl. rewrite app_nil_r in Hl.
  erewrite bind_ok by (unfold catch, send; cbn [fst snd]; rewrite Hl by (by constructor); cbn [fmap list_fmap deliver_all]; rewrite E; reflexivity).
  erewrite bind_ok by (unfold catch, receive; cbn [fst snd]; rewrite (sv_same _ _ _ Hs'); cbn [sv_conns]; rewrite lookup_insert_eq; cbn [mbind option_bind cOut c']; rewrite Hout; reflexivity).
  rewrite Hok. cbn [cOut c']. by rewrite Hout.
Qed.
End conversation.

(** C2: from the keyboard to the pages and back. A client connects to a server whose
    tables stand for the relations of [V], with the server's credentials or, when it
    has no user, without, and types statements. It prints a prompt and the answer of
    the specification for each, and nothing is left unanswered. Conditions: each
    statement is one line of ASCII text without surrounding blanks that ends with a
    semicolon, is not [exit] or [quit] and does not begin with a brace ([one_line]);
    the requests are those of C5 (no [BEGIN], no schema change together with another
    statement, only rows that read back as written); no answer is a panic, and JSON
    can express every answer ([encodable]: an infinite [SUM] is not answered,
    [ServerRuns.infinite_sum_unanswered]); the client decodes the server's OK as OK.
    *)
Theorem client_sees_database `{Codec : IndexCodec} `{Fmt : Formats} `{Text : GoText} {TLaws : GoTextLaws} `{Syn : GoSyntax} `{Json : JsonCodec} `{Order : MapOrder} {Laws : MapOrderLaws}
  `{Net : GoNet} (Quote : bytes -> bytes) (decode : Response -> Response) (args : list bytes) (o : clientOptions) (i : nat) (qs : list bytes) (s : Server) (V : service) (n : Z) (c : Conn)
  (Hflags : clientFlags args = Ok o) (Hs : server_sim s V n) (Hc : sv_conns V !! i = Some c) (Hin : gets_in decode Quote o s c)
  (Hqs : Forall one_line qs) (Hok : admissible_requests qs n (sv_data V)) (Hans : Forall encodable (spec_requests qs (sv_data V)).1) :
  exists w ps, sqlCommand Quote (send i) (receive decode i) args None qs (s, 0%nat) = (Ok (Greeting (clAddr o) :: transcript ps), w) /\
    Forall2 (fun x p => printResponse (decode (response x)) = Ok p) (spec_requests qs (sv_data V)).1 ps.
Proof.
  destruct (login_refines decode i Quote o s V n c Hs Hc Hin) as (s1&V1&c1&E1&Hs1&Hd&Hc1&Hp1). rewrite <- Hd in *.
  destruct (conversation_refines decode i qs s1 V1 n c1 Hs1 Hc1 Hp1 Hqs Hok Hans) as (w&ps&E2&Hps). exists w, ps. split; [|done].
  unfold sqlCommand. erewrite bind_ok by (unfold lift; by rewrite Hflags). rewrite decide_False.
  - rewrite (bind_ok _ _ _ _ _ E1), (bind_ok _ _ _ _ _ E2). done.
  - intros H. apply H. destruct Hin as [_ [(->&->&_)|(Hu&Hp&_)]]; [done|]. by rewrite !bool_decide_false.
Qed.
