(* ===== verification/Basic.v ===== *)
(** * The example program ([src/examples/basic/main.go])

    It opens a database, inserts a row, reads it back and prints it. [log.Fatal]
    ends the process without the deferred [Close]. *)
From S2P Require Import Prelude OrderedMap Page BufferPool Pager BTree Wal Record Store StoreInv StoreProofs StoreSpec StoreRecovery Value Text RowCodec Table StoreContract StoreReopen TableInv TableProofs TableSpec TableOpen TableChange Backup Restart.

Definition basicSchema : Schema := MkSchema [MkCol (of_string "id") IntType; MkCol (of_string "name") StringType] ∅.
Definition ada : Row := list_to_map [(of_string "id", VInt 1); (of_string "name", VString (of_string "Ada"))].

Section basic.
Context `{Codec : IndexCodec} `{Fmt : Formats}.

Definition basicMain : M Files Row := fun f =>
  match Open f with
  | (Ok store, f) =>
      match NewTable (Some store) basicSchema with
      | Ok table =>
          match (_ ← Insert (of_string "1") ada; Get (of_string "1")) table with
          | (Ok (Some row), t) => (Ok row, files_of (tstore (Table.Close t).2))
          | (Ok None, t) => (Err (Errorf "<nil>" []), files_of (tstore t))
          | (Err err, t) => (Err err, files_of (tstore t))
          | (Panic, t) => (Panic, files_of (tstore (Table.Close t).2))
          | (NoFuel, t) => (NoFuel, files_of (tstore t))
          end
      | Err err => (Err err, f)
      | Panic => (Panic, f)
      | NoFuel => (NoFuel, f)
      end
  | (Err err, f) => (Err err, f)
  | (Panic, f) => (Panic, f)
  | (NoFuel, f) => (NoFuel, f)
  end.

(** the example prints the row it inserts, on a new database and on one that it has
    filled before, and leaves files that hold the row. *)
Theorem basic_prints {Gob : IndexCodecLaws} (f : Files) (t : Table) (T : rowmap) (n : Z)
  (Ht : OpenTable basicSchema f = (Ok t, files_of (tstore t))) (Hh : holds (n + 1) t (basicSchema, T)) (Hn : 0 <= n) :
  exists f' t', basicMain f = (Ok ada, f') /\ OpenTable basicSchema f' = (Ok t', files_of (tstore t')) /\
    holds n t' (basicSchema, <[of_string "1" := ada]> T).
Proof.
  destruct Hh as (st&Hs&Hsc&Hb). cbn [fst snd] in *. unfold OpenTable in Ht. unfold basicMain. destruct (Open f) as [[s| | |] f1]; try done.
  destruct (NewTable (Some s) basicSchema) as [t0| | |]; try done. injection Ht as -> _.
  destruct (Insert_spec store_reads durable t st T (of_string "1") ada Hs) as (t1&st1&E1&Hs1&Hsc1&Hg).
  - rewrite Hsc. apply writable_b_ok. vm_compute. reflexivity.
  - lia.
  - rewrite Hsc in *. assert (spec_insert basicSchema (of_string "1") ada T = (Ok tt, <[of_string "1" := ada]> T)) as Ei.
    { unfold spec_insert. assert (exists b, encode basicSchema ada = Ok b) as [b ->] by (eexists; vm_compute; reflexivity).
      change (Ok b ≫= ?f) with (f b). cbn beta. unfold check. rewrite (proj2 (list_find_None _ _)); [done|].
      repeat constructor; intros [Hu _]; vm_compute in Hu; discriminate. }
    rewrite Ei in *. cbn [fst snd] in *. rewrite (bind_ok _ _ _ _ _ E1), (Table_Get_spec store_reads t1 _ _ _ (proj2 Hs1)), lookup_insert_eq.
    destruct (table_reopens n t1 (basicSchema, <[of_string "1" := ada]> T)) as (t2&t3&Ec&_&Eo&Hh).
    + exists st1. unfold grown in Hg. split_and!; [done|done|lia].
    + done.
    + rewrite Ec. exists (files_of (tstore t2)), t3. split; [reflexivity|]. split; [exact Eo|exact Hh].
Qed.
End basic.
