(* ===== verification/ServerRuns.v ===== *)
(** * Runs of the server and of the seed file *)
From S2P Require Import Prelude OrderedMap BTree Wal Record Store StoreInv StoreProofs StoreSpec Value Text RowCodec Table StoreContract StoreReopen TableInv TableProofs TableSpec TableOpen TableChange Catalog Backup SqlLex SqlParse SqlEval SqlQuery SqlExec SqlTx SqlRollback SqlSpec SqlBatch SqlSchema SqlScripts SqlExample SqlRuns Server ServerProofs ServerSpec Cli Startup Restart Lives EndToEnd.

#[local] Existing Instance AsciiText.
#[local] Existing Instance PlainFormats.
#[local] Existing Instance demo_syntax.

(** A stand-in for JSON and SHA-256: credentials are the user and the password with a
    space between them, or between the other parts of the client's line, a request is
    its text, a digest the text itself. *)
#[local] Instance PlainNet : GoNet := {|
  json_auth b := match Split b Byte.x20 with [u; p] | [_; u; _; p; _] => Ok (u, p) | _ => Err EOF end;
  json_request b := Ok (drop 1 b);
  json_time _ _ := true;
  Sum256 b := b
|}.

Definition ev (i : nat) (line : string) : nat * option bytes := (i, Some (of_string line)).

(** ** Credentials *)

Lemma auth_gate_witness :
  exists s s', NewWithAuth (Some fresh_db) (of_string "root") (of_string "secret") = Ok s /\
    deliver_all [ev 0 "root guess"; ev 1 "DROP TABLE t"; ev 0 "BEGIN"; (1%nat, None); ev 2 ""] (accept_all 3 s) = Some s' /\ world s' = fresh_db /\
    map_Forall (fun _ c => cTx c = None /\ cPhase c <> Serving /\ (cOut c = [] \/ cOut c = [failed])) (conns s').
Proof.
  destruct (auth_gate fresh_db (of_string "root") (of_string "secret") 3 [ev 0 "root guess"; ev 1 "DROP TABLE t"; ev 0 "BEGIN"; (1%nat, None); ev 2 ""]
    (MkServer fresh_db (of_string "root") (of_string "secret") false false ∅)) as (s'&E&Hw&Ho).
  - reflexivity.
  - repeat constructor; try lia; intros u p E; vm_compute in E; try discriminate; injection E as <- <-; intros [_ E]; discriminate.
  - eexists _, s'. split; [reflexivity|]. split; [exact E|]. split; [exact Hw|exact Ho].
Defined.

(** ** Two connections *)

Definition served (l : list (nat * option bytes)) : option Server :=
  s ← (match New (Some fresh_db) with Ok s => Some s | _ => None end); deliver_all l (accept_all 2 s).
(** The rows of the responses to a connection. *)
Definition rows_of (c : Conn) : list (list Row) := rRows <$> omap id (cOut c).
Definition seen_by (i : nat) (o : option Server) : list (list Row) := match o ≫= fun s => conns s !! i with Some c => rows_of c | None => [] end.

Definition setup : list (nat * option bytes) :=
  [ev 0 "CREATE TABLE t (name STRING)"; ev 0 "INSERT INTO t (name) VALUES ('a')"; ev 1 "BEGIN"].

Definition two_clients : Server := default (MkServer fresh_db [] [] false false ∅) (served setup).
Definition client (i : nat) : Conn := default (MkConn Login None []) (conns two_clients !! i).

Lemma connections_isolated_witness :
  exists s' c', deliver 1 (Some (of_string "INSERT INTO t (name) VALUES ('b'); SELECT * FROM t")) two_clients = Some s' /\
    conns s' = <[1%nat:=c']> (conns two_clients) /\ is_Some (cTx c') /\ tabs (world s') = tabs (world two_clients).
Proof.
  apply (connections_isolated two_clients 1 (client 1) (of_string "INSERT INTO t (name) VALUES ('b'); SELECT * FROM t")
    (of_string "INSERT INTO t (name) VALUES ('b'); SELECT * FROM t") (parsed <$> ["INSERT INTO t (name) VALUES ('b')"; "SELECT * FROM t"]%string)).
  - split; vm_compute; reflexivity.
  - vm_compute. reflexivity.
  - vm_compute. reflexivity.
  - apply (bool_decide_eq_true_1 _). vm_compute. reflexivity.
  - split; [vm_compute; discriminate|]. split; [vm_compute; reflexivity|vm_compute; discriminate].
  - vm_compute. reflexivity.
  - repeat constructor.
Defined.

Lemma requests_answered_witness :
  let r := answer_to two_clients (client 0) (of_string "SELECT * FROM t") in
  exists s' c', deliver 0 (Some (of_string "SELECT * FROM t")) two_clients = Some s' /\ conns s' = <[0%nat:=c']> (conns two_clients) /\
    cPhase c' = Serving /\ mu s' = false /\ crashed s' = false /\ cOut c' = cOut (client 0) ++ [if marshals r then Some r else None].
Proof.
  apply (requests_answered two_clients 0 (client 0) (of_string "SELECT * FROM t")).
  - split; vm_compute; reflexivity.
  - vm_compute. reflexivity.
  - vm_compute. reflexivity.
  - vm_compute. discriminate.
  - vm_compute. exact I.
  - intros query E. injection E as <-. vm_compute. exact I.
Defined.

(** A server with a user, and three clients, of which one has the wrong password. *)
Definition guarded : Server :=
  accept_all 3 (MkServer (NewExecutorWithCatalog [] ∅ (Some example_catalog) [of_string "/tmp/go-db-table-1"]) (of_string "root") (of_string "secret") false false ∅).
Definition guarded_events : list (nat * option bytes) :=
  [ev 0 "root secret"; ev 1 "root guess"; ev 2 "root secret"; ev 0 "CREATE TABLE t (name STRING UNIQUE)"; ev 2 "INSERT INTO t (name) VALUES ('a')"; ev 1 "DROP TABLE t";
   ev 0 "INSERT INTO t (name) VALUES ('b'); INSERT INTO t (name) VALUES ('a')"; ev 2 "  "; ev 0 "{SELECT * FROM t"; (0%nat, None); ev 2 "{"].

Lemma server_refines_database_witness :
  let V := MkService (conns guarded) (MkSql ∅ None [of_string "/tmp/go-db-table-1"]) in
  exists s' n', NewWithAuth (Some (world guarded)) (of_string "root") (of_string "secret") = Ok (MkServer (world guarded) (Username guarded) (passwordHash guarded) false false ∅) /\
    deliver_all guarded_events guarded = Some s' /\ conns s' = sv_conns (spec_events (authenticates guarded) guarded_events V) /\
    server_sim s' (spec_events (authenticates guarded) guarded_events V) n'.
Proof.
  cbn zeta. destruct (server_refines_database guarded_events guarded (MkService (conns guarded) (MkSql ∅ None [of_string "/tmp/go-db-table-1"])) 1000) as (s'&n'&H).
  - split; [apply (sql_sim_new None [of_string "/tmp/go-db-table-1"] 1000); lia|apply map_Forall_empty|reflexivity| |split; reflexivity].
    cbn [sv_conns guarded accept_all accept set_conn conns]. repeat apply map_Forall_insert_2; try apply map_Forall_empty; (split; [reflexivity|vm_compute; discriminate]).
  - apply events_check_ok. vm_compute. reflexivity.
  - exists s', n'. split; [reflexivity|exact H].
Defined.

(** ** Three lives *)

Definition line (i : nat) (l : string) : net_event := Sent i (Some (of_string l)).
Definition life_args : list bytes := of_string <$> ["--db"; "data/x.db"; "-user=root"; "--password"; "secret"]%string.
Definition life_options : serverOptions :=
  MkOptions (of_string "data/x.db") (of_string ":5433") (of_string "seed.sql") (of_string "root") (of_string "secret").
Definition life_temps : list bytes := of_string <$> ["/tmp/go-db-table-1"; "/tmp/go-db-table-2"]%string.
Definition example_lives : list life :=
  [MkLife (Some (of_string "CREATE TABLE t (name STRING UNIQUE); INSERT INTO t (name) VALUES ('a');"))
     [Accepted 0; Accepted 1; line 0 "root secret"; line 1 "root guess"; line 0 "INSERT INTO t (name) VALUES ('b')"; AcceptFailed; line 0 "INSERT INTO t (name) VALUES ('a')"];
   MkLife (Some (of_string "ALTER TABLE t ADD COLUMN age INT; CREATE TABLE u (n INT)"))
     [Accepted 0; line 0 "root secret"; line 0 "UPDATE t SET age = 7 WHERE name = 'b'"; line 0 "SELECT * FROM t"; Sent 0 None];
   MkLife None [Accepted 3; line 3 "root secret"; line 3 "SELECT name FROM t WHERE age = 7"; line 3 "SHOW TABLES"]].

Lemma server_survives_restarts_witness :
  exists d' n', run_lives life_args (of_string "seed.sql") example_lives life_temps (MkDisk ∅ ∅ ∅) = (Ok (spec_lives life_options example_lives (nothing life_temps)).1, d') /\
    rests life_options d' (spec_lives life_options example_lives (nothing life_temps)).2 n'.
Proof.
  apply (server_survives_restarts life_args life_options example_lives life_temps 1000).
  - vm_compute. reflexivity.
  - split; discriminate.
  - apply (bool_decide_eq_true_1 (NoDup _)). vm_compute. reflexivity.
  - apply (bool_decide_eq_true_1 (_ ∉ _)). vm_compute. reflexivity.
  - split; [apply (bool_decide_eq_true_1 (_ ∉ _)); vm_compute; reflexivity|discriminate].
  - lia.
  - apply lives_check_ok. vm_compute. reflexivity.
Defined.

(** ** A client *)

Definition spaced (b : bytes) : bytes := of_string " " ++ b ++ of_string " ".
Definition client_args : list bytes := of_string <$> ["-user"; "root"; "-password=secret"]%string.
Definition client_options : clientOptions := MkClient (of_string ":5433") (of_string "root") (of_string "secret").
Definition typed : list bytes :=
  of_string <$> ["CREATE TABLE t (name STRING UNIQUE);"; "INSERT INTO t (name) VALUES ('a');"; "INSERT INTO t (name) VALUES ('a');"; "SELECT * FROM t;"; "SELECT;"]%string.

Lemma typed_lines : Forall one_line typed.
Proof.
  repeat constructor; try (apply (bool_decide_unpack _); vm_compute; exact I); try (vm_compute; reflexivity); try (vm_compute; discriminate).
Qed.

Lemma encodable_check xs : forallb (fun x : answer => ok_or_err_b x && marshals (response x)) xs = true -> Forall encodable xs.
Proof.
  rewrite forallb_forall, Forall_forall. intros H x Hx%list_elem_of_In. apply H, andb_true_iff in Hx as [H1 H2]. split; [by apply ok_or_err_b_ok|done].
Qed.

Lemma client_sees_database_witness :
  let W := MkSql ∅ None [of_string "/tmp/go-db-table-1"] in
  exists w ps, sqlCommand spaced (send 0) (receive id 0) client_args None typed (guarded, 0%nat) = (Ok (Greeting (of_string ":5433") :: transcript ps), w) /\
    Forall2 (fun x p => printResponse (response x) = Ok p) (spec_requests typed W).1 ps.
Proof.
  cbn zeta. apply (client_sees_database spaced id client_args client_options 0 typed guarded
    (MkService (conns guarded) (MkSql ∅ None [of_string "/tmp/go-db-table-1"])) 1000 (MkConn Login None [])).
  - vm_compute. reflexivity.
  - split; [apply (sql_sim_new None [of_string "/tmp/go-db-table-1"] 1000); lia|apply map_Forall_empty|reflexivity| |split; reflexivity].
    cbn [sv_conns guarded accept_all accept set_conn conns]. repeat apply map_Forall_insert_2; try apply map_Forall_empty; (split; [reflexivity|vm_compute; discriminate]).
  - vm_compute. reflexivity.
  - split; [reflexivity|]. right. split; [discriminate|]. split; [discriminate|]. split; [reflexivity|]. split.
    + split; [apply (bool_decide_unpack _); vm_compute; exact I|split; [vm_compute; discriminate|vm_compute; reflexivity]].
    + split; [vm_compute; reflexivity|]. split; [vm_compute; exact I|reflexivity].
  - exact typed_lines.
  - apply requests_check_ok. vm_compute. reflexivity.
  - apply encodable_check. vm_compute. reflexivity.
Defined.

Definition one_client (t : Table) : Server := MkServer (one_table t) [] [] false false {[0%nat := MkConn Serving (Some (example_tx t)) []]}.

Lemma disconnect_rolls_back_witness :
  exists t s', deliver 0 None (one_client t) = Some s' /\ conns s' !! 0%nat = Some (MkConn Closed None []) /\ mu s' = false /\
    same_elsewhere (txTables (example_tx t)) (world (one_client t)) (world s') /\
    each_table (fun st tb => Scan tb = (Ok (tsRollback st), tb)) (txTables (example_tx t)) (world s').
Proof.
  destruct example_table as (t&st&Hts&Hsc&Hn&Hr&_). exists t.
  apply (disconnect_rolls_back (fun _ => people_relation) (one_client t) 0 (MkConn Serving (Some (example_tx t)) []) (example_tx t)).
  - split; reflexivity.
  - reflexivity.
  - reflexivity.
  - reflexivity.
  - apply NoDup_singleton.
  - exact (example_resettable t st (one_table t) Hts Hsc Hn Hr eq_refl).
Defined.

(** [ROLLBACK] destroys the work of others: a connection that began a transaction
    and only read rolls back, or just goes away, and a row that another connection
    inserted in the meantime is gone. *)
Theorem rollback_destroys_others :
  let after end_ := seen_by 0 (served (setup ++ [ev 1 "SELECT name FROM t"; ev 0 "INSERT INTO t (name) VALUES ('b')"; ev 0 "SELECT name FROM t"; end_; ev 0 "SELECT name FROM t"])) in
  let expected := [[]; []; []; [col "name" (str "a"); col "name" (str "b")]; [col "name" (str "a")]] in
  after (ev 1 "ROLLBACK") = expected /\ after (1%nat, None) = expected.
Proof. cbn zeta. split; apply (bool_decide_eq_true_1 _); vm_compute; reflexivity. Qed.

(** A table of floats with two rows that hold the largest one. *)
Definition huge_sum : option Server :=
  match OpenTable (MkSchema [MkCol (of_string "id") IntType; MkCol (of_string "x") FloatType] ∅) fresh_files with
  | (Ok t, _) =>
      let row i : Row := list_to_map [(of_string "id", VInt i); (of_string "x", VFloat 0x7FEFFFFFFFFFFFFF)] in
      match (_ ← Table.Insert (of_string "1") (row 1); Table.Insert (of_string "2") (row 2)) t with
      | (Ok _, t) => match New (Some (NewExecutor [(t, of_string "t.db")] {[of_string "t" := 0%nat]} [])) with Ok s => Some s | _ => None end
      | _ => None
      end
  | _ => None
  end.

(** a result that JSON cannot express is lost: the sum overflows to infinity, the server
    ignores the error of [json.Marshal] and writes an empty line, so a client that
    decodes JSON waits for ever, while the answers before and after arrive. *)
Theorem infinite_sum_unanswered :
  (match huge_sum ≫= fun s => deliver_all [ev 0 "SELECT COUNT(*) FROM t"; ev 0 "SELECT SUM(x) FROM t"; ev 0 "SHOW TABLES"] (accept_all 1 s) ≫= fun s => conns s !! 0%nat with
   | Some c => (fun r => match r with Some r => OK r | None => false end) <$> cOut c
   | None => []
   end) = [true; false; true].
Proof. vm_compute. reflexivity. Qed.

(** a statement that panics stops the server: inside a transaction the mutex stays
    held and no query of any connection is answered any more; outside one the whole
    process ends. *)
Theorem panic_stops_server :
  let bad i := ev i "SELECT * FROM t LIMIT ?" in
  (match served (setup ++ [bad 1%nat]) with Some s => (mu s, crashed s) | None => (false, false) end) = (true, false) /\
  served (setup ++ [bad 1%nat; ev 0 "SELECT name FROM t"]) = None /\
  (match served (setup ++ [bad 0%nat]) with Some s => crashed s | None => false end) = true.
Proof. cbn zeta. split_and!; vm_compute; reflexivity. Qed.

(** tables created or dropped over TCP are not recorded in the catalog: the
    executor of a connection has none, so the server forgets them when it restarts. *)
Theorem server_forgets_tables :
  let e := NewExecutorWithCatalog [] ∅ (Some (MkCatalog (MkCatFile None None) ∅)) [of_string "/tmp/go-db-table-1"] in
  let s := match New (Some e) with Ok s => deliver_all [ev 0 "CREATE TABLE t (name STRING)"] (accept_all 1 s) | _ => None end in
  (match s with Some s => (bool_decide (is_Some (Tables (world s) !! of_string "t")), Entries <$> catalog (world s)) | None => (false, None) end) = (true, Some []) /\
  (match Execute (of_string "CREATE TABLE t (name STRING)") e with (Ok (_, None), e) => length ∘ Entries <$> catalog e | _ => None end) = Some 1%nat.
Proof. cbn zeta. split; vm_compute; reflexivity. Qed.

(** the seed file is cut at every semicolon: a script whose string literal contains
    one is accepted as a request and rejected as a seed file. *)
Theorem seed_splits_strings :
  let text := of_string "CREATE TABLE t (name STRING); INSERT INTO t (name) VALUES ('a;b')" in
  outcome_seen (Execute text fresh_db).1 = Some ([], 1) /\ is_ok (runSeed (Content text) fresh_db).1 = false.
Proof. cbn zeta. split; vm_compute; reflexivity. Qed.

(** ** Starting and backing up *)

(** The seed file of the repository. *)
Definition shipped_seed : bytes :=
  Join (of_string <$> ["-- Edit this file to add rows loaded when the server starts."; "-- The default schema is users(id INT, name STRING, active BOOL).";
                       "INSERT INTO users (id, name, active) VALUES (1, 'Ada', true);"; "INSERT INTO users (id, name, active) VALUES (2, 'Bob', false);"; ""]%string) [Byte.x0a].

(** the server does not start with the seed file of the repository: no code creates
    the table that it fills. *)
Theorem shipped_seed_fails :
  (serverCommand [] life_temps None [] (MkDisk {[of_string "seed.sql" := shipped_seed]} ∅ ∅)).1 =
  Err (fatalError (of_string "running seed file") (Errorf "statement %d: %w" [AInt 1; AErr (Errorf "unknown table %q" [AStr (of_string "users")])])).
Proof. vm_compute. reflexivity. Qed.

(** a seed file that creates a table works once: the catalog remembers the table, and
    the next start with the same file fails. *)
Theorem seed_creates_once :
  let d := MkDisk {[of_string "seed.sql" := of_string "CREATE TABLE t (name STRING)"]} ∅ ∅ in
  let first := serverCommand [] life_temps None shutdown_events d in
  is_ok first.1 = true /\
  (serverCommand [] (tail life_temps) None shutdown_events first.2).1 =
    Err (fatalError (of_string "running seed file") (Errorf "statement %d: %w" [AInt 1; AErr (Errorf "table %q already exists" [AStr (of_string "t")])])).
Proof. cbn zeta. split; vm_compute; reflexivity. Qed.

Definition answers (o : outcome (list (gmap nat Conn))) : option (list (list Row)) :=
  match o with Ok l => Some (concat ((fun m : gmap nat Conn => match m !! 0%nat with Some c => rows_of c | None => [] end) <$> l)) | _ => None end.

(** a backup does not hold the rows of SQL tables: they are in temporary files, of
    which the backup copies only the names. A row that is deleted after the backup is
    not there after restoring it. *)
Theorem backup_misses_tables :
  let run l := run_lives [] (of_string "seed.sql") [l] life_temps in
  let db := of_string "db/go-db.db" in
  let copy := of_string "db/go-db.backup" in
  let fill := MkLife (Some (of_string "CREATE TABLE t (name STRING); INSERT INTO t (name) VALUES ('a')")) [Accepted 0; line 0 "SELECT name FROM t"] in
  let empty := MkLife None [Accepted 0; line 0 "DELETE FROM t"] in
  let look := MkLife None [Accepted 0; line 0 "SELECT name FROM t"] in
  let session := (x ← run fill; _ ← Backup db copy; _ ← run empty; _ ← Restore copy db; y ← run look; mret (x ++ y)) in
  answers (session (MkDisk ∅ ∅ ∅)).1 = Some [[col "name" (str "a")]; []].
Proof. cbn zeta. apply (bool_decide_eq_true_1 _). vm_compute. reflexivity. Qed.
